(* ===== verification/_CoqProject ===== *)
-Q . S2P
Prelude.v
GoStrings.v
GoText.v
GoPath.v
Filter.v
GoNet.v
GoNetFacts.v
GoNetMask.v
GoHostPort.v
Metrics.v
IPPool.v
PoolInv.v
PoolOps.v
PoolReach.v
PoolPrune.v
PoolSpec.v
PoolConv.v
PoolClock.v
PoolRange.v
PoolAlloc.v
Domains.v
DomainFacts.v
DomainText.v
IPNets.v
IPTrie.v
IPNetFacts.v
Sync.v
SyncFacts.v
SyncData.v
SyncInv.v
Shutdown.v
ShutdownFacts.v
Discovery.v
Proxy.v
ProxyFacts.v
Nft.v
NftFacts.v
Config.v
ConfigFacts.v
Updater.v
UpdaterFacts.v
Compile.v
CompileFacts.v
CompileFrame.v
Fingerprints.v
Replace.v
CompileSteps.v
Rules.v
RulesFacts.v
DenyFacts.v
Host.v
Engine.v
EngineFacts.v
UpdaterLoop.v
Watch.v
WatchFacts.v
UpdaterLoopFacts.v
Export.v
Logger.v
Lifecycle.v
CompileTotal.v
Report.v
