(* ===== verification/Prelude.v ===== *)
(** * NextPATH: a verification development

    NextPATH is a DNS-based router.  A DNS proxy replaces the real addresses of
    the answers it forwards by Fake-IPs from a pool of its own; the packet filter
    of the host translates a Fake-IP back to the address it stands for; the nodes
    of a cluster exchange their mappings; a compiler turns lists of domains and
    networks into the zones and routes that decide what goes this way; an updater
    keeps the compiled lists current.  This library models these parts, from the
    Go sources under src/, as executable functions on explicit states, and proves
    what makes them correct.  It is built on the Standard Library and stdpp.

    ** The parts and their files

    - _Go's library_, as far as the sources use it.  [Prelude] (this file):
      integers of 32 and 64 bits as [Z] with wrap-around, bytes, comparisons;
      [GoStrings], [GoText]: strings as bytes, decimal numbers, trimming,
      splitting, lower case; [GoPath]: path/filepath; [GoNet], [GoNetFacts],
      [GoNetMask], [GoHostPort]: net.IP, netip addresses and their text, masks,
      networks, host:port.
    - _The Fake-IP pool_ (internal/dnsengine/ippool.go).  [IPPool]: 64 shards,
      the global maps, the logical clock, and every operation as a function on the
      state, one per critical section.  [PoolInv], [PoolOps], [PoolReach]: the
      invariant, its preservation and reachability by interleaved critical
      sections.  [PoolSpec]: an abstract pool (one map) and the refinement of
      AddMapping, RemoveMapping and PruneExpired.  [PoolPrune]: pruning and its
      worker.
      [PoolConv]: replication and convergence of updates.  [PoolClock]: versions.
      [PoolRange]: Fake-IPs lie in the reported network.  [PoolAlloc]: allocation
      for a whole answer, its rollback, and when it cannot fail.
    - _Metrics_ (metrics.go).  [Metrics]: the counters; [Export]: the page a
      scraper reads and the address it is served at.
    - _The DNS proxy_ (proxy.go).  [Proxy]: the handler from the question to the
      rewritten answer and what it publishes; [ProxyFacts].
    - _Synchronisation_ (sync.go).  [Sync]: handshake, connection table and its
      tie-breaker, write queues, snapshots, introductions, discovery, TLS
      decisions, on connections that live in a heap shared by the goroutines.
      [SyncFacts]: connections and authentication; [SyncData]: what is exchanged;
      [SyncInv]: the invariant of a running node.  [Shutdown], [ShutdownFacts]:
      its goroutines, wait groups and Close.  [Discovery]: its own addresses, its
      certificate, the rounds of discovery.
    - _The packet filter_ (internal/netlink/nftables.go).  [Nft]: the queue and
      its batch worker, deny sets, recovery; [NftFacts].  [Rules]: the ruleset of
      InitStructure, its input chain as data with its text; [RulesFacts].
      [DenyFacts]: the deny list from the compiler to the packet filter.
    - _The list compiler_ (internal/parser).  [Filter]: the casino filter
      (filter.go) with matching by derivatives.  [Domains], [DomainFacts],
      [DomainText]: lines, normalisation, collapsing, zones.  [IPNets], [IPTrie],
      [IPNetFacts]: prefixes, aggregation, route and deny lists; the netipx
      package is the class [IPSetLib] with the laws [IPSetLaws], which the trie of
      [IPTrie] satisfies.  [Compile], [CompileFacts]: downloads, cache,
      fingerprints and CompileLists as a whole; [CompileFrame], [Fingerprints]: what
      a run leaves alone, and that results belong to their fingerprints.
      [Replace]: the single steps in which a list is written and put in place; [CompileSteps]: a run as the
      sequence of all its writes, with the outcome of CompileLists.  [Report]: the
      counts it reports at the end.  [CompileTotal]: every run returns; the
      command-line compiler.
    - _The programs_ (cmd/nextpath-engine/main.go, cmd/nextpath-compiler/main.go).
      [Config], [ConfigFacts]: environment, modes, pool configuration, schedule,
      watcher.  [Updater], [UpdaterFacts]: polling and unpacking remote lists.
      [Host]: the health check and the resolver's cache.
      [Engine], [EngineFacts]: the start of the engine and its run, in which proxy,
      synchronisation and packet filter work on one pool.  [Watch], [WatchFacts]:
      the watcher that reloads the lists while the compiler writes them.
      [UpdaterLoop], [UpdaterLoopFacts]: the updater's polls one after the other,
      compiling or fetching, beside the watcher.
      [Lifecycle]: the proxy's servers, the end of the process.
    - _The log_ (internal/logger).  [Logger]: its levels and lines.

    ** What the theorems show

    Pool: for real addresses of 4 or 16 bytes, which the receive path of the code
    does not enforce, the two directions of the mapping stay inverse under every
    interleaving, no Fake-IP is shared, the operations refine the abstract pool,
    allocation maps every address of an answer and reports what is new, or takes
    everything back; until the 64-bit counter ends new versions exceed all the
    node knows, snapshots and updates contesting a free Fake-IP converge, and
    Fake-IPs stay in the configured network (with the provisos of
    [configured_fakes_in_net]).  Proxy: a client sees Fake-IPs only, apart from
    0.0.0.0, :: and IPv4-mapped IPv6 addresses; a failed request leaves nothing
    behind; what is published agrees with the pool.  Synchronisation: only
    authenticated nodes with the same networks enter the table, crossing
    connections are resolved alike on both sides, the table stays sound and, once
    Close has closed it, closed, a cold node ends with its peer's mappings, a
    round of discovery dials exactly the peers that are wanted, and Close returns
    and leaves neither a goroutine nor an open connection behind.  Packet filter:
    every accepted mapping is answered unless the client is closed first, and what
    the answer means; a restart recovers one Fake-IP for every real address of the
    kernel's maps, the deny list arrives unchanged, the input chain admits whom it
    should (IPv6 packets being judged when IPv6 is on).  Compiler: collapsing and
    zones keep the meaning of the lists, route lists hold what is included and
    neither excluded nor denied, aggregation ends and so does every run, names are
    safe in a zone file, skipping a compilation is sound as far as fingerprints
    tell inputs apart, and no reader ever sees half a list.  Updater: an archive
    cannot write outside its directory, lists are replaced whole (the file of
    validators is written in place), and a poll that succeeds brings the engine up
    to date whatever became of the ones before.  Engine: whatever an engine has
    recovered, answered and received, what its proxy announces is taken over by
    every peer it has shaken hands with; and what the compiler has written comes
    into force in the running engine, however its writes and the reads of the
    watcher interleave, and whatever the packet filter refused before, as far as
    the code tries again.

    Theorems that end a file without being about correctness in general record,
    on concrete inputs, where the code does something else than it means to.

    ** Conventions

    A goroutine is modelled between two blocking operations or by the critical
    section it holds a lock for; runs are interleavings of such steps (inductive
    step relations and [rtc]).  Clock readings, random choices, network replies
    and failing system calls are arguments.  Code outside the repository (the DNS
    library, netlink, nft, netipx, idna, TLS, hash functions, gzip) is a parameter
    or a class with laws that state its documented behaviour; each theorem that
    uses such laws has a witness with a concrete instance.

    Recursion is structural except in a few loops with fuel: the digits of a
    number ([dec_go], one step per bit), trimming and splitting at spaces (one per
    byte), reading the casino pattern (one per byte), cutting bits into bytes, the
    probing loop of the pool (its own bound), the wait for the lists, and the
    aggregation of prefixes (130 rounds; each lowers the longest prefix
    length, so 129 suffice, which [aggregatePrefixes_ends] proves).

    ** Not modelled

    Sockets, TLS, gob and HTTP as such; the DNS wire format; how the runtime
    delivers signals and timer ticks (they are steps that may happen); the texts
    of most log lines; file permissions and directories beyond their paths. *)

From Stdlib Require Import ZArith Lia.
From Stdlib Require Strings.Byte Ascii String.
From stdpp Require Import prelude gmap strings sorting.

#[export] Set Default Goal Selector "!".
#[export] Set Warnings "-clear-no-such-hyp".

Open Scope Z_scope.

(** ** Machine integers: Go's [uint32] and [uint64] as [Z] with wrap-around *)

Definition w32 (z : Z) : Z := z mod 2 ^ 32.
Definition w64 (z : Z) : Z := z mod 2 ^ 64.

Declare Scope go_scope.
Delimit Scope go_scope with go.
Notation "x +32 y" := (w32 (x + y)) (at level 50, left associativity) : go_scope.
Notation "x -32 y" := (w32 (x - y)) (at level 50, left associativity) : go_scope.
Notation "x *32 y" := (w32 (x * y)) (at level 40, left associativity) : go_scope.
Notation "x +64 y" := (w64 (x + y)) (at level 50, left associativity) : go_scope.
Open Scope go_scope.

Definition is_u32 (z : Z) : Prop := 0 ≤ z < 2 ^ 32.
Definition is_u64 (z : Z) : Prop := 0 ≤ z < 2 ^ 64.

(** ** Bytes *)

#[export] Instance byte_eq_decision : EqDecision Byte.byte := Byte.byte_eq_dec.

Definition Z_of_byte (b : Byte.byte) : Z := Z.of_N (Byte.to_N b).

(** Go's conversion [byte(x)]: truncation to the low eight bits. *)
Definition byte_of_Z (z : Z) : Byte.byte :=
  match Byte.of_N (Z.to_N (z mod 256)) with
  | Some b => b
  | None => Byte.x00
  end.

#[export] Program Instance byte_countable : Countable Byte.byte :=
  inj_countable' Byte.to_N (λ n, default Byte.x00 (Byte.of_N n)) _.
Next Obligation. intros b. cbn. by rewrite Byte.of_to_N. Qed.

(** ** Comparison functions: lexicographic order on lists *)

(** What the development needs of a three-way comparison. *)
Class CmpOrder {A : Type} (cmp : A → A → comparison) : Prop := {
  cmp_eq_iff : ∀ x y, cmp x y = Eq ↔ x = y;
  cmp_antisym : ∀ x y, cmp y x = CompOpp (cmp x y);
  cmp_lt_trans : ∀ x y z, cmp x y = Lt → cmp y z = Lt → cmp x z = Lt;
}.

Fixpoint lex_cmp {A} (cmp : A → A → comparison) (l k : list A) : comparison :=
  match l, k with
  | [], [] => Eq
  | [], _ :: _ => Lt
  | _ :: _, [] => Gt
  | x :: l', y :: k' =>
      match cmp x y with Eq => lex_cmp cmp l' k' | c => c end
  end.

Definition pair_cmp {A B} (ca : A → A → comparison) (cb : B → B → comparison) (x y : A * B)
    : comparison :=
  match ca x.1 y.1 with Eq => cb x.2 y.2 | c => c end.

Definition byte_cmp (x y : Byte.byte) : comparison := Z_of_byte x ?= Z_of_byte y.

(** [bytes.Compare]. *)
Definition bytes_compare : list Byte.byte → list Byte.byte → comparison :=
  lex_cmp byte_cmp.

(** ** Automation *)

Create HintDb go.
Create Rewrite HintDb go.

(** Split the leftmost [match] or [if] of the goal, remembering the equation. *)
Ltac case_branch :=
  match goal with
  | |- context [match ?x with _ => _ end] =>
      lazymatch x with
      | context [match _ with _ => _ end] => fail
      | _ => destruct x eqn:?
      end
  end.

Ltac unfold_words := unfold w32, w64, is_u32, is_u64 in *.

(** Linear arithmetic after exposing the word operations and [mod]/[div]. *)
Ltac word_lia := unfold_words; Z.to_euclidean_division_equations; lia.

(** ** Lemmas: words *)

Lemma w32_range z : is_u32 (w32 z).
Proof. unfold_words. apply Z.mod_pos_bound. lia. Qed.

Lemma w64_range z : is_u64 (w64 z).
Proof. unfold_words. apply Z.mod_pos_bound. lia. Qed.

Lemma w32_small z : is_u32 z → w32 z = z.
Proof. intros. by apply Z.mod_small. Qed.

Lemma w64_small z : is_u64 z → w64 z = z.
Proof. intros. by apply Z.mod_small. Qed.

#[export] Hint Resolve w32_range w64_range : go.
#[export] Hint Rewrite w32_small w64_small using (unfold_words; lia) : go.

(** ** Lemmas: bytes *)

Lemma Z_of_byte_range b : 0 ≤ Z_of_byte b < 256.
Proof. unfold Z_of_byte. pose proof (Byte.to_N_bounded b). lia. Qed.

Lemma byte_of_Z_of_byte b : byte_of_Z (Z_of_byte b) = b.
Proof.
  unfold byte_of_Z. rewrite Z.mod_small by apply Z_of_byte_range.
  unfold Z_of_byte. by rewrite N2Z.id, Byte.of_to_N.
Qed.

Lemma Z_of_byte_of_Z z : Z_of_byte (byte_of_Z z) = z mod 256.
Proof.
  unfold byte_of_Z. pose proof (Z.mod_pos_bound z 256 ltac:(lia)) as Hz.
  destruct (Byte.of_N (Z.to_N (z mod 256))) as [b|] eqn:E.
  - apply Byte.to_of_N in E. unfold Z_of_byte. rewrite E. lia.
  - apply Byte.of_N_None_iff in E. lia.
Qed.

Lemma Z_of_byte_inj b c : Z_of_byte b = Z_of_byte c → b = c.
Proof. intros H. by rewrite <- (byte_of_Z_of_byte b), H, byte_of_Z_of_byte. Qed.

#[export] Hint Rewrite byte_of_Z_of_byte Z_of_byte_of_Z : go.

(** ** Lemmas: three-way comparisons *)

Section CmpFacts.
Context {A : Type} (cmp : A → A → comparison) `{!CmpOrder cmp}.

Lemma cmp_refl x : cmp x x = Eq.
Proof. by apply cmp_eq_iff. Qed.

Lemma cmp_lt_gt x y : cmp x y = Lt ↔ cmp y x = Gt.
Proof. rewrite (cmp_antisym (cmp:=cmp) x y). destruct (cmp x y); cbn; naive_solver. Qed.

Lemma cmp_le_antisym x y : cmp x y ≠ Gt → cmp y x ≠ Gt → x = y.
Proof.
  rewrite (cmp_antisym (cmp:=cmp) x y). destruct (cmp x y) eqn:E; cbn; [|done..].
  by apply cmp_eq_iff in E.
Qed.

Lemma cmp_le_trans x y z : cmp x y ≠ Gt → cmp y z ≠ Gt → cmp x z ≠ Gt.
Proof.
  intros H1 H2. destruct (cmp x y) eqn:E1; [| |done].
  - apply cmp_eq_iff in E1 as ->. done.
  - destruct (cmp y z) eqn:E2; [| |done].
    + apply cmp_eq_iff in E2 as <-. by rewrite E1.
    + by rewrite (cmp_lt_trans (cmp:=cmp) x y z).
Qed.

Lemma lex_cmp_eq_iff l k : lex_cmp cmp l k = Eq ↔ l = k.
Proof.
  revert k. induction l as [|x l IH]; intros [|y k]; cbn; [done|done|done|].
  destruct (cmp x y) eqn:E.
  - apply cmp_eq_iff in E as ->. rewrite IH. split; [by intros ->|by intros [= ->]].
  - split; [done|]. intros [= -> ->]. by rewrite cmp_refl in E.
  - split; [done|]. intros [= -> ->]. by rewrite cmp_refl in E.
Qed.

Lemma lex_cmp_antisym l k : lex_cmp cmp k l = CompOpp (lex_cmp cmp l k).
Proof.
  revert k. induction l as [|x l IH]; intros [|y k]; cbn; [done..|].
  rewrite (cmp_antisym (cmp:=cmp) x y). by destruct (cmp x y); cbn.
Qed.

Lemma lex_cmp_lt_trans l k m :
  lex_cmp cmp l k = Lt → lex_cmp cmp k m = Lt → lex_cmp cmp l m = Lt.
Proof.
  revert k m. induction l as [|x l IH]; intros [|y k] [|z m]; cbn; [done..|].
  destruct (cmp x y) eqn:E1; [| |done].
  - apply cmp_eq_iff in E1 as ->. destruct (cmp y z); eauto.
  - intros _. destruct (cmp y z) eqn:E2; [| |done].
    + apply cmp_eq_iff in E2 as <-. by rewrite E1.
    + by rewrite (cmp_lt_trans (cmp:=cmp) x y z).
Qed.

#[export] Instance lex_cmp_order : CmpOrder (lex_cmp cmp).
Proof.
  split; [apply lex_cmp_eq_iff|intros; apply lex_cmp_antisym|apply lex_cmp_lt_trans].
Qed.
End CmpFacts.

#[export] Instance pair_cmp_order {A B} (ca : A → A → comparison) (cb : B → B → comparison)
  `{!CmpOrder ca, !CmpOrder cb} : CmpOrder (pair_cmp ca cb).
Proof.
  unfold pair_cmp. split.
  - intros [a b] [a' b']. cbn. destruct (ca a a') eqn:E.
    + apply cmp_eq_iff in E as ->. rewrite cmp_eq_iff. split; [by intros ->|by intros [= ->]].
    + split; [done|]. intros [= -> ->]. by rewrite (cmp_refl ca) in E.
    + split; [done|]. intros [= -> ->]. by rewrite (cmp_refl ca) in E.
  - intros [a b] [a' b']. cbn. rewrite (cmp_antisym (cmp:=ca) a a'), (cmp_antisym (cmp:=cb) b b').
    by destruct (ca a a').
  - intros [a b] [a' b'] [a'' b'']. cbn. destruct (ca a a') eqn:E1; [| |done].
    + apply cmp_eq_iff in E1 as ->. destruct (ca a' a''); eauto using cmp_lt_trans.
    + intros _. destruct (ca a' a'') eqn:E2; [| |done].
      * apply cmp_eq_iff in E2 as <-. by rewrite E1.
      * by rewrite (cmp_lt_trans (cmp:=ca) a a' a'').
Qed.

#[export] Instance Z_compare_order : CmpOrder Z.compare.
Proof.
  split; intros.
  - apply Z.compare_eq_iff.
  - apply Z.compare_antisym.
  - rewrite Z.compare_lt_iff in *. lia.
Qed.

#[export] Instance byte_cmp_order : CmpOrder byte_cmp.
Proof.
  unfold byte_cmp. split; intros.
  - rewrite cmp_eq_iff. split; [apply Z_of_byte_inj|congruence].
  - apply cmp_antisym.
  - by eapply cmp_lt_trans.
Qed.

#[export] Instance bytes_compare_order : CmpOrder bytes_compare.
Proof. apply lex_cmp_order, _. Qed.

(** ** Lemmas: lists updated in place *)

Section ListAlter.
Context {A : Type}.
Implicit Types (l : list A) (i j : nat).

Lemma list_alter_alter (g h : A → A) i l : alter g i (alter h i l) = alter (g ∘ h) i l.
Proof. revert i. induction l; intros [|i]; cbn; f_equal; auto. Qed.

Lemma list_alter_comm (g h : A → A) i j l :
  i ≠ j → alter g i (alter h j l) = alter h j (alter g i l).
Proof. revert i j. induction l; intros [|i] [|j] ?; cbn; f_equal; auto; done. Qed.
End ListAlter.
