(* ===== verification/GoStrings.v ===== *)
(** * Go strings: the functions of [strings] and [strconv] the program uses

    A Go string is a sequence of bytes; it is modelled by [string], whose
    characters are bytes.  This file holds the operations shared by the network
    library model, the list compiler and the configuration code, with their
    lemmas: [strings.HasPrefix], [strings.HasSuffix], [strings.Split],
    [strings.Join], [strconv.Itoa], [strconv.Atoi], [strconv.ParseUint]. *)

From Stdlib Require Import Ascii.
From Stdlib Require String.
From stdpp Require Import prelude strings.
From S2P Require Import Prelude.

#[local] Arguments String.append : simpl nomatch.

(** ** Characters *)

Definition code (c : ascii) : Z := Z.of_N (N_of_ascii c).
Definition char (z : Z) : ascii := ascii_of_N (Z.to_N z).

Definition is_digit (c : ascii) : bool := (48 <=? code c) && (code c <=? 57).

Definition digit_char (d : Z) : ascii := char (48 + d).
Definition hex_char (d : Z) : ascii := if d <? 10 then char (48 + d) else char (87 + d).

(** Value of a hexadecimal digit of either case. *)
Definition hex_val (c : ascii) : option Z :=
  let z := code c in
  if (48 <=? z) && (z <=? 57) then Some (z - 48)
  else if (97 <=? z) && (z <=? 102) then Some (z - 97 + 10)
  else if (65 <=? z) && (z <=? 70) then Some (z - 65 + 10)
  else None.

(** ** Strings as lists of characters *)

Fixpoint chars (s : string) : list ascii :=
  match s with
  | EmptyString => []
  | String c s => c :: chars s
  end.

Fixpoint of_chars (l : list ascii) : string :=
  match l with
  | [] => EmptyString
  | c :: l => String c (of_chars l)
  end.

Definition str_len (s : string) : Z := Z.of_nat (length (chars s)).

Fixpoint has_prefix (s p : string) {struct p} : bool :=
  match p, s with
  | EmptyString, _ => true
  | String c p', String d s' => Ascii.eqb c d && has_prefix s' p'
  | String _ _, EmptyString => false
  end.

Definition str_rev (s : string) : string := of_chars (rev (chars s)).

(** [strings.HasSuffix(s, p)]. *)
Definition has_suffix (s p : string) : bool := has_prefix (str_rev s) (str_rev p).

Fixpoint str_forallb (P : ascii → bool) (s : string) : bool :=
  match s with
  | EmptyString => true
  | String c s => P c && str_forallb P s
  end.

Fixpoint str_existsb (P : ascii → bool) (s : string) : bool :=
  match s with
  | EmptyString => false
  | String c s => P c || str_existsb P s
  end.

(** [strings.IndexByte(s, c) != -1]. *)
Definition contains_char (s : string) (c : ascii) : bool := str_existsb (Ascii.eqb c) s.

(** [strings.Split(s, sep)] for a one-byte separator. *)
Fixpoint split_char (sep : ascii) (s : string) : list string :=
  match s with
  | EmptyString => [EmptyString]
  | String c s' =>
      if Ascii.eqb c sep then EmptyString :: split_char sep s'
      else match split_char sep s' with
           | [] => [String c EmptyString]
           | w :: ws => String c w :: ws
           end
  end.

(** [strings.Join(l, sep)]. *)
Fixpoint join_with (sep : string) (l : list string) : string :=
  match l with
  | [] => EmptyString
  | [w] => w
  | w :: ws => w +:+ sep +:+ join_with sep ws
  end.

(** ** Decimal numbers *)

(** The digits of [n] in front of [acc]; [fuel] bounds the number of digits. *)
Fixpoint dec_go (fuel : nat) (n : Z) (acc : string) : string :=
  match fuel with
  | O => acc
  | S f =>
      let acc' := String (digit_char (n mod 10)) acc in
      if n <? 10 then acc' else dec_go f (n / 10) acc'
  end.

Definition dec_nonneg (n : Z) : string := dec_go (S (Z.to_nat (Z.log2 n))) n EmptyString.

(** [strconv.Itoa], [fmt.Sprintf] of ["%d"]. *)
Definition itoa (n : Z) : string :=
  if n <? 0 then String "-" (dec_nonneg (- n)) else dec_nonneg n.

(** Value of a string of decimal digits, in front of the accumulator. *)
Fixpoint digits_val (s : string) (acc : Z) : option Z :=
  match s with
  | EmptyString => Some acc
  | String c s => if is_digit c then digits_val s (acc * 10 + (code c - 48)) else None
  end.

(** [strconv.ParseUint(s, 10, bits)]. *)
Definition parse_uint (bits : Z) (s : string) : option Z :=
  match s with
  | EmptyString => None
  | _ => match digits_val s 0 with
         | Some v => if v <? 2 ^ bits then Some v else None
         | None => None
         end
  end.

(** [strconv.Atoi] (with a 64-bit [int]). *)
Definition atoi (s : string) : option Z :=
  let bounded (neg : bool) (v : Z) :=
    let r := if neg then - v else v in
    if (- 2 ^ 63 <=? r) && (r <? 2 ^ 63) then Some r else None in
  match s with
  | EmptyString => None
  | String c rest =>
      if Ascii.eqb c "-" then
        match rest with EmptyString => None | _ => v ← digits_val rest 0; bounded true v end
      else if Ascii.eqb c "+" then
        match rest with EmptyString => None | _ => v ← digits_val rest 0; bounded false v end
      else v ← digits_val s 0; bounded false v
  end.

(** The number [strconv.Atoi] returns when its error is ignored: 0 for a
    malformed string, the nearest [int] for one out of range. *)
Fixpoint digits_sat (s : string) (acc : Z) : option Z :=
  match s with
  | EmptyString => Some acc
  | String c s =>
      if is_digit c then
        let n := acc * 10 + (code c - 48) in
        if 2 ^ 64 <=? n then Some (2 ^ 64 - 1) else digits_sat s n
      else None
  end.

Definition atoi_value (s : string) : Z :=
  let value (s : string) := match s with EmptyString => 0 | _ => default 0 (digits_sat s 0) end in
  match s with
  | EmptyString => 0
  | String c rest =>
      if Ascii.eqb c "-" then - Z.min (value rest) (2 ^ 63)
      else if Ascii.eqb c "+" then Z.min (value rest) (2 ^ 63 - 1)
      else Z.min (value s) (2 ^ 63 - 1)
  end.

(** ** Lemmas: characters *)

Lemma code_range c : 0 ≤ code c < 256.
Proof. unfold code. pose proof (N_ascii_bounded c). lia. Qed.

Lemma code_char z : 0 ≤ z < 256 → code (char z) = z.
Proof. intros. unfold code, char. rewrite N_ascii_embedding by lia. lia. Qed.

Lemma is_digit_digit_char d : 0 ≤ d < 10 → is_digit (digit_char d) = true.
Proof. intros. unfold is_digit, digit_char. rewrite code_char by lia. lia. Qed.

Lemma code_digit_char d : 0 ≤ d < 10 → code (digit_char d) = 48 + d.
Proof. intros. apply code_char. lia. Qed.

Lemma hex_val_hex_char d : 0 ≤ d < 16 → hex_val (hex_char d) = Some d.
Proof.
  intros H. unfold hex_val, hex_char.
  destruct (Z.ltb_spec d 10); rewrite code_char by lia; repeat case_match; f_equal; lia.
Qed.

(** ** Lemmas: strings as lists *)

Lemma chars_of_chars l : chars (of_chars l) = l.
Proof. induction l; cbn; congruence. Qed.

Lemma of_chars_chars s : of_chars (chars s) = s.
Proof. induction s; cbn; congruence. Qed.

Lemma chars_inj s t : chars s = chars t → s = t.
Proof. intros H. by rewrite <- (of_chars_chars s), H, of_chars_chars. Qed.

Lemma chars_app s t : chars (s +:+ t) = chars s ++ chars t.
Proof. induction s; cbn; congruence. Qed.

Lemma of_chars_app l k : of_chars (l ++ k) = of_chars l +:+ of_chars k.
Proof. induction l; cbn; congruence. Qed.

Lemma chars_str_rev s : chars (str_rev s) = rev (chars s).
Proof. apply chars_of_chars. Qed.

Lemma str_app_assoc s t u : (s +:+ t) +:+ u = s +:+ (t +:+ u).
Proof. induction s; cbn; congruence. Qed.

Lemma str_app_nil_r s : s +:+ EmptyString = s.
Proof. induction s; cbn; congruence. Qed.

Lemma has_prefix_iff s p : has_prefix s p = true ↔ ∃ t, s = p +:+ t.
Proof.
  revert s. induction p as [|c p IH]; intros s; cbn.
  { split; [intros _; by exists s|done]. }
  destruct s as [|d s]; cbn.
  { split; [done|by intros [t [=]]]. }
  rewrite andb_true_iff, IH, Ascii.eqb_eq. split.
  - intros [-> [t ->]]. by exists t.
  - intros [t [= -> ->]]. eauto.
Qed.

Lemma has_suffix_iff s p : has_suffix s p = true ↔ ∃ t, s = t +:+ p.
Proof.
  unfold has_suffix. rewrite has_prefix_iff. split.
  - intros [t Ht]. exists (str_rev t). apply chars_inj.
    apply (f_equal chars) in Ht. rewrite chars_app, !chars_str_rev in Ht.
    apply (f_equal (@rev _)) in Ht. rewrite rev_involutive, rev_app_distr, rev_involutive in Ht.
    by rewrite chars_app, chars_str_rev, Ht.
  - intros [t ->]. exists (str_rev t). apply chars_inj.
    by rewrite chars_app, !chars_str_rev, chars_app, rev_app_distr.
Qed.

Lemma str_forallb_app P s t :
  str_forallb P (s +:+ t) = str_forallb P s && str_forallb P t.
Proof. induction s; cbn; [done|]. by rewrite IHs, andb_assoc. Qed.

(** ** Lemmas: split and join *)

Lemma split_char_nonempty sep s : split_char sep s ≠ [].
Proof. destruct s; cbn; repeat case_match; done. Qed.

Lemma join_with_cons sep w ws :
  ws ≠ [] → join_with sep (w :: ws) = w +:+ sep +:+ join_with sep ws.
Proof. by destruct ws. Qed.

(** Joining the fields with the separator gives the string back. *)
Lemma join_split sep s : join_with (String sep EmptyString) (split_char sep s) = s.
Proof.
  induction s as [|c s IH]; [done|]. cbn [split_char].
  destruct (Ascii.eqb_spec c sep) as [->|Hne].
  - rewrite join_with_cons by apply split_char_nonempty. by rewrite IH.
  - pose proof (split_char_nonempty sep s) as Hs.
    destruct (split_char sep s) as [|w ws]; [done|].
    destruct ws as [|w' ws]; cbn in *; by rewrite IH.
Qed.

Lemma split_char_app sep w s :
  contains_char w sep = false →
  split_char sep (w +:+ String sep s) = w :: split_char sep s.
Proof.
  induction w as [|c w IH]; cbn; intros H.
  - by rewrite Ascii.eqb_refl.
  - apply orb_false_iff in H as [H1 H2]. rewrite Ascii.eqb_sym in H1. rewrite H1.
    by rewrite IH.
Qed.

Lemma split_char_none sep w : contains_char w sep = false → split_char sep w = [w].
Proof.
  induction w as [|c w IH]; cbn; intros H; [done|].
  apply orb_false_iff in H as [H1 H2]. rewrite Ascii.eqb_sym in H1. by rewrite H1, IH.
Qed.

(** ** Lemmas: decimal numbers *)

Lemma dec_go_app f n acc : dec_go f n acc = dec_go f n EmptyString +:+ acc.
Proof.
  revert n acc. induction f as [|f IH]; intros n acc; [done|]. cbn.
  destruct (n <? 10); [done|].
  rewrite IH, (IH _ (String _ EmptyString)), str_app_assoc. done.
Qed.

Lemma dec_go_digits f n acc :
  str_forallb is_digit acc = true → str_forallb is_digit (dec_go f n acc) = true.
Proof.
  revert n acc. induction f as [|f IH]; intros n acc H; [done|]. cbn.
  assert (is_digit (digit_char (n mod 10)) = true) as Hd
    by (apply is_digit_digit_char, Z.mod_pos_bound; lia).
  destruct (n <? 10); [cbn; by rewrite Hd|].
  apply IH. cbn. by rewrite Hd.
Qed.

Lemma dec_nonneg_digits n : str_forallb is_digit (dec_nonneg n) = true.
Proof. by apply dec_go_digits. Qed.

Lemma dec_nonneg_nonempty n : dec_nonneg n ≠ EmptyString.
Proof.
  unfold dec_nonneg. cbn. case_match; [done|].
  rewrite dec_go_app. by destruct (dec_go _ (n / 10) _).
Qed.

Lemma digits_val_app s t acc v :
  digits_val s acc = Some v → digits_val (s +:+ t) acc = digits_val t v.
Proof.
  revert acc. induction s as [|c s IH]; intros acc; cbn; [by intros [= ->]|].
  destruct (is_digit c); [apply IH|done].
Qed.

Lemma digits_val_dec_go f n :
  0 ≤ n → n < 2 ^ Z.of_nat f → 
  digits_val (dec_go f n EmptyString) 0 = Some n.
Proof.
  revert n. induction f as [|f IH]; intros n H0 Hf.
  - replace n with 0 by (cbn in Hf; lia). done.
  - cbn [dec_go]. pose proof (Z.mod_pos_bound n 10 ltac:(lia)).
    destruct (Z.ltb_spec n 10).
    + cbn. rewrite is_digit_digit_char, code_digit_char by lia.
      rewrite Z.mod_small by lia. f_equal. lia.
    + rewrite dec_go_app. rewrite Nat2Z.inj_succ, Z.pow_succ_r in Hf by lia.
      erewrite digits_val_app by (apply IH; word_lia).
      cbn. rewrite is_digit_digit_char, code_digit_char by lia.
      f_equal. word_lia.
Qed.

Lemma digits_val_dec n : 0 ≤ n → digits_val (dec_nonneg n) 0 = Some n.
Proof.
  intros Hn. apply digits_val_dec_go; [done|].
  destruct (Z.eq_dec n 0) as [->|]; [cbn; lia|].
  rewrite Nat2Z.inj_succ, Z2Nat.id by apply Z.log2_nonneg.
  apply Z.log2_spec. lia.
Qed.

Lemma parse_uint_itoa bits n : 0 ≤ n < 2 ^ bits → parse_uint bits (itoa n) = Some n.
Proof.
  intros H. unfold itoa. destruct (Z.ltb_spec n 0); [lia|].
  unfold parse_uint. rewrite digits_val_dec by lia.
  pose proof (dec_nonneg_nonempty n). case_match; [done|].
  destruct (Z.ltb_spec n (2 ^ bits)); [done|lia].
Qed.

Lemma digit_not c d : is_digit c = true → is_digit d = false → Ascii.eqb c d = false.
Proof. intros Hc Hd. destruct (Ascii.eqb_spec c d); [congruence|done]. Qed.

Lemma atoi_itoa n : 0 ≤ n < 2 ^ 63 → atoi (itoa n) = Some n.
Proof.
  intros H. unfold itoa. destruct (Z.ltb_spec n 0); [lia|].
  pose proof (digits_val_dec n (proj1 H)) as Hv.
  destruct (dec_nonneg n) as [|c s] eqn:E; [by pose proof (dec_nonneg_nonempty n)|].
  assert (is_digit c = true) as Hc by (cbn in Hv; by destruct (is_digit c)).
  unfold atoi. rewrite !(digit_not c) by done. rewrite Hv. cbn [mbind option_bind].
  destruct (Z.leb_spec (- 2 ^ 63) n); [|lia]. by destruct (Z.ltb_spec n (2 ^ 63)); [|lia].
Qed.
