(* ===== verification/GoText.v ===== *)
(** * Go strings: the functions of [strings] that look at their characters

    [strings.TrimSpace], [strings.Fields], [strings.Trim], [strings.ToLower],
    [strings.Contains] and their relatives, on byte strings.  White space is
    Unicode's, recognised in its UTF-8 form; lower-casing is ASCII's, and a
    parameter decides for strings with other characters. *)

From Stdlib Require Import Ascii.
From Stdlib Require String.
From stdpp Require Import prelude strings.
From S2P Require Import Prelude GoStrings.

#[local] Arguments String.append : simpl nomatch.

(** ** White space *)

Definition ascii_space (c : ascii) : bool := (code c =? 32) || ((9 <=? code c) && (code c <=? 13)).

(** The UTF-8 encodings of the characters [unicode.IsSpace] accepts. *)
Definition space_rune (w : list Z) : bool :=
  match w with
  | [a] => (a =? 32) || ((9 <=? a) && (a <=? 13))
  | [a; b] => (a =? 0xc2) && ((b =? 0x85) || (b =? 0xa0))
  | [a; b; c] =>
      ((a =? 0xe1) && (b =? 0x9a) && (c =? 0x80))
      || ((a =? 0xe2) && (b =? 0x80) &&
            (((0x80 <=? c) && (c <=? 0x8a)) || (c =? 0xa8) || (c =? 0xa9) || (c =? 0xaf)))
      || ((a =? 0xe2) && (b =? 0x81) && (c =? 0x9f))
      || ((a =? 0xe3) && (b =? 0x80) && (c =? 0x80))
  | _ => false
  end.

(** The number of bytes of the space the list starts with, 0 when there is
    none; [f] orders the bytes of a candidate. *)
Definition space_len (f : list Z → list Z) (l : list ascii) : nat :=
  let w n := space_rune (f (code <$> take n l)) in
  if w 1%nat then 1 else if w 2%nat then 2 else if w 3%nat then 3 else 0.

Fixpoint skip_spaces (fuel : nat) (f : list Z → list Z) (l : list ascii) : list ascii :=
  match fuel with
  | O => l
  | S fuel' => match space_len f l with O => l | n => skip_spaces fuel' f (drop n l) end
  end.

Definition trim_left (l : list ascii) : list ascii := skip_spaces (length l) id l.
Definition trim_right (l : list ascii) : list ascii := rev (skip_spaces (length l) (λ w, rev w) (rev l)).

(** [strings.TrimSpace]. *)
Definition TrimSpace (s : string) : string := of_chars (trim_right (trim_left (chars s))).

(** [strings.Fields]: the words between spaces; [cur] is the current word,
    reversed. *)
Fixpoint fields_go (fuel : nat) (l : list ascii) (cur : list ascii) : list string :=
  let flush := match cur with [] => [] | _ => [of_chars (rev cur)] end in
  match fuel with
  | O => flush
  | S fuel' =>
      match space_len id l with
      | O => match l with [] => flush | c :: l' => fields_go fuel' l' (c :: cur) end
      | n => flush ++ fields_go fuel' (drop n l) []
      end
  end.
Definition Fields (s : string) : list string := fields_go (S (String.length s)) (chars s) [].

(** ** Trimming, searching *)

(** Strings as sets of bytes, for [Trim] and [ContainsAny] with ASCII sets. *)
Definition in_set (cut : string) (c : ascii) : bool := contains_char cut c.

Fixpoint drop_set (cut : string) (l : list ascii) : list ascii :=
  match l with
  | c :: l' => if in_set cut c then drop_set cut l' else l
  | [] => []
  end.

(** [strings.Trim(s, cut)]. *)
Definition Trim (s cut : string) : string :=
  of_chars (rev (drop_set cut (rev (drop_set cut (chars s))))).

(** [strings.ContainsAny(s, set)]. *)
Definition ContainsAny (s set : string) : bool := str_existsb (in_set set) s.

(** [strings.TrimPrefix(s, p)]. *)
Definition TrimPrefix (s p : string) : string :=
  if has_prefix s p then of_chars (drop (String.length p) (chars s)) else s.

(** [strings.Contains(s, sub)]. *)
Fixpoint Contains (s sub : string) : bool :=
  has_prefix s sub || match s with EmptyString => false | String _ s' => Contains s' sub end.

(** [s[:strings.IndexAny(s, set)]], the whole string when there is no such
    byte. *)
Fixpoint before_any (set : string) (s : string) : string :=
  match s with
  | EmptyString => EmptyString
  | String c s' => if in_set set c then EmptyString else String c (before_any set s')
  end.

(** [strings.Count(s, ".")] for a one-byte substring. *)
Fixpoint count_char (c : ascii) (s : string) : Z :=
  match s with
  | EmptyString => 0
  | String d s' => (if Ascii.eqb c d then 1 else 0) + count_char c s'
  end.

(** [strings.ReplaceAll(s, old, EmptyString)] for a one-byte [old]. *)
Definition remove_char (c : ascii) (s : string) : string :=
  of_chars (filter (λ d, Is_true (negb (Ascii.eqb c d))) (chars s)).

(** ** Lower case *)

Definition is_ascii (s : string) : bool := str_forallb (λ c, code c <? 128) s.

Definition lower (c : ascii) : ascii :=
  if (65 <=? code c) && (code c <=? 90) then char (code c + 32) else c.

Fixpoint str_map (f : ascii → ascii) (s : string) : string :=
  match s with EmptyString => EmptyString | String c s' => String (f c) (str_map f s') end.

(** [strings.ToLower]; [uni] maps the strings that are not ASCII. *)
Definition ToLower (uni : string → string) (s : string) : string :=
  if is_ascii s then str_map lower s else uni s.

(** ** Lemmas *)

(** Trimming removes a prefix and a suffix. *)
Lemma skip_spaces_suffix fuel f l : ∃ k, skip_spaces fuel f l = drop k l.
Proof.
  revert l. induction fuel as [|fuel IH]; intros l; cbn.
  - by exists 0%nat.
  - destruct (space_len f l) as [|n]; [by exists 0%nat|].
    destruct (IH (drop (S n) l)) as [k ->]. exists (S n + k)%nat. by rewrite drop_drop.
Qed.

Lemma of_chars_inj l k : of_chars l = of_chars k → l = k.
Proof. intros E. by rewrite <- (chars_of_chars l), E, chars_of_chars. Qed.

Lemma str_forallb_chars P s : str_forallb P s = forallb P (chars s).
Proof. induction s; cbn; [done|]. by rewrite IHs. Qed.

Lemma str_existsb_chars P s : str_existsb P s = existsb P (chars s).
Proof. induction s; cbn; [done|]. by rewrite IHs. Qed.

Lemma contains_char_app s t c : contains_char (s +:+ t) c = contains_char s c || contains_char t c.
Proof. unfold contains_char. induction s as [|d s IH]; cbn; [done|]. by rewrite IH, orb_assoc. Qed.

(** ** Lemmas: trimming *)

Definition graphic (c : ascii) : bool := (33 <=? code c) && (code c <=? 126).

Definition head_graphic (l : list ascii) : bool := match l with c :: _ => graphic c | [] => true end.

(** Neither end is a space. *)
Definition trimmed (s : string) : bool := head_graphic (chars s) && head_graphic (rev (chars s)).

Lemma space_rune_graphic a w : 33 ≤ a ≤ 126 → space_rune (a :: w) = false ∧ space_rune (w ++ [a]) = false.
Proof. intros Ha. split; destruct w as [|x [|y [|z w]]]; cbn [space_rune app]; lia || by destruct w. Qed.

Lemma space_len_graphic f l : f = id ∨ f = (λ w, rev w) → head_graphic l = true → space_len f l = 0%nat.
Proof.
  intros Hf Hl. unfold space_len. destruct l as [|a l]; [by destruct Hf as [-> | ->]|].
  cbn [head_graphic] in Hl. unfold graphic in Hl.
  assert (∀ n, space_rune (f (code <$> take (S n) (a :: l))) = false) as H.
  { intros n. cbn [take fmap list_fmap]. destruct Hf as [-> | ->]; [|cbn [rev]]; apply space_rune_graphic; lia. }
  by rewrite !H.
Qed.

Lemma skip_spaces_over f sp l fuel :
  f = id ∨ f = (λ w, rev w) → Forall (λ c, ascii_space c = true) sp → head_graphic l = true →
  (length sp ≤ fuel)%nat → skip_spaces fuel f (sp ++ l) = l.
Proof.
  intros Hf Hsp Hl. revert fuel. induction Hsp as [|c sp Hc Hsp IH]; intros fuel Hfuel.
  - destruct fuel; cbn [skip_spaces app]; [done|]. by rewrite space_len_graphic.
  - destruct fuel as [|fuel]; [cbn in Hfuel; lia|]. cbn [skip_spaces app].
    assert (space_len f (c :: sp ++ l) = 1%nat) as ->.
    { unfold space_len. assert (space_rune (f (code <$> take 1 (c :: sp ++ l))) = true) as ->; [|done].
      by destruct Hf as [-> | ->]. }
    cbn [drop]. apply IH. cbn in Hfuel. lia.
Qed.

Lemma TrimSpace_over pre s post :
  str_forallb ascii_space pre = true → str_forallb ascii_space post = true → trimmed s = true → s ≠ EmptyString →
  TrimSpace (pre +:+ s +:+ post) = s.
Proof.
  rewrite !str_forallb_chars, !forallb_forall. intros Hpre Hpost [H1 H2]%andb_true_iff Hne.
  unfold TrimSpace. rewrite !chars_app. unfold trim_left. rewrite skip_spaces_over.
  - unfold trim_right. rewrite rev_app_distr, skip_spaces_over.
    + by rewrite rev_involutive, of_chars_chars.
    + by right.
    + apply Forall_rev, List.Forall_forall. exact Hpost.
    + done.
    + rewrite length_rev, length_app. lia.
  - by left.
  - apply List.Forall_forall. exact Hpre.
  - destruct s; [done|exact H1].
  - rewrite length_app. lia.
Qed.

Lemma TrimSpace_trimmed s : trimmed s = true → TrimSpace s = s.
Proof.
  intros H. destruct (decide (s = EmptyString)) as [-> | Hne]; [done|].
  rewrite <- (TrimSpace_over EmptyString s EmptyString) at 2; [|done..]. by rewrite str_app_nil_r.
Qed.

Lemma trimmed_app s t : s ≠ EmptyString → t ≠ EmptyString → trimmed s = true → trimmed t = true → 
  ∀ u, trimmed (s +:+ u +:+ t) = true.
Proof.
  unfold trimmed. intros Hs Ht [H1 H2]%andb_true_iff [H3 H4]%andb_true_iff u.
  rewrite !chars_app, !rev_app_distr. apply andb_true_iff. split.
  - destruct s; [done|exact H1].
  - destruct (rev (chars t)) as [|c l] eqn:E; [|exact H4]. 
    exfalso. apply Ht, chars_inj. rewrite <- (rev_involutive (chars t)), E. done.
Qed.

Lemma digits_trimmed s : str_forallb is_digit s = true → trimmed s = true.
Proof.
  unfold trimmed. rewrite str_forallb_chars, forallb_forall. intros Hd.
  assert (∀ c, In c (chars s) → graphic c = true) as Hg.
  { intros c Hc%Hd. unfold is_digit in Hc. unfold graphic. lia. }
  apply andb_true_iff. split.
  - destruct (chars s); [done|]. apply Hg. by left.
  - destruct (rev (chars s)) as [|c l] eqn:E; [done|]. apply Hg, in_rev. rewrite E. by left.
Qed.

Lemma itoa_digits n : 0 ≤ n → str_forallb is_digit (itoa n) = true ∧ itoa n ≠ EmptyString.
Proof.
  intros Hn. unfold itoa. destruct (Z.ltb_spec n 0); [lia|]. split; [apply dec_nonneg_digits|apply dec_nonneg_nonempty].
Qed.
