(* ===== verification/GoPath.v ===== *)
(** * Slash-separated paths ([path/filepath] on Unix)

    [Clean], [Join], [Dir] and [Base] as the standard library defines them, and
    the lemmas the confinement of an extracted archive rests on: a clean rooted
    path is a slash and a list of proper names, and joining a name to it either
    stays below it or leaves it visibly. *)

From Stdlib Require Import Ascii.
From Stdlib Require String.
From stdpp Require Import prelude strings.
From S2P Require Import Prelude GoStrings GoText.

#[local] Arguments String.append : simpl nomatch.

Definition slash : string := "/".

(** The effect of one element on the elements kept so far, innermost first. *)
Definition push_elem (rooted : bool) (stack : list string) (e : string) : list string :=
  if bool_decide (e = EmptyString) || bool_decide (e = ".") then stack
  else if bool_decide (e = "..") then
    match stack with
    | [] => if rooted then [] else [e]
    | top :: rest => if bool_decide (top = "..") then e :: stack else rest
    end
  else e :: stack.

Definition clean_stack (rooted : bool) (stack : list string) (s : string) : list string :=
  foldl (push_elem rooted) stack (split_char "/" s).

Definition IsAbs (s : string) : bool := has_prefix s slash.

Definition show_path (rooted : bool) (stack : list string) : string :=
  (if rooted then slash else EmptyString) +:+ join_with slash (rev stack).

(** [filepath.Clean]. *)
Definition Clean (s : string) : string :=
  let r := show_path (IsAbs s) (clean_stack (IsAbs s) [] s) in
  if bool_decide (r = EmptyString) then "." else r.

(** [filepath.Join] of two elements. *)
Definition Join (a b : string) : string :=
  if bool_decide (a = EmptyString) then if bool_decide (b = EmptyString) then EmptyString else Clean b
  else Clean (a +:+ slash +:+ b).

(** The part after the last slash, and the part up to it, the slash included. *)
Definition last_elem (s : string) : string := List.last (split_char "/" s) EmptyString.
Definition dir_part (s : string) : string :=
  match removelast (split_char "/" s) with [] => EmptyString | l => join_with slash l +:+ slash end.

(** [filepath.Dir]. *)
Definition Dir (s : string) : string := Clean (dir_part s).

Fixpoint drop_slashes (l : list ascii) : list ascii :=
  match l with
  | c :: l' => if Ascii.eqb c "/" then drop_slashes l' else l
  | [] => []
  end.

(** [filepath.Base]. *)
Definition Base (s : string) : string :=
  if bool_decide (s = EmptyString) then "."
  else match of_chars (rev (drop_slashes (rev (chars s)))) with
       | EmptyString => slash
       | t => last_elem t
       end.

Example Clean_1 : Clean "/app//nextpath/./x/../result/" = "/app/nextpath/result".
Proof. reflexivity. Qed.
Example Clean_2 : (Clean "../../x", Clean "/../x", Clean EmptyString, Clean "a/..", Clean "/") = ("../../x", "/x", ".", ".", "/").
Proof. reflexivity. Qed.
Example Join_1 : Join "/r" "../etc/passwd" = "/etc/passwd".
Proof. reflexivity. Qed.
Example Base_1 : (Base "/a/b.txt", Base "/a/b//", Base "/", Base "x", Dir "/a/b/c", Dir "c", Dir "/c")
  = ("b.txt", "b", "/", "x", "/a/b", ".", "/").
Proof. reflexivity. Qed.

(** ** Lemmas: splitting and joining *)

Lemma split_char_cat sep a b :
  split_char sep (a +:+ String sep b) = split_char sep a ++ split_char sep b.
Proof.
  induction a as [|c a IH]; cbn [String.append split_char].
  - by rewrite Ascii.eqb_refl.
  - rewrite IH. destruct (Ascii.eqb c sep); [done|].
    pose proof (split_char_nonempty sep a). by destruct (split_char sep a).
Qed.

Lemma split_char_no_sep sep s : Forall (λ e, contains_char e sep = false) (split_char sep s).
Proof.
  induction s as [|c s IH]; cbn [split_char]; [by repeat constructor|].
  destruct (Ascii.eqb c sep) eqn:E; [by constructor|].
  assert (Ascii.eqb sep c = false) as E' by (by rewrite Ascii.eqb_sym).
  destruct (split_char sep s) as [|w ws]; [|apply Forall_cons in IH as [H1 H2]]; constructor; try done.
  - unfold contains_char. cbn. by rewrite E'.
  - unfold contains_char in *. cbn. by rewrite E', H1.
Qed.

Lemma split_join sep l :
  l ≠ [] → Forall (λ e, contains_char e sep = false) l → split_char sep (join_with (String sep EmptyString) l) = l.
Proof.
  induction l as [|w l IH]; [done|]. intros _ [Hw Hl]%Forall_cons.
  destruct l as [|w' l]; [by apply split_char_none|]. rewrite join_with_cons by done. cbn [String.append].
  rewrite split_char_cat, (split_char_none _ w Hw). cbn [app]. f_equal. by apply IH.
Qed.

Lemma join_app sep l k :
  l ≠ [] → k ≠ [] → join_with sep (l ++ k) = join_with sep l +:+ sep +:+ join_with sep k.
Proof.
  induction l as [|w l IH]; intros Hl Hk; [done|]. destruct l as [|w' l].
  - cbn [app]. by destruct k.
  - rewrite <- app_comm_cons, (join_with_cons sep w (w' :: l)) by done.
    rewrite join_with_cons by done. rewrite IH by done. by rewrite !str_app_assoc.
Qed.

(** ** Lemmas: clean paths *)

(** A name that is neither empty nor special. *)
Definition proper (e : string) : Prop :=
  e ≠ EmptyString ∧ e ≠ "." ∧ e ≠ ".." ∧ contains_char e "/" = false.

Lemma push_elem_proper stack e :
  Forall proper stack → contains_char e "/" = false → Forall proper (push_elem true stack e).
Proof.
  intros Hs He. unfold push_elem. repeat case_bool_decide; cbn [orb]; try done.
  - destruct stack as [|top rest]; [done|]. apply Forall_cons in Hs as [(_ & _ & Ht & _) Hr].
    by case_bool_decide.
  - by constructor.
Qed.

Lemma clean_stack_proper stack s : Forall proper stack → Forall proper (clean_stack true stack s).
Proof.
  unfold clean_stack. pose proof (split_char_no_sep "/" s) as Hn. revert stack.
  induction Hn as [|e l He Hl IH]; intros stack Hs; [done|]. cbn. by apply IH, push_elem_proper.
Qed.

Lemma clean_stack_cat rooted stack a b :
  clean_stack rooted stack (a +:+ slash +:+ b) = clean_stack rooted (clean_stack rooted stack a) b.
Proof. unfold clean_stack, slash. cbn [String.append]. by rewrite split_char_cat, foldl_app. Qed.

Lemma push_all_proper rooted l : ∀ stack, Forall proper l → foldl (push_elem rooted) stack l = rev l ++ stack.
Proof.
  induction l as [|e l IH]; intros stack Hl; [done|]. apply Forall_cons in Hl as [(H1 & H2 & H3 & _) Hl].
  cbn [foldl rev]. rewrite IH by done. unfold push_elem. rewrite !bool_decide_false by done. cbn.
  by rewrite <- app_assoc.
Qed.

Lemma proper_no_slash l : Forall proper l → Forall (λ e, contains_char e "/" = false) l.
Proof. intros Hl. eapply Forall_impl; [exact Hl|]. by intros e (_ & _ & _ & ?). Qed.

Lemma clean_stack_names rooted stack l :
  Forall proper l → clean_stack rooted stack (join_with slash l) = rev l ++ stack.
Proof.
  intros Hl. destruct l as [|e l].
  - unfold clean_stack. cbn. by destruct rooted.
  - unfold clean_stack, slash. rewrite split_join; [by apply push_all_proper|done|by apply proper_no_slash].
Qed.

Lemma IsAbs_iff s : IsAbs s = true ↔ ∃ t, s = slash +:+ t.
Proof. apply has_prefix_iff. Qed.

(** A clean rooted path is a slash and proper names. *)
Lemma Clean_rooted s :
  IsAbs s = true →
  Clean s = show_path true (clean_stack true [] s) ∧ Forall proper (clean_stack true [] s).
Proof.
  intros Ha. unfold Clean. rewrite Ha. split; [|by apply clean_stack_proper, Forall_nil].
  by rewrite bool_decide_false.
Qed.

(** Cleaning what is clean changes nothing, a trailing slash apart. *)
Lemma Clean_names l : Forall proper l → Clean (slash +:+ join_with slash l) = slash +:+ join_with slash l.
Proof.
  intros Hl. destruct (Clean_rooted (slash +:+ join_with slash l) eq_refl) as [-> _].
  change (slash +:+ join_with slash l) with (EmptyString +:+ slash +:+ join_with slash l) at 1.
  rewrite clean_stack_cat, clean_stack_names by done. unfold show_path.
  by rewrite rev_app_distr, rev_involutive.
Qed.

Lemma Clean_names_slash l :
  Forall proper l → Clean (slash +:+ join_with slash l +:+ slash) = slash +:+ join_with slash l.
Proof.
  intros Hl. destruct (Clean_rooted (slash +:+ join_with slash l +:+ slash) eq_refl) as [-> _].
  change (slash +:+ join_with slash l +:+ slash)
    with (EmptyString +:+ slash +:+ (join_with slash l +:+ slash +:+ EmptyString)).
  rewrite clean_stack_cat, clean_stack_cat, clean_stack_names by done. unfold show_path.
  change (clean_stack true ?x EmptyString) with x. by rewrite rev_app_distr, rev_involutive.
Qed.

(** A path ends in its last element. *)
Lemma last_elem_end s : ∃ t, s = t +:+ last_elem s.
Proof.
  unfold last_elem. pose proof (split_char_nonempty "/" s) as Hne. pose proof (join_split "/" s) as Hj.
  destruct (exists_last Hne) as (l & e & El). rewrite El in *. rewrite last_last.
  destruct l as [|x l]; [exists EmptyString; by rewrite <- Hj|].
  rewrite join_app in Hj by done. exists (join_with "/" (x :: l) +:+ "/"). rewrite <- Hj. by rewrite str_app_assoc.
Qed.

(** A stack printed with a name on top. *)
Lemma show_path_push rooted stack : ∃ t, ∀ n, show_path rooted (n :: stack) = t +:+ n.
Proof.
  unfold show_path. destruct (rev stack) as [|x l] eqn:E.
  - eexists. intros n. cbn [rev]. by rewrite E.
  - exists ((if rooted then slash else EmptyString) +:+ join_with slash (x :: l) +:+ slash). intros n. cbn [rev].
    rewrite E, join_app by done. by rewrite !str_app_assoc.
Qed.

Lemma push_proper rooted stack n : proper n → clean_stack rooted stack n = n :: stack.
Proof.
  intros (H1 & H2 & H3 & H4). unfold clean_stack. rewrite split_char_none by done. cbn. unfold push_elem.
  by rewrite !bool_decide_false.
Qed.

Lemma str_app_nonempty t n : n ≠ EmptyString → t +:+ n ≠ EmptyString.
Proof. by destruct t. Qed.

(** A clean path that ends in a proper name: what precedes the name does not
    depend on it. *)
Lemma Clean_name d : ∃ t, ∀ n, proper n → Clean (d +:+ slash +:+ n) = t +:+ n.
Proof.
  set (r := match d with EmptyString => true | _ => IsAbs d end).
  destruct (show_path_push r (clean_stack r [] d)) as [t Ht]. exists t. intros n Hn.
  assert (IsAbs (d +:+ slash +:+ n) = r) as Er by (by destruct d).
  unfold Clean. rewrite Er, clean_stack_cat, push_proper, Ht by done.
  rewrite bool_decide_false; [done|]. apply str_app_nonempty. apply Hn.
Qed.

Lemma proper_relative n : proper n → IsAbs n = false.
Proof.
  intros Hn. destruct n as [|c n]; [done|]. destruct Hn as (_ & _ & _ & Hc). unfold contains_char in Hc.
  cbn [str_existsb] in Hc. apply orb_false_iff in Hc as [Hc _]. unfold IsAbs, slash. cbn [has_prefix]. by rewrite Hc.
Qed.

(** A joined proper name is the end of the path, after the same directory for
    every name. *)
Lemma Join_name d : ∃ t, ∀ n, proper n → Join d n = t +:+ n.
Proof.
  unfold Join. case_bool_decide; [|apply Clean_name].
  exists EmptyString. intros n Hn. rewrite bool_decide_false by apply Hn.
  pose proof (proper_relative n Hn) as Ha.
  unfold Clean. rewrite Ha, push_proper by done. cbn. rewrite bool_decide_false by apply Hn. done.
Qed.

Lemma Join_last d a n : proper n → ∃ t, Join d (a +:+ slash +:+ n) = t +:+ n.
Proof.
  intros Hn. unfold Join. case_bool_decide.
  - rewrite bool_decide_false by (by apply str_app_nonempty). destruct (Clean_name a) as [t Ht]. eauto.
  - destruct (Clean_name (d +:+ slash +:+ a)) as [t Ht]. exists t. rewrite <- Ht by done. by rewrite !str_app_assoc.
Qed.

(** The last element of a joined path. *)
Lemma last_elem_cat q n : contains_char n "/" = false → last_elem (q +:+ slash +:+ n) = n.
Proof.
  intros Hn. unfold last_elem, slash. cbn [String.append]. by rewrite split_char_cat, (split_char_none _ n Hn), last_last.
Qed.

Lemma last_elem_name n : contains_char n "/" = false → last_elem n = n.
Proof. intros Hn. unfold last_elem. by rewrite (split_char_none _ n Hn). Qed.

Lemma show_path_last rooted stack n : contains_char n "/" = false → last_elem (show_path rooted (n :: stack)) = n.
Proof.
  intros Hn. unfold show_path. cbn [rev]. destruct (rev stack) as [|x l].
  - destruct rooted; [by apply (last_elem_cat EmptyString)|by apply last_elem_name].
  - rewrite join_app by done. cbn [join_with]. rewrite <- str_app_assoc. by apply last_elem_cat.
Qed.

Lemma Clean_last d n : proper n → last_elem (Clean (d +:+ slash +:+ n)) = n.
Proof.
  intros Hn. set (r := match d with EmptyString => true | _ => IsAbs d end).
  assert (IsAbs (d +:+ slash +:+ n) = r) as Er by (by destruct d).
  unfold Clean. rewrite Er, clean_stack_cat, push_proper by done.
  rewrite bool_decide_false; [by apply show_path_last, Hn|].
  destruct (show_path_push r (clean_stack r [] d)) as [t ->]. apply str_app_nonempty, Hn.
Qed.

Lemma Join_last_elem d n : proper n → last_elem (Join d n) = n.
Proof.
  intros Hn. unfold Join. case_bool_decide as Ed; [|by apply Clean_last].
  subst d. rewrite bool_decide_false by apply Hn.
  pose proof (proper_relative n Hn) as Ha.
  unfold Clean. rewrite Ha, push_proper by done. cbn. rewrite bool_decide_false by apply Hn. by apply last_elem_name, Hn.
Qed.

Lemma Join_last_elem2 d a n : proper n → last_elem (Join d (a +:+ slash +:+ n)) = n.
Proof.
  intros Hn. unfold Join. case_bool_decide.
  - rewrite bool_decide_false by (by apply str_app_nonempty). by apply Clean_last.
  - rewrite <- (Clean_last (d +:+ slash +:+ a) n Hn) at 2. by rewrite !str_app_assoc.
Qed.

Lemma Join_inj d a b : proper a → proper b → Join d a = Join d b → a = b.
Proof.
  intros Ha Hb. destruct (Join_name d) as [t Ht]. rewrite !Ht by done. generalize t.
  induction t0 as [|c t0 IH]; intros E; [done|]. injection E. exact IH.
Qed.

(** ** Lemmas: staying below a directory *)

(** [p] is the directory with the proper names [l] below it. *)
Definition under (d : string) (l : list string) (p : string) : Prop :=
  Forall proper l ∧ l ≠ [] ∧ Clean d ≠ slash ∧ p = Clean d +:+ slash +:+ join_with slash l.

Lemma str_app_inv_l s t u : s +:+ t = s +:+ u → t = u.
Proof. induction s as [|c s IH]; intros H; [done|]. injection H. exact IH. Qed.

(** The names of a clean rooted directory. *)
Lemma Clean_dir d : IsAbs d = true → ∃ dirs, Forall proper dirs ∧ Clean d = slash +:+ join_with slash dirs.
Proof.
  intros Ha. destruct (Clean_rooted _ Ha) as [-> Hp]. exists (rev (clean_stack true [] d)).
  split; [by apply Forall_rev|done].
Qed.

(** The test of the source: a joined name that still has the directory as its
    prefix lies below it. *)
Lemma Join_under d n :
  IsAbs d = true → has_prefix (Join d n) (Clean d +:+ slash) = true → ∃ l, under d l (Join d n).
Proof.
  intros Ha Hp. assert (d ≠ EmptyString) as Hd by (by intros ->).
  assert (Join d n = Clean (d +:+ slash +:+ n)) as Ej by (unfold Join; by rewrite bool_decide_false).
  assert (IsAbs (d +:+ slash +:+ n) = true) as Ha'.
  { apply IsAbs_iff in Ha as [t ->]. apply IsAbs_iff. eexists. by rewrite str_app_assoc. }
  rewrite Ej in *. destruct (Clean_dir _ Ha') as (names & Hn & Ec), (Clean_dir _ Ha) as (dirs & Hdirs & Ed).
  apply has_prefix_iff in Hp as [t Ht]. rewrite str_app_assoc in Ht. exists (split_char "/" t).
  assert (Clean (d +:+ slash +:+ n) = Clean d +:+ slash +:+ join_with slash (split_char "/" t)) as Et
    by (rewrite Ht; unfold slash; by rewrite join_split).
  rewrite Ec, Ed in Ht. rewrite str_app_assoc in Ht. apply str_app_inv_l, (f_equal (split_char "/")) in Ht.
  unfold slash in Ht. cbn [String.append] in Ht. rewrite split_char_cat in Ht.
  destruct names as [|e names].
  { apply (f_equal length) in Ht. rewrite length_app in Ht.
    pose proof (split_char_nonempty "/" (join_with "/" dirs)). pose proof (split_char_nonempty "/" t).
    destruct (split_char "/" (join_with "/" dirs)), (split_char "/" t); cbn in Ht; (done || lia). }
  rewrite split_join in Ht by (done || by apply proper_no_slash). rewrite Ht in Hn.
  split; [by apply Forall_app in Hn as [_ Hn]|]. split; [apply split_char_nonempty|]. split; [|done].
  rewrite Ed. intros E. apply (str_app_inv_l slash _ EmptyString) in E. unfold slash in E. rewrite E in Hn. cbn in Hn.
  by apply Forall_cons in Hn as [[? _] _].
Qed.

(** A suffix that begins no special name keeps a path below its directory. *)
Lemma under_suffix d l p suf :
  under d l p → contains_char suf "/" = false → (2 < String.length suf)%nat → ∃ l', under d l' (p +:+ suf).
Proof.
  intros (Hl & Hne & Hr & ->) Hs Hlen. destruct (exists_last Hne) as (l0 & e & ->).
  apply Forall_app in Hl as [Hl0 He]. apply Forall_cons in He as [(H1 & H2 & H3 & H4) _].
  exists (l0 ++ [e +:+ suf]). split.
  - apply Forall_app. split; [done|]. apply Forall_singleton. 
    assert (String.length (e +:+ suf) = (String.length e + String.length suf)%nat) as El.
    { clear. induction e as [|c e IH]; [done|]. cbn. by rewrite IH. }
    repeat split; try (intros E; apply (f_equal String.length) in E; rewrite El in E; cbn in E; lia).
    by rewrite contains_char_app, H4, Hs.
  - split; [by destruct l0|]. split; [done|]. rewrite !str_app_assoc. f_equal. f_equal.
    destruct l0 as [|e0 l0]; [done|].
    rewrite !join_app by done. rewrite !str_app_assoc. done.
Qed.

Lemma dir_part_last q e : contains_char e "/" = false → dir_part (q +:+ slash +:+ e) = q +:+ slash.
Proof.
  intros He. unfold dir_part, slash. cbn [String.append]. rewrite split_char_cat, (split_char_none _ e He).
  rewrite removelast_app by done. cbn [removelast]. rewrite app_nil_r.
  destruct (split_char "/" q) eqn:E; [by apply split_char_nonempty in E|]. by rewrite <- E, join_split.
Qed.

(** The directory of a path below [d] is [d] or below it. *)
Lemma Dir_under d l p : IsAbs d = true → under d l p → Dir p = Clean d ∨ ∃ l', under d l' (Dir p).
Proof.
  intros Ha (Hl & Hne & Hr & ->). destruct (Clean_dir d Ha) as (dirs & Hd & Ed). unfold Dir.
  destruct (exists_last Hne) as (l0 & e & ->). apply Forall_app in Hl as [Hl0 He].
  apply Forall_singleton in He as (_ & _ & _ & He).
  destruct l0 as [|e0 l0].
  - left. cbn [app join_with]. rewrite dir_part_last by done. rewrite Ed, str_app_assoc. by apply Clean_names_slash.
  - right. exists (e0 :: l0). split; [done|]. split; [done|]. split; [done|].
    rewrite join_app by done. change (join_with slash [e]) with e. rewrite <- !str_app_assoc.
    rewrite (str_app_assoc _ slash e), dir_part_last by done.
    assert (dirs ≠ []) as Hdn by (by intros ->).
    replace ((Clean d +:+ slash) +:+ join_with slash (e0 :: l0)) with (slash +:+ join_with slash (dirs ++ e0 :: l0)).
    + rewrite str_app_assoc. apply Clean_names_slash. by apply Forall_app.
    + rewrite Ed, join_app by done. by rewrite !str_app_assoc.
Qed.
