(* ===== verification/Filter.v ===== *)
(** * The gambling filter ([internal/parser/filter.go])

    [CasinoRegex] is built from the text of the source's pattern by a parser for
    the part of the RE2 syntax it uses: literals, [.], bracket classes with
    ranges, the postfix operators and alternation, under case folding.  It is
    searched for with Brzozowski derivatives, and the search is proved to decide
    the language of the pattern.  [IsCasino] is called on domain names, which
    are ASCII. *)

From Stdlib Require Import Ascii.
From Stdlib Require String.
From stdpp Require Import prelude strings.
From S2P Require Import Prelude GoStrings GoText.

(** ** Regular expressions *)

Inductive re :=
  | Void
  | Eps
  | Cls (P : ascii → bool)
  | Cat (r s : re)
  | Alt (r s : re)
  | Star (r : re).

(** The language of an expression. *)
Inductive lang : re → list ascii → Prop :=
  | lang_eps : lang Eps []
  | lang_cls P c : P c = true → lang (Cls P) [c]
  | lang_cat r s l k : lang r l → lang s k → lang (Cat r s) (l ++ k)
  | lang_alt_l r s l : lang r l → lang (Alt r s) l
  | lang_alt_r r s l : lang s l → lang (Alt r s) l
  | lang_star_nil r : lang (Star r) []
  | lang_star_cons r c l k : lang r (c :: l) → lang (Star r) k → lang (Star r) (c :: l ++ k).

Fixpoint nullable (r : re) : bool :=
  match r with
  | Void | Cls _ => false
  | Eps | Star _ => true
  | Cat r s => nullable r && nullable s
  | Alt r s => nullable r || nullable s
  end.

(** Constructors that drop dead branches, so that derivatives stay small. *)
Definition cat (r s : re) : re :=
  match r, s with
  | Void, _ => Void
  | _, Void => Void
  | Eps, _ => s
  | _, _ => Cat r s
  end.
Definition alt (r s : re) : re :=
  match r, s with
  | Void, _ => s
  | _, Void => r
  | _, _ => Alt r s
  end.

Fixpoint deriv (c : ascii) (r : re) : re :=
  match r with
  | Void | Eps => Void
  | Cls P => if P c then Eps else Void
  | Cat r s => if nullable r then alt (cat (deriv c r) s) (deriv c s) else cat (deriv c r) s
  | Alt r s => alt (deriv c r) (deriv c s)
  | Star r => cat (deriv c r) (Star r)
  end.

(** Some prefix matches. *)
Fixpoint prefix_match (r : re) (l : list ascii) : bool :=
  nullable r || match l with [] => false | c :: l' => prefix_match (deriv c r) l' end.

(** [regexp.MatchString]: some substring matches. *)
Fixpoint search (r : re) (l : list ascii) : bool :=
  prefix_match r l || match l with [] => false | _ :: l' => search r l' end.

(** ** The pattern syntax *)

(** Letters match in either case ([(?i)]). *)
Definition fold_eq (a b : ascii) : bool := Ascii.eqb (lower a) (lower b).

Definition any_char (c : ascii) : bool := negb (code c =? 10).

(** The items of a bracket class: single characters and ranges. *)
Fixpoint class_items (l : list ascii) (c : ascii) : bool :=
  match l with
  | a :: ((d :: b :: rest) as tl) =>
      if Ascii.eqb d "-" then ((code a <=? code (lower c)) && (code (lower c) <=? code b)) || class_items rest c
      else fold_eq a c || class_items tl c
  | a :: tl => fold_eq a c || class_items tl c
  | [] => false
  end.

Fixpoint split_class (l : list ascii) : list ascii * list ascii :=
  match l with
  | [] => ([], [])
  | c :: l' => if Ascii.eqb c "]" then ([], l') else let '(a, b) := split_class l' in (c :: a, b)
  end.

(** One atom and the rest of the pattern. *)
Definition parse_atom (l : list ascii) : option (re * list ascii) :=
  match l with
  | [] => None
  | c :: l' =>
      if Ascii.eqb c "[" then let '(items, rest) := split_class l' in Some (Cls (class_items items), rest)
      else if Ascii.eqb c "." then Some (Cls any_char, l')
      else Some (Cls (fold_eq c), l')
  end.

Definition postfix (r : re) (l : list ascii) : re * list ascii :=
  match l with
  | c :: l' =>
      if Ascii.eqb c "*" then (Star r, l')
      else if Ascii.eqb c "+" then (Cat r (Star r), l')
      else if Ascii.eqb c "?" then (Alt r Eps, l')
      else (r, l)
  | [] => (r, l)
  end.

Fixpoint parse_cat (fuel : nat) (l : list ascii) : re :=
  match fuel with
  | O => Eps
  | S fuel' =>
      match parse_atom l with
      | None => Eps
      | Some (a, rest) => let '(r, rest) := postfix a rest in Cat r (parse_cat fuel' rest)
      end
  end.

Definition parse_re (s : string) : re :=
  foldr (λ w r, Alt (parse_cat (String.length w) (chars w)) r) Void (split_char "|" s).

(** The pattern of the source, after its [(?i)] flag. *)
Definition CasinoRegex : re := parse_re
  "[ck]a+[szc3]+[iley1]+n+[0-9o]|[vw][uy]+[l1]+[kc]a+n|[vw]a+[vw]+a+d+a|1?x-*bet|most-*bet|leon-*bet|rio-*bet|mel-*bet|ramen-*bet|marathon-*bet|max-*bet|bet-*win|gg-*bet|spin-*bet|banzai-*bet|1iks-*bet|x-*slot|sloto.*zal|max-*slot|bk-*leon|gold-*fishka|play-*fortuna|dragon.*money|poker.*dom|1-*win|crypto-*bos|free-*spin|fair-*spin|no-*deposit|igrovye|avtomaty|bookmaker|zerkalo|slottica|sykaaa|admiral-*x|x-*admiral|pinup-*bet|pari-*match|betting|partypoker|jackpot|bonus|azino[0-9-]|888-*starz|zooma[0-9-]|zenit-*bet|eldorado|slots|vodka|newretro|platinum|igrat|flagman|arkada".

Definition IsCasino (domain : string) : bool := search CasinoRegex (chars domain).

(** ** Lemmas *)

Lemma nullable_spec r : nullable r = true ↔ lang r [].
Proof.
  induction r as [| |P|r IHr s IHs|r IHr s IHs|r IHr]; cbn.
  - split; [done|]. inversion 1.
  - split; [constructor|done].
  - split; [done|]. inversion 1.
  - rewrite andb_true_iff, IHr, IHs. split.
    + intros [H1 H2]. change (@nil ascii) with (@nil ascii ++ []). by constructor.
    + inversion 1 as [| |? ? l k H1 H2 E1 E2| | | |]. apply app_nil in E2 as [-> ->]. done.
  - rewrite orb_true_iff, IHr, IHs. split.
    + intros [H|H]; by constructor.
    + inversion 1; auto.
  - split; [constructor|done].
Qed.

Lemma lang_cat_inv r s l : lang (Cat r s) l ↔ ∃ a b, l = a ++ b ∧ lang r a ∧ lang s b.
Proof.
  split; [inversion 1; subst; eauto|]. intros (a & b & -> & ? & ?). by constructor.
Qed.

Lemma lang_alt_inv r s l : lang (Alt r s) l ↔ lang r l ∨ lang s l.
Proof. split; [inversion 1; auto|]. intros []; by constructor. Qed.

Lemma lang_void l : ¬ lang Void l.
Proof. inversion 1. Qed.

Lemma lang_eps_inv l : lang Eps l ↔ l = [].
Proof. split; [by inversion 1|]. intros ->. constructor. Qed.

(** The simplifying constructors denote the same languages. *)
Lemma lang_cat_smart r s l : lang (cat r s) l ↔ lang (Cat r s) l.
Proof.
  assert (∀ s, lang (Cat Void s) l ↔ lang Void l) as H1.
  { intros s'. rewrite lang_cat_inv. split; [by intros (? & ? & _ & ?%lang_void & _)|by intros ?%lang_void]. }
  assert (∀ r, lang (Cat r Void) l ↔ lang Void l) as H2.
  { intros s'. rewrite lang_cat_inv. split; [by intros (? & ? & _ & _ & ?%lang_void)|by intros ?%lang_void]. }
  assert (∀ s, lang (Cat Eps s) l ↔ lang s l) as H3.
  { intros s'. rewrite lang_cat_inv. split.
    - by intros (? & ? & -> & ->%lang_eps_inv & ?).
    - intros H. exists [], l. split_and!; [done|constructor|done]. }
  destruct r; cbn; try (by rewrite H1); destruct s; cbn; rewrite ?H2, ?H3; done.
Qed.

Lemma lang_alt_smart r s l : lang (alt r s) l ↔ lang (Alt r s) l.
Proof.
  assert (∀ s, lang (Alt Void s) l ↔ lang s l) as H1.
  { intros s'. rewrite lang_alt_inv. split; [by intros [?%lang_void|]|auto]. }
  assert (∀ r, lang (Alt r Void) l ↔ lang r l) as H2.
  { intros s'. rewrite lang_alt_inv. split; [by intros [|?%lang_void]|auto]. }
  destruct r; cbn; try (by rewrite H1); destruct s; cbn; rewrite ?H2; done.
Qed.

Lemma lang_star_inv r c l :
  lang (Star r) (c :: l) ↔ ∃ a b, l = a ++ b ∧ lang r (c :: a) ∧ lang (Star r) b.
Proof.
  split; [inversion 1; subst; eauto|]. intros (a & b & -> & ? & ?). by constructor.
Qed.

Lemma deriv_spec c r : ∀ l, lang (deriv c r) l ↔ lang r (c :: l).
Proof.
  induction r as [| |P|r IHr s IHs|r IHr s IHs|r IHr]; intros l; cbn [deriv].
  - split; by intros ?%lang_void.
  - split; [by intros ?%lang_void|by intros ?%lang_eps_inv].
  - destruct (P c) eqn:E.
    + rewrite lang_eps_inv. split; [intros ->; by constructor|by inversion 1].
    + split; [by intros ?%lang_void|inversion 1; congruence].
  - assert (lang (Cat (deriv c r) s) l ↔ ∃ a b, l = a ++ b ∧ lang r (c :: a) ∧ lang s b) as Hc.
    { rewrite lang_cat_inv. split; intros (a & b & ? & ? & ?); exists a, b; by rewrite IHr in *. }
    rewrite lang_cat_inv. destruct (nullable r) eqn:En.
    + rewrite lang_alt_smart, lang_alt_inv, lang_cat_smart, Hc, IHs. apply nullable_spec in En. split.
      * intros [(a & b & -> & ? & ?)|H]; [exists (c :: a), b|exists [], (c :: l)]; done.
      * intros ([|d a] & b & E & H1 & H2); cbn in E; simplify_eq; [by right|left; eauto].
    + rewrite lang_cat_smart, Hc. split.
      * intros (a & b & -> & ? & ?). exists (c :: a), b. done.
      * intros ([|d a] & b & E & H1 & H2); cbn in E; simplify_eq; [|eauto].
        apply nullable_spec in H1. congruence.
  - rewrite lang_alt_smart, !lang_alt_inv, IHr, IHs. done.
  - rewrite lang_cat_smart, lang_cat_inv, lang_star_inv.
    split; intros (a & b & ? & ? & ?); exists a, b; by rewrite IHr in *.
Qed.

Lemma prefix_match_spec l : ∀ r, prefix_match r l = true ↔ ∃ a b, l = a ++ b ∧ lang r a.
Proof.
  induction l as [|c l IH]; intros r; cbn [prefix_match]; rewrite orb_true_iff, nullable_spec.
  - split.
    + intros [?|?]; [by exists [], []|done].
    + intros (a & b & E & ?). symmetry in E. apply app_nil in E as [-> ->]. auto.
  - rewrite IH. split.
    + intros [?|(a & b & -> & ?%deriv_spec)]; [by exists [], (c :: l)|by exists (c :: a), b].
    + intros ([|d a] & b & E & H); cbn in E; simplify_eq; [by left|].
      right. exists a, b. by rewrite deriv_spec.
Qed.

(** ** Properties *)

(** The filter matches a domain exactly when some part of it belongs to
    the language of the pattern. *)
Theorem IsCasino_spec domain :
  IsCasino domain = true ↔ ∃ u v w, chars domain = u ++ v ++ w ∧ lang CasinoRegex v.
Proof.
  unfold IsCasino. generalize CasinoRegex. intros r.
  induction (chars domain) as [|c l IH]; cbn [search]; rewrite orb_true_iff, prefix_match_spec.
  - split.
    + intros [(a & b & E & H)|?]; [by exists [], a, b|done].
    + intros (u & v & w & E & H). symmetry in E. apply app_nil in E as [-> E].
      left. by exists v, w.
  - rewrite IH. split.
    + intros [(a & b & E & H)|(u & v & w & -> & H)]; [by exists [], a, b|by exists (c :: u), v, w].
    + intros ([|d u] & v & w & E & H); cbn in E; simplify_eq; [left; eauto|right; eauto 6].
Qed.

(** The examples of the test suite. *)
Example IsCasino_matches :
  forallb IsCasino ["casino-online.com"; "vulkan-slots.ru"; "eldorado-club.xyz"; "Leonbet.ru";
    "my-vulkan-casino.org"; "1x-bet.com"; "vulkanization.org"] = true ∧
  existsb IsCasino ["google.com"; "betterment.com"; "poker-club.com"; "bet.com"] = false.
Proof. split; vm_compute; reflexivity. Qed.
