(* ===== verification/GoNet.v ===== *)
(** * Go's [net] package: addresses, masks and their text form

    A [net.IP] is a byte slice; it is modelled by a list of bytes, the nil slice
    being the empty list.  The file models what the engine calls: [IP.To4],
    [IP.To16], [IP.Equal], [IP.Mask], [IP.String], [net.IPv4], [net.CIDRMask],
    [net.ParseIP], [net.ParseCIDR], [IPNet.Contains] and
    [binary.BigEndian.Uint32]/[PutUint32].  The main lemma is that parsing the
    text of an address gives the address back ([ParseIP_String]): the pool uses
    the text as the key of its result maps and parses it again to undo an
    allocation. *)

From Stdlib Require Import Ascii.
From Stdlib Require String.
From stdpp Require Import prelude strings.
From S2P Require Import Prelude GoStrings.

#[local] Arguments String.append : simpl nomatch.

Abbreviation IP := (list Byte.byte).

Definition IPv4len : nat := 4.
Definition IPv6len : nat := 16.

Definition v4InV6Prefix : list Byte.byte :=
  replicate 10 Byte.x00 ++ [Byte.xff; Byte.xff].

(** [IP.To4]: the four-byte form, nil when there is none. *)
Definition To4 (ip : IP) : IP :=
  if Nat.eqb (length ip) 4 then ip
  else if Nat.eqb (length ip) 16 && bool_decide (take 12 ip = v4InV6Prefix)
       then drop 12 ip
       else [].

(** [net.IPv4]. *)
Definition IPv4 (a b c d : Byte.byte) : IP := v4InV6Prefix ++ [a; b; c; d].

(** [IP.To16]. *)
Definition To16 (ip : IP) : IP :=
  if Nat.eqb (length ip) 4 then v4InV6Prefix ++ ip
  else if Nat.eqb (length ip) 16 then ip
  else [].

(** [ip == nil]. *)
Definition is_nil (ip : IP) : bool := match ip with [] => true | _ => false end.

(** [IP.Equal]. *)
Definition IP_Equal (ip x : IP) : bool :=
  if Nat.eqb (length ip) (length x) then bool_decide (ip = x)
  else if Nat.eqb (length ip) 4 && Nat.eqb (length x) 16
       then bool_decide (take 12 x = v4InV6Prefix) && bool_decide (ip = drop 12 x)
  else if Nat.eqb (length ip) 16 && Nat.eqb (length x) 4
       then bool_decide (take 12 ip = v4InV6Prefix) && bool_decide (drop 12 ip = x)
  else false.

(** [binary.BigEndian.Uint32] and [PutUint32]. *)
Definition be_uint32 (l : list Byte.byte) : Z :=
  match l with
  | b0 :: b1 :: b2 :: b3 :: _ =>
      Z.lor (Z_of_byte b3)
        (Z.lor (Z.shiftl (Z_of_byte b2) 8)
           (Z.lor (Z.shiftl (Z_of_byte b1) 16) (Z.shiftl (Z_of_byte b0) 24)))
  | _ => 0
  end.

Definition be_bytes32 (v : Z) : list Byte.byte :=
  [byte_of_Z (Z.shiftr v 24); byte_of_Z (Z.shiftr v 16);
   byte_of_Z (Z.shiftr v 8); byte_of_Z v].

(** [net.IPv4(byte(v>>24), byte(v>>16), byte(v>>8), byte(v))]. *)
Definition IPv4_of_u32 (v : Z) : IP :=
  IPv4 (byte_of_Z (Z.shiftr v 24)) (byte_of_Z (Z.shiftr v 16))
       (byte_of_Z (Z.shiftr v 8)) (byte_of_Z v).

(** ** Masks and networks *)

Fixpoint mask_bytes (l : nat) (n : Z) : list Byte.byte :=
  match l with
  | O => []
  | S l' =>
      if 8 <=? n then Byte.xff :: mask_bytes l' (n - 8)
      else byte_of_Z (Z.lnot (Z.shiftr 255 n)) :: mask_bytes l' 0
  end.

(** [net.CIDRMask(ones, bits)]. *)
Definition CIDRMask (ones bits : Z) : list Byte.byte :=
  if negb ((bits =? 32) || (bits =? 128)) then []
  else if (ones <? 0) || (bits <? ones) then []
  else mask_bytes (Z.to_nat (bits / 8)) ones.

Definition byte_and (x y : Byte.byte) : Byte.byte :=
  byte_of_Z (Z.land (Z_of_byte x) (Z_of_byte y)).

(** [IP.Mask]. *)
Definition IP_Mask (ip mask : list Byte.byte) : IP :=
  let mask := if Nat.eqb (length mask) 16 && Nat.eqb (length ip) 4
                 && bool_decide (take 12 mask = replicate 12 Byte.xff)
              then drop 12 mask else mask in
  let ip := if Nat.eqb (length mask) 4 && Nat.eqb (length ip) 16
               && bool_decide (take 12 ip = v4InV6Prefix)
            then drop 12 ip else ip in
  if Nat.eqb (length ip) (length mask) then zip_with byte_and ip mask else [].

Record IPNet := mkIPNet { net_IP : IP; net_Mask : list Byte.byte }.

Definition networkNumberAndMask (n : IPNet) : IP * list Byte.byte :=
  let ip4 := To4 (net_IP n) in
  let ip := if is_nil ip4 then net_IP n else ip4 in
  if is_nil ip4 && negb (Nat.eqb (length ip) 16) then ([], [])
  else
    let m := net_Mask n in
    if Nat.eqb (length m) 4 then
      if Nat.eqb (length ip) 4 then (ip, m) else ([], [])
    else if Nat.eqb (length m) 16 then
      if Nat.eqb (length ip) 4 then (ip, drop 12 m) else (ip, m)
    else ([], []).

(** [IPNet.Contains]. *)
Definition IPNet_Contains (n : IPNet) (ip : IP) : bool :=
  let '(nn, m) := networkNumberAndMask n in
  let ip := if is_nil (To4 ip) then ip else To4 ip in
  Nat.eqb (length ip) (length nn)
  && bool_decide (zip_with byte_and nn m = zip_with byte_and ip m).

(** ** Text form: [IP.String] *)

Definition dec_byte (b : Byte.byte) : string := dec_nonneg (Z_of_byte b).

Definition fmt4 (l : list Byte.byte) : string := join_with "." (dec_byte <$> l).

(** Hexadecimal without leading zeros, for a 16-bit group. *)
Definition hex16 (v : Z) : string :=
  let d k := String (hex_char (Z.shiftr v k mod 16)) EmptyString in
  (if 4096 <=? v then d 12 else EmptyString) +:+
  (if 256 <=? v then d 8 else EmptyString) +:+
  (if 16 <=? v then d 4 else EmptyString) +:+ d 0.

Fixpoint u16_groups (l : list Byte.byte) : list Z :=
  match l with
  | a :: b :: l' => Z_of_byte a * 256 + Z_of_byte b :: u16_groups l'
  | _ => []
  end.

Definition group_bytes (gs : list Z) : list Byte.byte :=
  gs ≫= λ g, [byte_of_Z (Z.shiftr g 8); byte_of_Z g].

Fixpoint zero_run (gs : list Z) : nat :=
  match gs with
  | g :: gs' => if g =? 0 then S (zero_run gs') else O
  | [] => O
  end.

(** The longest run of at least two zero groups, the leftmost on a tie. *)
Fixpoint best_run (i : nat) (gs : list Z) (best : option (nat * nat)) : option (nat * nat) :=
  match gs with
  | [] => best
  | _ :: gs' =>
      let l := zero_run gs in
      let cur := match best with Some (s, e) => (e - s)%nat | None => O end in
      best_run (S i) gs' (if (2 <=? l)%nat && (cur <? l)%nat then Some (i, i + l)%nat else best)
  end.

Definition fmt_groups (gs : list Z) : string := join_with ":" (hex16 <$> gs).

Definition fmt6 (gs : list Z) : string :=
  match best_run 0 gs None with
  | None => fmt_groups gs
  | Some (zs, ze) => fmt_groups (take zs gs) +:+ "::" +:+ fmt_groups (drop ze gs)
  end.

Definition hex_byte (b : Byte.byte) : string :=
  String (hex_char (Z.shiftr (Z_of_byte b) 4)) (String (hex_char (Z_of_byte b mod 16)) EmptyString).

(** [IP.String]. *)
Definition IP_String (ip : IP) : string :=
  if Nat.eqb (length ip) 0 then "<nil>"
  else if negb (Nat.eqb (length ip) 4 || Nat.eqb (length ip) 16)
       then "?" +:+ String.concat EmptyString (hex_byte <$> ip)
  else if is_nil (To4 ip) then fmt6 (u16_groups ip) else fmt4 (To4 ip).

(** ** Parsing: [netip.ParseAddr], [net.ParseIP], [net.ParseCIDR] *)

(** The octets of a dotted IPv4 address.  [digLen] is the number of digits of
    the current octet, so [digLen = 0] is the source's test "first character or
    just after a dot". *)
Fixpoint parse4_go (s : string) (fields : list Z) (val digLen : Z) : option (list Z) :=
  match s with
  | EmptyString => if (length fields <? 3)%nat then None else Some (fields ++ [val])
  | String c s' =>
      if is_digit c then
        if (digLen =? 1) && (val =? 0) then None
        else let val' := val * 10 + (code c - 48) in
             if 255 <? val' then None else parse4_go s' fields val' (digLen + 1)
      else if Ascii.eqb c "." then
        if (digLen =? 0) || match s' with EmptyString => true | _ => false end then None
        else if Nat.eqb (length fields) 3 then None
        else parse4_go s' (fields ++ [val]) 0 0
      else None
  end.

Definition parse4 (s : string) : option (list Byte.byte) :=
  match parse4_go s [] 0 0 with
  | Some fs => Some (byte_of_Z <$> fs)
  | None => None
  end.

(** Reads hexadecimal digits; fails on a fifth digit. *)
Fixpoint hex_run (s : string) (off : nat) (acc : Z) : option (nat * Z * string) :=
  match s with
  | EmptyString => Some (off, acc, s)
  | String c s' =>
      match hex_val c with
      | Some d => if (3 <? off)%nat then None else hex_run s' (S off) (acc * 16 + d)
      | None => Some (off, acc, s)
      end
  end.

(** The loop over the groups; [n] is the number of groups that still fit, [gs]
    the groups read, [ell] the position of the "::". *)
Fixpoint parse6_loop (n : nat) (s : string) (gs : list Z) (ell : option nat)
    : option (string * list Z * option nat) :=
  match n with
  | O => Some (s, gs, ell)
  | S n' =>
      '(off, acc, rest) ← hex_run s 0 0;
      if Nat.eqb off 0 then None
      else match rest with
           | EmptyString => Some (EmptyString, gs ++ [acc], ell)
           | String c rest' =>
               if Ascii.eqb c "." then
                 if bool_decide (ell = None) && negb (Nat.eqb (length gs) 6) then None
                 else if (8 <? length gs + 2)%nat then None
                 else b4 ← parse4 s; Some (EmptyString, gs ++ u16_groups b4, ell)
               else if Ascii.eqb c ":" then
                 match rest' with
                 | EmptyString => None
                 | String c2 rest2 =>
                     if Ascii.eqb c2 ":" then
                       match ell with
                       | Some _ => None
                       | None =>
                           let gs' := gs ++ [acc] in
                           match rest2 with
                           | EmptyString => Some (EmptyString, gs', Some (length gs'))
                           | _ => parse6_loop n' rest2 gs' (Some (length gs'))
                           end
                       end
                     else parse6_loop n' rest' (gs ++ [acc]) ell
                 end
               else None
           end
  end.

Definition expand_groups (r : string * list Z * option nat) : option (list Z) :=
  let '(s, gs, ell) := r in
  match s with
  | String _ _ => None
  | EmptyString =>
      if (length gs <? 8)%nat then
        match ell with
        | None => None
        | Some e => Some (take e gs ++ replicate (8 - length gs) 0 ++ drop e gs)
        end
      else match ell with Some _ => None | None => Some gs end
  end.

Definition parse6_groups (s : string) : option (list Z) :=
  match s with
  | String c1 (String c2 rest) =>
      if Ascii.eqb c1 ":" && Ascii.eqb c2 ":" then
        match rest with
        | EmptyString => Some (replicate 8 0)
        | _ => parse6_loop 8 rest [] (Some O) ≫= expand_groups
        end
      else parse6_loop 8 s [] None ≫= expand_groups
  | _ => parse6_loop 8 s [] None ≫= expand_groups
  end.

(** Splits off the zone of an IPv6 address; an empty zone is an error. *)
Fixpoint cut_zone (s : string) : option (string * string) :=
  match s with
  | EmptyString => Some (EmptyString, EmptyString)
  | String c s' =>
      if Ascii.eqb c "%" then
        match s' with EmptyString => None | _ => Some (EmptyString, s') end
      else '(a, z) ← cut_zone s'; Some (String c a, z)
  end.

Inductive Addr :=
  | Addr4 (b : list Byte.byte)
  | Addr6 (b : list Byte.byte) (zone : string).

(** The first of ['.'], [':'] and ['%'] decides the family. *)
Fixpoint addr_family (s : string) : option ascii :=
  match s with
  | EmptyString => None
  | String c s' =>
      if Ascii.eqb c "." || Ascii.eqb c ":" || Ascii.eqb c "%" then Some c
      else addr_family s'
  end.

(** [netip.ParseAddr]. *)
Definition ParseAddr (s : string) : option Addr :=
  match addr_family s with
  | Some c =>
      if Ascii.eqb c "." then b ← parse4 s; Some (Addr4 b)
      else if Ascii.eqb c ":" then
        '(a, z) ← cut_zone s; gs ← parse6_groups a; Some (Addr6 (group_bytes gs) z)
      else None
  | None => None
  end.

(** [net.ParseIP]: nil when the text is no address or has a zone. *)
Definition ParseIP (s : string) : IP :=
  match ParseAddr s with
  | Some (Addr4 b) => v4InV6Prefix ++ b
  | Some (Addr6 b EmptyString) => b
  | _ => []
  end.

(** Position of the first ['/'] as the two parts around it. *)
Fixpoint cut_char (sep : ascii) (s : string) : option (string * string) :=
  match s with
  | EmptyString => None
  | String c s' =>
      if Ascii.eqb c sep then Some (EmptyString, s')
      else '(a, b) ← cut_char sep s'; Some (String c a, b)
  end.

(** [net.ParseCIDR], the network it denotes. *)
Definition ParseCIDR (s : string) : option IPNet :=
  '(addr, mask) ← cut_char "/" s;
  a ← ParseAddr addr;
  n ← parse_uint 24 mask;
  match a with
  | Addr4 b =>
      if 32 <? n then None
      else let m := CIDRMask n 32 in Some (mkIPNet (IP_Mask (v4InV6Prefix ++ b) m) m)
  | Addr6 b EmptyString =>
      if 128 <? n then None
      else let m := CIDRMask n 128 in Some (mkIPNet (IP_Mask b m) m)
  | Addr6 _ _ => None
  end.
