(* ===== verification/GoNetFacts.v ===== *)
(** * Facts about the [net] model

    Big-endian words, the [To4]/[To16] normal forms, and the round trip between
    an address and its text ([ParseIP_String]). *)

From Stdlib Require Import Ascii.
From Stdlib Require String.
From stdpp Require Import prelude strings.
From S2P Require Import Prelude GoStrings GoNet.

#[local] Arguments String.append : simpl nomatch.

(** ** Big-endian words *)

Lemma lor_shiftl_add a b k :
  0 ≤ k → 0 ≤ a < 2 ^ k → Z.lor a (Z.shiftl b k) = a + b * 2 ^ k.
Proof.
  intros Hk Ha. rewrite Z.shiftl_mul_pow2 by done.
  rewrite <- Z.lxor_lor, <- Z.add_nocarry_lxor; [done| |];
    apply Z.bits_inj'; intros n Hn; rewrite Z.land_spec, Z.bits_0;
    (destruct (Z.lt_ge_cases n k);
      [rewrite (Z.mul_pow2_bits_low b) by done; by rewrite andb_false_r
      |rewrite <- (Z.mod_small a (2 ^ k)) by done;
       rewrite Z.mod_pow2_bits_high by lia; done]).
Qed.

Lemma be_uint32_eq b0 b1 b2 b3 l :
  be_uint32 (b0 :: b1 :: b2 :: b3 :: l) =
  Z_of_byte b0 * 2 ^ 24 + Z_of_byte b1 * 2 ^ 16 + Z_of_byte b2 * 2 ^ 8 + Z_of_byte b3.
Proof.
  cbn [be_uint32].
  pose proof (Z_of_byte_range b0); pose proof (Z_of_byte_range b1).
  pose proof (Z_of_byte_range b2); pose proof (Z_of_byte_range b3).
  replace 24 with (8 + 16) at 1 by done. rewrite <- (Z.shiftl_shiftl _ 8 16) by done.
  rewrite <- Z.shiftl_lor, (lor_shiftl_add _ _ 8) by lia.
  replace 16 with (8 + 8) at 1 by done. rewrite <- (Z.shiftl_shiftl _ 8 8) by done.
  rewrite <- Z.shiftl_lor, (lor_shiftl_add _ _ 8) by lia.
  rewrite (lor_shiftl_add _ _ 8) by lia. lia.
Qed.

Lemma be_uint32_range l : is_u32 (be_uint32 l).
Proof.
  destruct l as [|b0 [|b1 [|b2 [|b3 l]]]]; [cbn; unfold_words; lia..|].
  rewrite be_uint32_eq.
  pose proof (Z_of_byte_range b0); pose proof (Z_of_byte_range b1).
  pose proof (Z_of_byte_range b2); pose proof (Z_of_byte_range b3).
  unfold_words. lia.
Qed.

Lemma be_uint32_bytes32 v l : be_uint32 (be_bytes32 v ++ l) = w32 v.
Proof.
  unfold be_bytes32. cbn [app]. rewrite be_uint32_eq, !Z_of_byte_of_Z.
  rewrite !Z.shiftr_div_pow2 by lia. word_lia.
Qed.

Lemma be_bytes32_uint32 b0 b1 b2 b3 :
  be_bytes32 (be_uint32 [b0; b1; b2; b3]) = [b0; b1; b2; b3].
Proof.
  rewrite be_uint32_eq. unfold be_bytes32. rewrite !Z.shiftr_div_pow2 by lia.
  pose proof (Z_of_byte_range b0); pose proof (Z_of_byte_range b1).
  pose proof (Z_of_byte_range b2); pose proof (Z_of_byte_range b3).
  repeat (f_equal; [apply Z_of_byte_inj; rewrite Z_of_byte_of_Z; word_lia|]).
  f_equal. apply Z_of_byte_inj. rewrite Z_of_byte_of_Z. word_lia.
Qed.

(** ** [To4] and [To16] *)

Definition valid_ip (ip : IP) : Prop := length ip = 4%nat ∨ length ip = 16%nat.

#[export] Instance valid_ip_dec ip : Decision (valid_ip ip).
Proof. unfold valid_ip. apply _. Defined.

Lemma length4_inv {A} (l : list A) : length l = 4%nat → ∃ a b c d, l = [a; b; c; d].
Proof. destruct l as [|a [|b [|c [|d [|e l]]]]]; cbn; try lia. eauto. Qed.

Lemma To4_v4 ip : length ip = 4%nat → To4 ip = ip.
Proof. intros H. unfold To4. by rewrite H. Qed.

Lemma To4_mapped l : length l = 4%nat → To4 (v4InV6Prefix ++ l) = l.
Proof.
  intros (a & b & c & d & ->)%length4_inv. done.
Qed.

Lemma To4_length ip : To4 ip ≠ [] → length (To4 ip) = 4%nat.
Proof.
  unfold To4. destruct (Nat.eqb_spec (length ip) 4); [done|].
  destruct (Nat.eqb_spec (length ip) 16); cbn [andb]; [|done].
  case_bool_decide; [|done]. rewrite length_drop. lia.
Qed.

Lemma To16_length ip : valid_ip ip → length (To16 ip) = 16%nat.
Proof.
  unfold To16. intros [H|H]; rewrite H; cbn [Nat.eqb]; [|done].
  rewrite length_app, H. done.
Qed.

(** [To16] of a four-byte-representable address is its mapped form. *)
Lemma To16_of_To4 ip : To4 ip ≠ [] → To16 ip = v4InV6Prefix ++ To4 ip.
Proof.
  unfold To4, To16. destruct (Nat.eqb_spec (length ip) 4); [done|].
  destruct (Nat.eqb_spec (length ip) 16); cbn [andb]; [|done].
  case_bool_decide as E; [|done]. intros _. by rewrite <- E, take_drop.
Qed.

Lemma To16_To4_nil ip : valid_ip ip → To4 ip = [] → length ip = 16%nat ∧ To16 ip = ip.
Proof.
  intros [H|H] H4.
  - rewrite To4_v4 in H4 by done. by subst.
  - split; [done|]. unfold To16. by rewrite H.
Qed.

Lemma To4_To16 ip : valid_ip ip → To4 (To16 ip) = To4 ip.
Proof.
  intros H. destruct (decide (To4 ip = [])) as [E|E].
  - by destruct (To16_To4_nil ip H E) as [_ ->].
  - rewrite To16_of_To4 by done. by apply To4_mapped, To4_length.
Qed.

Lemma To16_idemp ip : valid_ip ip → To16 (To16 ip) = To16 ip.
Proof.
  intros H%To16_length. unfold To16 at 1. by rewrite H.
Qed.

Lemma is_nil_true ip : is_nil ip = true ↔ ip = [].
Proof. by destruct ip. Qed.

Lemma is_nil_false ip : is_nil ip = false ↔ ip ≠ [].
Proof. by destruct ip. Qed.

(** ** The dotted form *)

(** Reading the digits of one octet, whatever follows. *)
Lemma parse4_go_dec b rest fs :
  ∃ dl, dl ≠ 0 ∧ parse4_go (dec_byte b +:+ rest) fs 0 0 = parse4_go rest fs (Z_of_byte b) dl.
Proof.
  destruct b; eexists; (split; [|vm_compute dec_byte; cbn; reflexivity]); done.
Qed.

Lemma dec_byte_nonempty b t : dec_byte b +:+ t ≠ EmptyString.
Proof. unfold dec_byte. pose proof (dec_nonneg_nonempty (Z_of_byte b)). by destruct dec_nonneg. Qed.

Lemma parse4_go_dot b rest fs :
  rest ≠ EmptyString → length fs ≠ 3%nat →
  parse4_go (dec_byte b +:+ String "." rest) fs 0 0 =
  parse4_go rest (fs ++ [Z_of_byte b]) 0 0.
Proof.
  intros Hr Hl. destruct (parse4_go_dec b (String "." rest) fs) as (dl & Hdl & ->).
  cbn. destruct (Z.eqb_spec dl 0); [done|]. destruct rest; [done|]. cbn [orb].
  by destruct (Nat.eqb_spec (length fs) 3).
Qed.

Lemma parse4_fmt4 l : length l = 4%nat → parse4 (fmt4 l) = Some l.
Proof.
  intros (a & b & c & d & ->)%length4_inv.
  unfold parse4, fmt4. cbn [fmap list_fmap join_with].
  change ("." +:+ ?s) with (String "." s).
  rewrite !str_app_assoc || idtac.
  rewrite parse4_go_dot by (done || apply dec_byte_nonempty).
  change ("." +:+ ?s) with (String "." s).
  rewrite parse4_go_dot by (done || apply dec_byte_nonempty).
  change ("." +:+ ?s) with (String "." s).
  rewrite parse4_go_dot.
  2: { rewrite <- (str_app_nil_r (dec_byte d)). apply dec_byte_nonempty. }
  2: done.
  rewrite <- (str_app_nil_r (dec_byte d)).
  destruct (parse4_go_dec d EmptyString [Z_of_byte a; Z_of_byte b; Z_of_byte c])
    as (dl & _ & Heq).
  cbn [app] in *. rewrite Heq. cbn. by rewrite !byte_of_Z_of_byte.
Qed.

(** ** The colon form *)

Definition is_u16 (g : Z) : Prop := 0 ≤ g < 65536.

(** A character the group reader stops at. *)
Definition stops (s : string) : Prop :=
  match s with String c _ => hex_val c = None | EmptyString => True end.

Lemma hex_run_stops s off acc : stops s → hex_run s off acc = Some (off, acc, s).
Proof. destruct s; cbn; [done|]. by intros ->. Qed.

Lemma hex_run_digit d s off acc :
  0 ≤ d < 16 → (off ≤ 3)%nat →
  hex_run (String (hex_char d) s) off acc = hex_run s (S off) (acc * 16 + d).
Proof.
  intros Hd Ho. cbn [hex_run]. rewrite hex_val_hex_char by done.
  destruct (Nat.ltb_spec 3 off); [lia|done].
Qed.

(** One printed group is read back, with a positive number of digits. *)
Lemma hex_run_hex16 g s :
  is_u16 g → stops s →
  ∃ off, off ≠ O ∧ hex_run (hex16 g +:+ s) 0 0 = Some (off, g, s).
Proof.
  intros Hg Hs. unfold is_u16 in Hg. unfold hex16.
  rewrite !Z.shiftr_div_pow2 by lia.
  destruct (Z.leb_spec 4096 g); [|destruct (Z.leb_spec 256 g); [|destruct (Z.leb_spec 16 g)]];
    repeat match goal with |- context [?a <=? g] => destruct (Z.leb_spec a g); [|lia] end;
    cbn [String.append];
    eexists; (split; [|
      repeat (rewrite hex_run_digit by ((apply Z.mod_pos_bound; lia) || lia));
      rewrite hex_run_stops by done; do 2 f_equal; [f_equal]; word_lia]); done.
Qed.

(** A printed group starts with a hexadecimal digit. *)
Lemma hex16_head g t :
  is_u16 g → ∃ c r d, hex16 g +:+ t = String c r ∧ hex_val c = Some d.
Proof.
  intros Hg. destruct (hex_run_hex16 g EmptyString Hg I) as (off & Hoff & Hrun).
  rewrite str_app_nil_r in Hrun.
  destruct (hex16 g) as [|c r]; cbn in Hrun; [by injection Hrun as <-|].
  destruct (hex_val c) as [d|] eqn:E; [by exists c, (r +:+ t), d|].
  injection Hrun as <- _ _. done.
Qed.

Lemma fmt_groups_cons g g' gs :
  fmt_groups (g :: g' :: gs) = hex16 g +:+ String ":" (fmt_groups (g' :: gs)).
Proof. done. Qed.

Lemma fmt_groups_head g gs t :
  is_u16 g → ∃ c r d, fmt_groups (g :: gs) +:+ t = String c r ∧ hex_val c = Some d.
Proof.
  intros Hg. destruct gs as [|g' gs]; [by apply hex16_head|].
  rewrite fmt_groups_cons, str_app_assoc. by apply hex16_head.
Qed.

Lemma hex_digit_not_sep c d :
  hex_val c = Some d →
  Ascii.eqb c ":" = false ∧ Ascii.eqb c "." = false ∧ Ascii.eqb c "%" = false.
Proof.
  intros H. repeat split; apply Ascii.eqb_neq; intros ->; vm_compute in H; done.
Qed.

Lemma parse6_loop_last n g gs ell :
  is_u16 g → parse6_loop (S n) (hex16 g) gs ell = Some (EmptyString, gs ++ [g], ell).
Proof.
  intros Hg. destruct (hex_run_hex16 g EmptyString Hg I) as (off & Hoff & Hrun).
  rewrite str_app_nil_r in Hrun. cbn. rewrite Hrun. cbn. by destruct off.
Qed.

Lemma parse6_loop_colon n g rest gs ell c r d :
  is_u16 g → rest = String c r → hex_val c = Some d →
  parse6_loop (S n) (hex16 g +:+ String ":" rest) gs ell =
  parse6_loop n rest (gs ++ [g]) ell.
Proof.
  intros Hg -> Hc.
  destruct (hex_run_hex16 g (String ":" (String c r)) Hg eq_refl) as (off & Hoff & Hrun).
  cbn [parse6_loop]. rewrite Hrun. cbn.
  destruct (hex_digit_not_sep c d Hc) as (-> & _ & _). by destruct off.
Qed.

Lemma parse6_loop_ellipsis n g rest gs :
  is_u16 g →
  parse6_loop (S n) (hex16 g +:+ String ":" (String ":" rest)) gs None =
  match rest with
  | EmptyString => Some (EmptyString, gs ++ [g], Some (length (gs ++ [g])))
  | _ => parse6_loop n rest (gs ++ [g]) (Some (length (gs ++ [g])))
  end.
Proof.
  intros Hg.
  destruct (hex_run_hex16 g (String ":" (String ":" rest)) Hg eq_refl) as (off & Hoff & Hrun).
  cbn [parse6_loop]. rewrite Hrun. cbn. by destruct off.
Qed.

(** A whole sequence of printed groups is read back. *)
Lemma parse6_loop_groups l n gs ell :
  Forall is_u16 l → l ≠ [] → (length l ≤ n)%nat →
  parse6_loop n (fmt_groups l) gs ell = Some (EmptyString, gs ++ l, ell).
Proof.
  revert n gs. induction l as [|g l IH]; intros n gs Hl Hne Hn; [done|].
  apply Forall_cons in Hl as [Hg Hl]. destruct n as [|n]; [cbn in Hn; lia|].
  destruct l as [|g' l]; [by apply parse6_loop_last|].
  rewrite fmt_groups_cons.
  destruct (fmt_groups_head g' l EmptyString ltac:(by apply Forall_cons in Hl as [? _]))
    as (c & r & d & Heq & Hc). rewrite str_app_nil_r in Heq.
  erewrite parse6_loop_colon by eauto.
  rewrite IH by (done || cbn in *; lia). by rewrite <- app_assoc.
Qed.

(** Groups before a "::": the loop goes on after it, or stops at the end. *)
Lemma parse6_loop_before_ellipsis l n gs rest :
  Forall is_u16 l → l ≠ [] → (length l ≤ n)%nat →
  parse6_loop n (fmt_groups l +:+ String ":" (String ":" rest)) gs None =
  match rest with
  | EmptyString => Some (EmptyString, gs ++ l, Some (length (gs ++ l)))
  | _ => parse6_loop (n - length l) rest (gs ++ l) (Some (length (gs ++ l)))
  end.
Proof.
  revert n gs. induction l as [|g l IH]; intros n gs Hl Hne Hn; [done|].
  apply Forall_cons in Hl as [Hg Hl]. destruct n as [|n]; [cbn in Hn; lia|].
  destruct l as [|g' l].
  - change (fmt_groups [g]) with (hex16 g). rewrite parse6_loop_ellipsis by done.
    cbn [length Nat.sub]. by rewrite Nat.sub_0_r.
  - rewrite fmt_groups_cons, str_app_assoc.
    change (String ":" ?a +:+ ?b) with (String ":" (a +:+ b)).
    destruct (fmt_groups_head g' l (String ":" (String ":" rest))
      ltac:(by apply Forall_cons in Hl as [? _])) as (c & r & d & Heq & Hc).
    erewrite parse6_loop_colon by eauto.
    rewrite IH by (done || cbn in *; lia). rewrite <- !app_assoc. cbn [length Nat.sub app].
    done.
Qed.

Lemma zero_run_spec gs : gs = replicate (zero_run gs) 0 ++ drop (zero_run gs) gs.
Proof.
  induction gs as [|g gs IH]; [done|]. cbn. destruct (Z.eqb_spec g 0) as [->|]; [|done].
  cbn. by f_equal.
Qed.

Lemma zero_run_le gs : (zero_run gs ≤ length gs)%nat.
Proof. induction gs; cbn; [lia|]. case_match; lia. Qed.

(** A compressible run: at least two zero groups between [s] and [e]. *)
Definition run_ok (gs : list Z) (r : option (nat * nat)) : Prop :=
  match r with
  | None => True
  | Some (s, e) =>
      (s + 2 ≤ e ≤ length gs)%nat ∧ gs = take s gs ++ replicate (e - s) 0 ++ drop e gs
  end.

Lemma best_run_ok pre tl best :
  run_ok (pre ++ tl) best → run_ok (pre ++ tl) (best_run (length pre) tl best).
Proof.
  revert pre best. induction tl as [|g tl IH]; intros pre best Hb; [done|].
  cbn [best_run]. rewrite cons_middle, app_assoc in *.
  replace (S (length pre)) with (length (pre ++ [g])) by (rewrite length_app; cbn; lia).
  apply IH. case_match eqn:E; [|done].
  apply andb_true_iff in E as [E1%Nat.leb_le _].
  rewrite <- app_assoc. cbn [app]. set (tl' := g :: tl) in *.
  pose proof (zero_run_le tl') as Hle. split; [rewrite length_app; lia|].
  rewrite take_app_length, drop_app_add.
  replace (length pre + zero_run tl' - length pre)%nat with (zero_run tl') by lia.
  f_equal. apply zero_run_spec.
Qed.

Lemma u16_groups_wf l : Forall is_u16 (u16_groups l).
Proof.
  revert l. fix IH 1. intros [|a [|b l]]; cbn; constructor; [|apply IH].
  pose proof (Z_of_byte_range a). pose proof (Z_of_byte_range b). unfold is_u16. lia.
Qed.

Lemma group_bytes_u16 l n :
  length l = (2 * n)%nat → length (u16_groups l) = n ∧ group_bytes (u16_groups l) = l.
Proof.
  revert l. induction n as [|n IH]; intros l Hl; [by destruct l|].
  destruct l as [|a [|b l]]; [cbn in Hl; lia..|].
  destruct (IH l ltac:(cbn in Hl; lia)) as [IH1 IH2].
  split; [cbn; congruence|]. unfold group_bytes in *. cbn. rewrite IH2.
  pose proof (Z_of_byte_range a). pose proof (Z_of_byte_range b).
  f_equal; [|f_equal]; apply Z_of_byte_inj; rewrite Z_of_byte_of_Z;
    rewrite ?Z.shiftr_div_pow2 by lia; word_lia.
Qed.

Lemma fmt_groups_nonempty l :
  Forall is_u16 l → l ≠ [] → ∃ c r d, fmt_groups l = String c r ∧ hex_val c = Some d.
Proof.
  intros Hl Hne. destruct l as [|g l]; [done|]. apply Forall_cons in Hl as [Hg _].
  rewrite <- (str_app_nil_r (fmt_groups _)). by apply fmt_groups_head.
Qed.

(** A text that starts with a digit is read without a leading "::". *)
Lemma parse6_groups_digit c r d :
  hex_val c = Some d →
  parse6_groups (String c r) = parse6_loop 8 (String c r) [] None ≫= expand_groups.
Proof.
  intros Hc. cbn [parse6_groups]. destruct r; [done|].
  by rewrite (proj1 (hex_digit_not_sep c d Hc)).
Qed.

Lemma parse6_plain l :
  Forall is_u16 l → length l = 8%nat → parse6_groups (fmt_groups l) = Some l.
Proof.
  intros Hl Hlen. assert (l ≠ []) as Hne by by intros ->.
  destruct (fmt_groups_nonempty l Hl Hne) as (c & r & d & Heq & Hc).
  pose proof (parse6_loop_groups l 8 [] None Hl Hne ltac:(lia)) as Hp.
  rewrite Heq in *. rewrite (parse6_groups_digit c r d Hc), Hp. cbn. by rewrite Hlen.
Qed.

Lemma expand_groups_ellipsis a b :
  (length a + length b < 8)%nat →
  expand_groups (EmptyString, a ++ b, Some (length a)) =
  Some (a ++ replicate (8 - (length a + length b)) 0 ++ b).
Proof.
  intros H. cbn [expand_groups]. rewrite length_app.
  destruct (Nat.ltb_spec (length a + length b) 8); [|lia].
  by rewrite take_app_length, drop_app_length.
Qed.

(** A text with a "::" between two sequences of groups. *)
Lemma parse6_ellipsis a b :
  Forall is_u16 a → Forall is_u16 b → (length a + length b < 8)%nat →
  parse6_groups (fmt_groups a +:+ String ":" (String ":" (fmt_groups b))) =
  Some (a ++ replicate (8 - (length a + length b)) 0 ++ b).
Proof.
  intros Ha Hb Hlen. rewrite <- expand_groups_ellipsis by done.
  destruct (decide (a = [])) as [->|Hne].
  - cbn [fmt_groups fmap list_fmap join_with String.append parse6_groups].
    rewrite !Ascii.eqb_refl. cbn [andb app length].
    destruct (decide (b = [])) as [->|Hbne]; [done|].
    destruct (fmt_groups_nonempty b Hb Hbne) as (c & r & d & Heq & _).
    pose proof (parse6_loop_groups b 8 [] (Some O) Hb Hbne ltac:(lia)) as Hp.
    rewrite Heq in *. by rewrite Hp.
  - pose proof (parse6_loop_before_ellipsis a 8 [] (fmt_groups b) Ha Hne ltac:(lia)) as Hp.
    destruct (fmt_groups_nonempty a Ha Hne) as (c & r & d & Heq & Hc).
    rewrite Heq in *. cbn [String.append] in *.
    rewrite (parse6_groups_digit _ _ d Hc), Hp. cbn [app].
    destruct (decide (b = [])) as [->|Hbne]; [by rewrite app_nil_r|].
    destruct (fmt_groups_nonempty b Hb Hbne) as (c' & r' & d' & Heq' & _).
    pose proof (parse6_loop_groups b (8 - length a) a (Some (length a)) Hb Hbne ltac:(lia)) as Hp'.
    rewrite Heq' in *. by rewrite Hp'.
Qed.

(** The group printer and the group reader are inverse. *)
Lemma parse6_fmt6 gs :
  Forall is_u16 gs → length gs = 8%nat → parse6_groups (fmt6 gs) = Some gs.
Proof.
  intros Hgs Hlen. unfold fmt6.
  pose proof (best_run_ok [] gs None I) as Hrun. cbn [app length] in Hrun.
  destruct (best_run 0 gs None) as [[zs ze]|]; [|by apply parse6_plain].
  destruct Hrun as [Hbnd Heq].
  change ("::" +:+ ?s) with (String ":" (String ":" s)).
  assert (length (take zs gs) + length (drop ze gs) = 8 - (ze - zs))%nat as Hl
    by (rewrite length_take, length_drop; lia).
  rewrite parse6_ellipsis by (auto using Forall_take, Forall_drop; lia).
  rewrite Hl. replace (8 - (8 - (ze - zs)))%nat with (ze - zs)%nat by lia. by rewrite <- Heq.
Qed.

(** ** The round trip *)

Lemma addr_family_digits s t :
  str_forallb (λ c, negb (Ascii.eqb c "." || Ascii.eqb c ":" || Ascii.eqb c "%")) s = true →
  addr_family (s +:+ t) = addr_family t.
Proof.
  induction s as [|c s IH]; cbn; [done|]. intros [H1 H2]%andb_true_iff.
  apply negb_true_iff in H1. rewrite H1. auto.
Qed.

Lemma cut_zone_none s :
  str_forallb (λ c, negb (Ascii.eqb c "%")) s = true → cut_zone s = Some (s, EmptyString).
Proof.
  induction s as [|c s IH]; cbn; [done|]. intros [H1 H2]%andb_true_iff.
  apply negb_true_iff in H1. rewrite H1, IH by done. done.
Qed.

Lemma str_forallb_impl (P Q : ascii → bool) s :
  (∀ c, P c = true → Q c = true) → str_forallb P s = true → str_forallb Q s = true.
Proof. intros HPQ. induction s; cbn; [done|]. rewrite !andb_true_iff. intros []; auto. Qed.

Definition is_hex (c : ascii) : bool := bool_decide (is_Some (hex_val c)).

Lemma hex_char_is_hex d : 0 ≤ d < 16 → is_hex (hex_char d) = true.
Proof. intros. apply bool_decide_eq_true_2. rewrite hex_val_hex_char by done. eauto. Qed.

Lemma hex16_is_hex g : str_forallb is_hex (hex16 g) = true.
Proof.
  unfold hex16. rewrite !str_forallb_app.
  assert (∀ k, is_hex (hex_char (Z.shiftr g k `mod` 16)) = true) as Hk
    by (intros; apply hex_char_is_hex, Z.mod_pos_bound; lia).
  repeat case_match; cbn; by rewrite ?Hk.
Qed.

Lemma is_hex_not_sep c :
  is_hex c = true → negb (Ascii.eqb c "." || Ascii.eqb c ":" || Ascii.eqb c "%") = true.
Proof.
  intros [d Hd]%bool_decide_eq_true. by destruct (hex_digit_not_sep c d Hd) as (-> & -> & ->).
Qed.

Lemma fmt_groups_no_zone l : str_forallb (λ c, negb (Ascii.eqb c "%")) (fmt_groups l) = true.
Proof.
  assert (∀ g, str_forallb (λ c, negb (Ascii.eqb c "%")) (hex16 g) = true) as Hg.
  { intros g. eapply str_forallb_impl; [|apply hex16_is_hex].
    intros c Hc%is_hex_not_sep. destruct (Ascii.eqb c "%"); [|done].
    by rewrite orb_true_r in Hc. }
  induction l as [|g [|g' l] IH]; [done|apply Hg|].
  rewrite fmt_groups_cons, str_forallb_app, Hg. done.
Qed.

Lemma fmt6_no_zone gs : str_forallb (λ c, negb (Ascii.eqb c "%")) (fmt6 gs) = true.
Proof.
  unfold fmt6. destruct best_run as [[zs ze]|]; [|apply fmt_groups_no_zone].
  by rewrite !str_forallb_app, !fmt_groups_no_zone.
Qed.

Lemma fmt_groups_family g g' l t :
  addr_family (fmt_groups (g :: g' :: l) +:+ t) = Some ":"%char.
Proof.
  rewrite fmt_groups_cons, str_app_assoc, addr_family_digits; [done|].
  eapply str_forallb_impl; [apply is_hex_not_sep|apply hex16_is_hex].
Qed.

Lemma fmt6_family gs : length gs = 8%nat → addr_family (fmt6 gs) = Some ":"%char.
Proof.
  intros Hlen. unfold fmt6. destruct best_run as [[zs ze]|].
  - destruct (take zs gs) as [|g [|g' l]]; [done| |apply fmt_groups_family].
    rewrite addr_family_digits; [done|].
    eapply str_forallb_impl; [apply is_hex_not_sep|apply hex16_is_hex].
  - destruct gs as [|g [|g' l]]; [done..|].
    rewrite <- (str_app_nil_r (fmt_groups _)). apply fmt_groups_family.
Qed.

Lemma fmt4_family l : length l = 4%nat → addr_family (fmt4 l) = Some "."%char.
Proof.
  intros (a & b & c & d & ->)%length4_inv. unfold fmt4. cbn [fmap list_fmap join_with].
  rewrite addr_family_digits; [done|]. eapply str_forallb_impl; [|apply dec_nonneg_digits].
  intros x Hx. unfold is_digit in Hx.
  assert (∀ k, Ascii.eqb x k = true → 48 ≤ code k ≤ 57) as Hk.
  { intros k ->%Ascii.eqb_eq. lia. }
  destruct (Ascii.eqb x ".") eqn:E1; [apply Hk in E1; change (code ".") with 46 in E1; lia|].
  destruct (Ascii.eqb x ":") eqn:E2; [apply Hk in E2; change (code ":") with 58 in E2; lia|].
  destruct (Ascii.eqb x "%") eqn:E3; [apply Hk in E3; change (code "%") with 37 in E3; lia|]. done.
Qed.

(** Parsing the text of a valid address gives the sixteen-byte form of the
    address back. *)
Lemma ParseIP_String ip : valid_ip ip → ParseIP (IP_String ip) = To16 ip.
Proof.
  intros Hv. unfold IP_String.
  replace (Nat.eqb (length ip) 0) with false by (destruct Hv as [-> | ->]; done).
  replace (Nat.eqb (length ip) 4 || Nat.eqb (length ip) 16) with true
    by (destruct Hv as [-> | ->]; done).
  cbn [negb]. destruct (is_nil (To4 ip)) eqn:E.
  - apply is_nil_true in E. destruct (To16_To4_nil ip Hv E) as [Hlen ->].
    destruct (group_bytes_u16 ip 8 Hlen) as [Hg1 Hg2].
    unfold ParseIP, ParseAddr. rewrite fmt6_family by done. cbn [Ascii.eqb].
    change (Ascii.eqb ":" ".") with false. change (Ascii.eqb ":" ":") with true. cbv iota.
    rewrite cut_zone_none by apply fmt6_no_zone. cbn [mbind option_bind].
    rewrite parse6_fmt6 by (done || apply u16_groups_wf). cbn. by rewrite Hg2.
  - apply is_nil_false in E. rewrite To16_of_To4 by done.
    unfold ParseIP, ParseAddr. rewrite fmt4_family by (by apply To4_length).
    change (Ascii.eqb "." ".") with true. cbv iota.
    by rewrite parse4_fmt4 by (by apply To4_length).
Qed.

(** ** Lemmas: cutting at a character *)

Lemma cut_char_some sep s a b : cut_char sep s = Some (a, b) → s = a +:+ String sep b.
Proof.
  revert a. induction s as [|c s IH]; intros a; cbn; [done|].
  destruct (Ascii.eqb_spec c sep) as [->|Hne]; [by intros [= <- <-]|].
  destruct (cut_char sep s) as [[a' b']|] eqn:E; cbn; [|done]. intros [= <- <-].
  by rewrite (IH a' eq_refl).
Qed.

Lemma cut_char_first sep a b :
  contains_char a sep = false → cut_char sep (a +:+ String sep b) = Some (a, b).
Proof.
  unfold contains_char. induction a as [|c a IH]; cbn [String.append cut_char str_existsb].
  - by rewrite Ascii.eqb_refl.
  - rewrite Ascii.eqb_sym. destruct (Ascii.eqb c sep); [done|]. intros H. cbn [orb] in H. by rewrite IH.
Qed.
