(* ===== verification/GoNetMask.v ===== *)
(** * CIDR masks and networks

    A network contains an address exactly when both agree above the mask: the
    byte-wise comparison of [IPNet.Contains] is an integer division.  Printing a
    network and parsing it back gives the network. *)

From Stdlib Require Import Ascii.
From Stdlib Require String.
From stdpp Require Import prelude gmap strings.
From S2P Require Import Prelude GoStrings GoNet GoNetFacts.

#[local] Arguments String.append : simpl nomatch.

(** ** Definitions *)

(** The integer a byte string denotes, most significant byte first. *)
Fixpoint be_val (l : list Byte.byte) : Z :=
  match l with
  | [] => 0
  | b :: l' => Z_of_byte b * 2 ^ (8 * Z.of_nat (length l')) + be_val l'
  end.

(** The block of size [2 ^ (bits - ones)] an address lies in. *)
Definition block (bits ones : Z) (l : list Byte.byte) : Z := be_val l / 2 ^ (bits - ones).

(** ** Lemmas: values of byte strings *)

Lemma be_val_range l : 0 ≤ be_val l < 2 ^ (8 * Z.of_nat (length l)).
Proof.
  induction l as [|b l IH]; cbn [be_val length]; [cbn; lia|].
  pose proof (Z_of_byte_range b).
  replace (8 * Z.of_nat (S (length l))) with (8 + 8 * Z.of_nat (length l)) by lia.
  rewrite Z.pow_add_r by lia. change (2 ^ 8) with 256. nia.
Qed.

Lemma be_val_app l k : be_val (l ++ k) = be_val l * 2 ^ (8 * Z.of_nat (length k)) + be_val k.
Proof.
  induction l as [|b l IH]; cbn [be_val app]; [lia|].
  rewrite IH, length_app.
  replace (8 * Z.of_nat (length l + length k)) with (8 * Z.of_nat (length l) + 8 * Z.of_nat (length k)) by lia.
  rewrite Z.pow_add_r by lia. lia.
Qed.

Lemma be_val_bytes32 v : be_val (be_bytes32 v) = w32 v.
Proof.
  unfold be_bytes32. cbn [be_val length]. rewrite !Z_of_byte_of_Z, !Z.shiftr_div_pow2 by lia.
  cbn. word_lia.
Qed.

Lemma be_val_uint32 l : length l = 4%nat → be_val l = be_uint32 l.
Proof.
  intros (a & b & c & d & ->)%length4_inv. rewrite be_uint32_eq. cbn [be_val length]. cbn. lia.
Qed.

(** ** Lemmas: masked comparison *)

(** What one partial mask byte keeps; checked on all bytes. *)
Definition mask_check (b : Byte.byte) (n : Z) : bool :=
  bool_decide (byte_and b (byte_of_Z (Z.lnot (Z.shiftr 255 n))) =
               byte_of_Z (Z_of_byte b / 2 ^ (8 - n) * 2 ^ (8 - n))).

Lemma mask_check_all b : forallb (mask_check b) [0; 1; 2; 3; 4; 5; 6; 7] = true.
Proof. destruct b; vm_compute; reflexivity. Qed.

Lemma byte_and_mask b n :
  0 ≤ n < 8 →
  byte_and b (byte_of_Z (Z.lnot (Z.shiftr 255 n))) = byte_of_Z (Z_of_byte b / 2 ^ (8 - n) * 2 ^ (8 - n)).
Proof.
  intros Hn. pose proof (proj1 (forallb_forall _ _) (mask_check_all b) n) as H.
  apply bool_decide_eq_true in H; [done|]. cbn. lia.
Qed.

Lemma byte_and_ff b : byte_and b Byte.xff = b.
Proof. destruct b; vm_compute; reflexivity. Qed.

Lemma byte_and_mask_eq b c n :
  0 ≤ n < 8 →
  byte_and b (byte_of_Z (Z.lnot (Z.shiftr 255 n))) = byte_and c (byte_of_Z (Z.lnot (Z.shiftr 255 n))) ↔
  Z_of_byte b / 2 ^ (8 - n) = Z_of_byte c / 2 ^ (8 - n).
Proof.
  intros Hn. rewrite !byte_and_mask by done. split; [|by intros ->]. intros E.
  apply (f_equal Z_of_byte) in E. rewrite !Z_of_byte_of_Z in E.
  pose proof (Z_of_byte_range b); pose proof (Z_of_byte_range c).
  assert (0 < 2 ^ (8 - n)) by (apply Z.pow_pos_nonneg; lia).
  assert (∀ x, 0 ≤ x < 256 → 0 ≤ x / 2 ^ (8 - n) * 2 ^ (8 - n) < 256) as Hsm.
  { intros x Hx. pose proof (Z.mul_div_le x (2 ^ (8 - n)) ltac:(lia)).
    pose proof (Z.div_pos x (2 ^ (8 - n))). nia. }
  rewrite !Z.mod_small in E by auto. nia.
Qed.

Lemma length_mask_bytes len n : length (mask_bytes len n) = len.
Proof. revert n. induction len; intros n; cbn; [done|]. case_match; cbn; by f_equal. Qed.

Lemma masked_zero l k n :
  n = 0 → length l = length k →
  zip_with byte_and l (mask_bytes (length l) n) = zip_with byte_and k (mask_bytes (length k) n).
Proof.
  intros ->. revert k. induction l as [|b l IH]; intros [|c k]; cbn; [done..|].
  intros [= Hl]. rewrite (IH k Hl). f_equal.
  change Byte.x00 with (byte_of_Z (Z.lnot (Z.shiftr 255 0))).
  apply byte_and_mask_eq; [lia|].
  pose proof (Z_of_byte_range b); pose proof (Z_of_byte_range c).
  rewrite !Z.div_small; cbn; lia.
Qed.

(** The byte-wise test of [IPNet.Contains]. *)
Lemma masked_eq l k n :
  length l = length k → 0 ≤ n ≤ 8 * Z.of_nat (length l) →
  zip_with byte_and l (mask_bytes (length l) n) = zip_with byte_and k (mask_bytes (length k) n) ↔
  block (8 * Z.of_nat (length l)) n l = block (8 * Z.of_nat (length k)) n k.
Proof.
  unfold block. revert k n. induction l as [|b l IH]; intros [|c k] n; cbn [length]; [done..|].
  intros [= Hl] Hn. cbn [mask_bytes be_val]. rewrite <- Hl.
  pose proof (be_val_range l) as Rl. pose proof (be_val_range k) as Rk. rewrite <- Hl in Rk.
  set (L := 8 * Z.of_nat (length l)) in *.
  replace (8 * Z.of_nat (S (length l))) with (L + 8) in * by (subst L; lia).
  assert (0 ≤ L) by (subst L; lia).
  destruct (Z.leb_spec 8 n).
  - cbn [zip_with]. rewrite !byte_and_ff.
    replace (L + 8 - n) with (L - (n - 8)) by lia.
    assert (2 ^ L = 2 ^ (n - 8) * 2 ^ (L - (n - 8))) as -> by (rewrite <- Z.pow_add_r by lia; f_equal; lia).
    assert (0 < 2 ^ (L - (n - 8))) by (apply Z.pow_pos_nonneg; lia).
    rewrite !Z.mul_assoc, !Z.div_add_l by lia.
    specialize (IH k (n - 8) Hl ltac:(lia)). fold L in IH. rewrite <- Hl in IH. fold L in IH.
    assert (∀ x, 0 ≤ x < 2 ^ L → 0 ≤ x / 2 ^ (L - (n - 8)) < 2 ^ (n - 8)) as Hd.
    { intros x Hx. split; [apply Z.div_pos; lia|]. apply Z.div_lt_upper_bound; [lia|].
      rewrite <- Z.pow_add_r by lia. replace (L - (n - 8) + (n - 8)) with L by lia. lia. }
    pose proof (Hd _ Rl). pose proof (Hd _ Rk). split.
    + intros [= -> E]. apply IH in E. by rewrite E.
    + intros E. assert (Z_of_byte b = Z_of_byte c) as Hbc by nia.
      apply Z_of_byte_inj in Hbc as ->. f_equal. apply IH. lia.
  - cbn [zip_with].
    replace (L + 8 - n) with (L + (8 - n)) by lia. rewrite Z.pow_add_r by lia.
    assert (0 < 2 ^ L) by (apply Z.pow_pos_nonneg; lia).
    assert (0 < 2 ^ (8 - n)) by (apply Z.pow_pos_nonneg; lia).
    rewrite <- !Z.div_div by lia. rewrite !Z.div_add_l by lia.
    rewrite (Z.div_small (be_val l)), (Z.div_small (be_val k)), !Z.add_0_r by lia.
    rewrite <- byte_and_mask_eq by lia. split; [by intros [= -> _]|].
    intros ->. f_equal. pose proof (masked_zero l k 0 eq_refl Hl) as E. by rewrite <- Hl in E.
Qed.

(** Masking clears the bits below the mask. *)
Lemma masked_val l n :
  0 ≤ n ≤ 8 * Z.of_nat (length l) →
  be_val (zip_with byte_and l (mask_bytes (length l) n)) =
  block (8 * Z.of_nat (length l)) n l * 2 ^ (8 * Z.of_nat (length l) - n).
Proof.
  unfold block. revert n. induction l as [|b l IH]; intros n; cbn [length]; [done|].
  intros Hn. cbn [mask_bytes be_val]. pose proof (be_val_range l) as Rl.
  pose proof (length_mask_bytes (length l)) as Hlm.
  assert (∀ n, length (zip_with byte_and l (mask_bytes (length l) n)) = length l) as Hlz
    by (intros; rewrite length_zip_with, Hlm; lia).
  set (L := 8 * Z.of_nat (length l)) in *.
  replace (8 * Z.of_nat (S (length l))) with (L + 8) in * by (subst L; lia).
  assert (0 ≤ L) by (subst L; lia).
  destruct (Z.leb_spec 8 n); cbn [zip_with be_val]; rewrite Hlz; fold L.
  - rewrite byte_and_ff, IH by lia. replace (L + 8 - n) with (L - (n - 8)) by lia.
    assert (2 ^ L = 2 ^ (n - 8) * 2 ^ (L - (n - 8))) as -> by (rewrite <- Z.pow_add_r by lia; f_equal; lia).
    assert (0 < 2 ^ (L - (n - 8))) by (apply Z.pow_pos_nonneg; lia).
    rewrite !Z.mul_assoc, !Z.div_add_l by lia. lia.
  - rewrite IH, Z.sub_0_r by lia. rewrite (Z.div_small (be_val l)) by lia.
    replace (L + 8 - n) with (L + (8 - n)) by lia. rewrite Z.pow_add_r by lia.
    assert (0 < 2 ^ L) by (apply Z.pow_pos_nonneg; lia).
    assert (0 < 2 ^ (8 - n)) by (apply Z.pow_pos_nonneg; lia).
    rewrite <- !Z.div_div by lia. rewrite !Z.div_add_l by lia.
    rewrite (Z.div_small (be_val l)), !Z.add_0_r by lia.
    rewrite byte_and_mask by lia. rewrite Z_of_byte_of_Z.
    pose proof (Z_of_byte_range b). pose proof (Z.mul_div_le (Z_of_byte b) (2 ^ (8 - n)) ltac:(lia)).
    pose proof (Z.div_pos (Z_of_byte b) (2 ^ (8 - n))).
    rewrite Z.mod_small by nia. lia.
Qed.

(** ** Lemmas: printing and parsing a network *)

Lemma cut_char_app sep s t :
  str_forallb (λ c, negb (Ascii.eqb c sep)) s = true →
  cut_char sep (s +:+ String sep t) = Some (s, t).
Proof.
  induction s as [|c s IH]; cbn; [by rewrite Ascii.eqb_refl|].
  intros [H1 H2]%andb_true_iff. apply negb_true_iff in H1. by rewrite H1, IH.
Qed.

Lemma fmt_groups_chars l : str_forallb (λ c, is_hex c || Ascii.eqb c ":") (fmt_groups l) = true.
Proof.
  assert (∀ g, str_forallb (λ c, is_hex c || Ascii.eqb c ":") (hex16 g) = true) as Hg.
  { intros g. eapply str_forallb_impl; [|apply hex16_is_hex]. intros c Hc. by rewrite Hc. }
  induction l as [|g [|g' l] IH]; [done|apply Hg|].
  rewrite fmt_groups_cons, str_forallb_app, Hg. done.
Qed.

Lemma fmt6_chars gs : str_forallb (λ c, is_hex c || Ascii.eqb c ":") (fmt6 gs) = true.
Proof.
  unfold fmt6. destruct best_run as [[zs ze]|]; [|apply fmt_groups_chars].
  by rewrite !str_forallb_app, !fmt_groups_chars.
Qed.

Lemma fmt6_no_slash gs : str_forallb (λ c, negb (Ascii.eqb c "/")) (fmt6 gs) = true.
Proof.
  eapply str_forallb_impl; [|apply fmt6_chars]. intros c Hc.
  destruct (Ascii.eqb_spec c "/") as [->|]; [|done]. by vm_compute in Hc.
Qed.

Lemma fmt4_no_slash l : str_forallb (λ c, negb (Ascii.eqb c "/")) (fmt4 l) = true.
Proof.
  assert (∀ b, str_forallb (λ c, negb (Ascii.eqb c "/")) (dec_byte b) = true) as Hb.
  { intros b. eapply str_forallb_impl; [|apply dec_nonneg_digits]. intros c Hc.
    destruct (Ascii.eqb_spec c "/") as [->|]; [|done]. by vm_compute in Hc. }
  unfold fmt4. induction l as [|b [|b' l] IH]; [done|apply Hb|].
  change (join_with "." (dec_byte <$> b :: b' :: l)) with
    (dec_byte b +:+ "." +:+ join_with "." (dec_byte <$> b' :: l)).
  rewrite !str_forallb_app, Hb, IH. done.
Qed.

Lemma ParseAddr_fmt4 l : length l = 4%nat → ParseAddr (fmt4 l) = Some (Addr4 l).
Proof.
  intros Hl. unfold ParseAddr. rewrite fmt4_family by done.
  change (Ascii.eqb "." ".") with true. cbv iota. by rewrite parse4_fmt4.
Qed.

Lemma ParseAddr_String6 ip :
  length ip = 16%nat → To4 ip = [] → ParseAddr (IP_String ip) = Some (Addr6 ip EmptyString).
Proof.
  intros Hl H4. unfold IP_String. rewrite Hl, H4. cbn [Nat.eqb orb negb is_nil].
  destruct (group_bytes_u16 ip 8 Hl) as [Hg1 Hg2].
  unfold ParseAddr. rewrite fmt6_family by done.
  change (Ascii.eqb ":" ".") with false. change (Ascii.eqb ":" ":") with true. cbv iota.
  rewrite cut_zone_none by apply fmt6_no_zone. cbn [mbind option_bind].
  rewrite parse6_fmt6 by (done || apply u16_groups_wf). cbn. by rewrite Hg2.
Qed.

Lemma parse_uint_mask n : 0 ≤ n ≤ 128 → parse_uint 24 (itoa n) = Some n.
Proof. intros. apply parse_uint_itoa. lia. Qed.

Lemma CIDRMask_32 n : 0 ≤ n ≤ 32 → CIDRMask n 32 = mask_bytes 4 n.
Proof.
  intros Hn. unfold CIDRMask. destruct (Z.ltb_spec n 0); [lia|]. destruct (Z.ltb_spec 32 n); [lia|done].
Qed.

Lemma CIDRMask_128 n : 0 ≤ n ≤ 128 → CIDRMask n 128 = mask_bytes 16 n.
Proof.
  intros Hn. unfold CIDRMask. destruct (Z.ltb_spec n 0); [lia|]. destruct (Z.ltb_spec 128 n); [lia|done].
Qed.

Lemma IP_Mask_same ip n :
  IP_Mask ip (mask_bytes (length ip) n) = zip_with byte_and ip (mask_bytes (length ip) n).
Proof.
  unfold IP_Mask. rewrite length_mask_bytes.
  assert (Nat.eqb (length ip) 16 && Nat.eqb (length ip) 4 = false) as E.
  { destruct (Nat.eqb_spec (length ip) 16), (Nat.eqb_spec (length ip) 4); done || lia. }
  rewrite E. cbn [andb]. rewrite length_mask_bytes, (andb_comm (Nat.eqb (length ip) 4)), E.
  cbn [andb]. by rewrite Nat.eqb_refl.
Qed.

Lemma IP_Mask_mapped l n :
  length l = 4%nat → IP_Mask (v4InV6Prefix ++ l) (mask_bytes 4 n) = zip_with byte_and l (mask_bytes 4 n).
Proof.
  intros Hl. unfold IP_Mask. rewrite length_mask_bytes, length_app, Hl.
  cbn [Nat.eqb Nat.add length v4InV6Prefix andb]. rewrite length_mask_bytes. cbn [Nat.eqb andb].
  destruct (length4_inv l Hl) as (a & b & c & d & ->). cbn [app v4InV6Prefix take drop].
  rewrite bool_decide_eq_true_2 by done. cbn [length Nat.eqb]. done.
Qed.

Lemma ParseCIDR_fmt4 l n :
  length l = 4%nat → 0 ≤ n ≤ 32 →
  ParseCIDR (fmt4 l +:+ "/" +:+ itoa n) =
  Some (mkIPNet (zip_with byte_and l (mask_bytes 4 n)) (mask_bytes 4 n)).
Proof.
  intros Hl Hn. unfold ParseCIDR. cbn [String.append].
  rewrite cut_char_app by apply fmt4_no_slash. cbn [mbind option_bind].
  rewrite ParseAddr_fmt4, parse_uint_mask by (done || lia). cbn [mbind option_bind].
  destruct (Z.ltb_spec 32 n); [lia|]. cbv zeta. by rewrite CIDRMask_32, IP_Mask_mapped.
Qed.

Lemma ParseCIDR_String6 ip n :
  length ip = 16%nat → To4 ip = [] → 0 ≤ n ≤ 128 →
  ParseCIDR (IP_String ip +:+ "/" +:+ itoa n) =
  Some (mkIPNet (zip_with byte_and ip (mask_bytes 16 n)) (mask_bytes 16 n)).
Proof.
  intros Hl H4 Hn. unfold ParseCIDR. cbn [String.append].
  rewrite cut_char_app.
  2: { unfold IP_String. rewrite Hl, H4. cbn [Nat.eqb orb negb is_nil]. apply fmt6_no_slash. }
  cbn [mbind option_bind].
  rewrite ParseAddr_String6, parse_uint_mask by (done || lia). cbn [mbind option_bind].
  destruct (Z.ltb_spec 128 n); [lia|]. cbv zeta. rewrite CIDRMask_128 by done.
  do 2 f_equal. rewrite <- Hl. apply IP_Mask_same.
Qed.

(** ** Lemmas: membership *)

Lemma Z_of_byte_and x y : Z_of_byte (byte_and x y) = Z.land (Z_of_byte x) (Z_of_byte y).
Proof.
  unfold byte_and. rewrite Z_of_byte_of_Z. pose proof (Z_of_byte_range x) as Hx.
  unfold Z_of_byte in *. rewrite <- N2Z.inj_land.
  pose proof (N.land_le_l (Byte.to_N x) (Byte.to_N y)). apply Z.mod_small. lia.
Qed.

Lemma byte_and_idem x y : byte_and (byte_and x y) y = byte_and x y.
Proof. apply Z_of_byte_inj. by rewrite !Z_of_byte_and, <- Z.land_assoc, Z.land_diag. Qed.

Lemma masked_idem l m :
  zip_with byte_and (zip_with byte_and l m) m = zip_with byte_and l m.
Proof. revert m. induction l; intros [|y m]; cbn; [done..|]. by rewrite byte_and_idem, IHl. Qed.

Lemma length_masked l n : length (zip_with byte_and l (mask_bytes (length l) n)) = length l.
Proof. rewrite length_zip_with, length_mask_bytes. lia. Qed.

Lemma Contains_v4 l n ip :
  length l = 4%nat → 0 ≤ n ≤ 32 → To4 ip ≠ [] →
  IPNet_Contains (mkIPNet (zip_with byte_and l (mask_bytes 4 n)) (mask_bytes 4 n)) ip = true ↔
  block 32 n l = block 32 n (To4 ip).
Proof.
  intros Hl Hn H4. pose proof (To4_length ip H4) as Hip.
  pose proof (length_masked l n) as Hm. rewrite Hl in Hm.
  unfold IPNet_Contains, networkNumberAndMask. cbn [net_IP net_Mask].
  rewrite (To4_v4 (zip_with _ _ _)) by done.
  destruct (is_nil (zip_with _ _ _)) eqn:E1; [apply is_nil_true in E1; by rewrite E1 in Hm|].
  cbn [andb]. rewrite length_mask_bytes, Hm. cbn [Nat.eqb].
  apply is_nil_false in H4. rewrite H4, Hip, Hm, masked_idem.
  cbn [Nat.eqb andb]. rewrite bool_decide_eq_true.
  pose proof (masked_eq l (To4 ip) n) as Hk. rewrite Hl, Hip in Hk. by apply Hk.
Qed.

Lemma Contains_v6 l n ip :
  length l = 16%nat → 0 ≤ n ≤ 128 → To4 (zip_with byte_and l (mask_bytes 16 n)) = [] →
  To4 ip = [] → length ip = 16%nat →
  IPNet_Contains (mkIPNet (zip_with byte_and l (mask_bytes 16 n)) (mask_bytes 16 n)) ip = true ↔
  block 128 n l = block 128 n ip.
Proof.
  intros Hl Hn Hl4 H4 Hip.
  pose proof (length_masked l n) as Hm. rewrite Hl in Hm.
  unfold IPNet_Contains, networkNumberAndMask. cbn [net_IP net_Mask].
  rewrite Hl4, H4. cbn [is_nil]. rewrite Hm, length_mask_bytes. cbn [andb negb Nat.eqb].
  rewrite Hip, Hm, masked_idem. cbn [Nat.eqb andb]. rewrite bool_decide_eq_true.
  pose proof (masked_eq l ip n) as Hk. rewrite Hl, Hip in Hk. by apply Hk.
Qed.
