(* ===== verification/GoHostPort.v ===== *)
(** * Host and port: [net.JoinHostPort] and [net.SplitHostPort]

    The engine names its peers by such strings; an address built from an IP and
    a port number is split into the same IP and port. *)

From Stdlib Require Import Ascii.
From Stdlib Require String.
From stdpp Require Import prelude strings.
From S2P Require Import Prelude GoStrings GoText GoNet GoNetFacts GoNetMask.

#[local] Arguments String.append : simpl nomatch.

(** ** Definitions *)

Definition JoinHostPort (host port : string) : string :=
  if contains_char host ":" || contains_char host "%"
  then "[" +:+ host +:+ "]:" +:+ port
  else host +:+ ":" +:+ port.

(** The parts around the last ['c']. *)
Fixpoint cut_last (c : ascii) (s : string) : option (string * string) :=
  match s with
  | EmptyString => None
  | String d s' =>
      match cut_last c s' with
      | Some (a, b) => Some (String d a, b)
      | None => if Ascii.eqb d c then Some (EmptyString, s') else None
      end
  end.

(** [None] for an error. *)
Definition SplitHostPort (hostport : string) : option (string * string) :=
  '(before, port) ← cut_last ":" hostport;
  match hostport with
  | EmptyString => None
  | String c rest =>
      if Ascii.eqb c "[" then
        (* the first ']' has to stand right before the last ':' *)
        '(host, after) ← cut_char "]" rest;
        if bool_decide (after = ":" +:+ port) then
          if contains_char rest "[" || contains_char after "]" then None else Some (host, port)
        else None
      else if contains_char before ":" then None
      else if contains_char hostport "[" || contains_char hostport "]" then None
      else Some (before, port)
  end.

(** ** Lemmas *)

Lemma contains_char_false s c :
  contains_char s c = false ↔ str_forallb (λ d, negb (Ascii.eqb c d)) s = true.
Proof.
  unfold contains_char. induction s as [|d s IH]; cbn; [done|].
  rewrite orb_false_iff, andb_true_iff, IH, negb_true_iff. done.
Qed.

Lemma cut_last_none c s : contains_char s c = false → cut_last c s = None.
Proof.
  unfold contains_char. induction s as [|d s IH]; cbn; [done|]. intros [H1 H2]%orb_false_iff.
  rewrite IH by done. destruct (Ascii.eqb_spec d c) as [->|]; [by rewrite Ascii.eqb_refl in H1|done].
Qed.

Lemma cut_last_app c s t : contains_char t c = false → cut_last c (s +:+ String c t) = Some (s, t).
Proof.
  intros Ht. induction s as [|d s IH]; cbn.
  - by rewrite cut_last_none, Ascii.eqb_refl.
  - by rewrite IH.
Qed.

Definition no_syntax (s : string) : Prop :=
  contains_char s "[" = false ∧ contains_char s "]" = false.

Lemma contains_char_cons c d s : contains_char (String d s) c = Ascii.eqb c d || contains_char s c.
Proof. done. Qed.

(** Splitting undoes joining. *)
Lemma SplitHostPort_Join host port :
  host ≠ EmptyString → no_syntax host → no_syntax port → contains_char port ":" = false →
  SplitHostPort (JoinHostPort host port) = Some (host, port).
Proof.
  intros Hne [H1 H2] [P1 P2] P3. unfold SplitHostPort, JoinHostPort.
  destruct (contains_char host ":" || contains_char host "%") eqn:E.
  - replace ("[" +:+ host +:+ "]:" +:+ port) with (("[" +:+ host +:+ "]") +:+ String ":" port)
      by (rewrite !str_app_assoc; done).
    rewrite cut_last_app by done. cbn [mbind option_bind].
    replace (("[" +:+ host +:+ "]") +:+ String ":" port) with (String "[" (host +:+ String "]" (":" +:+ port)))
      by (cbn [String.append]; by rewrite !str_app_assoc).
    rewrite Ascii.eqb_refl, cut_char_app.
    2: { apply contains_char_false in H2. eapply str_forallb_impl; [|exact H2]. intros c.
         by rewrite Ascii.eqb_sym. }
    cbn [mbind option_bind]. rewrite bool_decide_eq_true_2 by done.
    rewrite !contains_char_app, !contains_char_cons, contains_char_app, H1, P1, P2. done.
  - apply orb_false_iff in E as [E _].
    replace (host +:+ ":" +:+ port) with (host +:+ String ":" port) by done.
    rewrite cut_last_app by done. cbn [mbind option_bind].
    assert (contains_char (host +:+ String ":" port) "[" = false) as N1
      by (by rewrite contains_char_app, contains_char_cons, H1, P1).
    assert (contains_char (host +:+ String ":" port) "]" = false) as N2
      by (by rewrite contains_char_app, contains_char_cons, H2, P2).
    destruct host as [|c host]; [done|]. cbn [String.append] in *.
    rewrite contains_char_cons in H1. apply orb_false_iff in H1 as [Hc _].
    rewrite Ascii.eqb_sym, Hc, E, N1, N2. done.
Qed.

(** ** Addresses of peers *)

Lemma absent_chars P s c :
  (∀ d, P d = true → Ascii.eqb c d = false) → str_forallb P s = true → contains_char s c = false.
Proof.
  intros HP Hs. apply contains_char_false. eapply str_forallb_impl; [|exact Hs].
  intros d Hd. by rewrite HP.
Qed.

Lemma hex_or_colon_not c d :
  is_hex c || Ascii.eqb c ":" = false → is_hex d || Ascii.eqb d ":" = true → Ascii.eqb c d = false.
Proof. intros H1 H2. destruct (Ascii.eqb_spec c d) as [->|]; [congruence|done]. Qed.

Lemma fmt4_chars l : str_forallb (λ c, is_digit c || Ascii.eqb c ".") (fmt4 l) = true.
Proof.
  assert (∀ b, str_forallb (λ c, is_digit c || Ascii.eqb c ".") (dec_byte b) = true) as Hb.
  { intros b. eapply str_forallb_impl; [|apply dec_nonneg_digits]. intros c Hc. by rewrite Hc. }
  unfold fmt4. induction l as [|b [|b' l] IH]; [done|apply Hb|].
  change (join_with "." (dec_byte <$> b :: b' :: l)) with
    (dec_byte b +:+ "." +:+ join_with "." (dec_byte <$> b' :: l)).
  rewrite !str_forallb_app, Hb, IH. done.
Qed.

Lemma digit_or_dot_not c d :
  is_digit c || Ascii.eqb c "." = false → is_digit d || Ascii.eqb d "." = true → Ascii.eqb c d = false.
Proof. intros H1 H2. destruct (Ascii.eqb_spec c d) as [->|]; [congruence|done]. Qed.

Lemma IP_String_no_syntax ip : valid_ip ip → no_syntax (IP_String ip).
Proof.
  intros Hv. unfold IP_String.
  replace (Nat.eqb (length ip) 0) with false by (destruct Hv as [-> | ->]; done).
  replace (Nat.eqb (length ip) 4 || Nat.eqb (length ip) 16) with true
    by (destruct Hv as [-> | ->]; done).
  cbn [negb]. destruct (is_nil (To4 ip)).
  - split; (eapply absent_chars; [|apply fmt6_chars]); intros d; by apply hex_or_colon_not.
  - split; (eapply absent_chars; [|apply fmt4_chars]); intros d; by apply digit_or_dot_not.
Qed.

Lemma IP_String_nonempty ip : valid_ip ip → IP_String ip ≠ EmptyString.
Proof.
  intros Hv E. pose proof (ParseIP_String ip Hv) as Hp. rewrite E in Hp.
  pose proof (To16_length ip Hv) as Hl. rewrite <- Hp in Hl. done.
Qed.

Lemma itoa_no_syntax n c : 0 ≤ n → is_digit c = false → contains_char (itoa n) c = false.
Proof.
  intros Hn Hc. unfold itoa. destruct (Z.ltb_spec n 0); [lia|].
  eapply absent_chars; [|apply dec_nonneg_digits]. intros d Hd.
  destruct (Ascii.eqb_spec c d) as [->|]; [congruence|done].
Qed.

(** A peer's address gives its IP and port back. *)
Lemma SplitHostPort_addr ip n :
  valid_ip ip → 0 ≤ n → SplitHostPort (JoinHostPort (IP_String ip) (itoa n)) = Some (IP_String ip, itoa n).
Proof.
  intros Hv Hn. apply SplitHostPort_Join.
  - by apply IP_String_nonempty.
  - by apply IP_String_no_syntax.
  - split; by apply itoa_no_syntax.
  - by apply itoa_no_syntax.
Qed.

(** The text of an address is that of its sixteen-byte form. *)
Lemma IP_String_To16 ip : valid_ip ip → IP_String (To16 ip) = IP_String ip.
Proof.
  intros Hv. pose proof (To16_length ip Hv) as Hl. unfold IP_String.
  rewrite To4_To16, Hl by done. cbn [Nat.eqb orb negb].
  replace (Nat.eqb (length ip) 0) with false by (destruct Hv as [-> | ->]; done).
  replace (Nat.eqb (length ip) 4 || Nat.eqb (length ip) 16) with true
    by (destruct Hv as [-> | ->]; done).
  cbn [negb]. destruct (is_nil (To4 ip)) eqn:E; [|done].
  apply is_nil_true in E. by destruct (To16_To4_nil ip Hv E) as [_ ->].
Qed.
