(* ===== verification/Metrics.v ===== *)
(** * Metrics: the engine's atomic counters ([internal/dnsengine/metrics.go])

    The package-level [atomic.Uint64] counters as one record, each addition
    wrapping at 64 bits. *)

From stdpp Require Import prelude.
From S2P Require Import Prelude.

Record Metrics := mkMetrics {
  MetricsAllocations : Z;
  MetricsCollisions : Z;
  MetricsSyncs : Z;
  MetricsDNSQueries : Z;
  MetricsDNSErrors : Z;
  MetricsExhaustions : Z;
}.

Definition metrics_zero : Metrics := mkMetrics 0 0 0 0 0 0.

Definition add_allocations (n : Z) (m : Metrics) : Metrics :=
  mkMetrics (MetricsAllocations m +64 n) (MetricsCollisions m) (MetricsSyncs m)
    (MetricsDNSQueries m) (MetricsDNSErrors m) (MetricsExhaustions m).
Definition add_collision (m : Metrics) : Metrics :=
  mkMetrics (MetricsAllocations m) (MetricsCollisions m +64 1) (MetricsSyncs m)
    (MetricsDNSQueries m) (MetricsDNSErrors m) (MetricsExhaustions m).
Definition add_syncs (n : Z) (m : Metrics) : Metrics :=
  mkMetrics (MetricsAllocations m) (MetricsCollisions m) (MetricsSyncs m +64 n)
    (MetricsDNSQueries m) (MetricsDNSErrors m) (MetricsExhaustions m).
Definition add_dns_query (m : Metrics) : Metrics :=
  mkMetrics (MetricsAllocations m) (MetricsCollisions m) (MetricsSyncs m)
    (MetricsDNSQueries m +64 1) (MetricsDNSErrors m) (MetricsExhaustions m).
Definition add_dns_error (m : Metrics) : Metrics :=
  mkMetrics (MetricsAllocations m) (MetricsCollisions m) (MetricsSyncs m)
    (MetricsDNSQueries m) (MetricsDNSErrors m +64 1) (MetricsExhaustions m).
Definition add_exhaustion (m : Metrics) : Metrics :=
  mkMetrics (MetricsAllocations m) (MetricsCollisions m) (MetricsSyncs m)
    (MetricsDNSQueries m) (MetricsDNSErrors m) (MetricsExhaustions m +64 1).
