(* ===== verification/IPPool.v ===== *)
(** * The Fake-IP pool: data and operations ([internal/dnsengine/ippool.go])

    The pool maps real addresses to fake ones.  Its state is split over 64
    shards, each with its own [realToFake] and [expiries] maps, and two global
    maps, [globalFakeToReal] and [globalVersions].  Every operation below is the
    body of the method of the same name between the acquisition and the release
    of its locks; the time readings of [time.Now] are arguments, in nanoseconds.
    [sort.Slice] is modelled by a stable sort: the elements it may reorder have
    the same sixteen-byte form, and the loop depends on nothing else. *)

From Stdlib Require Import Ascii.
From Stdlib Require String.
From stdpp Require Import prelude gmap strings sorting.
From S2P Require Import Prelude GoStrings GoNet Metrics.

(** ** Data *)

Definition nanosecond : Z := 1.
Definition second : Z := 1000000000 * nanosecond.
Definition minute : Z := 60 * second.
Definition hour : Z := 60 * minute.

(** The zero [time.Time] (1 January of year 1), in nanoseconds since 1970. *)
Definition time_zero : Z := -62135596800 * second.

Definition DefaultPoolSizeV4 : Z := 131072.
Definition DefaultPoolSizeV6 : Z := 1048576.
Definition MappingTTL : Z := 2 * hour.

Record IPPoolConfig := mkIPPoolConfig { PoolSizeV4 : Z; PoolSizeV6 : Z }.

Record IPKey := mkIPKey { isIPv6 : bool; v4 : Z; v6 : list Byte.byte }.

#[export] Instance IPKey_eq_dec : EqDecision IPKey.
Proof. solve_decision. Defined.

#[export] Program Instance IPKey_countable : Countable IPKey :=
  inj_countable' (λ k, (isIPv6 k, v4 k, v6 k)) (λ '(a, b, c), mkIPKey a b c) _.
Next Obligation. by intros []. Qed.

Record MappingInfo := mkMappingInfo { mi_IP : IP; mi_Version : Z }.

(** [Mapping] of sync.go, returned by [GetAllMappings]. *)
Record Mapping := mkMapping { FakeIP : IP; RealIP : IP; Version : Z }.

Record cacheShard := mkShard {
  realToFake : gmap IPKey IPKey;
  expiries : gmap IPKey Z;
}.

Definition empty_shard : cacheShard := mkShard ∅ ∅.

Record IPPool := mkPool {
  shards : list cacheShard;
  globalFakeToReal : gmap IPKey IPKey;
  globalVersions : gmap IPKey Z;
  poolStart : Z;
  poolSize : Z;
  cidrMask : Z;
  poolStart6 : IP;
  poolSize6 : Z;
  cidrMask6 : Z;
  stopped : bool;
  hlc : Z;
}.

(** ** Keys *)

Definition ToIPKey (ip : IP) : IPKey :=
  let ip4 := To4 ip in
  if negb (is_nil ip4) then mkIPKey false (be_uint32 ip4) (replicate 16 Byte.x00)
  else mkIPKey true 0 (take 16 (To16 ip ++ replicate 16 Byte.x00)).

Definition ToIP (k : IPKey) : IP :=
  if negb (isIPv6 k) then IPv4_of_u32 (v4 k) else v6 k.

(** ** Hashing *)

Definition fnv1aBytes (data : list Byte.byte) : Z :=
  let h := foldl (λ h b, (Z.lxor h (Z_of_byte b)) *32 16777619) 2166136261 data in
  let h := Z.lxor h (Z.shiftr h 16) in
  let h := h *32 0x85ebca6b in
  let h := Z.lxor h (Z.shiftr h 13) in
  let h := h *32 0xc2b2ae35 in
  Z.lxor h (Z.shiftr h 16).

Definition normalizeIP (ip : IP) : IP :=
  let ip4 := To4 ip in if negb (is_nil ip4) then ip4 else To16 ip.

Definition getShardIndex (ip : IP) : nat := Z.to_nat (fnv1aBytes (normalizeIP ip) mod 64).

(** ** State updates shared by the methods *)

Definition shard_at (p : IPPool) (i : nat) : cacheShard := default empty_shard (shards p !! i).

(** [p.getShard(realIP)]. *)
Definition getShard (p : IPPool) (realIP : IP) : cacheShard := shard_at p (getShardIndex realIP).

Definition set_shards (s : list cacheShard) (p : IPPool) : IPPool :=
  mkPool s (globalFakeToReal p) (globalVersions p) (poolStart p) (poolSize p) (cidrMask p)
    (poolStart6 p) (poolSize6 p) (cidrMask6 p) (stopped p) (hlc p).

Definition set_globals (fr : gmap IPKey IPKey) (vs : gmap IPKey Z) (p : IPPool) : IPPool :=
  mkPool (shards p) fr vs (poolStart p) (poolSize p) (cidrMask p)
    (poolStart6 p) (poolSize6 p) (cidrMask6 p) (stopped p) (hlc p).

Definition set_hlc (h : Z) (p : IPPool) : IPPool :=
  mkPool (shards p) (globalFakeToReal p) (globalVersions p) (poolStart p) (poolSize p)
    (cidrMask p) (poolStart6 p) (poolSize6 p) (cidrMask6 p) (stopped p) h.

Definition set_stopped (b : bool) (p : IPPool) : IPPool :=
  mkPool (shards p) (globalFakeToReal p) (globalVersions p) (poolStart p) (poolSize p)
    (cidrMask p) (poolStart6 p) (poolSize6 p) (cidrMask6 p) b (hlc p).

(** [shard.realToFake[r] = f; shard.expiries[r] = e]. *)
Definition put_real (i : nat) (r f : IPKey) (e : Z) (p : IPPool) : IPPool :=
  set_shards (alter (λ s, mkShard (<[r:=f]> (realToFake s)) (<[r:=e]> (expiries s))) i (shards p)) p.

(** [delete(shard.realToFake, r); delete(shard.expiries, r)]. *)
Definition del_real (i : nat) (r : IPKey) (p : IPPool) : IPPool :=
  set_shards (alter (λ s, mkShard (delete r (realToFake s)) (delete r (expiries s))) i (shards p)) p.

(** [shard.expiries[r] = e]. *)
Definition put_expiry (i : nat) (r : IPKey) (e : Z) (p : IPPool) : IPPool :=
  set_shards (alter (λ s, mkShard (realToFake s) (<[r:=e]> (expiries s))) i (shards p)) p.

(** [p.globalFakeToReal[f] = r; p.globalVersions[f] = v]. *)
Definition put_fake (f r : IPKey) (v : Z) (p : IPPool) : IPPool :=
  set_globals (<[f:=r]> (globalFakeToReal p)) (<[f:=v]> (globalVersions p)) p.

(** [delete(p.globalFakeToReal, f); delete(p.globalVersions, f)]. *)
Definition del_fake (f : IPKey) (p : IPPool) : IPPool :=
  set_globals (delete f (globalFakeToReal p)) (delete f (globalVersions p)) p.

(** ** Construction *)

Fixpoint pad_octets (n : nat) (s : string) : string :=
  match n with O => s | S n' => pad_octets n' (s +:+ ".0") end.

Definition NewIPPoolWithConfig (baseSubnetV4 baseSubnetV6 : string) (cfg : IPPoolConfig) : IPPool :=
  let poolSize := if PoolSizeV4 cfg =? 0 then DefaultPoolSizeV4 else PoolSizeV4 cfg in
  let cidrMask := 32 - Z.log2_up poolSize in
  let poolSize6 := if PoolSizeV6 cfg =? 0 then DefaultPoolSizeV6 else PoolSizeV6 cfg in
  let cidrMask6 := 128 - Z.log2_up poolSize6 in
  let base4 := if bool_decide (baseSubnetV4 = EmptyString) then "198.18" else baseSubnetV4 in
  let ipStr := pad_octets (4 - length (split_char "."%char base4)) base4 in
  let ip4 := To4 (ParseIP ipStr) in
  let start0 := if is_nil ip4 then 0 else be_uint32 (IP_Mask ip4 (CIDRMask cidrMask 32)) in
  let poolStart := if start0 =? 0 then Z.lor (Z.shiftl 198 24) (Z.shiftl 18 16) else start0 in
  let base6 := if bool_decide (baseSubnetV6 = EmptyString) then "fd00:18::" else baseSubnetV6 in
  let start6 := To16 (ParseIP base6) in
  let start6 := if is_nil start6
                then [Byte.xfd; Byte.x00; Byte.x00; Byte.x18] ++ replicate 12 Byte.x00
                else start6 in
  mkPool (replicate 64 empty_shard) ∅ ∅ poolStart poolSize cidrMask
    (IP_Mask start6 (CIDRMask cidrMask6 128)) poolSize6 cidrMask6 false 0.

Definition NewIPPool (baseSubnetV4 baseSubnetV6 : string) : IPPool :=
  NewIPPoolWithConfig baseSubnetV4 baseSubnetV6 (mkIPPoolConfig DefaultPoolSizeV4 DefaultPoolSizeV6).

(** ** Hybrid logical clock *)

(** [GetNextVersion]; [now] is [time.Now().UnixNano()]. *)
Definition GetNextVersion (now : Z) (p : IPPool) : Z * IPPool :=
  let now := w64 now in
  let h := if hlc p <? now then now else hlc p +64 1 in
  (h, set_hlc h p).

Definition ObserveVersion (now v : Z) (p : IPPool) : IPPool :=
  let now := w64 now in
  let h := if hlc p <? now then now else hlc p in
  let h := if h <? v then v else h in
  set_hlc h p.

(** ** Mappings *)

(** [bytes.Compare(a.ToIP().To16(), b.ToIP().To16()) <= 0]. *)
Definition key_leb (a b : IPKey) : bool :=
  match bytes_compare (To16 (ToIP a)) (To16 (ToIP b)) with Gt => false | _ => true end.

(** The version guard both conflict checks of [AddMapping] use: the update is
    dropped when it is older than what is there, or as old and not greater. *)
Definition outdated (version : Z) (existing : option Z) (mine theirs : IPKey) : bool :=
  match existing with
  | None => false
  | Some ev =>
      if version <? ev then true
      else if version =? ev then key_leb mine theirs
      else false
  end.

Definition AddMapping (p : IPPool) (mt : Metrics) (realIP fakeIP : IP) (version expiresAt : Z)
    : bool * IPPool * Metrics :=
  let realKey := ToIPKey realIP in
  let fakeKey := ToIPKey fakeIP in
  let '(reject, oldRealToClear, mt) :=
    match globalFakeToReal p !! fakeKey with
    | Some existingReal =>
        (outdated version (globalVersions p !! fakeKey) realKey existingReal,
         if bool_decide (existingReal = realKey) then None else Some existingReal,
         add_collision mt)
    | None => (false, None, mt)
    end in
  if reject then (false, p, mt)
  else
    let shardReal := getShardIndex realIP in
    let '(reject, fakeToClear, mt) :=
      match realToFake (shard_at p shardReal) !! realKey with
      | Some existingFake =>
          if bool_decide (existingFake = fakeKey) then (false, None, add_collision mt)
          else (outdated version (globalVersions p !! existingFake) fakeKey existingFake,
                Some existingFake, add_collision mt)
      | None => (false, None, mt)
      end in
    if reject then (false, p, mt)
    else
      let p := match fakeToClear with Some f => del_fake f p | None => p end in
      let p := match oldRealToClear with
               | Some r => del_real (getShardIndex (ToIP r)) r p
               | None => p
               end in
      let p := put_real shardReal realKey fakeKey expiresAt p in
      (true, put_fake fakeKey realKey version p, mt).

Definition RemoveMapping (p : IPPool) (realIP fakeIP : IP) : IPPool :=
  let realKey := ToIPKey realIP in
  let fakeKey := ToIPKey fakeIP in
  let shardReal := getShardIndex realIP in
  match realToFake (shard_at p shardReal) !! realKey with
  | Some fKey =>
      if bool_decide (fKey = fakeKey)
      then del_fake fakeKey (del_real shardReal realKey p)
      else p
  | None => p
  end.

Definition IsFakeIPOccupied (p : IPPool) (fakeIP : IP) : bool :=
  bool_decide (is_Some (globalFakeToReal p !! ToIPKey fakeIP)).

(** [now1] and [now2] are the two readings of the clock. *)
Definition TryReserve (p : IPPool) (now1 now2 : Z) (realIP fakeIP : IP) (version expiresAt : Z)
    : bool * IP * IPPool :=
  let realKey := ToIPKey realIP in
  let fakeKey := ToIPKey fakeIP in
  let shardReal := getShardIndex realIP in
  let reserve (p : IPPool) :=
    match globalFakeToReal p !! fakeKey with
    | Some _ => (false, [], p)
    | None => (true, fakeIP, put_fake fakeKey realKey version
                               (put_real shardReal realKey fakeKey expiresAt p))
    end in
  match realToFake (shard_at p shardReal) !! realKey with
  | Some existingFakeKey =>
      let expiry := expiries (shard_at p shardReal) !! realKey in
      if match expiry with None => true | Some e => now1 <? e end then
        let p := match expiry with
                 | Some e => if e <? now2 + 5 * minute
                             then put_expiry shardReal realKey expiresAt p else p
                 | None => p
                 end in
        (true, ToIP existingFakeKey, p)
      else reserve (del_real shardReal realKey (del_fake existingFakeKey p))
  | None => reserve p
  end.

(** First phase of [PruneExpired] for one shard, under the read lock. *)
Definition collect_expired (p : IPPool) (now : Z) (i : nat) : list (IPKey * IPKey) :=
  omap (λ '(realKey, expiry),
          if expiry <? now then (λ fakeKey, (realKey, fakeKey)) <$> realToFake (shard_at p i) !! realKey
          else None)
       (map_to_list (expiries (shard_at p i))).

(** Second phase, one collected pair, under the global and the shard lock. *)
Definition prune_pair (now : Z) (i : nat) (p : IPPool) (pair : IPKey * IPKey) : IPPool :=
  let '(realKey, fakeKey) := pair in
  match expiries (shard_at p i) !! realKey with
  | Some expiry =>
      if expiry <? now then
        match realToFake (shard_at p i) !! realKey with
        | Some fKey => if bool_decide (fKey = fakeKey)
                       then del_fake fakeKey (del_real i realKey p) else p
        | None => p
        end
      else p
  | None => p
  end.

Definition prune_shard (now : Z) (p : IPPool) (i : nat) : IPPool :=
  foldl (prune_pair now i) p (collect_expired p now i).

Definition PruneExpired (p : IPPool) (now : Z) : IPPool :=
  foldl (prune_shard now) p (seq 0 64).

Definition GetVersion (p : IPPool) (fakeIP : IP) : Z :=
  default 0 (globalVersions p !! ToIPKey fakeIP).

Definition GetAllMappings (p : IPPool) : list Mapping :=
  (λ '(fakeKey, realKey),
     mkMapping (ToIP fakeKey) (ToIP realKey) (default 0 (globalVersions p !! fakeKey)))
    <$> map_to_list (globalFakeToReal p).

Definition GetActiveCount (p : IPPool) : Z := Z.of_nat (size (globalFakeToReal p)).

(** [Close] closes the stop channel; closing it twice panics. *)
Definition Close (p : IPPool) : option IPPool :=
  if stopped p then None else Some (set_stopped true p).

(** ** Allocation *)

(** [ComputeLevel1Hash]: the natural Fake-IP of a real address. *)
Definition ComputeLevel1Hash (p : IPPool) (realIP : IP) (isV6 : bool) : IP :=
  if negb isV6 then
    let offset := fnv1aBytes (To4 realIP) mod poolSize p in
    let ipVal := poolStart p +32 offset in
    let ipVal := if ipVal mod 256 =? 0 then ipVal +32 1
                 else if ipVal mod 256 =? 255 then ipVal -32 1
                 else ipVal in
    IPv4_of_u32 ipVal
  else
    let offset := fnv1aBytes (To16 realIP) mod poolSize6 p in
    let ip6Bytes := take 16 (poolStart6 p ++ replicate 16 Byte.x00) in
    let val := be_uint32 (drop 12 ip6Bytes) in
    take 12 ip6Bytes ++ be_bytes32 (val +32 offset).

Definition occupied (p : IPPool) (ip : IP) : bool :=
  bool_decide (is_Some (globalFakeToReal p !! ToIPKey ip)).

(** The IPv4 candidate of one probing attempt; the network and broadcast
    addresses of a /24 are skipped. *)
Definition candidate4 (p : IPPool) (naturalOffset attempt : Z) : option IP :=
  let offset := (naturalOffset +32 attempt) mod poolSize p in
  let candidateIPVal := poolStart p +32 offset in
  if (candidateIPVal mod 256 =? 0) || (candidateIPVal mod 256 =? 255) then None
  else Some (IPv4_of_u32 candidateIPVal).

Definition candidate6 (p : IPPool) (startVal naturalOffset attempt : Z) : option IP :=
  let offset := (naturalOffset +32 attempt) mod poolSize6 p in
  Some (take 12 (take 16 (poolStart6 p ++ replicate 16 Byte.x00)) ++ be_bytes32 (startVal +32 offset)).

(** The probing loop: the first candidate that is not taken, among the attempts
    [attempt], [attempt + 1], ... ([n] of them). *)
Fixpoint probe (p : IPPool) (candidate : Z → option IP) (n : nat) (attempt : Z) : option IP :=
  match n with
  | O => None
  | S n' =>
      match candidate attempt with
      | Some c => if occupied p c then probe p candidate n' (attempt + 1) else Some c
      | None => probe p candidate n' (attempt + 1)
      end
  end.

(** [finalFake] of [GetFakeIPsForReals], [None] for nil. *)
Definition choose_fake (p : IPPool) (realIP : IP) (isV6 : bool) : option IP :=
  let naturalFake := ComputeLevel1Hash p realIP isV6 in
  if negb (occupied p naturalFake) then Some naturalFake
  else if negb isV6 then
    let naturalVal := be_uint32 (To4 naturalFake) in
    let naturalOffset := naturalVal -32 poolStart p in
    let maxAttempts := if 1024 <? poolSize p then 1024 else poolSize p in
    probe p (candidate4 p naturalOffset) (Z.to_nat maxAttempts) 0
  else
    let naturalVal := be_uint32 (drop 12 naturalFake) in
    let startVal := be_uint32 (drop 12 (poolStart6 p)) in
    let naturalOffset := naturalVal -32 startVal in
    let maxAttempts := if 1024 <? poolSize6 p then 1024 else poolSize6 p in
    probe p (candidate6 p startVal naturalOffset) (Z.to_nat maxAttempts) 0.

Inductive AllocResult :=
  | AllocCached (fake : IP)
  | AllocNew (fake : IP) (version : Z)
  | AllocExhausted.

(** The section of one iteration that runs under the global and the shard lock.
    [now] is the reading at the start of the call, [nano] the one
    [GetNextVersion] makes. *)
Definition alloc_locked (p : IPPool) (now nano : Z) (realIP : IP) (isV6 : bool)
    : AllocResult * IPPool :=
  let realKey := ToIPKey realIP in
  let i := getShardIndex realIP in
  let fresh (p : IPPool) :=
    match choose_fake p realIP isV6 with
    | Some finalFake =>
        let allocatedKey := ToIPKey finalFake in
        let p := put_real i realKey allocatedKey (now + MappingTTL) p in
        let '(version, p) := GetNextVersion nano p in
        (AllocNew finalFake version, put_fake allocatedKey realKey version p)
    | None => (AllocExhausted, p)
    end in
  match realToFake (shard_at p i) !! realKey with
  | Some existingFakeKey =>
      let expiry := expiries (shard_at p i) !! realKey in
      if match expiry with None => true | Some e => now <? e end then
        let p := match expiry with
                 | Some e => if e <? now + 5 * minute
                             then put_expiry i realKey (now + MappingTTL) p else p
                 | None => p
                 end in
        (AllocCached (ToIP existingFakeKey), p)
      else fresh (del_real i realKey (del_fake existingFakeKey p))
  | None => fresh p
  end.

(** One iteration: the read-locked lookup first, then the locked section. *)
Definition alloc_one (p : IPPool) (now nano : Z) (realIP : IP) (isV6 : bool)
    : AllocResult * IPPool :=
  let realKey := ToIPKey realIP in
  let s := getShard p realIP in
  match realToFake s !! realKey with
  | Some fakeKey =>
      if now + 5 * minute <? default time_zero (expiries s !! realKey)
      then (AllocCached (ToIP fakeKey), p)
      else alloc_locked p now nano realIP isV6
  | None => alloc_locked p now nano realIP isV6
  end.

Definition ip16_leb (a b : IP) : bool :=
  match bytes_compare (To16 a) (To16 b) with Gt => false | _ => true end.

Definition sort_reals (reals : list IP) : list IP := merge_sort (λ a b, Is_true (ip16_leb a b)) reals.

(** Undoing the allocations of a call that ran out of addresses. *)
Definition rollback (p : IPPool) (newMappings : gmap string MappingInfo) : IPPool :=
  foldl (λ p '(ipStr, info), RemoveMapping p (ParseIP ipStr) (mi_IP info)) p (map_to_list newMappings).

(** The loop over the sorted addresses; [nano] gives the reading of the clock at
    the i-th version. *)
Fixpoint fake_loop (p : IPPool) (mt : Metrics) (now : Z) (nano : nat → Z) (i : nat)
    (reals : list IP) (isV6 : bool) (result : gmap string IP) (newMappings : gmap string MappingInfo)
    : option (gmap string IP * gmap string MappingInfo) * IPPool * Metrics :=
  match reals with
  | [] => (Some (result, newMappings), p, add_allocations (Z.of_nat (size result)) mt)
  | realIP :: reals' =>
      match alloc_one p now (nano i) realIP isV6 with
      | (AllocCached fake, p) =>
          fake_loop p mt now nano (S i) reals' isV6 (<[IP_String realIP := fake]> result) newMappings
      | (AllocNew fake version, p) =>
          fake_loop p mt now nano (S i) reals' isV6 (<[IP_String realIP := fake]> result)
            (<[IP_String realIP := mkMappingInfo fake version]> newMappings)
      | (AllocExhausted, p) => (None, rollback p newMappings, add_exhaustion mt)
      end
  end.

Definition GetFakeIPsForReals (p : IPPool) (mt : Metrics) (now : Z) (nano : nat → Z)
    (reals : list IP) (isV6 : bool)
    : option (gmap string IP * gmap string MappingInfo) * IPPool * Metrics :=
  match reals with
  | [] => (None, p, mt)
  | _ => fake_loop p mt now nano 0 (sort_reals reals) isV6 ∅ ∅
  end.

(** ** Text *)

Definition UintToIP (ip : Z) : string := fmt4 (be_bytes32 ip).

Definition GetPoolNet (p : IPPool) : string := UintToIP (poolStart p) +:+ "/" +:+ itoa (cidrMask p).
Definition GetPoolNet6 (p : IPPool) : string := IP_String (poolStart6 p) +:+ "/" +:+ itoa (cidrMask6 p).
