(* ===== verification/PoolInv.v ===== *)
(** * The Fake-IP pool: invariant

    The pool keeps the same relation twice: real to fake in the shards, fake to
    real in the global map.  [pool_wf] says that the two are inverse of each
    other, that every real key sits in the shard its hash selects, and that
    expiries and versions are present exactly for mapped keys.  Every operation
    is shown to be a composition of two primitives, [link] and [unlink], and so
    to preserve the invariant; [pool_step] runs the operations' critical
    sections in any order. *)

From Stdlib Require String.
From stdpp Require Import prelude gmap strings sorting.
From S2P Require Import Prelude GoStrings GoNet GoNetFacts Metrics IPPool.

(** ** Definitions *)

(** Keys in the form [ToIPKey] builds. *)
Definition key_wf (k : IPKey) : Prop :=
  if isIPv6 k then v4 k = 0 ∧ length (v6 k) = 16%nat ∧ To4 (v6 k) = []
  else is_u32 (v4 k) ∧ v6 k = replicate 16 Byte.x00.

(** The shard a key belongs to. *)
Definition kidx (k : IPKey) : nat := getShardIndex (ToIP k).

Definition rtf (p : IPPool) (r : IPKey) : option IPKey := realToFake (shard_at p (kidx r)) !! r.
Definition expiry_of (p : IPPool) (r : IPKey) : option Z := expiries (shard_at p (kidx r)) !! r.

Record pool_wf (p : IPPool) : Prop := {
  wf_len : length (shards p) = 64%nat;
  wf_place : ∀ i r, is_Some (realToFake (shard_at p i) !! r) → i = kidx r;
  wf_expiries : ∀ i r, is_Some (realToFake (shard_at p i) !! r) ↔ is_Some (expiries (shard_at p i) !! r);
  wf_inverse : ∀ r f, rtf p r = Some f ↔ globalFakeToReal p !! f = Some r;
  wf_versions : ∀ f, is_Some (globalFakeToReal p !! f) ↔ is_Some (globalVersions p !! f);
  wf_keys : ∀ f r, globalFakeToReal p !! f = Some r → key_wf f ∧ key_wf r;
}.

(** Adding and removing one pair in both directions. *)
Definition link (r f : IPKey) (e v : Z) (p : IPPool) : IPPool :=
  put_fake f r v (put_real (kidx r) r f e p).
Definition unlink (r f : IPKey) (p : IPPool) : IPPool := del_fake f (del_real (kidx r) r p).

(** Dropping whatever a key is linked to. *)
Definition evict_real (r : IPKey) (p : IPPool) : IPPool :=
  match rtf p r with Some f => unlink r f p | None => p end.
Definition evict_fake (f : IPKey) (p : IPPool) : IPPool :=
  match globalFakeToReal p !! f with Some r => unlink r f p | None => p end.

(** ** Keys *)

Lemma ToIPKey_wf ip : key_wf (ToIPKey ip).
Proof.
  unfold ToIPKey, key_wf. destruct (is_nil (To4 ip)) eqn:E; cbn [negb isIPv6 v4 v6].
  - apply is_nil_true in E. split; [done|].
    destruct (decide (valid_ip ip)) as [Hv|Hv].
    + destruct (To16_To4_nil ip Hv E) as [Hl ->].
      rewrite take_app_le, take_ge by lia. by rewrite Hl.
    + assert (To16 ip = []) as ->; [|done].
      unfold To16, valid_ip in *. repeat case_match; try done;
        match goal with H : (_ =? _)%nat = true |- _ => apply Nat.eqb_eq in H; tauto end.
  - split; [apply be_uint32_range|done].
Qed.

Lemma IPv4_of_u32_To4 v : To4 (IPv4_of_u32 v) = be_bytes32 v.
Proof. by apply To4_mapped. Qed.

Lemma ToIP_valid k : key_wf k → valid_ip (ToIP k).
Proof. unfold key_wf, ToIP, valid_ip. destruct (isIPv6 k); [intros (_ & ? & _)|]; auto. Qed.

Lemma ToIPKey_ToIP k : key_wf k → ToIPKey (ToIP k) = k.
Proof.
  destruct k as [b v l]. unfold key_wf, ToIP, ToIPKey. cbn [isIPv6 v4 v6].
  destruct b; cbn [negb].
  - intros (-> & Hl & H4). rewrite H4. cbn [is_nil negb]. f_equal.
    unfold To16. rewrite Hl. cbn [Nat.eqb].
    rewrite take_app_le, take_ge by lia. done.
  - intros [Hv ->]. rewrite IPv4_of_u32_To4. cbn [is_nil be_bytes32 negb].
    f_equal. rewrite <- (app_nil_r (be_bytes32 v)), be_uint32_bytes32. by apply w32_small.
Qed.

(** A key remembers the address up to its sixteen-byte form. *)
Lemma ToIP_ToIPKey ip : valid_ip ip → To16 (ToIP (ToIPKey ip)) = To16 ip.
Proof.
  intros Hv. unfold ToIPKey. destruct (is_nil (To4 ip)) eqn:E; cbn.
  - apply is_nil_true in E. destruct (To16_To4_nil ip Hv E) as [Hl ->].
    rewrite take_app_le, take_ge by lia. unfold To16. by rewrite Hl.
  - apply is_nil_false in E. pose proof (To4_length ip E) as Hl.
    rewrite (To16_of_To4 ip) by done.
    destruct (length4_inv _ Hl) as (a & b & c & d & ->).
    pose proof (be_bytes32_uint32 a b c d) as Hb. unfold be_bytes32 in Hb.
    unfold ToIP, IPv4_of_u32, IPv4. cbn [isIPv6 negb v4]. rewrite Hb. done.
Qed.

Lemma ToIPKey_To16 ip : valid_ip ip → ToIPKey (To16 ip) = ToIPKey ip.
Proof. intros Hv. unfold ToIPKey. by rewrite To4_To16, To16_idemp. Qed.

Lemma ToIPKey_inj ip ip' :
  valid_ip ip → valid_ip ip' → ToIPKey ip = ToIPKey ip' → To16 ip = To16 ip'.
Proof. intros H H' Heq. rewrite <- (ToIP_ToIPKey ip), Heq by done. by apply ToIP_ToIPKey. Qed.

Lemma normalizeIP_To16 ip : valid_ip ip → normalizeIP (To16 ip) = normalizeIP ip.
Proof. intros Hv. unfold normalizeIP. by rewrite To4_To16, To16_idemp. Qed.

(** The shard of a valid address is the shard of its key. *)
Lemma getShardIndex_key ip : valid_ip ip → getShardIndex ip = kidx (ToIPKey ip).
Proof.
  intros Hv. unfold kidx, getShardIndex.
  rewrite <- (normalizeIP_To16 ip), <- (ToIP_ToIPKey ip) by done.
  by rewrite normalizeIP_To16 by apply ToIP_valid, ToIPKey_wf.
Qed.

Lemma getShardIndex_lt ip : (getShardIndex ip < 64)%nat.
Proof.
  unfold getShardIndex. pose proof (Z.mod_pos_bound (fnv1aBytes (normalizeIP ip)) 64 ltac:(lia)).
  lia.
Qed.

Lemma kidx_lt k : (kidx k < 64)%nat.
Proof. apply getShardIndex_lt. Qed.

#[export] Hint Resolve kidx_lt getShardIndex_lt ToIPKey_wf ToIP_valid : go.

(** ** Views of the updated state *)

Lemma shard_at_alter g i j p :
  (i < length (shards p))%nat →
  shard_at (set_shards (alter g i (shards p)) p) j =
  if decide (i = j) then g (shard_at p j) else shard_at p j.
Proof.
  intros Hi. unfold shard_at. cbn [shards set_shards]. case_decide as E.
  - subst j. rewrite list_lookup_alter_eq.
    destruct (lookup_lt_is_Some_2 _ _ Hi) as [s ->]. done.
  - by rewrite list_lookup_alter_ne.
Qed.

(** What the primitives do to the maps the invariant talks about. *)
Lemma shard_link r f e v p j :
  length (shards p) = 64%nat →
  shard_at (link r f e v p) j =
  if decide (kidx r = j)
  then mkShard (<[r:=f]> (realToFake (shard_at p j))) (<[r:=e]> (expiries (shard_at p j)))
  else shard_at p j.
Proof.
  intros Hl. change (shard_at (link r f e v p) j) with (shard_at (put_real (kidx r) r f e p) j).
  unfold put_real. rewrite shard_at_alter by (rewrite Hl; apply kidx_lt). done.
Qed.

Lemma shard_unlink r f p j :
  length (shards p) = 64%nat →
  shard_at (unlink r f p) j =
  if decide (kidx r = j)
  then mkShard (delete r (realToFake (shard_at p j))) (delete r (expiries (shard_at p j)))
  else shard_at p j.
Proof.
  intros Hl. change (shard_at (unlink r f p) j) with (shard_at (del_real (kidx r) r p) j).
  unfold del_real. rewrite shard_at_alter by (rewrite Hl; apply kidx_lt). done.
Qed.

Lemma shard_put_expiry r e p j :
  length (shards p) = 64%nat →
  shard_at (put_expiry (kidx r) r e p) j =
  if decide (kidx r = j)
  then mkShard (realToFake (shard_at p j)) (<[r:=e]> (expiries (shard_at p j)))
  else shard_at p j.
Proof.
  intros Hl. unfold put_expiry. rewrite shard_at_alter by (rewrite Hl; apply kidx_lt). done.
Qed.

Section Views.
Context (p : IPPool) (Hlen : length (shards p) = 64%nat).

Lemma rtf_link r f e v r' :
  rtf (link r f e v p) r' = if decide (r = r') then Some f else rtf p r'.
Proof.
  unfold rtf. rewrite shard_link by done. case_decide as E.
  - cbn. rewrite lookup_insert. by case_decide.
  - case_decide; [congruence|done].
Qed.

Lemma rtf_unlink r f r' : rtf (unlink r f p) r' = if decide (r = r') then None else rtf p r'.
Proof.
  unfold rtf. rewrite shard_unlink by done. case_decide as E.
  - cbn. rewrite lookup_delete. by case_decide.
  - case_decide; [congruence|done].
Qed.

Lemma rtf_put_expiry r e r' : rtf (put_expiry (kidx r) r e p) r' = rtf p r'.
Proof. unfold rtf. rewrite shard_put_expiry by done. by case_decide. Qed.

Lemma expiry_link r f e v r' :
  expiry_of (link r f e v p) r' = if decide (r = r') then Some e else expiry_of p r'.
Proof.
  unfold expiry_of. rewrite shard_link by done. case_decide as E.
  - cbn. rewrite lookup_insert. by case_decide.
  - case_decide; [congruence|done].
Qed.

Lemma expiry_unlink r f r' :
  expiry_of (unlink r f p) r' = if decide (r = r') then None else expiry_of p r'.
Proof.
  unfold expiry_of. rewrite shard_unlink by done. case_decide as E.
  - cbn. rewrite lookup_delete. by case_decide.
  - case_decide; [congruence|done].
Qed.

Lemma expiry_put_expiry r e r' :
  expiry_of (put_expiry (kidx r) r e p) r' = if decide (r = r') then Some e else expiry_of p r'.
Proof.
  unfold expiry_of. rewrite shard_put_expiry by done. case_decide as E.
  - cbn. rewrite lookup_insert. by case_decide.
  - case_decide; [congruence|done].
Qed.

Lemma fake_link r f e v f' :
  globalFakeToReal (link r f e v p) !! f' = if decide (f = f') then Some r else globalFakeToReal p !! f'.
Proof. apply lookup_insert. Qed.

Lemma fake_unlink r f f' :
  globalFakeToReal (unlink r f p) !! f' = if decide (f = f') then None else globalFakeToReal p !! f'.
Proof. apply lookup_delete. Qed.

Lemma version_link r f e v f' :
  globalVersions (link r f e v p) !! f' = if decide (f = f') then Some v else globalVersions p !! f'.
Proof. apply lookup_insert. Qed.

Lemma version_unlink r f f' :
  globalVersions (unlink r f p) !! f' = if decide (f = f') then None else globalVersions p !! f'.
Proof. apply lookup_delete. Qed.

Lemma length_link r f e v : length (shards (link r f e v p)) = 64%nat.
Proof. cbn. by rewrite length_alter. Qed.

Lemma length_unlink r f : length (shards (unlink r f p)) = 64%nat.
Proof. cbn. by rewrite length_alter. Qed.
End Views.

(** ** The primitives preserve the invariant *)

Ltac wf_split H := constructor;
  [try apply length_link; try apply length_unlink; apply (wf_len _ H) | intros i k | intros i k
  | intros k g | intros g | intros g k].

Lemma link_wf r f e v p :
  pool_wf p → key_wf r → key_wf f → rtf p r = None → globalFakeToReal p !! f = None →
  pool_wf (link r f e v p).
Proof.
  intros H Hr Hf Hnr Hnf. pose proof (wf_len p H) as Hl. wf_split H.
  - rewrite shard_link by done. case_decide as E; [|apply (wf_place p H)].
    cbn. rewrite lookup_insert. case_decide; [congruence|apply (wf_place p H)].
  - rewrite shard_link by done. case_decide as E; [|apply (wf_expiries p H)].
    cbn. rewrite !lookup_insert. case_decide; [split; eauto|apply (wf_expiries p H)].
  - rewrite rtf_link, fake_link by done. pose proof (wf_inverse p H) as Hi.
    case_decide as E1; case_decide as E2.
    + subst. done.
    + subst. rewrite <- Hi, Hnr. by split; intros [=].
    + subst. rewrite Hi, Hnf. by split; intros [=].
    + apply Hi.
  - rewrite fake_link, version_link. case_decide; [split; eauto|apply (wf_versions p H)].
  - rewrite fake_link. case_decide; [intros [= <-]; subst; done|apply (wf_keys p H)].
Qed.

Lemma unlink_wf r f p : pool_wf p → rtf p r = Some f → pool_wf (unlink r f p).
Proof.
  intros H Hrf. pose proof (wf_len p H) as Hl. pose proof (wf_inverse p H) as Hi. wf_split H.
  - rewrite shard_unlink by done. case_decide as E; [|apply (wf_place p H)].
    cbn. rewrite lookup_delete. case_decide; [by intros []|apply (wf_place p H)].
  - rewrite shard_unlink by done. case_decide as E; [|apply (wf_expiries p H)].
    cbn. rewrite !lookup_delete. case_decide; [by split; intros []|apply (wf_expiries p H)].
  - rewrite rtf_unlink, fake_unlink by done. apply Hi in Hrf as Hfr.
    case_decide as E1; case_decide as E2; subst; [done| | |apply Hi].
    + split; [done|]. intros Hg%Hi. congruence.
    + split; [|done]. intros Hg%Hi. congruence.
  - rewrite fake_unlink, version_unlink. case_decide; [by split; intros []|apply (wf_versions p H)].
  - rewrite fake_unlink. case_decide; [done|apply (wf_keys p H)].
Qed.

Lemma put_expiry_wf r e p :
  pool_wf p → is_Some (rtf p r) → pool_wf (put_expiry (kidx r) r e p).
Proof.
  intros H Hr. pose proof (wf_len p H) as Hl. constructor.
  - cbn. by rewrite length_alter.
  - intros i k. rewrite shard_put_expiry by done. case_decide; apply (wf_place p H).
  - intros i k. rewrite shard_put_expiry by done. case_decide as E; [|apply (wf_expiries p H)].
    cbn. rewrite lookup_insert. case_decide as Ek; [|apply (wf_expiries p H)].
    subst. split; [eauto|done].
  - intros k g. rewrite rtf_put_expiry by done. apply (wf_inverse p H).
  - apply (wf_versions p H).
  - apply (wf_keys p H).
Qed.

(** The invariant is about the maps only. *)
Lemma pool_wf_maps p q :
  shards p = shards q → globalFakeToReal p = globalFakeToReal q →
  globalVersions p = globalVersions q → pool_wf p → pool_wf q.
Proof.
  intros E1 E2 E3 H. destruct H as [h1 h2 h3 h4 h5 h6].
  unfold rtf, shard_at in *. rewrite E1, ?E2, ?E3 in *. by constructor.
Qed.

Lemma set_hlc_wf h p : pool_wf p → pool_wf (set_hlc h p).
Proof. by apply pool_wf_maps. Qed.

Lemma evict_real_wf r p : pool_wf p → pool_wf (evict_real r p).
Proof. intros H. unfold evict_real. destruct (rtf p r) eqn:E; [by apply unlink_wf|done]. Qed.

Lemma evict_fake_wf f p : pool_wf p → pool_wf (evict_fake f p).
Proof.
  intros H. unfold evict_fake. destruct (globalFakeToReal p !! f) eqn:E; [|done].
  apply unlink_wf, (wf_inverse p H); done.
Qed.

#[export] Hint Resolve evict_real_wf evict_fake_wf set_hlc_wf unlink_wf : go.

Lemma rtf_evict_real r p : pool_wf p → rtf (evict_real r p) r = None.
Proof.
  intros H. unfold evict_real. destruct (rtf p r) eqn:E; [|done].
  rewrite rtf_unlink by apply (wf_len p H). by rewrite decide_True.
Qed.

Lemma fake_evict_fake f p : globalFakeToReal (evict_fake f p) !! f = None.
Proof.
  unfold evict_fake. destruct (globalFakeToReal p !! f) eqn:E; [|done].
  rewrite fake_unlink. by rewrite decide_True.
Qed.

Lemma rtf_evict_fake_None f r p : pool_wf p → rtf p r = None → rtf (evict_fake f p) r = None.
Proof.
  intros H Hr. unfold evict_fake. destruct (globalFakeToReal p !! f) eqn:E; [|done].
  rewrite rtf_unlink by apply (wf_len p H). by case_decide.
Qed.

(** Linking after dropping both old partners: the shape of every accepted
    update. *)
Definition relink (r f : IPKey) (e v : Z) (p : IPPool) : IPPool :=
  link r f e v (evict_fake f (evict_real r p)).

Lemma relink_wf r f e v p :
  pool_wf p → key_wf r → key_wf f → pool_wf (relink r f e v p).
Proof.
  intros H Hr Hf. apply link_wf; auto with go.
  - apply rtf_evict_fake_None; auto using rtf_evict_real with go.
  - apply fake_evict_fake.
Qed.

(** ** Algebra of the state updates *)

Lemma alter_shard_ext (g h : cacheShard → cacheShard) (i : nat) (l : list cacheShard) :
  (∀ s, g s = h s) → alter g i l = alter h i l.
Proof. intros E. apply list_alter_ext; auto. Qed.

Lemma put_real_del_real i r f e p : put_real i r f e (del_real i r p) = put_real i r f e p.
Proof.
  unfold put_real, del_real, set_shards. cbn. f_equal. rewrite list_alter_alter.
  apply alter_shard_ext. intros s. cbn. by rewrite !insert_delete_eq.
Qed.

Lemma put_fake_del_fake f r v p : put_fake f r v (del_fake f p) = put_fake f r v p.
Proof. unfold put_fake, del_fake, set_globals. cbn. by rewrite !insert_delete_eq. Qed.

Lemma del_real_comm i j r r' p : del_real i r (del_real j r' p) = del_real j r' (del_real i r p).
Proof.
  unfold del_real, set_shards. cbn. f_equal. destruct (decide (i = j)) as [->|Hne].
  - rewrite !list_alter_alter. apply alter_shard_ext. intros s. cbn.
    by rewrite (delete_delete _ r r'), (delete_delete (expiries s) r r').
  - by apply list_alter_comm.
Qed.

Lemma link_unlink_real r f f' e v p : link r f e v (unlink r f' p) = link r f e v (del_fake f' p).
Proof.
  unfold link, unlink.
  change (put_real (kidx r) r f e (del_fake f' (del_real (kidx r) r p)))
    with (del_fake f' (put_real (kidx r) r f e (del_real (kidx r) r p))).
  by rewrite put_real_del_real.
Qed.

Lemma link_unlink_fake r r' f e v p :
  link r f e v (unlink r' f p) = link r f e v (del_real (kidx r') r' p).
Proof.
  unfold link, unlink.
  change (put_real (kidx r) r f e (del_fake f (del_real (kidx r') r' p)))
    with (del_fake f (put_real (kidx r) r f e (del_real (kidx r') r' p))).
  by rewrite put_fake_del_fake.
Qed.
