(* ===== verification/PoolOps.v ===== *)
(** * The Fake-IP pool: what each operation does to the mapping

    Each operation of IPPool.v is described, on every branch, by the primitives
    [link], [unlink] and [relink] of PoolInv.v, and shown to preserve
    [pool_wf]. *)

From Stdlib Require String.
From stdpp Require Import prelude gmap strings sorting.
From S2P Require Import Prelude GoStrings GoNet GoNetFacts Metrics IPPool PoolInv.

(** ** Definitions *)

(** The update loses against the current owner of its fake address. *)
Definition loses_fake (p : IPPool) (r f : IPKey) (v : Z) : bool :=
  match globalFakeToReal p !! f with
  | Some r0 => outdated v (globalVersions p !! f) r r0
  | None => false
  end.

(** The update loses against the current fake address of its real one. *)
Definition loses_real (p : IPPool) (r f : IPKey) (v : Z) : bool :=
  match rtf p r with
  | Some f0 => if bool_decide (f0 = f) then false else outdated v (globalVersions p !! f0) f f0
  | None => false
  end.

(** ** [AddMapping] *)

Section AddMapping.
Context (p : IPPool) (Hwf : pool_wf p).

(** The four ways an accepted update writes the maps are all [relink]. *)
Lemma add_writes r f e v :
  put_fake f r v
    (put_real (kidx r) r f e
       (match (match globalFakeToReal p !! f with
               | Some r0 => if bool_decide (r0 = r) then None else Some r0
               | None => None end)
        with
        | Some r0 => del_real (kidx r0) r0
        | None => id
        end
        (match (match rtf p r with
                | Some f0 => if bool_decide (f0 = f) then None else Some f0
                | None => None end)
         with
         | Some f0 => del_fake f0 p
         | None => p
         end))) = relink r f e v p.
Proof.
  pose proof (wf_inverse p Hwf) as Hinv. unfold relink, evict_real.
  destruct (rtf p r) as [f0|] eqn:Er.
  - case_bool_decide as Ef.
    + subst f0. apply Hinv in Er as Hfr. rewrite Hfr, bool_decide_eq_true_2 by done.
      unfold evict_fake. rewrite fake_unlink, decide_True by done.
      rewrite link_unlink_real. unfold link.
      change (put_real (kidx r) r f e (del_fake f p)) with (del_fake f (put_real (kidx r) r f e p)).
      by rewrite put_fake_del_fake.
    + unfold evict_fake. rewrite fake_unlink, decide_False by done.
      destruct (globalFakeToReal p !! f) as [r0|] eqn:Efr; [|by rewrite link_unlink_real].
      apply Hinv in Efr as Hr0. rewrite bool_decide_eq_false_2 by congruence.
      rewrite link_unlink_fake. unfold unlink.
      change (del_real (kidx r0) r0 (del_fake f0 (del_real (kidx r) r p)))
        with (del_fake f0 (del_real (kidx r0) r0 (del_real (kidx r) r p))).
      rewrite del_real_comm.
      change (del_fake f0 (del_real (kidx r) r ?q)) with (unlink r f0 q).
      by rewrite link_unlink_real.
  - unfold evict_fake. destruct (globalFakeToReal p !! f) as [r0|] eqn:Efr; [|done].
    apply Hinv in Efr as Hr0. rewrite bool_decide_eq_false_2 by congruence.
    by rewrite link_unlink_fake.
Qed.

(** The result of [AddMapping] on every branch. *)
Lemma AddMapping_eq mt realIP fakeIP v e :
  valid_ip realIP →
  let r := ToIPKey realIP in
  let f := ToIPKey fakeIP in
  (AddMapping p mt realIP fakeIP v e).1 =
  if loses_fake p r f v || loses_real p r f v then (false, p) else (true, relink r f e v p).
Proof.
  intros Hv r f. rewrite <- (add_writes r f e v).
  unfold AddMapping. rewrite (getShardIndex_key realIP Hv). fold r f.
  change (realToFake (shard_at p (kidx r)) !! r) with (rtf p r).
  unfold loses_fake, loses_real.
  destruct (globalFakeToReal p !! f) as [r0|]; destruct (rtf p r) as [f0|];
    try destruct (outdated v (globalVersions p !! f) r r0); cbn [orb];
    try case_bool_decide;
    try (destruct (outdated v (globalVersions p !! f0) f f0));
    try case_bool_decide; reflexivity.
Qed.

Lemma AddMapping_wf mt realIP fakeIP v e :
  valid_ip realIP → pool_wf (AddMapping p mt realIP fakeIP v e).1.2.
Proof.
  intros Hv. rewrite (AddMapping_eq mt realIP fakeIP v e Hv).
  case_match; cbn; auto using relink_wf with go.
Qed.

Lemma AddMapping_hlc mt realIP fakeIP v e :
  hlc (AddMapping p mt realIP fakeIP v e).1.2 = hlc p.
Proof. unfold AddMapping. repeat case_match; simplify_eq; done. Qed.
End AddMapping.

(** ** The other operations *)

Section Operations.
Context (p : IPPool) (Hwf : pool_wf p).

Lemma RemoveMapping_eq realIP fakeIP :
  valid_ip realIP →
  let r := ToIPKey realIP in
  let f := ToIPKey fakeIP in
  RemoveMapping p realIP fakeIP = if bool_decide (rtf p r = Some f) then unlink r f p else p.
Proof.
  intros Hv r f. unfold RemoveMapping. rewrite (getShardIndex_key realIP Hv). fold r f.
  change (realToFake (shard_at p (kidx r)) !! r) with (rtf p r).
  destruct (rtf p r); repeat case_bool_decide; naive_solver.
Qed.

Lemma RemoveMapping_wf realIP fakeIP : valid_ip realIP → pool_wf (RemoveMapping p realIP fakeIP).
Proof.
  intros Hv. rewrite RemoveMapping_eq by done. case_bool_decide; auto with go.
Qed.

Lemma prune_pair_wf now i pair : pool_wf (prune_pair now i p pair).
Proof.
  destruct pair as [r f]. unfold prune_pair.
  destruct (expiries (shard_at p i) !! r); [|done]. case_match; [|done].
  destruct (realToFake (shard_at p i) !! r) as [g|] eqn:E; [|done].
  assert (i = kidx r) as -> by (apply (wf_place p Hwf); eauto).
  case_bool_decide; [subst|done]. by apply unlink_wf.
Qed.
End Operations.

Lemma prune_fold_wf now i pairs p : pool_wf p → pool_wf (foldl (prune_pair now i) p pairs).
Proof. revert p. induction pairs; cbn; auto using prune_pair_wf. Qed.

Lemma PruneExpired_wf now p : pool_wf p → pool_wf (PruneExpired p now).
Proof.
  unfold PruneExpired. generalize (seq 0 64). intros l. revert p.
  induction l; cbn; [done|]. intros p H. apply IHl. by apply prune_fold_wf.
Qed.

(** ** Allocation *)

(** A mapping that has not expired at [now]. *)
Definition live (p : IPPool) (now : Z) (r : IPKey) : Prop :=
  ∃ f e, rtf p r = Some f ∧ expiry_of p r = Some e ∧ now < e.

Lemma occupied_false p ip : occupied p ip = false ↔ globalFakeToReal p !! ToIPKey ip = None.
Proof. unfold occupied. rewrite bool_decide_eq_false, <- eq_None_not_Some. done. Qed.

Lemma occupied_true p ip : occupied p ip = true ↔ is_Some (globalFakeToReal p !! ToIPKey ip).
Proof. apply bool_decide_eq_true. Qed.

(** What probing returns is a free candidate of the range of attempts. *)
Lemma probe_Some p cand n a c :
  probe p cand n a = Some c →
  occupied p c = false ∧ ∃ k, a ≤ k < a + Z.of_nat n ∧ cand k = Some c.
Proof.
  revert a. induction n as [|n IH]; intros a; cbn; [done|].
  destruct (cand a) as [c'|] eqn:Ec; [destruct (occupied p c') eqn:Eo|].
  - intros [Ho (k & Hk & Hc)]%IH. split; [done|]. exists k. split; [lia|done].
  - intros [= ->]. split; [done|]. exists a. split; [lia|done].
  - intros [Ho (k & Hk & Hc)]%IH. split; [done|]. exists k. split; [lia|done].
Qed.

(** Probing fails only when every candidate is taken. *)
Lemma probe_None p cand n a :
  probe p cand n a = None →
  ∀ k c, a ≤ k < a + Z.of_nat n → cand k = Some c → occupied p c = true.
Proof.
  revert a. induction n as [|n IH]; intros a; cbn [probe]; [lia|].
  intros H k c Hk Hc. destruct (decide (k = a)) as [->|Hne].
  - rewrite Hc in H. by destruct (occupied p c).
  - destruct (cand a) as [c'|]; [destruct (occupied p c'); [|done]|];
      (eapply IH; [exact H| |exact Hc]; lia).
Qed.

Lemma choose_fake_free p realIP isV6 c :
  choose_fake p realIP isV6 = Some c → globalFakeToReal p !! ToIPKey c = None.
Proof.
  unfold choose_fake. rewrite <- occupied_false.
  destruct (occupied p (ComputeLevel1Hash p realIP isV6)) eqn:E; cbn [negb]; [|by intros [= <-]].
  destruct isV6; cbn [negb]; by intros [? _]%probe_Some.
Qed.

#[export] Instance live_decision p now r : Decision (live p now r).
Proof.
  refine (match rtf p r as o, expiry_of p r as o' return rtf p r = o → expiry_of p r = o' → _ with
          | Some f, Some e => λ E E', cast_if (decide (now < e))
          | _, _ => λ _ _, right _
          end eq_refl eq_refl); unfold live; naive_solver.
Defined.

Section Alloc.
Context (p : IPPool) (Hwf : pool_wf p).

Lemma expiry_of_mapped r f : rtf p r = Some f → is_Some (expiry_of p r).
Proof. intros E. apply (wf_expiries p Hwf (kidx r) r). exists f. exact E. Qed.

Lemma live_dec_eq now r :
  match rtf p r with
  | Some _ => match expiry_of p r with None => true | Some e => now <? e end
  | None => false
  end = true ↔ live p now r.
Proof.
  unfold live. destruct (rtf p r) as [f|] eqn:E.
  - destruct (expiry_of_mapped r f E) as [e ->]. rewrite Z.ltb_lt.
    split; [eauto 6|]. by intros (? & ? & _ & [= <-] & ?).
  - split; [done|]. by intros (? & ? & [=] & _).
Qed.

Lemma TryReserve_live now1 now2 realIP fakeIP v e :
  valid_ip realIP → live p now1 (ToIPKey realIP) →
  ∃ f p', rtf p (ToIPKey realIP) = Some f ∧
    TryReserve p now1 now2 realIP fakeIP v e = (true, ToIP f, p') ∧
    (p' = p ∨ p' = put_expiry (kidx (ToIPKey realIP)) (ToIPKey realIP) e p).
Proof.
  intros Hv (f & e0 & Hr & He & Hlt). unfold TryReserve, rtf, expiry_of in *.
  rewrite (getShardIndex_key realIP Hv), Hr, He. apply Z.ltb_lt in Hlt as ->.
  exists f. case_match; eexists; split_and!; eauto.
Qed.

Lemma TryReserve_not_live now1 now2 realIP fakeIP v e :
  valid_ip realIP → ¬ live p now1 (ToIPKey realIP) →
  let r := ToIPKey realIP in
  let f := ToIPKey fakeIP in
  let q := evict_real r p in
  TryReserve p now1 now2 realIP fakeIP v e =
  match globalFakeToReal q !! f with
  | Some _ => (false, [], q)
  | None => (true, fakeIP, link r f e v q)
  end.
Proof.
  intros Hv Hn r f q. rewrite <- live_dec_eq in Hn. apply not_true_is_false in Hn.
  subst q. unfold TryReserve, evict_real, rtf, expiry_of in *. fold r f in Hn |- *.
  rewrite (getShardIndex_key realIP Hv). fold r.
  destruct (realToFake (shard_at p (kidx r)) !! r); [rewrite Hn|]; done.
Qed.

Lemma TryReserve_wf now1 now2 realIP fakeIP v e :
  valid_ip realIP → pool_wf (TryReserve p now1 now2 realIP fakeIP v e).2.
Proof.
  intros Hv. destruct (decide (live p now1 (ToIPKey realIP))) as [Hl|Hl].
  - destruct (TryReserve_live now1 now2 realIP fakeIP v e Hv Hl) as (f & p' & Hr & -> & [-> | ->]);
      [done|]. apply put_expiry_wf; eauto.
  - rewrite TryReserve_not_live by done. case_match; cbn; auto with go.
    apply link_wf; auto using rtf_evict_real with go.
Qed.

Lemma alloc_locked_live now nano realIP isV6 :
  valid_ip realIP → live p now (ToIPKey realIP) →
  ∃ f p', rtf p (ToIPKey realIP) = Some f ∧
    alloc_locked p now nano realIP isV6 = (AllocCached (ToIP f), p') ∧
    (p' = p ∨ p' = put_expiry (kidx (ToIPKey realIP)) (ToIPKey realIP) (now + MappingTTL) p).
Proof.
  intros Hv (f & e0 & Hr & He & Hlt). unfold alloc_locked, rtf, expiry_of in *.
  rewrite (getShardIndex_key realIP Hv), Hr, He. apply Z.ltb_lt in Hlt as ->.
  exists f. case_match; eexists; split_and!; eauto.
Qed.

Lemma alloc_locked_not_live now nano realIP isV6 :
  valid_ip realIP → ¬ live p now (ToIPKey realIP) →
  let r := ToIPKey realIP in
  let q := evict_real r p in
  let v := (GetNextVersion nano q).1 in
  alloc_locked p now nano realIP isV6 =
  match choose_fake q realIP isV6 with
  | Some c => (AllocNew c v, link r (ToIPKey c) (now + MappingTTL) v (set_hlc v q))
  | None => (AllocExhausted, q)
  end.
Proof.
  intros Hv Hn r q v. rewrite <- live_dec_eq in Hn. apply not_true_is_false in Hn.
  subst v q. unfold alloc_locked, evict_real, rtf, expiry_of in *. fold r in Hn |- *.
  rewrite (getShardIndex_key realIP Hv). fold r.
  destruct (realToFake (shard_at p (kidx r)) !! r) as [f0|]; [rewrite Hn|]; done.
Qed.
End Alloc.

Section AllocInv.
Context (p : IPPool) (Hwf : pool_wf p).

Lemma alloc_locked_wf now nano realIP isV6 :
  valid_ip realIP → pool_wf (alloc_locked p now nano realIP isV6).2.
Proof.
  intros Hv. destruct (decide (live p now (ToIPKey realIP))) as [Hl|Hl].
  - destruct (alloc_locked_live p now nano realIP isV6 Hv Hl) as (f & p' & Hr & -> & [-> | ->]);
      [done|]. apply put_expiry_wf; eauto.
  - rewrite alloc_locked_not_live by done. case_match eqn:E; cbn [snd]; auto with go.
    apply choose_fake_free in E.
    apply link_wf; auto with go.
    apply (rtf_evict_real (ToIPKey realIP) p Hwf).
Qed.

(** The lock-free lookup is an optimisation: it answers what the locked
    section would. *)
Lemma alloc_one_eq now nano realIP isV6 :
  valid_ip realIP → alloc_one p now nano realIP isV6 = alloc_locked p now nano realIP isV6.
Proof.
  intros Hv. unfold alloc_one, getShard. rewrite (getShardIndex_key realIP Hv).
  set (r := ToIPKey realIP).
  change (realToFake (shard_at p (kidx r)) !! r) with (rtf p r).
  change (expiries (shard_at p (kidx r)) !! r) with (expiry_of p r).
  destruct (rtf p r) as [f|] eqn:E; [|by subst r].
  destruct (expiry_of_mapped p Hwf r f E) as [e Ee]. rewrite Ee.
  change (default time_zero (Some e)) with e.
  destruct (Z.ltb_spec (now + 5 * minute) e) as [Hlt|]; [|by subst r].
  unfold alloc_locked. rewrite (getShardIndex_key realIP Hv). fold r.
  unfold rtf, expiry_of in E, Ee. rewrite E, Ee.
  assert (minute = 60000000000) as Hm by done.
  destruct (Z.ltb_spec now e); [|lia]. destruct (Z.ltb_spec e (now + 5 * minute)); [lia|done].
Qed.

Lemma alloc_one_wf now nano realIP isV6 :
  valid_ip realIP → pool_wf (alloc_one p now nano realIP isV6).2.
Proof. intros Hv. rewrite alloc_one_eq by done. by apply alloc_locked_wf. Qed.

(** A fresh address is the choice in the state without the expired mapping. *)
Lemma alloc_new now nano realIP isV6 c v :
  valid_ip realIP → (alloc_locked p now nano realIP isV6).1 = AllocNew c v →
  ∃ q, q = evict_real (ToIPKey realIP) p ∧ choose_fake q realIP isV6 = Some c.
Proof.
  intros Hv Ha. exists (evict_real (ToIPKey realIP) p). split; [done|].
  destruct (decide (live p now (ToIPKey realIP))) as [Hl|Hl].
  - destruct (alloc_locked_live p now nano realIP isV6 Hv Hl) as (? & ? & _ & E & _). by rewrite E in Ha.
  - rewrite alloc_locked_not_live in Ha by done. case_match; by simplify_eq/=.
Qed.
End AllocInv.
