(* ===== verification/PoolReach.v ===== *)
(** * The Fake-IP pool: concurrent executions and pruning

    [pool_step] is one critical section of the pool run by any goroutine: an
    operation between taking and releasing its locks.  An execution of the
    engine interleaves them arbitrarily, so an invariant of [pool_step] holds
    at every moment no lock is held.

    The relation is indexed by the real addresses [from] the operations are
    called with.  The pool's invariant holds when they have 4 or 16 bytes
    ([valid_ip]); no operation checks the length, and [malformed_real_breaks_pool]
    shows a reachable state without the invariant for an address of 5 bytes. *)

From Stdlib Require String.
From stdpp Require Import prelude gmap strings sorting relations.
From S2P Require Import Prelude GoStrings GoNet GoNetFacts Metrics IPPool PoolInv PoolOps.

(** ** Executions *)

Inductive pool_step (from : IP → Prop) (p : IPPool) : IPPool → Prop :=
  | step_add mt realIP fakeIP v e :
      from realIP → pool_step from p (AddMapping p mt realIP fakeIP v e).1.2
  | step_remove realIP fakeIP :
      from realIP → pool_step from p (RemoveMapping p realIP fakeIP)
  | step_reserve now1 now2 realIP fakeIP v e :
      from realIP → pool_step from p (TryReserve p now1 now2 realIP fakeIP v e).2
  | step_alloc now nano realIP isV6 :
      from realIP → pool_step from p (alloc_locked p now nano realIP isV6).2
  | step_prune now i pairs :
      (* the pairs were collected earlier, in another state *)
      pool_step from p (foldl (prune_pair now i) p pairs)
  | step_version now : pool_step from p (GetNextVersion now p).2
  | step_observe now v : pool_step from p (ObserveVersion now v p)
  | step_close p' : Close p = Some p' → pool_step from p p'.

Lemma pool_step_wf p p' : pool_wf p → pool_step valid_ip p p' → pool_wf p'.
Proof.
  intros H [ | | | | | | |q Hq].
  - by apply AddMapping_wf.
  - by apply RemoveMapping_wf.
  - by apply TryReserve_wf.
  - by apply alloc_locked_wf.
  - by apply prune_fold_wf.
  - by apply set_hlc_wf.
  - by apply set_hlc_wf.
  - unfold Close in Hq. case_match; simplify_eq. by apply (pool_wf_maps p).
Qed.

Lemma NewIPPoolWithConfig_wf base4 base6 cfg : pool_wf (NewIPPoolWithConfig base4 base6 cfg).
Proof.
  set (p := NewIPPoolWithConfig base4 base6 cfg).
  assert (∀ i, shard_at p i = empty_shard) as Hs.
  { intros i. unfold shard_at. cbn [shards p NewIPPoolWithConfig].
    destruct (decide (i < 64)%nat).
    - by rewrite lookup_replicate_2.
    - by rewrite lookup_ge_None_2 by (rewrite length_replicate; lia). }
  constructor.
  - done.
  - intros i r. rewrite Hs. by intros [? [=]].
  - intros i r. rewrite Hs. split; by intros [? [=]].
  - intros r f. unfold rtf. rewrite Hs. done.
  - intros f. split; by intros [? [=]].
  - intros f r [=].
Qed.

Lemma pool_steps_wf p p' : pool_wf p → rtc (pool_step valid_ip) p p' → pool_wf p'.
Proof. induction 2; eauto using pool_step_wf. Qed.

(** ** Properties *)

(** C1: as long as the real addresses the pool's operations are called with
    have 4 or 16 bytes, every state they can reach, whatever way the critical
    sections of concurrent DNS requests, peer updates, pruning passes and
    rollbacks are interleaved, has the pool's invariant: the sharded
    real-to-fake maps and the global fake-to-real map are inverse of each
    other, every real address sits in the shard its hash selects, and expiries
    and versions exist exactly for mapped addresses. *)
Theorem reachable_pool_wf base4 base6 cfg p :
  rtc (pool_step valid_ip) (NewIPPoolWithConfig base4 base6 cfg) p → pool_wf p.
Proof. apply pool_steps_wf, NewIPPoolWithConfig_wf. Qed.

Definition demo_pool : IPPool := NewIPPool "198.18" "fd00:18::".
Definition demo_real : IP := ParseIP "1.1.1.1".
Definition demo_fake : IP := ParseIP "198.18.0.5".

Lemma reachable_pool_wf_witness :
  pool_wf (AddMapping (GetNextVersion 77 demo_pool).2 metrics_zero demo_real demo_fake 5 9).1.2.
Proof.
  apply (reachable_pool_wf "198.18" "fd00:18::"
           (mkIPPoolConfig DefaultPoolSizeV4 DefaultPoolSizeV6)).
  eapply rtc_l; [apply (step_version _ _ 77)|]. apply rtc_once, step_add.
  right. reflexivity.
Defined.

(** No reachable state hands one Fake-IP to two real addresses. *)
Theorem fake_never_shared base4 base6 cfg p r1 r2 f :
  rtc (pool_step valid_ip) (NewIPPoolWithConfig base4 base6 cfg) p →
  rtf p r1 = Some f → rtf p r2 = Some f → r1 = r2.
Proof.
  intros H H1 H2.
  apply pool_steps_wf in H as Hwf; [|apply NewIPPoolWithConfig_wf].
  apply (wf_inverse p Hwf) in H1, H2. congruence.
Qed.

Lemma fake_never_shared_witness :
  rtf (AddMapping demo_pool metrics_zero demo_real demo_fake 5 9).1.2 (ToIPKey demo_real)
    = Some (ToIPKey demo_fake) ∧ ToIPKey demo_real = ToIPKey demo_real.
Proof.
  split; [vm_compute; reflexivity|].
  eapply (fake_never_shared "198.18" "fd00:18::"
    (mkIPPoolConfig DefaultPoolSizeV4 DefaultPoolSizeV6)
    (AddMapping demo_pool metrics_zero demo_real demo_fake 5 9).1.2
    (ToIPKey demo_real) (ToIPKey demo_real) (ToIPKey demo_fake)).
  - apply rtc_once, step_add. right. reflexivity.
  - vm_compute. reflexivity.
  - vm_compute. reflexivity.
Defined.

(** The proviso on the addresses' length is needed, and the code does not
    check it: a peer's mapping whose [RealIP] has 5 bytes is stored under the
    key of "::" but in the shard of the empty hash.  The Fake-IP then belongs
    to an address no lookup finds, in a state without the invariant. *)
Theorem malformed_real_breaks_pool :
  let p := (AddMapping demo_pool metrics_zero [Byte.x01; Byte.x02; Byte.x03; Byte.x04; Byte.x05] demo_fake 5 9).1.2 in
  rtc (pool_step (λ ip, length ip = 5%nat)) demo_pool p ∧
  globalFakeToReal p !! ToIPKey demo_fake = Some (ToIPKey (ParseIP "::")) ∧
  rtf p (ToIPKey (ParseIP "::")) = None ∧ ¬ pool_wf p.
Proof.
  intros p.
  assert (globalFakeToReal p !! ToIPKey demo_fake = Some (ToIPKey (ParseIP "::"))) as Hf
    by (vm_compute; reflexivity).
  assert (rtf p (ToIPKey (ParseIP "::")) = None) as Hn by (vm_compute; reflexivity).
  split; [apply rtc_once, step_add; reflexivity|]. split; [done|]. split; [done|].
  intros H. apply (wf_inverse p H) in Hf. congruence.
Qed.
