(* ===== verification/PoolPrune.v ===== *)
(** * The Fake-IP pool: pruning

    [PruneExpired] removes exactly the expired mappings: shard by shard it
    collects the expired keys under the read lock and removes them, after
    checking again, under the write locks. *)

From stdpp Require Import prelude gmap strings sorting.
From S2P Require Import Prelude GoStrings GoNet GoNetFacts Metrics IPPool PoolInv PoolOps PoolReach.

(** ** Definitions *)

(** [q] holds some of the mappings of [p], each with its expiry and version. *)
Definition sub_pool (q p : IPPool) : Prop :=
  ∀ r f, rtf q r = Some f →
    rtf p r = Some f ∧ expiry_of q r = expiry_of p r ∧
    globalVersions q !! f = globalVersions p !! f.

(** ** Lemmas *)

Lemma sub_pool_refl p : sub_pool p p.
Proof. intros r f H. auto. Qed.

Lemma sub_pool_trans p q o : sub_pool o q → sub_pool q p → sub_pool o p.
Proof.
  intros H1 H2 r f (Hr & He & Hv)%H1. apply H2 in Hr as (? & ? & ?). split_and!; congruence.
Qed.

Lemma unlink_sub r f p : pool_wf p → rtf p r = Some f → sub_pool (unlink r f p) p.
Proof.
  intros H Hrf r' f'. pose proof (wf_len p H).
  rewrite rtf_unlink, expiry_unlink, version_unlink by done.
  case_decide; [done|]. intros Hr'. split_and!; [done|done|].
  case_decide; [|done]. subst f'.
  apply (wf_inverse p H) in Hrf, Hr'. congruence.
Qed.

(** What one pair of the second phase does. *)
Lemma prune_pair_cases now i p r f :
  pool_wf p →
  prune_pair now i p (r, f) = p ∨
  (prune_pair now i p (r, f) = unlink r f p ∧ rtf p r = Some f ∧
   ∃ e, expiry_of p r = Some e ∧ e < now).
Proof.
  intros H. unfold prune_pair.
  destruct (expiries (shard_at p i) !! r) as [e|] eqn:Ee; [|by left].
  destruct (Z.ltb_spec e now); [|by left].
  destruct (realToFake (shard_at p i) !! r) as [g|] eqn:Eg; [|by left].
  case_bool_decide; [subst g|by left]. right.
  assert (i = kidx r) as -> by (apply (wf_place p H); eauto).
  split_and!; [done|done|]. exists e. done.
Qed.

(** A pair that is still current and expired is removed. *)
Lemma prune_pair_removes now p r f e :
  pool_wf p → rtf p r = Some f → expiry_of p r = Some e → e < now →
  rtf (prune_pair now (kidx r) p (r, f)) r = None.
Proof.
  intros H Hr He Hlt. unfold prune_pair. unfold rtf, expiry_of in Hr, He.
  rewrite He, Hr. destruct (Z.ltb_spec e now); [|lia].
  rewrite bool_decide_eq_true_2 by done.
  change (del_fake f (del_real (kidx r) r p)) with (unlink r f p).
  rewrite rtf_unlink by apply (wf_len p H). by rewrite decide_True.
Qed.

Section PruneFold.
Context (now : Z) (i : nat).

(** Pruning only removes expired mappings, whatever pairs were collected. *)
Lemma prune_fold_sub pairs p :
  pool_wf p →
  sub_pool (foldl (prune_pair now i) p pairs) p ∧
  ∀ r f, rtf p r = Some f → rtf (foldl (prune_pair now i) p pairs) r = Some f ∨
    ∃ e, expiry_of p r = Some e ∧ e < now.
Proof.
  revert p. induction pairs as [|[r0 f0] pairs IH]; intros p H; cbn [foldl].
  { auto using sub_pool_refl. }
  destruct (IH _ (prune_pair_wf p H now i (r0, f0))) as [IH1 IH2].
  destruct (prune_pair_cases now i p r0 f0 H) as [E|(E & Hr0 & e & He & Hlt)].
  { rewrite E in *. auto. }
  rewrite E in *. split.
  - eapply sub_pool_trans; [apply IH1|]. by apply unlink_sub.
  - intros r f Hr. destruct (decide (r0 = r)) as [<-|Hne]; [right; eauto|].
    pose proof (wf_len p H) as Hl.
    destruct (IH2 r f) as [?|(e' & He' & ?)]; [|auto|].
    + rewrite rtf_unlink by done. by rewrite decide_False.
    + right. exists e'. rewrite expiry_unlink, decide_False in He' by done. done.
Qed.

(** A current expired pair among the collected ones is gone afterwards. *)
Lemma prune_fold_removes pairs p r f e :
  pool_wf p → i = kidx r → (r, f) ∈ pairs → rtf p r = Some f → expiry_of p r = Some e → e < now →
  rtf (foldl (prune_pair now i) p pairs) r = None.
Proof.
  intros H Hi. revert p H. induction pairs as [|pr pairs IH]; intros p H; [by intros ?%elem_of_nil|].
  intros Hin Hr He Hlt. cbn [foldl]. pose proof (prune_pair_wf p H now i pr) as H'.
  destruct (rtf (prune_pair now i p pr) r) as [g|] eqn:Eg.
  - destruct pr as [r0 f0].
    destruct (prune_pair_cases now i p r0 f0 H) as [E|(E & Hr0 & _)].
    + rewrite E in *. apply elem_of_cons in Hin as [[= -> ->]|Hin]; [|by eapply IH].
      subst i. pose proof (prune_pair_removes now p r0 f0 e H Hr He Hlt). congruence.
    + rewrite E in *. pose proof (wf_len p H) as Hl.
      rewrite rtf_unlink in Eg by done. case_decide as Ene; [done|].
      apply elem_of_cons in Hin as [[= -> ->]|Hin]; [done|].
      eapply IH; [done|done| | |done].
      * rewrite rtf_unlink by done. by rewrite decide_False.
      * rewrite expiry_unlink by done. by rewrite decide_False.
  - destruct (rtf (foldl (prune_pair now i) (prune_pair now i p pr) pairs) r) as [g|] eqn:Eg'; [|done].
    apply (prune_fold_sub pairs _ H') in Eg' as [Eg' _]. congruence.
Qed.
End PruneFold.

(** The first phase finds every expired mapping of its shard. *)
Lemma collect_expired_complete p now r f e :
  rtf p r = Some f → expiry_of p r = Some e → e < now →
  (r, f) ∈ collect_expired p now (kidx r).
Proof.
  intros Hr He Hlt. unfold collect_expired. apply list_elem_of_omap.
  exists (r, e). split; [by apply elem_of_map_to_list|].
  unfold rtf in Hr. rewrite Hr. by apply Z.ltb_lt in Hlt as ->.
Qed.

(** All the shards in turn. *)
Lemma prune_shards_spec now l p :
  pool_wf p →
  let q := foldl (prune_shard now) p l in
  pool_wf q ∧ sub_pool q p ∧
  (∀ r f, rtf p r = Some f → rtf q r = Some f ∨ ∃ e, expiry_of p r = Some e ∧ e < now) ∧
  (∀ r f e, kidx r ∈ l → rtf p r = Some f → expiry_of p r = Some e → e < now → rtf q r = None).
Proof.
  revert p. induction l as [|i l IH]; intros p H; cbn.
  { split_and!; auto using sub_pool_refl. by intros ? ? ? ?%elem_of_nil. }
  assert (pool_wf (prune_shard now p i)) as H1 by by apply prune_fold_wf.
  destruct (prune_fold_sub now i (collect_expired p now i) p H) as [S1 K1].
  fold (prune_shard now p i) in S1, K1.
  destruct (IH _ H1) as (H2 & S2 & K2 & R2). split_and!; [done|by eapply sub_pool_trans| |].
  - intros r f Hr. destruct (K1 r f Hr) as [Hr1|?]; [|auto].
    destruct (K2 r f Hr1) as [?|(e & He & ?)]; [auto|]. right. exists e.
    apply S1 in Hr1 as (_ & Heq & _). split; congruence.
  - intros r f e Hin Hr He Hlt.
    destruct (rtf (prune_shard now p i) r) as [g|] eqn:Eg.
    + apply S1 in Eg as Hg. destruct Hg as (Hg & Heq & _).
      assert (g = f) as -> by congruence.
      apply elem_of_cons in Hin as [<-|Hin].
      * assert (rtf (prune_shard now p (kidx r)) r = None); [|congruence].
        eapply prune_fold_removes; eauto using collect_expired_complete.
      * eapply R2; eauto. congruence.
    + destruct (rtf (foldl (prune_shard now) (prune_shard now p i) l) r) as [g|] eqn:Eg'; [|done].
      apply S2 in Eg' as [? _]. congruence.
Qed.

(** Pruning removes exactly the mappings whose expiry lies before [now] ... *)
Lemma PruneExpired_sub p now : pool_wf p → sub_pool (PruneExpired p now) p.
Proof. intros H. by destruct (prune_shards_spec now (seq 0 64) p H) as (_ & ? & _). Qed.

(** ... so an address is mapped afterwards iff it was and has not expired. *)
Lemma PruneExpired_exact p now r f :
  pool_wf p →
  rtf (PruneExpired p now) r = Some f ↔
  rtf p r = Some f ∧ ∃ e, expiry_of p r = Some e ∧ now ≤ e.
Proof.
  intros H. unfold PruneExpired.
  assert (∀ k, kidx k ∈ seq 0 64) as Hall
    by (intros k; apply elem_of_seq; pose proof (kidx_lt k); lia).
  revert Hall. generalize (seq 0 64) as l. intros l Hall.
  destruct (prune_shards_spec now l p H) as (H' & S & K & R). split.
  - intros Hr. destruct (S r f Hr) as (Hr' & _). split; [done|].
    destruct (expiry_of_mapped p H r f Hr') as [e Ee]. exists e. split; [done|].
    destruct (Z.le_gt_cases now e); [done|].
    rewrite (R r f e) in Hr; auto. done.
  - intros (Hr & e & He & Hle). destruct (K r f Hr) as [?|(e' & ? & ?)]; [done|].
    assert (e' = e) by congruence. lia.
Qed.

(** The loop of [pruningWorker]: what its select meets, a tick at a time or the
    closed stop channel, which ends it; [between] is what others do with the pool
    before the event. *)
Section Worker.
Context (prune : IPPool → Z → IPPool) (between : nat → IPPool → IPPool).

Fixpoint prune_loop (i : nat) (events : list (option Z)) (p : IPPool) : IPPool :=
  match events with
  | [] => p
  | None :: _ => between i p
  | Some now :: events' => prune_loop (S i) events' (prune (between i p) now)
  end.

(** What holds right after a tick holds after the last one. *)
Lemma prune_loop_last (I : IPPool → Prop) (Q : Z → IPPool → Prop) t ticks : ∀ i p,
  (∀ j q now, I q → I (prune (between j q) now)) → (∀ j q now, I q → Q now (prune (between j q) now)) → I p →
  None ∉ ticks → Q t (prune_loop i (ticks ++ [Some t]) p).
Proof.
  induction ticks as [|[now|] ticks IH]; intros i p H1 H2 Hp Hn; cbn [app prune_loop]; [by apply H2| |set_solver].
  apply IH; [done|done|by apply H1|set_solver].
Qed.
End Worker.

Definition pruningWorker (between : nat → IPPool → IPPool) : list (option Z) → IPPool → IPPool :=
  prune_loop PruneExpired between 0.

Lemma prune_drops q t r f :
  pool_wf q → rtf (PruneExpired q t) r = Some f → ∃ e, expiry_of (PruneExpired q t) r = Some e ∧ t ≤ e.
Proof.
  intros Hq Hr. destruct (PruneExpired_sub q t Hq r f Hr) as (_ & E & _).
  destruct (proj1 (PruneExpired_exact q t r f Hq) Hr) as (_ & e & He & Hle). exists e. by rewrite E.
Qed.

(** Right after a tick of a worker that has not been stopped nothing is mapped
    that expired before it, whatever happened to the pool between the ticks. *)
Theorem worker_drops_expired between ticks t p r f :
  (∀ j q, pool_wf q → pool_wf (between j q)) → pool_wf p → None ∉ ticks →
  rtf (pruningWorker between (ticks ++ [Some t]) p) r = Some f →
  ∃ e, expiry_of (pruningWorker between (ticks ++ [Some t]) p) r = Some e ∧ t ≤ e.
Proof.
  intros Hb Hp Hn. unfold pruningWorker.
  apply (prune_loop_last _ _ pool_wf (λ t q, rtf q r = Some f → ∃ e, expiry_of q r = Some e ∧ t ≤ e)); [..|done|done].
  - intros j q now Hq. by apply PruneExpired_wf, Hb.
  - intros j q now Hq. apply prune_drops. by apply Hb.
Qed.

Definition prune_demo : IPPool :=
  (AddMapping (AddMapping demo_pool metrics_zero demo_real demo_fake 5 100).1.2 metrics_zero
     (ParseIP "2.2.2.2") (ParseIP "198.18.0.9") 6 300).1.2.
