(* ===== verification/PoolSpec.v ===== *)
(** * The Fake-IP pool: abstract specification and refinement

    Abstractly the pool is one finite map from a real address to an entry: its
    Fake-IP, version and expiry.  An update is a claim on a pair of addresses; it
    is accepted when it outranks every entry it conflicts with, and then
    replaces them.  The sharded implementation refines this specification
    ([models] is the simulation relation). *)

From stdpp Require Import prelude gmap strings sorting.
From S2P Require Import Prelude GoStrings GoNet GoNetFacts Metrics IPPool PoolInv PoolOps PoolReach PoolPrune.

(** ** The specification *)

Record entry := mkEntry { e_fake : IPKey; e_version : Z; e_expiry : Z }.

Abbreviation apool := (gmap IPKey entry).

(** The precedence of a claim: its version, then the address that breaks the
    tie. *)
Definition rank_cmp : Z * list Byte.byte → Z * list Byte.byte → comparison :=
  pair_cmp Z.compare bytes_compare.

Definition rank (v : Z) (k : IPKey) : Z * list Byte.byte := (v, To16 (ToIP k)).

(** An entry the update [(r, f, v)] conflicts with and does not outrank. *)
Definition blocks (r f : IPKey) (v : Z) (r0 : IPKey) (en : entry) : Prop :=
  (e_fake en = f ∧ rank_cmp (rank v r) (rank (e_version en) r0) ≠ Gt) ∨
  (r0 = r ∧ e_fake en ≠ f ∧ rank_cmp (rank v f) (rank (e_version en) (e_fake en)) ≠ Gt).

#[export] Instance blocks_dec r f v r0 en : Decision (blocks r f v r0 en).
Proof. unfold blocks. apply _. Defined.

Definition spec_rejects (a : apool) (r f : IPKey) (v : Z) : bool :=
  bool_decide (map_Exists (blocks r f v) a).

Definition spec_add (a : apool) (r f : IPKey) (v e : Z) : bool * apool :=
  if spec_rejects a r f v then (false, a)
  else (true, <[r := mkEntry f v e]> (filter (λ x, e_fake x.2 ≠ f) a)).

Definition spec_remove (a : apool) (r f : IPKey) : apool :=
  if bool_decide (e_fake <$> a !! r = Some f) then delete r a else a.

Definition spec_prune (a : apool) (now : Z) : apool := filter (λ x, now ≤ e_expiry x.2) a.

(** ** The simulation relation *)

Definition entry_of (p : IPPool) (r : IPKey) : option entry :=
  f ← rtf p r; Some (mkEntry f (default 0 (globalVersions p !! f)) (default 0 (expiry_of p r))).

Definition models (a : apool) (p : IPPool) : Prop := pool_wf p ∧ ∀ r, a !! r = entry_of p r.

(** ** Lemmas *)

Lemma outdated_rank v ev mine theirs :
  outdated v (Some ev) mine theirs = true ↔ rank_cmp (rank v mine) (rank ev theirs) ≠ Gt.
Proof.
  unfold outdated, rank_cmp, pair_cmp, rank, key_leb. cbn [fst snd].
  destruct (Z.compare_spec v ev) as [->|Hlt|Hgt].
  - rewrite Z.ltb_irrefl, Z.eqb_refl. by destruct (bytes_compare _ _).
  - by apply Z.ltb_lt in Hlt as ->.
  - destruct (Z.ltb_spec v ev); [lia|]. destruct (Z.eqb_spec v ev); [lia|done].
Qed.

Lemma entry_of_Some p r en :
  pool_wf p → entry_of p r = Some en ↔
  rtf p r = Some (e_fake en) ∧ globalVersions p !! e_fake en = Some (e_version en) ∧
  expiry_of p r = Some (e_expiry en).
Proof.
  intros H. unfold entry_of. destruct (rtf p r) as [f|] eqn:Er; cbn.
  - destruct (expiry_of_mapped p H r f Er) as [e Ee].
    assert (is_Some (globalVersions p !! f)) as [v Ev].
    { apply (wf_versions p H). apply (wf_inverse p H) in Er. eauto. }
    rewrite Ee, Ev. destruct en as [f' v' e']; cbn. split.
    + intros [= <- <- <-]. auto.
    + intros ([= <-] & Hv & [= <-]). congruence.
  - split; [done|]. by intros [? _].
Qed.

Section Models.
Context (a : apool) (p : IPPool) (Hm : models a p).

Lemma models_rtf r : rtf p r = e_fake <$> a !! r.
Proof.
  rewrite (proj2 Hm r). unfold entry_of. by destruct (rtf p r).
Qed.

Lemma models_owner f r : globalFakeToReal p !! f = Some r ↔ ∃ en, a !! r = Some en ∧ e_fake en = f.
Proof.
  rewrite <- (wf_inverse p (proj1 Hm)), models_rtf, fmap_Some. naive_solver.
Qed.

Lemma models_version r en : a !! r = Some en → globalVersions p !! e_fake en = Some (e_version en).
Proof. rewrite (proj2 Hm r), entry_of_Some by apply Hm. by intros (_ & ? & _). Qed.

Lemma models_versions f v :
  globalVersions p !! f = Some v ↔ ∃ r en, a !! r = Some en ∧ e_fake en = f ∧ e_version en = v.
Proof.
  split.
  - intros Hv. destruct (proj2 (wf_versions p (proj1 Hm) f)) as [r Hr]; [eauto|].
    apply models_owner in Hr as (en & He & <-). exists r, en.
    pose proof (models_version r en He). split_and!; congruence.
  - intros (r & en & He & <- & <-). by apply (models_version r).
Qed.

(** The two guards of the code are the specification's one. *)
Lemma models_rejects r f v :
  loses_fake p r f v || loses_real p r f v = spec_rejects a r f v.
Proof.
  apply eq_bool_prop_intro. rewrite orb_True. unfold spec_rejects. rewrite bool_decide_spec.
  unfold map_Exists, blocks, loses_fake, loses_real. rewrite models_rtf. split.
  - intros [H|H].
    + destruct (globalFakeToReal p !! f) as [r0|] eqn:E; [|done].
      apply models_owner in E as (en & Hen & <-). rewrite (models_version r0 en Hen) in H.
      exists r0, en. split; [done|]. left. split; [done|]. apply outdated_rank. by destruct outdated.
    + destruct (a !! r) as [en|] eqn:E; cbn in H; [|done].
      case_bool_decide; [done|]. rewrite (models_version r en E) in H.
      exists r, en. split; [done|]. right. split_and!; [done|done|]. apply outdated_rank. by destruct outdated.
  - intros (r0 & en & Hen & [[Hf Ho%outdated_rank]|(-> & Hne & Ho%outdated_rank)]).
    + left. assert (globalFakeToReal p !! f = Some r0) as -> by (apply models_owner; eauto).
      subst f. by rewrite (models_version r0 en Hen), Ho.
    + right. rewrite Hen. cbn. rewrite bool_decide_eq_false_2 by done.
      by rewrite (models_version r en Hen), Ho.
Qed.
End Models.

(** Every well-formed pool has one abstract state. *)
Lemma entry_of_unmapped p r :
  pool_wf p → r ∉ ((map_to_list (globalFakeToReal p)).*2) → entry_of p r = None.
Proof.
  intros H Hr. unfold entry_of. destruct (rtf p r) as [f|] eqn:E; [|done].
  exfalso. apply Hr. apply (wf_inverse p H) in E. apply list_elem_of_fmap.
  exists (f, r). split; [done|]. by apply elem_of_map_to_list.
Qed.

Lemma models_exists p : pool_wf p → ∃ a, models a p.
Proof.
  intros H. set (ks := (map_to_list (globalFakeToReal p)).*2).
  exists (omap (entry_of p) (set_to_map (C:=gset IPKey) (λ r, (r, r)) (list_to_set ks))).
  split; [done|]. intros r. rewrite lookup_omap.
  destruct (decide (r ∈ ks)) as [Hin|Hout].
  - assert (set_to_map (C:=gset IPKey) (λ r, (r, r)) (list_to_set ks) !! r = Some r) as ->; [|done].
    apply lookup_set_to_map; [by intros ? ? _ _ [= ->]|]. exists r. split; [by apply elem_of_list_to_set|done].
  - rewrite (entry_of_unmapped p r H Hout).
    destruct (set_to_map (C:=gset IPKey) (λ r, (r, r)) (list_to_set ks) !! r) as [k|] eqn:E; [|done].
    apply lookup_set_to_map in E as (k' & Hk & [= -> ->]); [|by intros ? ? _ _ [= ->]].
    by apply elem_of_list_to_set in Hk.
Qed.

Lemma models_unique a a' p : models a p → models a' p → a = a'.
Proof. intros [_ H] [_ H']. apply map_eq. intros r. by rewrite H, H'. Qed.

(** Pools with the same Fake-IPs and versions in their abstract states. *)
Lemma models_agree a a' p p' :
  models a p → models a' p' →
  (λ en, (e_fake en, e_version en)) <$> a = (λ en, (e_fake en, e_version en)) <$> a' →
  (∀ r, rtf p r = rtf p' r) ∧ (∀ f, globalVersions p !! f = globalVersions p' !! f).
Proof.
  intros Hm Hm' Heq.
  assert (∀ r, (λ en, (e_fake en, e_version en)) <$> a !! r =
               (λ en, (e_fake en, e_version en)) <$> a' !! r) as Hr.
  { intros r. by rewrite <- !lookup_fmap, Heq. }
  split.
  - intros r. rewrite (models_rtf a p Hm), (models_rtf a' p' Hm').
    specialize (Hr r). destruct (a !! r), (a' !! r); simplify_eq/=; congruence.
  - intros f. apply option_eq. intros v.
    rewrite (models_versions a p Hm), (models_versions a' p' Hm').
    split; intros (r & en & He & <- & <-); specialize (Hr r); rewrite He in Hr; cbn in Hr.
    + destruct (a' !! r) as [en'|] eqn:E; cbn in Hr; [|done]. exists r, en'. naive_solver.
    + destruct (a !! r) as [en'|] eqn:E; cbn in Hr; [|done]. exists r, en'. naive_solver.
Qed.

(** Entries after the primitives. *)
Lemma entry_unlink p r f r' :
  pool_wf p → rtf p r = Some f →
  entry_of (unlink r f p) r' = if decide (r = r') then None else entry_of p r'.
Proof.
  intros H Hr. pose proof (wf_len p H). unfold entry_of.
  rewrite rtf_unlink, expiry_unlink by done. case_decide; [done|].
  destruct (rtf p r') as [f'|] eqn:Er'; [|done]. cbn [mbind option_bind]. rewrite version_unlink.
  case_decide; [|done]. subst f'. apply (wf_inverse p H) in Hr, Er'. congruence.
Qed.

Lemma entry_link p r f e v r' :
  pool_wf p → globalFakeToReal p !! f = None →
  entry_of (link r f e v p) r' = if decide (r = r') then Some (mkEntry f v e) else entry_of p r'.
Proof.
  intros H Hf. pose proof (wf_len p H). unfold entry_of.
  rewrite rtf_link, expiry_link by done. case_decide.
  - cbn [mbind option_bind]. by rewrite version_link, decide_True.
  - destruct (rtf p r') as [f'|] eqn:Er'; [|done]. cbn [mbind option_bind]. rewrite version_link.
    case_decide; [|done]. subst f'. apply (wf_inverse p H) in Er'. congruence.
Qed.

Lemma entry_evict_fake p f r :
  pool_wf p →
  entry_of (evict_fake f p) r =
  if decide (rtf p r = Some f) then None else entry_of p r.
Proof.
  intros H. unfold evict_fake. destruct (globalFakeToReal p !! f) as [r0|] eqn:E.
  - apply (wf_inverse p H) in E as Hr0. rewrite entry_unlink by done.
    repeat case_decide; subst; try done.
    rewrite (wf_inverse p H) in *. congruence.
  - case_decide as Er; [|done]. apply (wf_inverse p H) in Er. congruence.
Qed.

Lemma entry_evict_real p r r' :
  pool_wf p → entry_of (evict_real r p) r' = if decide (r = r') then None else entry_of p r'.
Proof.
  intros H. unfold evict_real. destruct (rtf p r) as [f|] eqn:E; [by apply entry_unlink|].
  case_decide; [subst|done]. unfold entry_of. by rewrite E.
Qed.

Lemma rtf_entry_of p r : rtf p r = e_fake <$> entry_of p r.
Proof. unfold entry_of. by destruct (rtf p r). Qed.

Lemma models_relink a p r f e v :
  models a p → key_wf r → key_wf f →
  models (<[r := mkEntry f v e]> (filter (λ x, e_fake x.2 ≠ f) a)) (relink r f e v p).
Proof.
  intros [H Ha] Hr Hf. split; [by apply relink_wf|]. intros r'. unfold relink.
  rewrite entry_link; auto using fake_evict_fake with go.
  rewrite entry_evict_fake, rtf_entry_of by auto with go. rewrite entry_evict_real by done.
  rewrite lookup_insert. case_decide; [done|].
  rewrite map_lookup_filter, Ha. destruct (entry_of p r') as [en|]; cbn; [|done].
  case_guard; case_decide; try done; naive_solver.
Qed.

Lemma models_NewIPPool base4 base6 cfg : models ∅ (NewIPPoolWithConfig base4 base6 cfg).
Proof.
  pose proof (NewIPPoolWithConfig_wf base4 base6 cfg) as H. split; [done|].
  intros r. rewrite lookup_empty. unfold entry_of.
  destruct (rtf _ r) as [f|] eqn:E; [|done].
  apply (wf_inverse _ H) in E. done.
Qed.

Lemma AddMapping_spec a p mt realIP fakeIP v e :
  models a p → valid_ip realIP →
  let res := AddMapping p mt realIP fakeIP v e in
  let spec := spec_add a (ToIPKey realIP) (ToIPKey fakeIP) v e in
  res.1.1 = spec.1 ∧ models spec.2 res.1.2.
Proof.
  intros Hm Hv. cbn zeta. rewrite (AddMapping_eq p (proj1 Hm) mt realIP fakeIP v e Hv).
  rewrite (models_rejects a p Hm). unfold spec_add.
  case_match; split; auto. cbn. apply models_relink; auto with go.
Qed.

Lemma models_add a p mt realIP fakeIP v e :
  models a p → valid_ip realIP →
  models (spec_add a (ToIPKey realIP) (ToIPKey fakeIP) v e).2 (AddMapping p mt realIP fakeIP v e).1.2.
Proof. intros Hm Hv. by apply AddMapping_spec. Qed.

(** ** Properties: refinement *)

(** C2: [AddMapping] implements the specification: it returns the
    specification's verdict and leaves the specification's state. *)
Theorem AddMapping_refines a p mt realIP fakeIP v e :
  models a p → valid_ip realIP →
  let res := AddMapping p mt realIP fakeIP v e in
  let spec := spec_add a (ToIPKey realIP) (ToIPKey fakeIP) v e in
  res.1.1 = spec.1 ∧ models spec.2 res.1.2.
Proof. apply AddMapping_spec. Qed.

Lemma AddMapping_refines_witness :
  (AddMapping demo_pool metrics_zero demo_real demo_fake 5 9).1.1 = true.
Proof.
  exact (proj1 (AddMapping_refines ∅ demo_pool metrics_zero demo_real demo_fake 5 9
    (models_NewIPPool _ _ _) (or_intror eq_refl))).
Defined.

(** [RemoveMapping] removes the pair it is given and nothing else. *)
Theorem RemoveMapping_refines a p realIP fakeIP :
  models a p → valid_ip realIP →
  models (spec_remove a (ToIPKey realIP) (ToIPKey fakeIP)) (RemoveMapping p realIP fakeIP).
Proof.
  intros Hm Hv. rewrite RemoveMapping_eq by done. unfold spec_remove.
  rewrite <- (models_rtf a p Hm). case_bool_decide as E; [|done].
  split; [apply unlink_wf; [apply Hm|done]|]. intros r'.
  rewrite entry_unlink by (done || apply Hm). rewrite lookup_delete.
  case_decide; [done|]. apply Hm.
Qed.

Lemma RemoveMapping_refines_witness :
  models (spec_remove ∅ (ToIPKey demo_real) (ToIPKey demo_fake)) (RemoveMapping demo_pool demo_real demo_fake).
Proof.
  exact (RemoveMapping_refines ∅ demo_pool demo_real demo_fake (models_NewIPPool _ _ _) (or_intror eq_refl)).
Defined.

(** C6: [PruneExpired] keeps exactly the entries that have not expired, each
    with its Fake-IP, version and expiry. *)
Theorem PruneExpired_refines a p now :
  models a p → models (spec_prune a now) (PruneExpired p now).
Proof.
  intros [H Ha]. pose proof (PruneExpired_wf now p H) as H'. split; [done|].
  intros r. apply option_eq. intros en. unfold spec_prune.
  rewrite map_lookup_filter_Some, Ha, !entry_of_Some, PruneExpired_exact by done. cbn [snd]. split.
  - intros ((Hr & Hv & He) & Hle).
    assert (rtf (PruneExpired p now) r = Some (e_fake en)) as Hr' by (apply PruneExpired_exact; eauto).
    destruct (PruneExpired_sub p now H r _ Hr') as (_ & -> & ->). eauto 6.
  - intros ((Hr & e & He & Hle) & Hv & He').
    assert (rtf (PruneExpired p now) r = Some (e_fake en)) as Hr' by (apply PruneExpired_exact; eauto).
    destruct (PruneExpired_sub p now H r _ Hr') as (_ & E1 & E2).
    rewrite E1 in He'. rewrite E2 in Hv. split_and!; try done.
    assert (e = e_expiry en) by congruence. lia.
Qed.

Definition prune_spec_demo : apool :=
  (spec_add (spec_add ∅ (ToIPKey demo_real) (ToIPKey demo_fake) 5 100).2
     (ToIPKey (ParseIP "2.2.2.2")) (ToIPKey (ParseIP "198.18.0.9")) 6 300).2.

Lemma prune_demo_models : models prune_spec_demo prune_demo.
Proof.
  unfold prune_spec_demo, prune_demo.
  apply models_add; [|right; reflexivity]. apply models_add; [|right; reflexivity].
  apply models_NewIPPool.
Qed.

Lemma PruneExpired_refines_witness :
  models (spec_prune prune_spec_demo 200) (PruneExpired prune_demo 200) ∧
  rtf (PruneExpired prune_demo 200) (ToIPKey demo_real) = None.
Proof.
  split; [|vm_compute; reflexivity].
  exact (PruneExpired_refines prune_spec_demo prune_demo 200 prune_demo_models).
Defined.
