(* ===== verification/PoolConv.v ===== *)
(** * The Fake-IP pool: replication

    Nodes exchange their mappings and apply each other's with [AddMapping].
    Two results about the order in which updates arrive: a snapshot of another
    node is reproduced whatever order it is applied in, and updates that
    contest one Fake-IP leave the greatest one, again in any order.  The last
    section shows that this does not extend to chains of conflicts. *)

From stdpp Require Import prelude gmap strings sorting.
From S2P Require Import Prelude GoStrings GoNet GoNetFacts Metrics IPPool PoolInv PoolOps PoolReach PoolPrune PoolSpec.

(** ** Definitions *)

(** One update as it reaches [AddMapping]. *)
Record update := mkUpdate { u_real : IP; u_fake : IP; u_version : Z; u_expiry : Z }.

Definition apply_update (st : IPPool * Metrics) (u : update) : IPPool * Metrics :=
  let '(_, p, mt) := AddMapping st.1 st.2 (u_real u) (u_fake u) (u_version u) (u_expiry u) in (p, mt).

Definition apply_updates (p : IPPool) (mt : Metrics) (l : list update) : IPPool :=
  (foldl apply_update (p, mt) l).1.

(** The same on the specification. *)
Definition spec_update (a : apool) (u : update) : apool :=
  (spec_add a (ToIPKey (u_real u)) (ToIPKey (u_fake u)) (u_version u) (u_expiry u)).2.

(** The precedence of an update. *)
Definition claim_rank (u : update) : Z * list Byte.byte := rank (u_version u) (ToIPKey (u_real u)).

(** The update that holds the contested address after [l]. *)
Definition better (b : option update) (u : update) : option update :=
  match b with
  | None => Some u
  | Some w => match rank_cmp (claim_rank u) (claim_rank w) with Gt => Some u | _ => Some w end
  end.
Definition winner (l : list update) : option update := foldl better None l.

(** ** Lemmas: precedence *)

Lemma rank_inj v v' k k' : key_wf k → key_wf k' → rank v k = rank v' k' → v = v' ∧ k = k'.
Proof.
  intros Hk Hk' [= -> Heq]. split; [done|].
  rewrite <- (ToIPKey_ToIP k), <- (ToIPKey_ToIP k') by done.
  rewrite <- (ToIPKey_To16 (ToIP k)), Heq, ToIPKey_To16 by auto with go. done.
Qed.

(** ** Lemmas: folding updates *)

Lemma apply_updates_spec l : ∀ a p mt,
  models a p → Forall (λ u, valid_ip (u_real u)) l →
  models (foldl spec_update a l) (apply_updates p mt l).
Proof.
  unfold apply_updates. induction l as [|u l IH]; intros a p mt Hm Hl; [done|].
  apply Forall_cons in Hl as [Hu Hl]. cbn [foldl]. unfold apply_update at 2. cbn [fst snd].
  pose proof (models_add a p mt (u_real u) (u_fake u) (u_version u) (u_expiry u) Hm Hu) as Hm'.
  destruct (AddMapping p mt (u_real u) (u_fake u) (u_version u) (u_expiry u)) as [[b p'] mt'].
  by apply IH.
Qed.

(** An update without conflicts is accepted and only adds its entry. *)
Lemma spec_add_fresh (a : apool) r f v e :
  a !! r = None → (∀ r' en, a !! r' = Some en → e_fake en ≠ f) →
  (spec_add a r f v e).2 = <[r := mkEntry f v e]> a.
Proof.
  intros Hr Hf. unfold spec_add, spec_rejects. rewrite bool_decide_eq_false_2.
  - cbn. f_equal. apply map_filter_id. intros i x Hi. cbn. eauto.
  - intros (r' & en & Hen & [[Hfe _]|(-> & _ & _)]); [by eapply Hf|congruence].
Qed.

Section Snapshot.

Definition disjoint_from (a : apool) (l : list update) : Prop :=
  ∀ u, u ∈ l → a !! ToIPKey (u_real u) = None ∧
    ∀ r en, a !! r = Some en → e_fake en ≠ ToIPKey (u_fake u).

(** A conflict-free list adds exactly its entries. *)
Lemma spec_updates_disjoint l : ∀ a,
  NoDup ((λ u, ToIPKey (u_real u)) <$> l) → NoDup ((λ u, ToIPKey (u_fake u)) <$> l) →
  disjoint_from a l →
  ∀ r en, foldl spec_update a l !! r = Some en ↔
    a !! r = Some en ∨
    ∃ u, u ∈ l ∧ r = ToIPKey (u_real u) ∧ en = mkEntry (ToIPKey (u_fake u)) (u_version u) (u_expiry u).
Proof.
  induction l as [|u l IH]; intros a H1 H2 Hd r en; cbn [foldl].
  { set_solver. }
  cbn in H1, H2. apply NoDup_cons in H1 as [Hu1 H1], H2 as [Hu2 H2].
  destruct (Hd u) as [Hu Hfu]; [set_solver|].
  unfold spec_update at 2. rewrite spec_add_fresh by done.
  rewrite IH; [|done|done|].
  - rewrite lookup_insert. case_decide as E.
    + subst r. rewrite Hu. split.
      * intros [[= <-]|(w & Hw & Hrw & _)]; [set_solver|].
        exfalso. apply Hu1. rewrite Hrw. by apply (list_elem_of_fmap_2 (λ u, ToIPKey (u_real u))).
      * intros [[=]|(w & [-> | Hw]%elem_of_cons & Hrw & ->)]; [by left|set_solver].
    + set_solver.
  - intros w Hw. destruct (Hd w) as [Hw1 Hw2]; [set_solver|].
    rewrite lookup_insert. case_decide as E.
    { exfalso. apply Hu1. rewrite E. by apply (list_elem_of_fmap_2 (λ u, ToIPKey (u_real u))). }
    split; [done|]. intros r' en'. rewrite lookup_insert. case_decide; [|apply Hw2].
    intros [= <-]. cbn. intros Heq. apply Hu2. rewrite Heq.
    by apply (list_elem_of_fmap_2 (λ u, ToIPKey (u_fake u))).
Qed.
End Snapshot.

(** Updates of distinct Fake-IPs for any real addresses: each address ends with
    the greatest update for it, by version and then by Fake-IP. *)
Definition fake_rank (u : update) : Z * list Byte.byte := rank (u_version u) (ToIPKey (u_fake u)).

Lemma spec_updates_best (l : list update) :
  NoDup ((λ u, ToIPKey (u_fake u)) <$> l) →
  let a := foldl spec_update ∅ l in
  (∀ r en, a !! r = Some en →
     ∃ u, u ∈ l ∧ r = ToIPKey (u_real u) ∧ en = mkEntry (ToIPKey (u_fake u)) (u_version u) (u_expiry u)) ∧
  (∀ u, u ∈ l → ∃ en, a !! ToIPKey (u_real u) = Some en ∧
     rank_cmp (fake_rank u) (rank (e_version en) (e_fake en)) ≠ Gt).
Proof.
  induction l as [|u l IH] using rev_ind; intros Hnd; cbn zeta.
  { cbn [foldl]. split; [by intros r en ?%lookup_empty_Some|]. by intros u ?%elem_of_nil. }
  rewrite fmap_app in Hnd. apply NoDup_app in Hnd as (Hnd & Hu & _). destruct (IH Hnd) as [Hs Hb].
  rewrite foldl_app. cbn [foldl]. set (a := foldl spec_update ∅ l) in *.
  set (r := ToIPKey (u_real u)). set (f := ToIPKey (u_fake u)).
  assert (∀ r0 en, a !! r0 = Some en → e_fake en ≠ f) as Hf.
  { intros r0 en (w & Hw & _ & ->)%Hs. cbn. intros E. apply (Hu (ToIPKey (u_fake w))).
    - by apply (list_elem_of_fmap_2 (λ u, ToIPKey (u_fake u))).
    - rewrite E. apply list_elem_of_singleton. done. }
  unfold spec_update. fold r f. unfold spec_add, spec_rejects. case_bool_decide as Hbl; cbn [snd].
  - split.
    + intros r0 en (w & Hw & ?)%Hs. exists w. set_solver.
    + intros w [Hw| ->%list_elem_of_singleton]%elem_of_app; [auto|].
      destruct Hbl as (r0 & en & Hen & [[E _]|(-> & _ & Hle)]); [by destruct (Hf r0 en Hen)|]. exists en. done.
  - assert (filter (λ x : IPKey * entry, e_fake x.2 ≠ f) a = a) as ->
      by (apply map_filter_id; intros r0 en Hen; cbn; eauto).
    split.
    + intros r0 en. rewrite lookup_insert. case_decide as E.
      * intros [= <-]. exists u. set_solver.
      * intros (w & Hw & ?)%Hs. exists w. set_solver.
    + intros w [Hw| ->%list_elem_of_singleton]%elem_of_app.
      * destruct (Hb w Hw) as (en & Hen & Hle). rewrite lookup_insert. case_decide as E; [|eauto].
        eexists. split; [done|]. cbn [e_version e_fake]. apply (cmp_le_trans rank_cmp _ (rank (e_version en) (e_fake en))); [done|].
        rewrite (cmp_antisym (cmp:=rank_cmp)).
        destruct (rank_cmp (rank (u_version u) f) (rank (e_version en) (e_fake en))) eqn:Ec; cbn; [| |done];
          exfalso; apply Hbl; exists r, en; rewrite E; (split; [done|]); right; (split; [done|]); (split; [eauto|]);
          by rewrite Ec.
      * fold r. rewrite lookup_insert_eq. eexists. split; [done|]. unfold fake_rank. cbn [e_version e_fake].
        by rewrite (cmp_refl rank_cmp).
Qed.

(** The updates a node sends for its mappings. *)
Definition update_of (expiry : Mapping → Z) (m : Mapping) : update :=
  mkUpdate (RealIP m) (FakeIP m) (Version m) (expiry m).

Section GetAll.
Context (p : IPPool) (Hwf : pool_wf p).

Lemma elem_of_GetAllMappings m :
  m ∈ GetAllMappings p ↔
  ∃ f r v, globalFakeToReal p !! f = Some r ∧ globalVersions p !! f = Some v ∧
    m = mkMapping (ToIP f) (ToIP r) v.
Proof.
  unfold GetAllMappings. rewrite list_elem_of_fmap. split.
  - intros ([f r] & -> & Hin%elem_of_map_to_list).
    destruct (proj1 (wf_versions p Hwf f)) as [v Hv]; [eauto|]. rewrite Hv. eauto 6.
  - intros (f & r & v & Hf & Hv & ->). exists (f, r). rewrite Hv.
    split; [done|by apply elem_of_map_to_list].
Qed.

Lemma GetAllMappings_NoDup (key : Mapping → IP) :
  (∀ f1 f2 r1 r2 v1 v2, globalFakeToReal p !! f1 = Some r1 → globalFakeToReal p !! f2 = Some r2 →
     ToIPKey (key (mkMapping (ToIP f1) (ToIP r1) v1)) = ToIPKey (key (mkMapping (ToIP f2) (ToIP r2) v2)) →
     f1 = f2) →
  NoDup ((λ m, ToIPKey (key m)) <$> GetAllMappings p).
Proof.
  intros Hinj. unfold GetAllMappings. rewrite <- list_fmap_compose.
  apply NoDup_fmap_2_strong; [|apply NoDup_map_to_list].
  intros [f1 r1] [f2 r2] H1%elem_of_map_to_list H2%elem_of_map_to_list Heq.
  cbn in Heq. assert (f1 = f2) as -> by eauto. congruence.
Qed.
End GetAll.

Definition mapping_of (u : update) : Mapping := mkMapping (u_fake u) (u_real u) (u_version u).

(** Applying a node's mappings to an empty pool, on the specification. *)
Lemma snapshot_spec p (l : list update) :
  pool_wf p → mapping_of <$> l ≡ₚ GetAllMappings p →
  ∀ r f v, (∃ e, foldl spec_update ∅ l !! r = Some (mkEntry f v e)) ↔
    rtf p r = Some f ∧ globalVersions p !! f = Some v.
Proof.
  intros H Hl.
  assert (∀ u, u ∈ l → ∃ f r v, globalFakeToReal p !! f = Some r ∧ globalVersions p !! f = Some v ∧
            mapping_of u = mkMapping (ToIP f) (ToIP r) v) as Hu.
  { intros u Hu. apply elem_of_GetAllMappings; [done|]. rewrite <- Hl. by apply list_elem_of_fmap_2. }
  intros r f v. setoid_rewrite spec_updates_disjoint; [|..].
  - rewrite lookup_empty. split.
    + intros (e & [[=]|(u & Hin & -> & [= -> ->])]).
      destruct (Hu u Hin) as (f & k & v' & Hf & Hv & [= -> -> ->]).
      destruct (wf_keys p H f k Hf). rewrite !ToIPKey_ToIP by done.
      split; [by apply (wf_inverse p H)|done].
    + intros (Hr & Hv). apply (wf_inverse p H) in Hr as Hf. destruct (wf_keys p H f r Hf).
      assert (mkMapping (ToIP f) (ToIP r) v ∈ mapping_of <$> l) as Hin.
      { rewrite Hl. apply elem_of_GetAllMappings; eauto 7. }
      apply list_elem_of_fmap in Hin as (u & [= Ef Er ->] & Hin).
      exists (u_expiry u). right. exists u. rewrite <- Ef, <- Er, !ToIPKey_ToIP by done. done.
  - change (λ u, ToIPKey (u_real u)) with ((λ m, ToIPKey (RealIP m)) ∘ mapping_of).
    rewrite list_fmap_compose, Hl. apply GetAllMappings_NoDup. cbn.
    intros f1 f2 r1 r2 _ _ H1 H2. destruct (wf_keys p H _ _ H1), (wf_keys p H _ _ H2).
    rewrite !ToIPKey_ToIP by done. intros ->. rewrite <- !(wf_inverse p H) in *. congruence.
  - change (λ u, ToIPKey (u_fake u)) with ((λ m, ToIPKey (FakeIP m)) ∘ mapping_of).
    rewrite list_fmap_compose, Hl. apply GetAllMappings_NoDup. cbn.
    intros f1 f2 r1 r2 _ _ H1 H2. destruct (wf_keys p H _ _ H1), (wf_keys p H _ _ H2).
    rewrite !ToIPKey_ToIP by done. done.
  - intros u _. split; [done|]. by intros ? ? ?.
Qed.

(** A pool in the state the snapshot leads to has the other node's contents. *)
Lemma snapshot_models p q (l : list update) :
  pool_wf p → mapping_of <$> l ≡ₚ GetAllMappings p → models (foldl spec_update ∅ l) q →
  (∀ r, rtf q r = rtf p r) ∧ (∀ f, globalVersions q !! f = globalVersions p !! f).
Proof.
  intros H Hl Hq. destruct (models_exists p H) as [a Ha]. apply (models_agree _ a q p Hq Ha), map_eq.
  intros r. rewrite !lookup_fmap, (proj2 Ha r). apply option_eq. intros [f v].
  rewrite !fmap_Some. pose proof (snapshot_spec p l H Hl r) as Hs. split.
  - intros ([f' v' e'] & Hen & [= -> ->]). destruct (proj1 (Hs f' v')) as [Hr Hv]; [eauto|].
    destruct (expiry_of_mapped p H r _ Hr) as [e He].
    exists (mkEntry f' v' e). by rewrite entry_of_Some.
  - intros (en & (Hr & Hv & _)%entry_of_Some & [= -> ->]); [|done].
    destruct (proj2 (Hs _ _) (conj Hr Hv)) as [e He]. eauto.
Qed.

(** The real addresses a node sends are well formed. *)
Lemma snapshot_valid p m : pool_wf p → m ∈ GetAllMappings p → valid_ip (RealIP m).
Proof.
  intros H (f & r & v & Hf & _ & ->)%elem_of_GetAllMappings; [|done].
  apply (wf_keys p H) in Hf as [_ Hr]. by apply ToIP_valid.
Qed.

(** ** Lemmas: a contest for one address *)

Section Contest.
Context (a0 : apool) (f : IPKey).
Context (Hfree : ∀ r en, a0 !! r = Some en → e_fake en ≠ f).

Definition contest_state (b : option update) : apool :=
  match b with
  | None => a0
  | Some u => <[ToIPKey (u_real u) := mkEntry f (u_version u) (u_expiry u)]> a0
  end.

Definition contestant (u : update) : Prop :=
  ToIPKey (u_fake u) = f ∧ a0 !! ToIPKey (u_real u) = None.

Lemma contest_step b u :
  (∀ w, b = Some w → contestant w) → contestant u →
  spec_update (contest_state b) u = contest_state (better b u).
Proof.
  intros Hb [Hf Hu]. unfold spec_update. rewrite Hf.
  destruct b as [w|]; cbn [contest_state better]; [|by apply spec_add_fresh].
  destruct (Hb w eq_refl) as [_ Hw]. set (rw := ToIPKey (u_real w)) in *.
  set (ru := ToIPKey (u_real u)) in *.
  unfold spec_add, spec_rejects, claim_rank. fold rw ru.
  destruct (rank_cmp (rank (u_version u) ru) (rank (u_version w) rw)) eqn:Ec.
  1,2: rewrite bool_decide_eq_true_2; [done|];
    exists rw, (mkEntry f (u_version w) (u_expiry w)); split; [by rewrite lookup_insert_eq|];
    left; cbn; by rewrite Ec.
  rewrite bool_decide_eq_false_2.
  - cbn [snd contest_state]. fold ru. f_equal. apply map_eq. intros r.
    rewrite map_lookup_filter, lookup_insert. case_decide as E.
    + subst r. rewrite Hw. cbn. by rewrite option_guard_False by naive_solver.
    + destruct (a0 !! r) as [en|] eqn:Er; [|done]. cbn.
      by rewrite option_guard_True by eauto.
  - intros (r' & en & Hen & Hbl). rewrite lookup_insert in Hen. case_decide as E.
    + subst r'. simplify_eq. destruct Hbl as [[_ Hbl]|(_ & Hbl & _)]; [|done].
      cbn [e_version] in Hbl. congruence.
    + destruct Hbl as [[Hbl _]|(-> & _)]; [by eapply Hfree|congruence].
Qed.

Lemma better_cases b u : better b u = b ∨ better b u = Some u.
Proof. unfold better. repeat case_match; auto. Qed.

Lemma contest_fold l b :
  (∀ w, b = Some w → contestant w) → Forall contestant l →
  foldl spec_update (contest_state b) l = contest_state (foldl better b l).
Proof.
  revert b. induction l as [|u l IH]; intros b Hb Hl; [done|].
  apply Forall_cons in Hl as [Hu Hl]. cbn [foldl]. rewrite contest_step by done.
  apply IH; [|done]. intros w. destruct (better_cases b u) as [-> | ->]; [auto|by intros [= <-]].
Qed.
End Contest.

(** The winner is a maximum, so any order has a winner of the same rank. *)
Lemma better_fold_max l b :
  match foldl better b l with
  | None => b = None ∧ l = []
  | Some w => (b = Some w ∨ w ∈ l) ∧
      ∀ u, b = Some u ∨ u ∈ l → rank_cmp (claim_rank u) (claim_rank w) ≠ Gt
  end.
Proof.
  revert b. induction l as [|u l IH]; intros b; cbn [foldl].
  { destruct b as [w|]; [|done]. split; [by left|].
    intros u [[= ->]|[]%elem_of_nil]. by rewrite (cmp_refl rank_cmp). }
  specialize (IH (better b u)). destruct (foldl better (better b u) l) as [w|] eqn:Ew.
  - destruct IH as [Hw Hmax]. split.
    + destruct (better_cases b u) as [E|E]; rewrite E in Hw; set_solver.
    + assert (∀ x, b = Some x ∨ x = u → rank_cmp (claim_rank x) (claim_rank w) ≠ Gt) as Hbu.
      { intros x Hx. unfold better in Hmax. destruct b as [y|]; [|destruct Hx; [done|]; subst; auto].
        pose proof (cmp_antisym (cmp:=rank_cmp) (claim_rank u) (claim_rank y)) as Hanti.
        assert (∀ z t, better (Some y) u = Some t → rank_cmp (claim_rank z) (claim_rank t) ≠ Gt →
                  rank_cmp (claim_rank z) (claim_rank w) ≠ Gt) as Htr.
        { intros z t Ht Hz. apply (cmp_le_trans rank_cmp _ (claim_rank t)); auto. }
        unfold better in Htr. clear Hmax.
        destruct (rank_cmp (claim_rank u) (claim_rank y)) eqn:Ec;
          destruct Hx as [[= ->] | ->]; (eapply Htr; [done|]);
          rewrite ?Ec, ?Hanti, ?(cmp_refl rank_cmp); done. }
      intros x [?|[?|?]%elem_of_cons]; auto.
  - destruct IH as [Hb ->]. unfold better in Hb. repeat case_match; done.
Qed.

Lemma winner_perm l1 l2 w1 w2 :
  l1 ≡ₚ l2 → winner l1 = Some w1 → winner l2 = Some w2 → claim_rank w1 = claim_rank w2.
Proof.
  intros Hp H1 H2. pose proof (better_fold_max l1 None) as M1. pose proof (better_fold_max l2 None) as M2.
  unfold winner in *. rewrite H1 in M1. rewrite H2 in M2.
  destruct M1 as [[?|I1] M1]; [done|]. destruct M2 as [[?|I2] M2]; [done|].
  assert (rank_cmp (claim_rank w1) (claim_rank w2) ≠ Gt) as G1 by (apply M2; right; by rewrite <- Hp).
  assert (rank_cmp (claim_rank w2) (claim_rank w1) ≠ Gt) as G2 by (apply M1; right; by rewrite Hp).
  rewrite (cmp_antisym (cmp:=rank_cmp) (claim_rank w1)) in G2.
  apply (cmp_eq_iff (cmp:=rank_cmp)). by destruct (rank_cmp (claim_rank w1) (claim_rank w2)).
Qed.

Lemma winner_nonempty u l : is_Some (winner (u :: l)).
Proof.
  pose proof (better_fold_max (u :: l) None) as H. unfold winner.
  destruct (foldl better None (u :: l)); [eauto|by destruct H].
Qed.

Lemma contest_state_perm a f l l' :
  l ≡ₚ l' →
  (λ en, (e_fake en, e_version en)) <$> contest_state a f (winner l) =
  (λ en, (e_fake en, e_version en)) <$> contest_state a f (winner l').
Proof.
  intros Hp. destruct l as [|u l]; [by apply Permutation_nil_l in Hp as ->|].
  destruct l' as [|u' l']; [by apply Permutation_nil_r in Hp|].
  destruct (winner_nonempty u l) as [w Hw], (winner_nonempty u' l') as [w' Hw'].
  pose proof (winner_perm _ _ w w' Hp Hw Hw') as Hr. rewrite Hw, Hw'.
  apply rank_inj in Hr as [Hv Hr]; [|auto with go..]. cbn [contest_state].
  rewrite !fmap_insert. cbn. by rewrite Hv, Hr.
Qed.

(** The state after a contest, in the code's own terms. *)
Lemma contest_models p mt f l :
  pool_wf p → globalFakeToReal p !! f = None →
  Forall (λ u, valid_ip (u_real u) ∧ ToIPKey (u_fake u) = f ∧ rtf p (ToIPKey (u_real u)) = None) l →
  ∃ a, models a p ∧ models (contest_state a f (winner l)) (apply_updates p mt l).
Proof.
  intros H Hf Hl. destruct (models_exists p H) as [a Ha]. exists a. split; [done|].
  assert (∀ r en, a !! r = Some en → e_fake en ≠ f) as Hfree.
  { intros r en Hen <-. assert (globalFakeToReal p !! e_fake en = Some r); [|congruence].
    apply (models_owner a p Ha). eauto. }
  unfold winner. rewrite <- (contest_fold a f Hfree l None); [|done|].
  - apply apply_updates_spec; [done|]. eapply Forall_impl; [exact Hl|]. naive_solver.
  - eapply Forall_impl; [exact Hl|]. intros u (_ & Hu & Hr). split; [done|].
    rewrite (models_rtf a p Ha) in Hr. by apply fmap_None in Hr.
Qed.

(** ** Properties *)

(** C7: a node that starts empty and applies the mappings of another node, in
    any order, ends with exactly that node's mappings and versions. *)
Theorem snapshot_replicates p base4 base6 cfg mt expiry l :
  pool_wf p → l ≡ₚ GetAllMappings p →
  let q := apply_updates (NewIPPoolWithConfig base4 base6 cfg) mt (update_of expiry <$> l) in
  (∀ r, rtf q r = rtf p r) ∧ (∀ f, globalVersions q !! f = globalVersions p !! f).
Proof.
  intros H Hl q. apply (snapshot_models p q (update_of expiry <$> l) H).
  - rewrite <- Hl, <- list_fmap_compose, (list_fmap_ext _ id l), list_fmap_id; [done|]. by intros ? [].
  - apply apply_updates_spec; [apply models_NewIPPool|]. apply Forall_fmap, Forall_forall.
    intros m Hm. rewrite Hl in Hm. by apply (snapshot_valid p m).
Qed.

Lemma snapshot_replicates_witness :
  rtf (apply_updates demo_pool metrics_zero (update_of (λ _, 77) <$> GetAllMappings prune_demo))
    (ToIPKey demo_real) = Some (ToIPKey demo_fake).
Proof.
  etrans; [|vm_compute; reflexivity].
  exact (proj1 (snapshot_replicates prune_demo "198.18" "fd00:18::"
    (mkIPPoolConfig DefaultPoolSizeV4 DefaultPoolSizeV6) metrics_zero (λ _, 77) (GetAllMappings prune_demo)
    (proj1 prune_demo_models) (reflexivity _)) (ToIPKey demo_real)).
Defined.

(** C8: updates that contest one free Fake-IP for different unmapped addresses
    leave the same mappings and versions in whatever order they arrive: the
    greatest update, by version and then by address, owns the Fake-IP. *)
Theorem contested_fake_converges p mt mt' f l l' :
  pool_wf p → globalFakeToReal p !! f = None →
  Forall (λ u, valid_ip (u_real u) ∧ ToIPKey (u_fake u) = f ∧ rtf p (ToIPKey (u_real u)) = None) l →
  l ≡ₚ l' →
  let q := apply_updates p mt l in
  let q' := apply_updates p mt' l' in
  (∀ r, rtf q r = rtf q' r) ∧
  (∀ g, globalVersions q !! g = globalVersions q' !! g) ∧
  (∀ u, u ∈ l → ∃ r v, rtf q r = Some f ∧ globalVersions q !! f = Some v ∧
     rank_cmp (claim_rank u) (rank v r) ≠ Gt).
Proof.
  intros H Hf Hl Hp q q'.
  destruct (contest_models p mt f l H Hf Hl) as (a & Ha & Hq). fold q in Hq.
  destruct (contest_models p mt' f l' H Hf) as (a' & Ha' & Hq'); [by rewrite <- Hp|]. fold q' in Hq'.
  rewrite (models_unique a a' p Ha Ha') in Hq. apply and_assoc. split.
  - apply (models_agree _ _ q q' Hq Hq'). by apply contest_state_perm.
  - intros u Hu. pose proof (better_fold_max l None) as Hw. fold (winner l) in Hw.
    destruct (winner l) as [w|]; [|destruct Hw as [_ ->]; by apply elem_of_nil in Hu].
    exists (ToIPKey (u_real w)), (u_version w). cbn in Hq.
    assert (entry_of q (ToIPKey (u_real w)) = Some (mkEntry f (u_version w) (u_expiry w))) as He.
    { rewrite <- (proj2 Hq). apply lookup_insert_eq. }
    apply entry_of_Some in He as (? & ? & _); [|apply Hq]. split_and!; [done|done|].
    apply Hw. by right.
Qed.

Definition claim_low : update := mkUpdate (ParseIP "1.1.1.1") demo_fake 5 100.
Definition claim_high : update := mkUpdate (ParseIP "9.9.9.9") demo_fake 5 100.

Lemma contested_fake_converges_witness :
  rtf (apply_updates demo_pool metrics_zero [claim_low; claim_high]) (ToIPKey (ParseIP "9.9.9.9")) =
  rtf (apply_updates demo_pool metrics_zero [claim_high; claim_low]) (ToIPKey (ParseIP "9.9.9.9")) ∧
  rtf (apply_updates demo_pool metrics_zero [claim_high; claim_low]) (ToIPKey (ParseIP "9.9.9.9")) =
  Some (ToIPKey demo_fake).
Proof.
  split; [|vm_compute; reflexivity].
  refine (proj1 (contested_fake_converges demo_pool metrics_zero metrics_zero (ToIPKey demo_fake)
    [claim_low; claim_high] [claim_high; claim_low] _ _ _ _) _).
  - apply NewIPPoolWithConfig_wf.
  - reflexivity.
  - repeat apply Forall_cons_2; [| |apply Forall_nil_2];
      (split_and!; [right; reflexivity|reflexivity|vm_compute; reflexivity]).
  - apply Permutation_swap.
Defined.

(** ** Chains of conflicts *)

Definition chain1 : update := mkUpdate (ParseIP "1.1.1.1") (ParseIP "198.18.0.5") 1 100.
Definition chain2 : update := mkUpdate (ParseIP "1.1.1.1") (ParseIP "198.18.0.6") 2 100.
Definition chain3 : update := mkUpdate (ParseIP "9.9.9.9") (ParseIP "198.18.0.6") 3 100.

(** Convergence stops at chains of conflicts.  The same three updates, the
    second moving an address to a Fake-IP the third takes, leave 1.1.1.1
    unmapped in one order of arrival and mapped to 198.18.0.5 in another. *)
Theorem chained_updates_diverge :
  [chain1; chain2; chain3] ≡ₚ [chain1; chain3; chain2] ∧
  rtf (apply_updates demo_pool metrics_zero [chain1; chain2; chain3]) (ToIPKey (ParseIP "1.1.1.1")) = None ∧
  rtf (apply_updates demo_pool metrics_zero [chain1; chain3; chain2]) (ToIPKey (ParseIP "1.1.1.1")) =
    Some (ToIPKey (ParseIP "198.18.0.5")).
Proof. split_and!; [by apply Permutation_skip, Permutation_swap|vm_compute; reflexivity..]. Qed.
