(* ===== verification/PoolClock.v ===== *)
(** * The Fake-IP pool: the hybrid logical clock

    Versions order the updates of all nodes.  The clock never falls behind a
    version the pool holds, because a received version is observed before its
    mapping is added; so a new allocation outranks everything the node knows.
    The last theorem shows where the 64-bit counter ends. *)

From stdpp Require Import prelude gmap strings sorting relations.
From S2P Require Import Prelude GoStrings GoNet GoNetFacts Metrics IPPool PoolInv PoolOps PoolReach.

(** ** Definitions *)

Record clocked (p : IPPool) : Prop := {
  clk_wf : pool_wf p;
  clk_range : is_u64 (hlc p);
  clk_below : ∀ f v, globalVersions p !! f = Some v → 0 ≤ v ≤ hlc p;
}.

(** The pool and the versions its message handlers have observed and not yet
    used: a handler calls [ObserveVersion] with the version of a received
    mapping and then [AddMapping] with it, and other goroutines run between the
    two calls. *)
Record ClockState := mkClockState { ck_pool : IPPool; ck_seen : list Z }.

(** One critical section of a goroutine.  Every received version is a 64-bit
    word of the peer's choice; mappings recovered from the kernel have version
    0.  The two steps that draw a version need a counter that is not at its
    end. *)
Inductive clock_step : ClockState → ClockState → Prop :=
  | clk_observe p seen now v :
      is_u64 v → clock_step (mkClockState p seen) (mkClockState (ObserveVersion now v p) (v :: seen))
  | clk_apply p seen1 v seen2 mt realIP fakeIP e :
      valid_ip realIP →
      clock_step (mkClockState p (seen1 ++ v :: seen2))
        (mkClockState (AddMapping p mt realIP fakeIP v e).1.2 (seen1 ++ seen2))
  | clk_recover p seen mt realIP fakeIP e :
      valid_ip realIP →
      clock_step (mkClockState p seen) (mkClockState (AddMapping p mt realIP fakeIP 0 e).1.2 seen)
  | clk_remove p seen realIP fakeIP :
      valid_ip realIP →
      clock_step (mkClockState p seen) (mkClockState (RemoveMapping p realIP fakeIP) seen)
  | clk_alloc p seen now nano realIP isV6 :
      valid_ip realIP → hlc p < 2 ^ 64 - 1 →
      clock_step (mkClockState p seen) (mkClockState (alloc_locked p now nano realIP isV6).2 seen)
  | clk_version p seen now :
      hlc p < 2 ^ 64 - 1 →
      clock_step (mkClockState p seen) (mkClockState (GetNextVersion now p).2 seen)
  | clk_prune p seen now i pairs :
      clock_step (mkClockState p seen) (mkClockState (foldl (prune_pair now i) p pairs) seen).

(** No observed version is ahead of the clock. *)
Definition clock_ok (s : ClockState) : Prop :=
  clocked (ck_pool s) ∧ Forall (λ v, 0 ≤ v ≤ hlc (ck_pool s)) (ck_seen s).

(** ** Lemmas *)

(** The clock after each operation. *)
Lemma GetNextVersion_spec now p :
  is_u64 (hlc p) → hlc p < 2 ^ 64 - 1 →
  let v := (GetNextVersion now p).1 in
  hlc p < v ∧ w64 now ≤ v ∧ is_u64 v ∧ (GetNextVersion now p).2 = set_hlc v p.
Proof.
  intros Hr Hlt. unfold GetNextVersion. pose proof (w64_range now) as Hn.
  destruct (Z.ltb_spec (hlc p) (w64 now)); cbn.
  - split_and!; try lia; done.
  - rewrite (w64_small (hlc p + 1)) by (unfold_words; lia). split_and!; try lia; [|done].
    unfold_words; lia.
Qed.

Lemma ObserveVersion_spec now v p :
  is_u64 v → is_u64 (hlc p) →
  let h := hlc (ObserveVersion now v p) in hlc p ≤ h ∧ v ≤ h ∧ w64 now ≤ h ∧ is_u64 h.
Proof.
  intros Hv Hr. unfold ObserveVersion. cbn [hlc set_hlc]. pose proof (w64_range now).
  destruct (Z.ltb_spec (hlc p) (w64 now));
    (destruct (Z.ltb_spec (if hlc p <? w64 now then w64 now else hlc p) v) || idtac);
    repeat case_match; unfold_words; lia.
Qed.

(** The primitives only remove versions, except [link]. *)
Lemma version_evict_real r p f v :
  globalVersions (evict_real r p) !! f = Some v → globalVersions p !! f = Some v.
Proof.
  unfold evict_real. destruct (rtf p r); [|done]. rewrite version_unlink. by case_decide.
Qed.

Lemma version_evict_fake r p f v :
  globalVersions (evict_fake r p) !! f = Some v → globalVersions p !! f = Some v.
Proof.
  unfold evict_fake. destruct (globalFakeToReal p !! r); [|done]. rewrite version_unlink. by case_decide.
Qed.

Lemma hlc_evict_real r p : hlc (evict_real r p) = hlc p.
Proof. unfold evict_real. by destruct (rtf p r). Qed.

Lemma prune_fold_versions now i pairs p f v :
  globalVersions (foldl (prune_pair now i) p pairs) !! f = Some v → globalVersions p !! f = Some v.
Proof.
  revert p. induction pairs as [|[r g] pairs IH]; intros p; cbn [foldl]; [done|].
  intros H%IH. revert H. unfold prune_pair. repeat case_match; try done.
  unfold del_fake. cbn [globalVersions set_globals del_real set_shards].
  rewrite lookup_delete. by destruct (decide (g = f)).
Qed.

Lemma prune_fold_hlc now i pairs p : hlc (foldl (prune_pair now i) p pairs) = hlc p.
Proof.
  revert p. induction pairs as [|[r g] pairs IH]; intros p; cbn [foldl]; [done|].
  rewrite IH. unfold prune_pair. repeat case_match; done.
Qed.

Lemma clocked_sub p q :
  pool_wf q → hlc q = hlc p →
  (∀ f v, globalVersions q !! f = Some v → globalVersions p !! f = Some v) →
  clocked p → clocked q.
Proof. intros Hq Hh Hv [Hwf Hr Hb]. split; [done|by rewrite Hh|]. rewrite Hh. eauto. Qed.

Lemma clocked_add p mt realIP fakeIP v e :
  clocked p → valid_ip realIP → 0 ≤ v ≤ hlc p → clocked (AddMapping p mt realIP fakeIP v e).1.2.
Proof.
  intros Hc Hv Hle. destruct Hc as [Hwf Hr Hb]. split.
  - by apply AddMapping_wf.
  - by rewrite AddMapping_hlc.
  - intros f u. rewrite AddMapping_hlc, (AddMapping_eq p Hwf mt realIP fakeIP v e Hv).
    case_match; [apply Hb|]. cbn [snd]. unfold relink. rewrite version_link.
    case_decide; [by intros [= <-]|]. eauto using version_evict_fake, version_evict_real.
Qed.

(** What an allocation does to the clock. *)
Lemma alloc_locked_clock p now nano realIP isV6 :
  clocked p → valid_ip realIP → hlc p < 2 ^ 64 - 1 →
  clocked (alloc_locked p now nano realIP isV6).2 ∧
  ∀ c v, (alloc_locked p now nano realIP isV6).1 = AllocNew c v →
    w64 nano ≤ v ∧ ∀ f u, globalVersions p !! f = Some u → u < v.
Proof.
  intros Hc Hv Hlt. pose proof Hc as [Hwf Hr Hb].
  pose proof (alloc_locked_wf p Hwf now nano realIP isV6 Hv) as Hwf'.
  destruct (decide (live p now (ToIPKey realIP))) as [Hl|Hl].
  - destruct (alloc_locked_live p now nano realIP isV6 Hv Hl) as (f & q & _ & E & Hq).
    rewrite E in *. split; [|done]. apply (clocked_sub p); [done|..|done]; by destruct Hq as [-> | ->].
  - rewrite (alloc_locked_not_live p Hwf) in * by done.
    set (q := evict_real (ToIPKey realIP) p) in *.
    destruct (GetNextVersion_spec nano q) as (H1 & H2 & H3 & _);
      [unfold q; by rewrite hlc_evict_real|unfold q; by rewrite hlc_evict_real|].
    set (v := (GetNextVersion nano q).1) in *. unfold q in H1. rewrite hlc_evict_real in H1.
    destruct (choose_fake q realIP isV6) as [c|]; cbn [fst snd] in *.
    + split.
      * split; [done|done|]. intros f u. rewrite version_link.
        change (hlc (link _ _ _ _ (set_hlc v q))) with v.
        case_decide; [intros [= <-]; destruct H3; lia|].
        intros Hu%(version_evict_real (ToIPKey realIP) p)%Hb. lia.
      * intros c' v' [= <- <-]. split; [done|]. intros f u Hu%Hb. lia.
    + split; [|done]. apply (clocked_sub p); [done|apply hlc_evict_real| |done].
      apply version_evict_real.
Qed.

(** The clock never runs backwards. *)
Lemma alloc_locked_hlc p now nano realIP isV6 :
  clocked p → valid_ip realIP → hlc p < 2 ^ 64 - 1 →
  hlc p ≤ hlc (alloc_locked p now nano realIP isV6).2.
Proof.
  intros [Hwf Hr Hb] Hv Hlt. destruct (decide (live p now (ToIPKey realIP))) as [Hl|Hl].
  - destruct (alloc_locked_live p now nano realIP isV6 Hv Hl) as (f & q & _ & -> & Hq).
    by destruct Hq as [-> | ->].
  - rewrite (alloc_locked_not_live p Hwf) by done.
    set (q := evict_real (ToIPKey realIP) p).
    assert (hlc q = hlc p) as Hq by apply hlc_evict_real.
    destruct (GetNextVersion_spec nano q) as (H1 & _); [by rewrite Hq|by rewrite Hq|].
    destruct (choose_fake q realIP isV6) as [c|]; cbn [snd]; [|by rewrite Hq].
    change (hlc (link _ _ _ _ (set_hlc ?v _))) with v. lia.
Qed.

Lemma clock_ok_mono p p' seen :
  clocked p' → hlc p ≤ hlc p' → clock_ok (mkClockState p seen) → clock_ok (mkClockState p' seen).
Proof.
  intros Hc Hle [_ Hs]. split; [done|]. eapply Forall_impl; [exact Hs|]. cbn. lia.
Qed.

Lemma clock_step_ok s s' : clock_ok s → clock_step s s' → clock_ok s'.
Proof.
  intros Hok Hs. pose proof Hok as [Hc Hseen].
  destruct Hs as [p seen now v Hv|p seen1 v seen2 mt realIP fakeIP e Hv|p seen mt realIP fakeIP e Hv
    |p seen realIP fakeIP Hv|p seen now nano realIP isV6 Hv Hlt|p seen now Hlt|p seen now i pairs];
    cbn [ck_pool ck_seen] in *; pose proof Hc as [Hwf Hr Hb].
  - destruct (ObserveVersion_spec now v p) as (H1 & H2 & _ & H3); [done|done|].
    split; cbn [ck_pool ck_seen].
    + split; [by apply set_hlc_wf|done|]. intros f u Hu%Hb. lia.
    + apply Forall_cons. split; [by destruct Hv|]. eapply Forall_impl; [exact Hseen|]. cbn beta. lia.
  - apply Forall_app in Hseen as [Hs1 [Hle Hs2]%Forall_cons].
    split; [by apply clocked_add|]. cbn [ck_pool ck_seen]. rewrite AddMapping_hlc. by apply Forall_app.
  - split; [apply clocked_add; [done|done|]; split; [lia|apply Hr]|]. cbn [ck_pool ck_seen]. by rewrite AddMapping_hlc.
  - eapply clock_ok_mono; [| |exact Hok]; rewrite RemoveMapping_eq by done; case_bool_decide; try done.
    apply (clocked_sub p); [|done| |done].
    + pose proof (RemoveMapping_wf p Hwf realIP fakeIP Hv) as Hw. rewrite RemoveMapping_eq, bool_decide_true in Hw by done. done.
    + intros f u. rewrite version_unlink. by case_decide.
  - eapply clock_ok_mono; [by apply alloc_locked_clock|by apply alloc_locked_hlc|done].
  - destruct (GetNextVersion_spec now p) as (H1 & _ & H2 & E); [done|done|]. rewrite E.
    apply (clock_ok_mono p); [|cbn [hlc set_hlc]; lia|exact Hok].
    split; [by apply set_hlc_wf|done|]. cbn [hlc set_hlc]. intros f u Hu%Hb. lia.
  - apply (clock_ok_mono p); [|by rewrite prune_fold_hlc|exact Hok].
    apply (clocked_sub p); [by apply prune_fold_wf|apply prune_fold_hlc|apply prune_fold_versions|done].
Qed.

Lemma clock_ok_new base4 base6 cfg : clock_ok (mkClockState (NewIPPoolWithConfig base4 base6 cfg) []).
Proof. split; [|by apply Forall_nil]. split; [apply NewIPPoolWithConfig_wf|done|done]. Qed.

(** ** Properties *)

(** C9: a mapping a node allocates gets a version above every version in its
    pool, whether allocated here, recovered from the kernel or received from a
    peer, and not below the wall clock; so no peer holding older data can
    reject it by version.  Versions received from peers are arbitrary 64-bit
    words; the counter is not at its end when versions are drawn from it, and
    real addresses have 4 or 16 bytes. *)
Theorem new_version_outranks base4 base6 cfg p seen now nano realIP isV6 c v :
  rtc clock_step (mkClockState (NewIPPoolWithConfig base4 base6 cfg) []) (mkClockState p seen) →
  hlc p < 2 ^ 64 - 1 → valid_ip realIP →
  (alloc_locked p now nano realIP isV6).1 = AllocNew c v →
  w64 nano ≤ v ∧ globalVersions (alloc_locked p now nano realIP isV6).2 !! ToIPKey c = Some v ∧
  ∀ f u, globalVersions p !! f = Some u → u < v.
Proof.
  intros Hs Hlt Hv E.
  assert (clocked p) as Hc.
  { change p with (ck_pool (mkClockState p seen)). refine (proj1 (_ : clock_ok _)).
    clear -Hs. revert Hs. generalize (clock_ok_new base4 base6 cfg).
    induction 2; eauto using clock_step_ok. }
  destruct (alloc_locked_clock p now nano realIP isV6 Hc Hv Hlt) as [_ Hn].
  destruct (Hn c v E) as [H1 H2]. split_and!; [done| |done].
  destruct (decide (live p now (ToIPKey realIP))) as [Hl|Hl].
  - destruct (alloc_locked_live p now nano realIP isV6 Hv Hl) as (? & ? & _ & E' & _).
    by rewrite E' in E.
  - rewrite (alloc_locked_not_live p (clk_wf p Hc)) in E |- * by done.
    case_match; [|done]. cbn [fst snd] in *. simplify_eq. rewrite version_link. by rewrite decide_True.
Qed.

Definition clock_demo : IPPool :=
  (AddMapping (ObserveVersion 1000 5000 demo_pool) metrics_zero demo_real demo_fake 5000 9).1.2.

Lemma clock_demo_steps :
  rtc clock_step (mkClockState (NewIPPoolWithConfig "198.18" "fd00:18::" (mkIPPoolConfig DefaultPoolSizeV4 DefaultPoolSizeV6)) [])
    (mkClockState clock_demo []).
Proof.
  fold (NewIPPool "198.18" "fd00:18::"). fold demo_pool.
  apply (rtc_l _ _ (mkClockState (ObserveVersion 1000 5000 demo_pool) [5000])).
  - apply clk_observe. done.
  - apply rtc_once. unfold clock_demo.
    apply (clk_apply (ObserveVersion 1000 5000 demo_pool) [] 5000 []). right; reflexivity.
Qed.

Lemma new_version_outranks_witness :
  (alloc_locked clock_demo 3 1001 (ParseIP "2.2.2.2") false).1 = AllocNew (ParseIP "198.18.239.71") 5001 ∧
  5000 < 5001.
Proof.
  assert ((alloc_locked clock_demo 3 1001 (ParseIP "2.2.2.2") false).1 =
          AllocNew (ParseIP "198.18.239.71") 5001) as E by (vm_compute; reflexivity).
  split; [exact E|].
  refine (proj2 (proj2 (new_version_outranks "198.18" "fd00:18::"
    (mkIPPoolConfig DefaultPoolSizeV4 DefaultPoolSizeV6) clock_demo [] 3 1001 (ParseIP "2.2.2.2") false
    (ParseIP "198.18.239.71") 5001 clock_demo_steps _ _ E)) (ToIPKey demo_fake) 5000 _).
  - vm_compute. reflexivity.
  - right. reflexivity.
  - vm_compute. reflexivity.
Defined.

(** The counter is not protected against overflow: once a peer has sent the
    greatest version, the next local version is 0. *)
Theorem version_wraps_after_max now now' p :
  is_u64 (hlc p) →
  (GetNextVersion now' (ObserveVersion now (2 ^ 64 - 1) p)).1 = 0.
Proof.
  intros Hr. destruct (ObserveVersion_spec now (2 ^ 64 - 1) p) as (_ & H2 & _ & H4);
    [unfold_words; lia|done|].
  set (q := ObserveVersion now (2 ^ 64 - 1) p) in *. unfold GetNextVersion. cbn [fst].
  pose proof (w64_range now'). destruct (Z.ltb_spec (hlc q) (w64 now')); [unfold_words; lia|].
  assert (hlc q = 2 ^ 64 - 1) as -> by (unfold_words; lia). done.
Qed.
