(* ===== verification/PoolRange.v ===== *)
(** * The Fake-IP pool: every allocated address lies in the pool's subnet

    The firewall rules match the subnet [GetPoolNet] prints.  The allocator
    computes addresses by arithmetic on [poolStart] and [poolSize]; this file
    relates the two, through the printed and re-parsed network, and shows which
    configurations make them agree. *)

From Stdlib Require Import Ascii.
From Stdlib Require String.
From stdpp Require Import prelude gmap strings sorting.
From S2P Require Import Prelude GoStrings GoNet GoNetFacts GoNetMask Metrics IPPool PoolInv PoolOps PoolReach.

(** ** Definitions *)

(** The parameters of a pool whose arithmetic stays in its subnet. *)
Record net4_ok (p : IPPool) : Prop := {
  n4_mask : 0 ≤ cidrMask p ≤ 31;
  n4_start : is_u32 (poolStart p);
  n4_aligned : poolStart p mod 2 ^ (32 - cidrMask p) = 0;
  n4_size : 0 < poolSize p ≤ 2 ^ (32 - cidrMask p);
}.

Record net6_ok (p : IPPool) : Prop := {
  n6_mask : 96 ≤ cidrMask6 p ≤ 128;
  n6_length : length (poolStart6 p) = 16%nat;
  n6_native : To4 (poolStart6 p) = [];
  n6_masked : zip_with byte_and (poolStart6 p) (mask_bytes 16 (cidrMask6 p)) = poolStart6 p;
  n6_size : 0 < poolSize6 p ≤ 2 ^ (128 - cidrMask6 p);
}.

(** The address lies in the network with this text. *)
Definition in_net (net : string) (ip : IP) : Prop :=
  ∃ n, ParseCIDR net = Some n ∧ IPNet_Contains n ip = true.

(** ** Lemmas: arithmetic of aligned blocks *)

Lemma aligned_block start k d :
  0 ≤ k ≤ 32 → is_u32 start → start mod 2 ^ k = 0 → 0 ≤ d < 2 ^ k →
  w32 (start + d) = start + d ∧ (start + d) / 2 ^ k = start / 2 ^ k.
Proof.
  intros Hk Hs Ha Hd. assert (0 < 2 ^ k) as Hp by (apply Z.pow_pos_nonneg; lia).
  apply Z.div_exact in Ha; [|lia]. set (q := start / 2 ^ k) in *.
  assert (2 ^ 32 = 2 ^ k * 2 ^ (32 - k)) as H32 by (rewrite <- Z.pow_add_r by lia; f_equal; lia).
  assert (q < 2 ^ (32 - k)) by (unfold_words; nia).
  split.
  - apply w32_small. unfold_words. nia.
  - rewrite Ha, Z.mul_comm, Z.div_add_l by lia. rewrite Z.div_small by lia. lia.
Qed.

(** Stepping off a network or broadcast address stays in the block. *)
Lemma hash_adjust start k d :
  1 ≤ k ≤ 32 → is_u32 start → start mod 2 ^ k = 0 → 0 ≤ d < 2 ^ k →
  let x := w32 (start + d) in
  let y := if x mod 256 =? 0 then x +32 1 else if x mod 256 =? 255 then x -32 1 else x in
  ∃ d', 0 ≤ d' < 2 ^ k ∧ y = start + d' ∧ is_u32 y ∧ y mod 256 ≠ 0 ∧ y mod 256 ≠ 255.
Proof.
  intros Hk Hs Ha Hd x y.
  destruct (aligned_block start k d ltac:(lia) Hs Ha Hd) as [Hx _]. fold x in Hx.
  assert (2 ^ k = 2 * 2 ^ (k - 1)) as H2.
  { rewrite <- (Z.pow_succ_r 2 (k - 1)) by lia. f_equal. lia. }
  apply Z.div_exact in Ha; [|lia]. rewrite H2 in *.
  set (h := 2 ^ (k - 1)) in *. set (q := start / (2 * h)) in *.
  assert (∀ d', 0 ≤ d' < 2 * h → w32 (start + d') = start + d' ∧ is_u32 (start + d')) as Hin.
  { intros d' Hd'. destruct (aligned_block start k d' ltac:(lia) Hs) as [E _].
    - rewrite H2. apply Z.div_exact; [lia|]. exact Ha.
    - lia.
    - split; [done|]. rewrite <- E. apply w32_range. }
  subst y. destruct (Z.eqb_spec (x mod 256) 0) as [E0|E0].
  - exists (d + 1). assert (0 ≤ d + 1 < 2 * h) as Hd1.
    { rewrite Hx in E0. apply Z.mod_divide in E0 as [t Ht]; [|lia]. nia. }
    destruct (Hin _ Hd1) as [E1 E2]. rewrite Hx, <- Z.add_assoc, E1.
    split_and!; [lia|lia|lia|done|..]; rewrite Hx in E0; word_lia.
  - destruct (Z.eqb_spec (x mod 256) 255) as [E255|E255].
    + exists (d - 1). assert (0 ≤ d - 1 < 2 * h) as Hd1.
      { rewrite Hx in E255. assert (d ≠ 0); [|lia]. intros ->.
        pose proof (Z.div_mod (start + 0) 256 ltac:(lia)) as Hdm. rewrite E255 in Hdm. nia. }
      destruct (Hin _ Hd1) as [E1 E2]. rewrite Hx.
      replace (start + d - 1) with (start + (d - 1)) by lia. rewrite E1.
      split_and!; [lia|lia|lia|done|..]; rewrite Hx in E255; word_lia.
    + exists d. destruct (Hin _ Hd) as [E1 E2]. rewrite Hx in *. split_and!; done || lia.
Qed.

(** ** Lemmas: IPv4 *)

Section Net4.
Context (p : IPPool) (Hok : net4_ok p).

Lemma in_net4 d :
  0 ≤ d < 2 ^ (32 - cidrMask p) → in_net (GetPoolNet p) (IPv4_of_u32 (poolStart p + d)).
Proof.
  intros Hd. destruct Hok as [Hm Hs Ha Hz].
  unfold in_net, GetPoolNet, UintToIP. rewrite ParseCIDR_fmt4 by (done || lia).
  eexists. split; [done|]. apply Contains_v4; [done|lia|by rewrite IPv4_of_u32_To4|].
  rewrite IPv4_of_u32_To4. unfold block. rewrite !be_val_bytes32.
  destruct (aligned_block (poolStart p) (32 - cidrMask p) d) as [E1 E2]; [lia|done..|].
  rewrite E1, E2, w32_small by done. done.
Qed.

(** The usable range: no address ends in 0 or 255. *)
Definition usable (ip : IP) : Prop :=
  be_uint32 (To4 ip) mod 256 ≠ 0 ∧ be_uint32 (To4 ip) mod 256 ≠ 255.

Lemma usable_u32 x : is_u32 x → x mod 256 ≠ 0 → x mod 256 ≠ 255 → usable (IPv4_of_u32 x).
Proof.
  intros Hx H0 H255. unfold usable. rewrite IPv4_of_u32_To4.
  rewrite <- (app_nil_r (be_bytes32 x)), be_uint32_bytes32, w32_small by done. done.
Qed.

Lemma level1_in_net4 realIP :
  in_net (GetPoolNet p) (ComputeLevel1Hash p realIP false) ∧ usable (ComputeLevel1Hash p realIP false).
Proof.
  pose proof Hok as [Hm Hs Ha Hz]. unfold ComputeLevel1Hash. cbn [negb].
  set (d := fnv1aBytes (To4 realIP) mod poolSize p).
  assert (0 ≤ d < 2 ^ (32 - cidrMask p)) as Hd.
  { pose proof (Z.mod_pos_bound (fnv1aBytes (To4 realIP)) (poolSize p) ltac:(lia)). lia. }
  destruct (hash_adjust (poolStart p) (32 - cidrMask p) d ltac:(lia) Hs Ha Hd)
    as (d' & Hd' & Hy & Hu & H0 & H255).
  split; [rewrite Hy; by apply in_net4|by apply usable_u32].
Qed.

Lemma candidate_in_net4 o a c :
  candidate4 p o a = Some c → in_net (GetPoolNet p) c ∧ usable c.
Proof.
  pose proof Hok as [Hm Hs Ha Hz]. unfold candidate4.
  set (d := w32 (o + a) mod poolSize p).
  assert (0 ≤ d < 2 ^ (32 - cidrMask p)) as Hd.
  { pose proof (Z.mod_pos_bound (w32 (o + a)) (poolSize p) ltac:(lia)). lia. }
  destruct (aligned_block (poolStart p) (32 - cidrMask p) d ltac:(lia) Hs Ha Hd) as [E _].
  rewrite E. destruct (Z.eqb_spec ((poolStart p + d) mod 256) 0); [done|].
  destruct (Z.eqb_spec ((poolStart p + d) mod 256) 255); [done|]. cbn. intros [= <-].
  split; [by apply in_net4|]. apply usable_u32; [|done..]. rewrite <- E. apply w32_range.
Qed.

Lemma choose_fake_in_net4 q realIP c :
  poolStart q = poolStart p → poolSize q = poolSize p → cidrMask q = cidrMask p →
  choose_fake q realIP false = Some c → in_net (GetPoolNet p) c ∧ usable c.
Proof.
  intros E1 E2 E3. unfold choose_fake. cbn [negb].
  assert (ComputeLevel1Hash q realIP false = ComputeLevel1Hash p realIP false) as ->
    by (unfold ComputeLevel1Hash; cbn [negb]; by rewrite E1, E2).
  destruct (occupied q _); cbn [negb]; [|intros [= <-]; apply level1_in_net4].
  intros [_ (k & _ & Hc)]%probe_Some. eapply (candidate_in_net4 _ k).
  unfold candidate4 in *. rewrite E1, E2 in Hc. exact Hc.
Qed.
End Net4.

(** ** Lemmas: IPv6 *)

Section Net6.
Context (p : IPPool) (Hok : net6_ok p).

Let head : list Byte.byte := take 12 (poolStart6 p).
Let val : Z := be_uint32 (drop 12 (poolStart6 p)).

Lemma start6_split : poolStart6 p = head ++ be_bytes32 val ∧ length head = 12%nat ∧ head ≠ v4InV6Prefix.
Proof.
  destruct Hok as [_ Hl H4 _ _]. subst head val.
  assert (length (drop 12 (poolStart6 p)) = 4%nat) as Hd by (rewrite length_drop; lia).
  split_and!.
  - rewrite <- (take_drop 12 (poolStart6 p)) at 1. f_equal.
    destruct (length4_inv _ Hd) as (a & b & c & d & ->). by rewrite be_bytes32_uint32.
  - rewrite length_take. lia.
  - intros E. unfold To4 in H4. rewrite Hl in H4. cbn [Nat.eqb andb] in H4.
    rewrite bool_decide_eq_true_2 in H4 by done. by rewrite H4 in Hd.
Qed.

Lemma val6_aligned : val mod 2 ^ (128 - cidrMask6 p) = 0.
Proof.
  pose proof start6_split as (Hs & Hh & _). pose proof Hok as [Hm Hl _ Hz _].
  pose proof (masked_val (poolStart6 p) (cidrMask6 p)) as Hv. rewrite Hl, Hz in Hv.
  specialize (Hv ltac:(lia)). unfold block in Hv.
  change (8 * Z.of_nat 16) with 128 in Hv. set (k := 128 - cidrMask6 p) in *.
  assert (be_val (poolStart6 p) = be_val head * 2 ^ 32 + val) as Hb.
  { rewrite Hs, be_val_app, be_val_bytes32. change (8 * Z.of_nat (length (be_bytes32 val))) with 32.
    f_equal. apply w32_small, be_uint32_range. }
  assert (2 ^ 32 = 2 ^ (32 - k) * 2 ^ k) as H32.
  { rewrite <- Z.pow_add_r by (subst k; lia). f_equal. lia. }
  assert (0 < 2 ^ k) by (apply Z.pow_pos_nonneg; subst k; lia).
  apply Z.mod_divide; [lia|].
  exists (be_val (poolStart6 p) / 2 ^ k - be_val head * 2 ^ (32 - k)).
  rewrite Z.mul_sub_distr_r, <- Z.mul_assoc, <- H32, <- Hv, Hb. lia.
Qed.

Lemma in_net6 d :
  0 ≤ d < 2 ^ (128 - cidrMask6 p) →
  in_net (GetPoolNet6 p) (head ++ be_bytes32 (val +32 d)).
Proof.
  intros Hd. pose proof start6_split as (Hs & Hh & Hne). pose proof val6_aligned as Ha.
  pose proof Hok as [Hm Hl H4 Hz _].
  unfold in_net, GetPoolNet6. rewrite ParseCIDR_String6 by (done || lia).
  eexists. split; [done|].
  assert (length (head ++ be_bytes32 (val +32 d)) = 16%nat) as Hlen by (rewrite length_app, Hh; done).
  apply Contains_v6; [done|lia|by rewrite Hz| |done|].
  - unfold To4. rewrite Hlen. cbn [Nat.eqb andb].
    rewrite take_app_le, take_ge by lia. by rewrite bool_decide_eq_false_2.
  - rewrite Hs at 1. unfold block. rewrite !be_val_app, !be_val_bytes32.
    change (8 * Z.of_nat (length (be_bytes32 val))) with 32.
    change (8 * Z.of_nat (length (be_bytes32 (val +32 d)))) with 32.
    set (k := 128 - cidrMask6 p) in *.
    destruct (aligned_block val k d) as [E1 E2];
      [subst k; lia|apply be_uint32_range|done|done|].
    rewrite (w32_small val), (w32_small (w32 _)), E1 by (apply be_uint32_range || apply w32_range).
    assert (2 ^ 32 = 2 ^ (32 - k) * 2 ^ k) as ->.
    { rewrite <- Z.pow_add_r by (subst k; lia). f_equal. lia. }
    assert (0 < 2 ^ k) by (apply Z.pow_pos_nonneg; subst k; lia).
    rewrite !Z.mul_assoc, !Z.div_add_l by lia. by rewrite E2.
Qed.

Lemma padded6 : take 16 (poolStart6 p ++ replicate 16 Byte.x00) = poolStart6 p.
Proof. rewrite take_app_le, take_ge; [done|..]; rewrite (n6_length p Hok); lia. Qed.

Lemma choose_fake_in_net6 q realIP c :
  poolStart6 q = poolStart6 p → poolSize6 q = poolSize6 p →
  choose_fake q realIP true = Some c → in_net (GetPoolNet6 p) c.
Proof.
  intros E1 E2. pose proof Hok as [_ _ _ _ Hz]. unfold choose_fake. cbn [negb].
  destruct (occupied q _); cbn [negb].
  - intros [_ (k & _ & Hc)]%probe_Some. unfold candidate6 in Hc.
    rewrite E1, E2, padded6 in Hc. simplify_eq. apply in_net6.
    pose proof (Z.mod_pos_bound (w32 (w32 (be_uint32 (drop 12 (ComputeLevel1Hash q realIP true)) -
      be_uint32 (drop 12 (poolStart6 p))) + k)) (poolSize6 p) ltac:(lia)). lia.
  - intros [= <-]. unfold ComputeLevel1Hash. cbn [negb]. rewrite E1, E2, padded6. apply in_net6.
    pose proof (Z.mod_pos_bound (fnv1aBytes (To16 realIP)) (poolSize6 p) ltac:(lia)). lia.
Qed.
End Net6.

(** ** Lemmas: the parameters never change *)

Definition params (p : IPPool) : Z * Z * Z * IP * Z * Z :=
  (poolStart p, poolSize p, cidrMask p, poolStart6 p, poolSize6 p, cidrMask6 p).

Lemma params_prune now i pairs p : params (foldl (prune_pair now i) p pairs) = params p.
Proof.
  revert p. induction pairs as [|[r f] pairs IH]; intros p; cbn [foldl]; [done|].
  rewrite IH. unfold prune_pair. repeat case_match; done.
Qed.

Lemma params_evict r p : params (evict_real r p) = params p.
Proof. unfold evict_real. by destruct (rtf p r). Qed.

Lemma pool_step_params p p' : pool_wf p → pool_step valid_ip p p' → params p' = params p.
Proof.
  intros Hwf [ | |now1 now2 realIP fakeIP v e Hv|now nano realIP isV6 Hv| | | |q Hq].
  - unfold AddMapping. repeat case_match; simplify_eq; done.
  - unfold RemoveMapping. repeat case_match; done.
  - unfold TryReserve. repeat case_match; simplify_eq; done.
  - destruct (decide (live p now (ToIPKey realIP))) as [Hl|Hl].
    + by destruct (alloc_locked_live p now nano realIP isV6 Hv Hl) as (? & ? & _ & -> & [-> | ->]).
    + rewrite (alloc_locked_not_live p Hwf) by done. case_match; apply (params_evict (ToIPKey realIP) p).
  - apply params_prune.
  - done.
  - done.
  - unfold Close in Hq. case_match; by simplify_eq.
Qed.

Lemma pool_steps_params p p' : pool_wf p → rtc (pool_step valid_ip) p p' → params p' = params p.
Proof.
  intros Hwf Hs. induction Hs as [|p q p' H1 _ IH]; [done|].
  rewrite IH by by eapply pool_step_wf. by apply pool_step_params.
Qed.

(** ** Lemmas: the constructor *)

Definition fallback_start : Z := Z.lor (Z.shiftl 198 24) (Z.shiftl 18 16).

Lemma log2_up_block n : 1 ≤ n ≤ 2 ^ 32 → 0 ≤ Z.log2_up n ≤ 32 ∧ n ≤ 2 ^ Z.log2_up n.
Proof.
  intros Hn. split.
  - split; [apply Z.log2_up_nonneg|]. pose proof (Z.log2_up_le_mono n (2 ^ 32) ltac:(lia)) as H. by rewrite Z.log2_up_pow2 in H by lia.
  - destruct (decide (n = 1)) as [->|]; [done|]. apply Z.log2_up_spec. lia.
Qed.

Lemma masked_aligned ip n :
  length ip = 4%nat → 0 ≤ n ≤ 32 →
  is_u32 (be_uint32 (IP_Mask ip (CIDRMask n 32))) ∧
  be_uint32 (IP_Mask ip (CIDRMask n 32)) mod 2 ^ (32 - n) = 0.
Proof.
  intros Hl Hn. rewrite CIDRMask_32 by done. split; [apply be_uint32_range|].
  pose proof (IP_Mask_same ip n) as E. rewrite Hl in E. rewrite E.
  pose proof (masked_val ip n) as Hv. pose proof (length_masked ip n) as Hm. rewrite Hl in Hv, Hm.
  rewrite <- be_val_uint32, Hv by (done || lia). change (8 * Z.of_nat 4) with 32.
  apply Z.mod_mul. assert (0 < 2 ^ (32 - n)) by (apply Z.pow_pos_nonneg; lia). lia.
Qed.

(** The IPv4 subnet is sound unless the base address is unusable for a pool
    larger than the fallback block allows. *)
Lemma NewIPPool_net4 base4 base6 cfg :
  let p := NewIPPoolWithConfig base4 base6 cfg in
  2 ≤ poolSize p < 2 ^ 32 → poolStart p ≠ fallback_start ∨ poolSize p ≤ 131072 → net4_ok p.
Proof.
  intros p. unfold p, NewIPPoolWithConfig. cbn [poolSize poolStart].
  set (size := if PoolSizeV4 cfg =? 0 then _ else _).
  set (ip4 := To4 (ParseIP _)).
  set (start0 := if is_nil ip4 then 0 else _). intros Hsz Hst.
  destruct (log2_up_block size ltac:(lia)) as [Hl Hle].
  assert (1 ≤ Z.log2_up size) as Hl1.
  { change 1 with (Z.log2_up 2). apply Z.log2_up_le_mono. lia. }
  split; cbn [cidrMask poolStart poolSize].
  - lia.
  - case_match; [done|]. subst start0. case_match; [done|]. apply be_uint32_range.
  - replace (32 - (32 - Z.log2_up size)) with (Z.log2_up size) by lia.
    destruct (Z.eqb_spec start0 0) as [E|E].
    + destruct Hst as [Hst|Hst]; [done|]. fold fallback_start.
      assert (Z.log2_up size ≤ 17) as H17.
      { change 17 with (Z.log2_up 131072). apply Z.log2_up_le_mono. lia. }
      apply Z.mod_divide; [assert (0 < 2 ^ Z.log2_up size) by (apply Z.pow_pos_nonneg; lia); lia|].
      exists (198 * 2 ^ 24 / 2 ^ 17 * 2 ^ (17 - Z.log2_up size) + 2 * 9 * 2 ^ 16 / 2 ^ 17 * 2 ^ (17 - Z.log2_up size)).
      rewrite <- Z.mul_add_distr_r, <- Z.mul_assoc, <- Z.pow_add_r by lia.
      replace (17 - Z.log2_up size + Z.log2_up size) with 17 by lia. vm_compute. done.
    + subst start0. destruct (is_nil ip4) eqn:En; [done|]. apply is_nil_false in En.
      destruct (masked_aligned _ (32 - Z.log2_up size) (To4_length _ En)) as [_ Ha]; [lia|].
      by replace (32 - (32 - Z.log2_up size)) with (Z.log2_up size) in Ha by lia.
  - replace (32 - (32 - Z.log2_up size)) with (Z.log2_up size) by lia. lia.
Qed.

Lemma NewIPPool_net6 base4 base6 cfg :
  let p := NewIPPoolWithConfig base4 base6 cfg in
  1 ≤ poolSize6 p < 2 ^ 32 → To4 (poolStart6 p) = [] → net6_ok p.
Proof.
  intros p. unfold p, NewIPPoolWithConfig. cbn [poolSize6 poolStart6].
  set (size := if PoolSizeV6 cfg =? 0 then _ else _). intros Hsz.
  set (start := if is_nil _ then _ else _).
  assert (length start = 16%nat) as Hlen.
  { subst start. case_match eqn:E; [done|]. apply is_nil_false in E. unfold To16 in *.
    repeat case_match; try done.
    - rewrite length_app. match goal with H : Nat.eqb _ 4 = true |- _ => apply Nat.eqb_eq in H as -> end. done.
    - match goal with H : Nat.eqb _ 16 = true |- _ => by apply Nat.eqb_eq in H end. }
  destruct (log2_up_block size ltac:(lia)) as [Hl Hle].
  rewrite CIDRMask_128 by lia. pose proof (IP_Mask_same start (128 - Z.log2_up size)) as Em.
  pose proof (length_masked start (128 - Z.log2_up size)) as Hm. rewrite Hlen in Em, Hm.
  rewrite Em. intros H4. split; cbn [cidrMask6 poolStart6 poolSize6].
  - lia.
  - done.
  - done.
  - apply masked_idem.
  - replace (128 - (128 - Z.log2_up size)) with (Z.log2_up size) by lia. lia.
Qed.

(** ** Properties *)

(** In every reachable state, every Fake-IP handed out for an IPv4 address
    lies in the network [GetPoolNet] prints and does not end in 0 or 255, for
    every configuration of at least two addresses whose base address is usable
    (or whose pool is no larger than the default one). *)
Theorem allocated_in_subnet4 base4 base6 cfg p now nano realIP c v :
  let p0 := NewIPPoolWithConfig base4 base6 cfg in
  2 ≤ poolSize p0 < 2 ^ 32 → poolStart p0 ≠ fallback_start ∨ poolSize p0 ≤ 131072 →
  rtc (pool_step valid_ip) p0 p → valid_ip realIP →
  (alloc_locked p now nano realIP false).1 = AllocNew c v →
  in_net (GetPoolNet p) c ∧ usable c.
Proof.
  intros p0 Hsz Hst Hs Hv Ha. pose proof (NewIPPoolWithConfig_wf base4 base6 cfg) as Hwf0.
  pose proof (pool_steps_params p0 p Hwf0 Hs) as Hp. pose proof (pool_steps_wf p0 p Hwf0 Hs) as Hwf.
  assert (GetPoolNet p = GetPoolNet p0) as -> by (unfold GetPoolNet; unfold params in Hp; congruence).
  destruct (alloc_new p Hwf now nano realIP false c v Hv Ha) as [q [-> Hc]].
  apply (choose_fake_in_net4 p0 (NewIPPool_net4 base4 base6 cfg Hsz Hst) (evict_real (ToIPKey realIP) p) realIP);
    [..|done]; pose proof (params_evict (ToIPKey realIP) p) as He; unfold params in *; congruence.
Qed.

Lemma allocated_in_subnet4_witness : in_net "198.18.0.0/15" (ParseIP "198.18.239.71").
Proof.
  refine (proj1 (allocated_in_subnet4 "198.18" "fd00:18::"
    (mkIPPoolConfig DefaultPoolSizeV4 DefaultPoolSizeV6)
    (NewIPPoolWithConfig "198.18" "fd00:18::" (mkIPPoolConfig DefaultPoolSizeV4 DefaultPoolSizeV6)) 3 1001
    (ParseIP "2.2.2.2") (ParseIP "198.18.239.71") 1001 _ _ _ _ _)).
  - vm_compute. split; [discriminate|reflexivity].
  - right. vm_compute. discriminate.
  - apply rtc_refl.
  - right. reflexivity.
  - vm_compute. reflexivity.
Defined.

(** The same for IPv6 and [GetPoolNet6], for every base address that is not
    an embedded IPv4 one. *)
Theorem allocated_in_subnet6 base4 base6 cfg p now nano realIP c v :
  let p0 := NewIPPoolWithConfig base4 base6 cfg in
  1 ≤ poolSize6 p0 < 2 ^ 32 → To4 (poolStart6 p0) = [] →
  rtc (pool_step valid_ip) p0 p → valid_ip realIP →
  (alloc_locked p now nano realIP true).1 = AllocNew c v →
  in_net (GetPoolNet6 p) c.
Proof.
  intros p0 Hsz Hst Hs Hv Ha. pose proof (NewIPPoolWithConfig_wf base4 base6 cfg) as Hwf0.
  pose proof (pool_steps_params p0 p Hwf0 Hs) as Hp. pose proof (pool_steps_wf p0 p Hwf0 Hs) as Hwf.
  assert (GetPoolNet6 p = GetPoolNet6 p0) as -> by (unfold GetPoolNet6; unfold params in Hp; congruence).
  destruct (alloc_new p Hwf now nano realIP true c v Hv Ha) as [q [-> Hc]].
  apply (choose_fake_in_net6 p0 (NewIPPool_net6 base4 base6 cfg Hsz Hst) (evict_real (ToIPKey realIP) p) realIP);
    [..|done]; pose proof (params_evict (ToIPKey realIP) p) as He; unfold params in *; congruence.
Qed.

Lemma allocated_in_subnet6_witness : in_net "fd00:18::/108" (ParseIP "fd00:18::b:d867").
Proof.
  refine (allocated_in_subnet6 "198.18" "fd00:18::"
    (mkIPPoolConfig DefaultPoolSizeV4 DefaultPoolSizeV6)
    (NewIPPoolWithConfig "198.18" "fd00:18::" (mkIPPoolConfig DefaultPoolSizeV4 DefaultPoolSizeV6)) 3 1001
    (ParseIP "2606:4700::1111") (ParseIP "fd00:18::b:d867") 1001 _ _ _ _ _).
  - vm_compute. split; [discriminate|reflexivity].
  - vm_compute. reflexivity.
  - apply rtc_refl.
  - right. reflexivity.
  - vm_compute. reflexivity.
Defined.

(** ** Configurations whose arithmetic leaves the subnet *)

Definition outside (net : string) (ip : IP) : bool :=
  match ParseCIDR net with Some n => negb (IPNet_Contains n ip) | None => true end.

(** A pool of one address (POOL_SIZE_V4=/32): the address ends in 0, so the
    allocator steps to the next one, outside the /32. *)
Theorem pool_of_one_leaves_subnet :
  let p := NewIPPoolWithConfig "198.18" "fd00:18::" (mkIPPoolConfig 1 0) in
  GetPoolNet p = "198.18.0.0/32" ∧
  ∃ v, (alloc_locked p 3 1001 (ParseIP "2.2.2.2") false).1 = AllocNew (ParseIP "198.18.0.1") v ∧
  outside (GetPoolNet p) (ParseIP "198.18.0.1") = true.
Proof. split; [vm_compute; reflexivity|]. exists 1001. split; vm_compute; reflexivity. Qed.

(** An unusable base address with a /8 pool: the fallback start is not aligned
    to the pool's size and addresses run past the end of the block. *)
Theorem fallback_leaves_subnet :
  let p := NewIPPoolWithConfig "bogus" "fd00:18::" (mkIPPoolConfig 16777216 0) in
  GetPoolNet p = "198.18.0.0/8" ∧
  outside (GetPoolNet p) (ComputeLevel1Hash p (ParseIP "1.1.1.1") false) = true.
Proof. split; vm_compute; reflexivity. Qed.
