(* ===== verification/PoolAlloc.v ===== *)
(** * The Fake-IP pool: allocating for the addresses of one answer

    [GetFakeIPsForReals] allocates for all addresses of a DNS answer or for
    none: when the pool runs out half way, it rolls back what it allocated. *)

From Stdlib Require String.
From stdpp Require Import prelude gmap strings sorting.
From S2P Require Import Prelude GoStrings GoNet GoNetFacts GoNetMask Metrics IPPool PoolInv PoolOps PoolReach PoolPrune PoolRange.

(** ** Definitions *)

(** [s] is the text of an address with key [r] that the call mapped to [f]. *)
Definition recorded (newM : gmap string MappingInfo) (r f : IPKey) : Prop :=
  ∃ s info, newM !! s = Some info ∧ ToIPKey (ParseIP s) = r ∧ ToIPKey (mi_IP info) = f.

(** What holds after the loop has handled [done], started in [p0]. *)
Record loop_inv (p0 : IPPool) (now : Z) (done : list IP) (p : IPPool)
    (result : gmap string IP) (newM : gmap string MappingInfo) : Prop := {
  li_wf : pool_wf p;
  li_done : ∀ real, real ∈ done → ∃ ip,
    result !! IP_String real = Some ip ∧ rtf p (ToIPKey real) = Some (ToIPKey ip) ∧
    live p now (ToIPKey real);
  li_result : ∀ s ip, result !! s = Some ip → ∃ real, real ∈ done ∧ s = IP_String real;
  li_new : ∀ s info, newM !! s = Some info → ∃ real,
    real ∈ done ∧ s = IP_String real ∧ rtf p (ToIPKey real) = Some (ToIPKey (mi_IP info)) ∧
    ¬ live p0 now (ToIPKey real) ∧
    globalVersions p !! ToIPKey (mi_IP info) = Some (mi_Version info);
  li_live : ∀ r, live p0 now r → live p now r ∧ rtf p r = rtf p0 r;
  li_old : ∀ r f, rtf p r = Some f → rtf p0 r = Some f ∨ recorded newM r f;
  li_fresh : ∀ real, valid_ip real → live p now (ToIPKey real) → ¬ live p0 now (ToIPKey real) →
    is_Some (newM !! IP_String real);
}.

(** ** Lemmas *)

(** The text of an address determines its key. *)
Lemma String_key real : valid_ip real → ToIPKey (ParseIP (IP_String real)) = ToIPKey real.
Proof. intros Hv. by rewrite ParseIP_String, ToIPKey_To16. Qed.

Lemma String_inj_key a b :
  valid_ip a → valid_ip b → IP_String a = IP_String b → ToIPKey a = ToIPKey b.
Proof. intros Ha Hb E. by rewrite <- (String_key a), E, String_key. Qed.

Lemma key_inj_String a b :
  valid_ip a → valid_ip b → ToIPKey a = ToIPKey b → IP_String a = IP_String b.
Proof.
  assert (∀ ip, valid_ip ip → IP_String (To16 ip) = IP_String ip) as H16.
  { intros ip Hv. unfold IP_String. rewrite To4_To16, To16_length by done.
    destruct (decide (To4 ip = [])) as [E|E].
    - destruct (To16_To4_nil ip Hv E) as [-> ->]. done.
    - assert (is_nil (To4 ip) = false) as -> by (by destruct (To4 ip)).
      by destruct Hv as [-> | ->]. }
  intros Ha Hb E%ToIPKey_inj; [|done..]. by rewrite <- H16, E, H16.
Qed.

(** The three outcomes of one iteration. *)
Lemma alloc_one_cases p now nano realIP isV6 :
  pool_wf p → valid_ip realIP →
  let r := ToIPKey realIP in
  match alloc_one p now nano realIP isV6 with
  | (AllocCached ip, p') =>
      rtf p r = Some (ToIPKey ip) ∧ live p' now r ∧
      (p' = p ∨ p' = put_expiry (kidx r) r (now + MappingTTL) p)
  | (AllocNew ip v, p') =>
      ¬ live p now r ∧ globalFakeToReal p' !! ToIPKey ip = Some r ∧
      p' = link r (ToIPKey ip) (now + MappingTTL) v (set_hlc v (evict_real r p))
  | (AllocExhausted, p') => ¬ live p now r ∧ p' = evict_real r p
  end.
Proof.
  intros Hwf Hv r. rewrite alloc_one_eq by done.
  destruct (decide (live p now r)) as [Hl|Hl].
  - destruct (alloc_locked_live p now nano realIP isV6 Hv Hl) as (f & p' & Hr & -> & Hp').
    apply (wf_inverse p Hwf) in Hr as Hf. destruct (wf_keys p Hwf f _ Hf) as [Hkf _].
    rewrite ToIPKey_ToIP by done. split_and!; [done| |done].
    destruct Hp' as [-> | ->]; [done|]. exists f, (now + MappingTTL). pose proof (wf_len p Hwf) as Hlen.
    fold r. rewrite rtf_put_expiry, expiry_put_expiry, decide_True by done.
    split_and!; [done|done|]. unfold MappingTTL, hour, minute, second, nanosecond. lia.
  - rewrite alloc_locked_not_live by done. destruct choose_fake as [c|] eqn:E; [|done].
    split_and!; [done| |done]. fold r. rewrite fake_link. by rewrite decide_True.
Qed.

(** A cached answer is a live mapping. *)
Lemma alloc_cached_live p now nano realIP isV6 ip p' :
  pool_wf p → valid_ip realIP → alloc_one p now nano realIP isV6 = (AllocCached ip, p') →
  live p now (ToIPKey realIP).
Proof.
  intros Hwf Hv E. destruct (decide (live p now (ToIPKey realIP))) as [|Hl]; [done|].
  rewrite alloc_one_eq, alloc_locked_not_live in E by done. by case_match.
Qed.

Lemma MappingTTL_pos : 0 < MappingTTL.
Proof. done. Qed.

(** A refreshed expiry leaves every view but one expiry alone. *)
Lemma live_put_expiry p now r r' :
  pool_wf p → live p now r' → live (put_expiry (kidx r) r (now + MappingTTL) p) now r'.
Proof.
  intros Hwf (f & e & Hf & He & Hlt). pose proof (wf_len p Hwf). pose proof MappingTTL_pos.
  unfold live. rewrite rtf_put_expiry, expiry_put_expiry by done.
  exists f. case_decide; eexists; split_and!; eauto. lia.
Qed.

Lemma live_put_expiry_inv p now r e r' :
  pool_wf p → live p now r → live (put_expiry (kidx r) r e p) now r' → live p now r'.
Proof.
  intros Hwf Hl (f & e' & Hf & He & Hlt). pose proof (wf_len p Hwf).
  rewrite rtf_put_expiry, expiry_put_expiry in * by done.
  case_decide; [by subst|]. exists f, e'. done.
Qed.

(** The state after a fresh allocation. *)
Section Fresh.
Context (p : IPPool) (Hwf : pool_wf p) (r f : IPKey) (now v : Z).
Context (Hfree : globalFakeToReal (evict_real r p) !! f = None).
Let q := link r f (now + MappingTTL) v (set_hlc v (evict_real r p)).

Lemma len_evict : length (shards (set_hlc v (evict_real r p))) = 64%nat.
Proof. apply (wf_len _ (set_hlc_wf v _ (evict_real_wf r p Hwf))). Qed.

Lemma rtf_evict_real_ne r' : r ≠ r' → rtf (evict_real r p) r' = rtf p r'.
Proof.
  intros Hne. unfold evict_real. destruct (rtf p r) as [g|]; [|done].
  rewrite rtf_unlink by apply (wf_len p Hwf). by rewrite decide_False.
Qed.

Lemma rtf_fresh r' : rtf q r' = if decide (r = r') then Some f else rtf p r'.
Proof.
  unfold q. rewrite rtf_link by apply len_evict. case_decide; [done|]. by apply rtf_evict_real_ne.
Qed.

Lemma live_fresh r' : r = r' ∨ live p now r' → live q now r'.
Proof.
  intros Hr. pose proof MappingTTL_pos. destruct (decide (r = r')) as [<-|Hne].
  - exists f, (now + MappingTTL). rewrite rtf_fresh, decide_True by done. split_and!; [done| |lia].
    unfold q. rewrite expiry_link by apply len_evict. by rewrite decide_True.
  - destruct Hr as [|(g & e & Hg & He & Hlt)]; [done|]. exists g, e.
    rewrite rtf_fresh, decide_False by done. split_and!; [done| |done].
    unfold q. rewrite expiry_link by apply len_evict. rewrite decide_False by done.
    change (expiry_of (set_hlc v (evict_real r p)) r') with (expiry_of (evict_real r p) r').
    unfold evict_real. destruct (rtf p r) as [g'|]; [|done].
    rewrite expiry_unlink by apply (wf_len p Hwf). by rewrite decide_False.
Qed.

Lemma live_fresh_inv r' : r ≠ r' → live q now r' → live p now r'.
Proof.
  intros Hne (g & e & Hg & He & Hlt). exists g, e.
  rewrite rtf_fresh, decide_False in Hg by done. split_and!; [done| |done].
  unfold q in He. rewrite expiry_link in He by apply len_evict. rewrite decide_False in He by done.
  change (expiry_of (evict_real r p) r' = Some e) in He.
  unfold evict_real in He. destruct (rtf p r) as [g'|]; [|done].
  rewrite expiry_unlink in He by apply (wf_len p Hwf). by rewrite decide_False in He.
Qed.

Lemma versions_fresh g u r' :
  rtf p r' = Some g → r' ≠ r → globalVersions p !! g = Some u → globalVersions q !! g = Some u.
Proof.
  intros Hg Hne Hu. unfold q. rewrite version_link. case_decide as E.
  - subst g. exfalso. assert (rtf (evict_real r p) r' = Some f) as Hr'
      by (by rewrite rtf_evict_real_ne).
    apply (wf_inverse _ (evict_real_wf r p Hwf)) in Hr'. congruence.
  - change (globalVersions (evict_real r p) !! g = Some u).
    unfold evict_real. destruct (rtf p r) as [g'|] eqn:Er; [|done].
    rewrite version_unlink. case_decide as Eg; [|done]. subst g'.
    apply (wf_inverse p Hwf) in Hg, Er. congruence.
Qed.
End Fresh.

(** ** Lemmas: the loop *)

Section Loop.
Context (p0 : IPPool) (now : Z) (isV6 : bool) (done : list IP).
Context (Hdone : Forall valid_ip done).

Lemma loop_cached p result newM nano realIP ip p' :
  valid_ip realIP → loop_inv p0 now done p result newM →
  alloc_one p now nano realIP isV6 = (AllocCached ip, p') →
  loop_inv p0 now (done ++ [realIP]) p' (<[IP_String realIP := ip]> result) newM.
Proof.
  intros Hv [Hwf Hd Hres Hnew Hlive Hold Hfresh] E.
  pose proof (alloc_one_cases p now nano realIP isV6 Hwf Hv) as Hc. rewrite E in Hc.
  pose proof (alloc_one_wf p Hwf now nano realIP isV6 Hv) as Hwf'. rewrite E in Hwf'. cbn [snd] in Hwf'.
  destruct Hc as (Hr & Hl & Hp').
  assert (∀ r, rtf p' r = rtf p r) as Hrtf.
  { intros r. destruct Hp' as [-> | ->]; [done|]. apply rtf_put_expiry, (wf_len p Hwf). }
  assert (∀ r, live p now r → live p' now r) as Hliv.
  { intros r Hlr. destruct Hp' as [-> | ->]; [done|]. by apply live_put_expiry. }
  assert (globalVersions p' = globalVersions p) as Hver by (by destruct Hp' as [-> | ->]).
  split; [done|..].
  - intros real Hin. destruct (decide (IP_String realIP = IP_String real)) as [Es|Es].
    + assert (valid_ip real) as Hvr.
      { apply elem_of_app in Hin as [Hin|Hin%list_elem_of_singleton]; [|by subst].
        by eapply Forall_forall in Hin. }
      exists ip. rewrite <- Es, lookup_insert_eq, Hrtf.
      rewrite <- (String_inj_key realIP real Hv Hvr Es). done.
    + apply elem_of_app in Hin as [Hin|Hin%list_elem_of_singleton]; [|congruence].
      destruct (Hd real Hin) as (ip' & H1 & H2 & H3). exists ip'.
      rewrite lookup_insert_ne, Hrtf by done. auto.
  - intros s ip'. rewrite lookup_insert. case_decide; [set_solver|].
    intros (real & ? & ?)%Hres. set_solver.
  - intros s info (real & H1 & -> & H3 & H4 & H5)%Hnew. exists real.
    rewrite Hver, Hrtf. split_and!; [set_solver|done..].
  - intros r Hlr. destruct (Hlive r Hlr) as [H1 H2]. rewrite Hrtf. auto.
  - intros r f. rewrite Hrtf. apply Hold.
  - intros real Hvr Hlr. apply Hfresh; [done|].
    pose proof (alloc_cached_live p now nano realIP isV6 ip p' Hwf Hv E) as Hlp.
    destruct Hp' as [-> | ->]; [done|]. by eapply live_put_expiry_inv.
Qed.

Lemma loop_new p result newM nano realIP ip v p' :
  valid_ip realIP → loop_inv p0 now done p result newM →
  alloc_one p now nano realIP isV6 = (AllocNew ip v, p') →
  loop_inv p0 now (done ++ [realIP]) p' (<[IP_String realIP := ip]> result)
    (<[IP_String realIP := mkMappingInfo ip v]> newM).
Proof.
  intros Hv [Hwf Hd Hres Hnew Hlive Hold Hfresh] E.
  pose proof (alloc_one_cases p now nano realIP isV6 Hwf Hv) as Hc. rewrite E in Hc.
  pose proof (alloc_one_wf p Hwf now nano realIP isV6 Hv) as Hwf'. rewrite E in Hwf'. cbn [snd] in Hwf'.
  destruct Hc as (Hl & Hfr & Hp'). set (r := ToIPKey realIP) in *.
  assert (globalFakeToReal (evict_real r p) !! ToIPKey ip = None) as Hfree.
  { rewrite alloc_one_eq in E by done. rewrite alloc_locked_not_live in E by done. fold r in E.
    case_match eqn:Ec; simplify_eq. by apply choose_fake_free in Ec. }
  assert (∀ real, real ∈ done → ToIPKey real ≠ r) as Hne.
  { intros real Hin Heq. destruct (Hd real Hin) as (? & _ & _ & H3). by rewrite Heq in H3. }
  pose proof (rtf_fresh p Hwf r (ToIPKey ip) now v) as Hrtf. rewrite <- Hp' in Hrtf.
  pose proof (live_fresh p Hwf r (ToIPKey ip) now v) as Hlf. rewrite <- Hp' in Hlf.
  pose proof (versions_fresh p Hwf r (ToIPKey ip) now v Hfree) as Hvf. rewrite <- Hp' in Hvf.
  assert (∀ real, real ∈ done → IP_String realIP ≠ IP_String real) as Hstr.
  { intros real Hin Es. apply (Hne real Hin). symmetry. apply String_inj_key; [done| |done].
    by eapply Forall_forall in Hin. }
  split; [done|..].
  - intros real [Hin|Hin%list_elem_of_singleton]%elem_of_app.
    + destruct (Hd real Hin) as (ip' & H1 & H2 & H3). exists ip'.
      rewrite lookup_insert_ne by auto. rewrite Hrtf, decide_False by (apply not_eq_sym; auto).
      split_and!; auto.
    + subst real. exists ip. fold r. rewrite lookup_insert_eq, Hrtf, decide_True by done. auto.
  - intros s ip'. rewrite lookup_insert. case_decide; [set_solver|].
    intros (real & ? & ?)%Hres. set_solver.
  - intros s info. rewrite lookup_insert. case_decide as Es.
    + intros [= <-]. exists realIP. cbn [mi_IP mi_Version]. fold r.
      rewrite Hrtf, decide_True by done. split_and!; [set_solver|done|done|by intros []%Hlive|].
      rewrite Hp', version_link. by rewrite decide_True.
    + intros (real & H1 & -> & H3 & H4 & H5)%Hnew. exists real.
      rewrite Hrtf, decide_False by (apply not_eq_sym; auto).
      split_and!; [set_solver|done|done|done|]. apply (Hvf _ _ (ToIPKey real)); auto.
  - intros r' Hlr. destruct (Hlive r' Hlr) as [H1 H2]. rewrite Hrtf.
    case_decide; [subst r'; done|]. auto.
  - intros r' f. rewrite Hrtf. case_decide as Er.
    + intros [= <-]. right. exists (IP_String realIP), (mkMappingInfo ip v).
      rewrite lookup_insert_eq, String_key by done. auto.
    + intros [?|(s & info & H1 & H2 & H3)]%Hold; [by left|]. right. exists s, info.
      rewrite lookup_insert_ne; [auto|]. intros <-. by rewrite String_key in H2.
  - intros real Hvr Hlr Hn. destruct (decide (r = ToIPKey real)) as [Er|Er].
    + rewrite (key_inj_String realIP real Hv Hvr Er). rewrite lookup_insert_eq. eauto.
    + assert (is_Some (newM !! IP_String real)) as Hs.
      { apply Hfresh; [done| |done]. eapply (live_fresh_inv p Hwf r (ToIPKey ip) now v); [done|]. by rewrite <- Hp'. }
      rewrite lookup_insert. case_decide; eauto.
Qed.
End Loop.

(** ** Lemmas: rolling back *)

Lemma rollback_fold l : ∀ p,
  pool_wf p → Forall (λ x : string * MappingInfo, valid_ip (ParseIP x.1)) l →
  let q := foldl (λ p '(ipStr, info), RemoveMapping p (ParseIP ipStr) (mi_IP info)) p l in
  pool_wf q ∧ sub_pool q p ∧
  ∀ r f, rtf p r = Some f → rtf q r = Some f ↔
    ¬ ∃ s info, (s, info) ∈ l ∧ ToIPKey (ParseIP s) = r ∧ ToIPKey (mi_IP info) = f.
Proof.
  induction l as [|[s info] l IH]; intros p Hwf Hl; cbn [foldl].
  { split_and!; [done|apply sub_pool_refl|]. set_solver. }
  apply Forall_cons in Hl as [Hs Hl]. cbn [fst] in Hs.
  pose proof (RemoveMapping_wf p Hwf (ParseIP s) (mi_IP info) Hs) as Hwf1.
  destruct (IH _ Hwf1 Hl) as (Hwf' & Hsub & Hex). cbn zeta in *.
  pose proof (RemoveMapping_eq p (ParseIP s) (mi_IP info) Hs) as Heq. cbn zeta in Heq.
  set (r0 := ToIPKey (ParseIP s)) in *. set (f0 := ToIPKey (mi_IP info)) in *.
  case_bool_decide as Hrf.
  - rewrite Heq in *. split_and!; [done|eapply sub_pool_trans; [done|by apply unlink_sub]|].
    intros r f Hr. destruct (decide (r0 = r)) as [<-|Hne].
    + assert (f = f0) as -> by congruence.
      assert (rtf (unlink r0 f0 p) r0 = None) as Hn.
      { rewrite rtf_unlink by apply (wf_len p Hwf). by rewrite decide_True. }
      split; [intros [Hx _]%Hsub; congruence|]. intros Hx. exfalso. apply Hx.
      exists s, info. set_solver.
    + rewrite Hex by (rewrite rtf_unlink by apply (wf_len p Hwf); by rewrite decide_False).
      set_solver.
  - rewrite Heq in *. split_and!; [done|done|]. intros r f Hr. rewrite Hex by done.
    split; intros Hx (s' & info' & Hin & H1 & H2); apply Hx.
    + apply elem_of_cons in Hin as [[= -> ->]|Hin]; [|eauto]. exfalso. apply Hrf. subst. done.
    + exists s', info'. set_solver.
Qed.

Lemma rollback_spec p newM :
  pool_wf p → (∀ s info, newM !! s = Some info → valid_ip (ParseIP s)) →
  let q := rollback p newM in
  pool_wf q ∧ sub_pool q p ∧
  ∀ r f, rtf p r = Some f → rtf q r = Some f ↔ ¬ recorded newM r f.
Proof.
  intros Hwf Hs. destruct (rollback_fold (map_to_list newM) p Hwf) as (H1 & H2 & H3).
  { apply Forall_forall. intros [s info] Hin%elem_of_map_to_list. eauto. }
  unfold rollback. split_and!; [done|done|]. intros r f Hr. rewrite (H3 r f Hr).
  unfold recorded. split; intros Hx (s & info & Hin & ?); apply Hx; exists s, info;
    (split; [|done]); by apply elem_of_map_to_list.
Qed.

Lemma valid_To16 ip : valid_ip ip → valid_ip (To16 ip).
Proof. intros Hv. right. by apply To16_length. Qed.

(** Undoing a partial allocation: nothing new stays, nothing live is lost. *)
Lemma rollback_undoes p0 now done p result newM :
  Forall valid_ip done → loop_inv p0 now done p result newM →
  let q := rollback p newM in
  pool_wf q ∧ (∀ r f, rtf q r = Some f → rtf p0 r = Some f) ∧
  (∀ r, live p0 now r → live q now r ∧ rtf q r = rtf p0 r).
Proof.
  intros Hv Hinv. pose proof Hinv as [Hwf Hd Hres Hnew Hlive Hold Hfresh].
  destruct (rollback_spec p newM Hwf) as (H1 & H2 & H3).
  { intros s info (real & Hin & -> & _)%Hnew. rewrite ParseIP_String; [apply valid_To16|];
      by eapply Forall_forall in Hin. }
  cbn zeta. split_and!; [done|..].
  - intros r f Hq. apply H2 in Hq as Hp. destruct Hp as (Hp & _).
    apply (H3 r f Hp) in Hq. destruct (Hold r f Hp); done.
  - intros r Hlr. destruct (Hlive r Hlr) as [Hl Hr]. destruct Hl as (f & e & Hf & He & Hlt).
    assert (rtf (rollback p newM) r = Some f) as Hq.
    { apply (H3 r f Hf). intros (s & info & (real & Hin & -> & _ & Hnl & _)%Hnew & Hk & _).
      rewrite String_key in Hk by (by eapply Forall_forall in Hin). by rewrite Hk in Hnl. }
    split; [|congruence]. exists f, e. split_and!; [done| |done].
    apply H2 in Hq as (_ & -> & _). done.
Qed.

(** ** Lemmas: the whole call *)

(** The number of mappings in use. *)
Definition in_use (p : IPPool) : nat := size (globalFakeToReal p).

Lemma in_use_evict r p : (in_use (evict_real r p) ≤ in_use p)%nat.
Proof.
  unfold in_use, evict_real. destruct (rtf p r) as [f|]; [|done].
  unfold unlink, del_fake. cbn [globalFakeToReal set_globals del_real set_shards].
  rewrite map_size_delete. case_match; cbn; lia.
Qed.

Lemma in_use_link r f e v p : (in_use (link r f e v p) ≤ S (in_use p))%nat.
Proof.
  unfold in_use, link, put_fake. cbn [globalFakeToReal set_globals put_real set_shards].
  rewrite map_size_insert. case_match; cbn; lia.
Qed.

Lemma alloc_one_in_use p now nano realIP isV6 :
  pool_wf p → valid_ip realIP →
  (in_use (alloc_one p now nano realIP isV6).2 ≤ S (in_use p))%nat.
Proof.
  intros Hwf Hv. pose proof (alloc_one_cases p now nano realIP isV6 Hwf Hv) as H.
  pose proof (in_use_evict (ToIPKey realIP) p) as He.
  destruct (alloc_one p now nano realIP isV6) as [[ip|ip v|] p']; cbn [snd].
  - destruct H as (_ & _ & [-> | ->]); cbn; unfold in_use; cbn; lia.
  - destruct H as (_ & _ & ->). etrans; [apply in_use_link|].
    change (in_use (set_hlc v (evict_real (ToIPKey realIP) p))) with (in_use (evict_real (ToIPKey realIP) p)).
    lia.
  - destruct H as (_ & ->). lia.
Qed.

Lemma alloc_one_params p now nano realIP isV6 :
  pool_wf p → valid_ip realIP → params (alloc_one p now nano realIP isV6).2 = params p.
Proof. intros Hwf Hv. rewrite alloc_one_eq by done. by apply pool_step_params; [|apply step_alloc]. Qed.

(** Where an exhausted call stopped. *)
Definition exhausted_at (p : IPPool) (isV6 : bool) (reals : list IP) : Prop :=
  ∃ q realIP, realIP ∈ reals ∧ choose_fake q realIP isV6 = None ∧ params q = params p ∧
    (in_use q < in_use p + length reals)%nat.

Section Calls.
Context (p0 : IPPool) (now : Z) (nano : nat → Z) (isV6 : bool).

Lemma loop_exhausted p nano' realIP p' reals :
  pool_wf p → valid_ip realIP →
  alloc_one p now nano' realIP isV6 = (AllocExhausted, p') → exhausted_at p isV6 (realIP :: reals).
Proof.
  intros Hwf Hv E. pose proof (alloc_one_cases p now nano' realIP isV6 Hwf Hv) as Hc. rewrite E in Hc.
  destruct Hc as [Hl ->]. exists (evict_real (ToIPKey realIP) p), realIP. split_and!; [set_solver| | |].
  - rewrite alloc_one_eq, alloc_locked_not_live in E by done. by case_match.
  - apply params_evict.
  - pose proof (in_use_evict (ToIPKey realIP) p). cbn. lia.
Qed.

Lemma exhausted_later p p' realIP reals :
  params p' = params p → (in_use p' ≤ S (in_use p))%nat →
  exhausted_at p' isV6 reals → exhausted_at p isV6 (realIP :: reals).
Proof.
  intros Hp Hs (q & real & H1 & H2 & H3 & H4). exists q, real.
  split_and!; [set_solver|done|congruence|cbn; lia].
Qed.

(** Dropping an expired mapping keeps the loop's invariant. *)
Lemma loop_inv_evict p done result newM r :
  loop_inv p0 now done p result newM → ¬ live p now r →
  loop_inv p0 now done (evict_real r p) result newM.
Proof.
  intros [Hwf Hd Hres Hnew Hlive Hold Hfresh] Hl.
  assert (sub_pool (evict_real r p) p) as Hsub.
  { unfold evict_real. destruct (rtf p r) eqn:E; [by apply unlink_sub|apply sub_pool_refl]. }
  assert (∀ r', live p now r' → rtf (evict_real r p) r' = rtf p r' ∧ live (evict_real r p) now r') as Hk.
  { intros r' Hl'. assert (r ≠ r') as Hne by congruence.
    pose proof (rtf_evict_real_ne p Hwf r r' Hne) as E. split; [done|].
    destruct Hl' as (f & e & Hf & He & Hlt). exists f, e. rewrite E. split_and!; [done| |done].
    rewrite <- E in Hf. apply Hsub in Hf as (_ & -> & _). done. }
  split; [auto with go|..].
  - intros real Hin. destruct (Hd real Hin) as (ip & H1 & H2 & H3). exists ip.
    destruct (Hk _ H3) as [-> ?]. done.
  - done.
  - intros s info Hs. destruct (Hnew s info Hs) as (real & H1 & H2 & H3 & H4 & H5). exists real.
    destruct (Hd real H1) as (_ & _ & _ & Hlr). destruct (Hk _ Hlr) as [E _]. rewrite E.
    split_and!; [done..|]. rewrite <- H5. rewrite <- E in H3. apply Hsub in H3 as (_ & _ & ->). done.
  - intros r' Hl'. destruct (Hlive r' Hl') as [H1 H2]. destruct (Hk _ H1) as [-> ?]. done.
  - intros r' f (Hr & _)%Hsub. by apply Hold.
  - intros real Hvr Hlr. apply Hfresh; [done|]. destruct Hlr as (f & e & Hf & He & Hlt).
    exists f, e. apply Hsub in Hf as (Hf & Hex & _). rewrite Hex in He. done.
Qed.

(** An aborted call: nothing new stays, nothing live is lost. *)
Definition unchanged_but_expired (p p' : IPPool) : Prop :=
  pool_wf p' ∧ (∀ r f, rtf p' r = Some f → rtf p r = Some f) ∧
  (∀ r, live p now r → live p' now r ∧ rtf p' r = rtf p r).

Lemma fake_loop_spec reals : ∀ done p mt i result newM,
  Forall valid_ip done → Forall valid_ip reals → loop_inv p0 now done p result newM →
  match fake_loop p mt now nano i reals isV6 result newM with
  | (Some (result', newM'), p', _) => loop_inv p0 now (done ++ reals) p' result' newM'
  | (None, p', _) => unchanged_but_expired p0 p' ∧ exhausted_at p isV6 reals
  end.
Proof.
  induction reals as [|realIP reals IH]; intros done p mt i result newM Hd Hr Hinv; cbn [fake_loop].
  { by rewrite app_nil_r. }
  apply Forall_cons in Hr as [Hv Hr]. pose proof (li_wf _ _ _ _ _ _ Hinv) as Hwf.
  pose proof (alloc_one_in_use p now (nano i) realIP isV6 Hwf Hv) as Hsz.
  pose proof (alloc_one_params p now (nano i) realIP isV6 Hwf Hv) as Hpar.
  assert (Forall valid_ip (done ++ [realIP])) as Hd' by (apply Forall_app; auto).
  destruct (alloc_one p now (nano i) realIP isV6) as [[ip|ip v|] p'] eqn:E; cbn [snd] in Hsz, Hpar.
  - pose proof (loop_cached p0 now isV6 done Hd p result newM _ realIP ip p' Hv Hinv E) as Hinv'.
    specialize (IH _ _ mt (S i) _ _ Hd' Hr Hinv').
    destruct fake_loop as [[[[result' newM']|] q] mt']; [by rewrite <- app_assoc in IH|].
    destruct IH as [? ?]. split; [done|]. by eapply exhausted_later.
  - pose proof (loop_new p0 now isV6 done Hd p result newM _ realIP ip v p' Hv Hinv E) as Hinv'.
    specialize (IH _ _ mt (S i) _ _ Hd' Hr Hinv').
    destruct fake_loop as [[[[result' newM']|] q] mt']; [by rewrite <- app_assoc in IH|].
    destruct IH as [? ?]. split; [done|]. by eapply exhausted_later.
  - split; [|by eapply loop_exhausted].
    pose proof (alloc_one_cases p now (nano i) realIP isV6 Hwf Hv) as Hc. rewrite E in Hc.
    destruct Hc as [Hl ->]. eapply rollback_undoes; [exact Hd|]. by apply loop_inv_evict.
Qed.

(** The addresses that are not asked for keep their mapping. *)
Lemma fake_loop_other r reals : ∀ prev p mt i result newM,
  Forall valid_ip prev → Forall valid_ip reals → loop_inv p0 now prev p result newM →
  (∀ real, real ∈ prev ++ reals → ToIPKey real ≠ r) →
  let '(res, p', _) := fake_loop p mt now nano i reals isV6 result newM in
  rtf p' r = rtf p r ∧
  (is_Some res → ∀ f v, rtf p r = Some f → globalVersions p !! f = Some v → globalVersions p' !! f = Some v).
Proof.
  induction reals as [|realIP reals IH]; intros prev p mt i result newM Hd Hr Hinv Hne; cbn [fake_loop].
  { done. }
  apply Forall_cons in Hr as [Hv Hr]. pose proof (li_wf _ _ _ _ _ _ Hinv) as Hwf.
  assert (ToIPKey realIP ≠ r) as Hnr by (apply Hne; set_solver).
  assert (Forall valid_ip (prev ++ [realIP])) as Hd' by (apply Forall_app; auto).
  assert (∀ real, real ∈ (prev ++ [realIP]) ++ reals → ToIPKey real ≠ r) as Hne' by (by rewrite <- app_assoc).
  pose proof (alloc_one_cases p now (nano i) realIP isV6 Hwf Hv) as Hc.
  destruct (alloc_one p now (nano i) realIP isV6) as [[ip|ip v|] p'] eqn:E.
  - pose proof (loop_cached p0 now isV6 prev Hd p result newM _ realIP ip p' Hv Hinv E) as Hinv'.
    assert (rtf p' r = rtf p r ∧ globalVersions p' = globalVersions p) as [Hrr Hgv].
    { destruct Hc as (_ & _ & [-> | ->]); [done|]. split; [|done]. apply rtf_put_expiry, (wf_len p Hwf). }
    specialize (IH _ _ mt (S i) _ _ Hd' Hr Hinv' Hne'). destruct fake_loop as [[res q] mt'].
    by rewrite Hrr, Hgv in IH.
  - pose proof (loop_new p0 now isV6 prev Hd p result newM _ realIP ip v p' Hv Hinv E) as Hinv'.
    assert (globalFakeToReal (evict_real (ToIPKey realIP) p) !! ToIPKey ip = None) as Hfree.
    { rewrite alloc_one_eq in E by done. destruct Hc as (Hl & _). rewrite alloc_locked_not_live in E by done.
      case_match eqn:Ec; simplify_eq. by apply choose_fake_free in Ec. }
    destruct Hc as (_ & _ & Hp').
    assert (rtf p' r = rtf p r) as Hrr by (rewrite Hp', rtf_fresh by done; by rewrite decide_False).
    specialize (IH _ _ mt (S i) _ _ Hd' Hr Hinv' Hne'). destruct fake_loop as [[res q] mt'].
    rewrite Hrr in IH. destruct IH as [IH1 IH2]. split; [done|]. intros Hs f u Hf Hu. apply IH2; [done..|].
    rewrite Hp'. apply (versions_fresh p Hwf _ _ now v Hfree f u r); [done|congruence|done].
  - destruct Hc as [Hl ->]. split; [|by intros []].
    destruct (rollback_spec (evict_real (ToIPKey realIP) p) newM) as (_ & Hsub & Hrec).
    { auto with go. }
    { intros s info (real & Hin & -> & _)%(li_new _ _ _ _ _ _ Hinv). rewrite ParseIP_String; [apply valid_To16|];
        by eapply Forall_forall in Hin. }
    rewrite <- (rtf_evict_real_ne p Hwf _ r Hnr).
    destruct (rtf (evict_real (ToIPKey realIP) p) r) as [f|] eqn:Ef.
    + apply Hrec; [done|]. intros (s & info & (real & Hin & -> & _)%(li_new _ _ _ _ _ _ Hinv) & Hk & _).
      rewrite String_key in Hk by (by eapply Forall_forall in Hin). apply (Hne real); [set_solver|done].
    + destruct (rtf (rollback _ newM) r) as [f|] eqn:Eq; [|done]. apply Hsub in Eq as [? _]. congruence.
Qed.

Lemma loop_inv_start : pool_wf p0 → loop_inv p0 now [] p0 ∅ ∅.
Proof. intros Hwf. split; set_solver. Qed.
End Calls.

Lemma sort_reals_perm reals : sort_reals reals ≡ₚ reals.
Proof. apply merge_sort_Permutation. Qed.

Lemma GetFakeIPsForReals_spec p mt now nano reals isV6 :
  pool_wf p → Forall valid_ip reals → reals ≠ [] →
  match GetFakeIPsForReals p mt now nano reals isV6 with
  | (Some (result, newM), p', _) => loop_inv p now (sort_reals reals) p' result newM
  | (None, p', _) => unchanged_but_expired now p p' ∧ exhausted_at p isV6 (sort_reals reals)
  end.
Proof.
  intros Hwf Hv Hne. unfold GetFakeIPsForReals. destruct reals as [|r0 rs]; [done|].
  apply (fake_loop_spec p now nano isV6 (sort_reals (r0 :: rs)) []); [done| |by apply loop_inv_start].
  by rewrite sort_reals_perm.
Qed.

Lemma GetFakeIPsForReals_other p mt now nano reals isV6 r :
  pool_wf p → Forall valid_ip reals → (∀ real, real ∈ reals → ToIPKey real ≠ r) →
  let '(res, p', _) := GetFakeIPsForReals p mt now nano reals isV6 in
  rtf p' r = rtf p r ∧
  (is_Some res → ∀ f v, rtf p r = Some f → globalVersions p !! f = Some v → globalVersions p' !! f = Some v).
Proof.
  intros Hwf Hv Hne. unfold GetFakeIPsForReals. destruct reals as [|r0 rs]; [done|].
  apply (fake_loop_other p now nano isV6 r (sort_reals (r0 :: rs)) []); [done| |by apply loop_inv_start|].
  - by rewrite sort_reals_perm.
  - intros real. cbn [app]. rewrite (sort_reals_perm (r0 :: rs)). apply Hne.
Qed.

(** ** Lemmas: capacity *)

(** Probing fails only when the mappings in use are at least as many as the
    distinct candidates. *)
Lemma probe_pigeonhole p cand n :
  probe p cand n 0 = None →
  NoDup (ToIPKey <$> omap cand (seqZ 0 (Z.of_nat n))) →
  (length (omap cand (seqZ 0 (Z.of_nat n))) ≤ in_use p)%nat.
Proof.
  intros Hp Hnd. rewrite <- (length_fmap ToIPKey). set (L := ToIPKey <$> _) in *.
  rewrite <- (size_list_to_set (C:=gset IPKey) L) by done.
  unfold in_use. rewrite <- size_dom. apply subseteq_size.
  intros k Hk%elem_of_list_to_set. apply list_elem_of_fmap in Hk as (c & -> & Hc).
  apply list_elem_of_omap in Hc as (a & Ha%elem_of_seqZ & Hca).
  apply elem_of_dom. pose proof (probe_None p cand n 0 Hp a c ltac:(lia) Hca) as Ho.
  by apply occupied_true in Ho.
Qed.

(** Lists of candidates without repetition. *)
Lemma NoDup_omap_keys {A} (cand : A → option IP) (l : list A) :
  (∀ a b c d, a ∈ l → b ∈ l → cand a = Some c → cand b = Some d → ToIPKey c = ToIPKey d → a = b) →
  NoDup l → NoDup (ToIPKey <$> omap cand l).
Proof.
  induction l as [|a l IH]; intros Hinj Hnd; cbn; [constructor|].
  apply NoDup_cons in Hnd as [Ha Hnd].
  assert (NoDup (ToIPKey <$> omap cand l)) as H by (apply IH; [|done]; intros; eapply Hinj; eauto; set_solver).
  destruct (cand a) as [c|] eqn:E; [|done]. cbn. apply NoDup_cons. split; [|done].
  intros (d & Hd & (b & Hb & Hcb)%list_elem_of_omap)%list_elem_of_fmap.
  apply Ha. rewrite (Hinj a b c d); [done|set_solver..|done].
Qed.

Lemma offsets_inj o n a b size :
  0 ≤ o < 2 ^ 32 - 2 ^ 20 → 0 < size → n ≤ size → n ≤ 1024 → 0 ≤ a < n → 0 ≤ b < n →
  w32 (o + a) mod size = w32 (o + b) mod size → a = b.
Proof.
  intros Ho Hs Hn Hn' Ha Hb. rewrite !w32_small by (unfold_words; lia). intros E.
  assert ((a - b) mod size = 0) as H.
  { replace (a - b) with ((o + a) - (o + b)) by lia. rewrite Zminus_mod, E, Z.sub_diag. done. }
  apply Z.mod_divide in H as [t Ht]; [|lia].
  assert (- size < t * size < size) as Hb' by lia. assert (t = 0) as -> by nia. lia.
Qed.

Lemma IPv4_key_inj x y :
  is_u32 x → is_u32 y → ToIPKey (IPv4_of_u32 x) = ToIPKey (IPv4_of_u32 y) → x = y.
Proof.
  intros Hx Hy E. assert (∀ z, is_u32 z → v4 (ToIPKey (IPv4_of_u32 z)) = z) as Hz.
  { intros z Hz. unfold ToIPKey. rewrite IPv4_of_u32_To4. cbn [is_nil be_bytes32 negb v4].
    rewrite <- (app_nil_r (be_bytes32 z)), be_uint32_bytes32. by apply w32_small. }
  rewrite <- (Hz x), E, Hz by done. done.
Qed.

(** Of 1024 consecutive addresses, 8 end in 0 or 255; checked for every
    residue. *)
Definition ends_usable (z : Z) : bool := negb ((z mod 256 =? 0) || (z mod 256 =? 255)).

Fixpoint count_usable (n : nat) (z : Z) : N :=
  match n with
  | O => 0
  | S n' => if ends_usable z then N.succ (count_usable n' (z + 1)) else count_usable n' (z + 1)
  end.

Lemma count_usable_filter o n : ∀ s,
  N.of_nat (length (filter (λ a, Is_true (ends_usable (o + a))) (seqZ s (Z.of_nat n)))) =
  count_usable n (o + s).
Proof.
  induction n as [|n IH]; intros s; [done|].
  rewrite seqZ_cons by lia. replace (Z.pred (Z.of_nat (S n))) with (Z.of_nat n) by lia.
  rewrite filter_cons. cbn [count_usable]. specialize (IH (Z.succ s)).
  replace (o + s + 1) with (o + Z.succ s) by lia.
  destruct (ends_usable (o + s)); case_decide; try done. cbn [length]. lia.
Qed.

Lemma usable_count_all : forallb (λ o, (count_usable 1024 o =? 1016)%N) (seqZ 0 256) = true.
Proof. vm_compute. reflexivity. Qed.

Lemma usable_count o :
  length (filter (λ a, Is_true (ends_usable (o + a))) (seqZ 0 1024)) = 1016%nat.
Proof.
  assert (∀ l, filter (λ a, Is_true (ends_usable (o + a))) l =
               filter (λ a, Is_true (ends_usable (o mod 256 + a))) l) as ->.
  { intros l. apply list_filter_iff. intros a. unfold ends_usable. by rewrite Zplus_mod_idemp_l. }
  pose proof usable_count_all as Hall. rewrite forallb_forall in Hall.
  specialize (Hall (o mod 256)). rewrite N.eqb_eq in Hall.
  pose proof (count_usable_filter (o mod 256) 1024 0) as Hc.
  change (Z.of_nat 1024) with 1024 in Hc. rewrite Z.add_0_r, Hall in Hc; [lia|].
  apply list_elem_of_In, elem_of_seqZ. pose proof (Z.mod_pos_bound o 256). lia.
Qed.

Lemma omap_length_filter {A B} (f : A → option B) (P : A → Prop) `{!∀ x, Decision (P x)} l :
  (∀ x, x ∈ l → is_Some (f x) ↔ P x) → length (omap f l) = length (filter P l).
Proof.
  induction l as [|x l IH]; intros Hl; [done|].
  rewrite filter_cons. cbn [omap list_omap]. pose proof (Hl x ltac:(set_solver)) as Hx.
  assert (length (omap f l) = length (filter P l)) as E by (apply IH; intros; apply Hl; set_solver).
  destruct (f x) as [y|] eqn:Ef.
  - rewrite decide_True by (apply Hx; eauto). cbn. lia.
  - rewrite decide_False by (rewrite <- Hx; by intros []). done.
Qed.

Lemma omap_length_all {A B} (f : A → option B) l : (∀ x, is_Some (f x)) → length (omap f l) = length l.
Proof. intros Hf. induction l as [|x l IH]; cbn; [done|]. destruct (Hf x) as [y ->]. cbn. by f_equal. Qed.

Section Capacity.
Context (p q : IPPool) (Hpar : params q = params p).

Lemma params_eqs :
  poolStart q = poolStart p ∧ poolSize q = poolSize p ∧ cidrMask q = cidrMask p ∧
  poolStart6 q = poolStart6 p ∧ poolSize6 q = poolSize6 p ∧ cidrMask6 q = cidrMask6 p.
Proof. unfold params in Hpar. by simplify_eq. Qed.

Lemma mod_mod_256 x s : 0 < s → s mod 256 = 0 → (x mod s) mod 256 = x mod 256.
Proof.
  intros Hs [t Ht]%Z.mod_divide; [|lia]. rewrite (Z.mod_eq x s) by lia.
  replace (x - s * (x / s)) with (x + (- t * (x / s)) * 256) by lia. apply Z.mod_add. lia.
Qed.

Section V4.
Context (Hok : net4_ok p) (Hmask : 1 ≤ cidrMask p).
Context (Hsize : 1024 ≤ poolSize p) (H256 : poolSize p mod 256 = 0).

Lemma start_256 : poolStart p mod 256 = 0.
Proof.
  destruct Hok as [Hm Hs Ha Hz]. set (k := 32 - cidrMask p) in *.
  assert (8 ≤ k) as Hk.
  { destruct (Z.le_gt_cases 8 k); [done|]. pose proof (Z.pow_lt_mono_r 2 k 8). lia. }
  apply Z.mod_divide in Ha as [t Ht]; [|assert (0 < 2 ^ k) by (apply Z.pow_pos_nonneg; lia); lia].
  apply Z.mod_divide; [done|]. exists (t * 2 ^ (k - 8)).
  rewrite <- Z.mul_assoc. change 256 with (2 ^ 8). rewrite <- Z.pow_add_r by lia.
  by replace (k - 8 + 8) with k by lia.
Qed.

(** The offset probing starts from. *)
Lemma natural_offset4 realIP :
  0 ≤ be_uint32 (To4 (ComputeLevel1Hash p realIP false)) -32 poolStart p < 2 ^ 31.
Proof.
  pose proof Hok as [Hm Hs Ha Hz]. unfold ComputeLevel1Hash. cbn [negb].
  set (d := fnv1aBytes (To4 realIP) mod poolSize p).
  assert (0 ≤ d < 2 ^ (32 - cidrMask p)) as Hd.
  { pose proof (Z.mod_pos_bound (fnv1aBytes (To4 realIP)) (poolSize p) ltac:(lia)). lia. }
  destruct (hash_adjust (poolStart p) (32 - cidrMask p) d ltac:(lia) Hs Ha Hd)
    as (d' & Hd' & Hy & Hu & _).
  rewrite IPv4_of_u32_To4, <- (app_nil_r (be_bytes32 _)), be_uint32_bytes32.
  rewrite (w32_small _ Hu), Hy.
  replace (poolStart p + d' - poolStart p) with d' by lia.
  pose proof (Z.pow_le_mono_r 2 (32 - cidrMask p) 31 ltac:(lia) ltac:(lia)).
  rewrite w32_small by (unfold_words; lia). lia.
Qed.

Lemma candidate4_val o a :
  candidate4 p o a =
  let x := poolStart p + w32 (o + a) mod poolSize p in
  if ends_usable (w32 (o + a)) then Some (IPv4_of_u32 x) else None.
Proof.
  pose proof Hok as [Hm Hs Ha Hz]. unfold candidate4. set (d := w32 (o + a) mod poolSize p).
  assert (0 ≤ d < 2 ^ (32 - cidrMask p)) as Hd.
  { pose proof (Z.mod_pos_bound (w32 (o + a)) (poolSize p) ltac:(lia)). lia. }
  destruct (aligned_block (poolStart p) (32 - cidrMask p) d ltac:(lia) Hs Ha Hd) as [E _].
  rewrite E. unfold ends_usable.
  assert ((poolStart p + d) mod 256 = w32 (o + a) mod 256) as ->.
  { rewrite Z.add_mod, start_256, Z.add_0_l, Z.mod_mod by lia. subst d. apply mod_mod_256; lia. }
  by destruct (_ || _).
Qed.

Lemma choose_full4 realIP : choose_fake q realIP false = None → (1016 ≤ in_use q)%nat.
Proof.
  destruct params_eqs as (E1 & E2 & E3 & _). pose proof Hok as [Hm Hs Ha Hz].
  unfold choose_fake. cbn [negb].
  assert (ComputeLevel1Hash q realIP false = ComputeLevel1Hash p realIP false) as ->
    by (unfold ComputeLevel1Hash; cbn [negb]; by rewrite E1, E2).
  destruct (occupied q _); [cbn [negb]|done]. rewrite E1, E2.
  pose proof (natural_offset4 realIP) as Ho. set (o := w32 _) in *.
  assert (Z.to_nat (if 1024 <? poolSize p then 1024 else poolSize p) = Z.to_nat 1024) as ->.
  { destruct (Z.ltb_spec 1024 (poolSize p)); [done|]. f_equal. lia. }
  assert (∀ a, candidate4 q o a = candidate4 p o a) as Ec
    by (intros a; unfold candidate4; by rewrite E1, E2).
  intros Hp. apply probe_pigeonhole in Hp.
  - change (Z.of_nat (Z.to_nat 1024)) with 1024 in Hp. etrans; [|exact Hp].
    rewrite <- (usable_count o), (omap_length_filter _ (λ a, Is_true (ends_usable (o + a)))); [done|].
    intros a [Ha1 Ha2]%elem_of_seqZ. rewrite Ec, candidate4_val. cbn zeta.
    rewrite w32_small by (unfold_words; lia). destruct (ends_usable (o + a)); cbn; split; eauto; try done.
  - change (Z.of_nat (Z.to_nat 1024)) with 1024. apply NoDup_omap_keys; [|apply NoDup_seqZ].
    intros a b c d [Ha1 Ha2]%elem_of_seqZ [Hb1 Hb2]%elem_of_seqZ. rewrite !Ec, !candidate4_val. cbn zeta.
    do 2 (case_match; [|done]). intros [= <-] [= <-] Hk.
    apply (offsets_inj o 1024 a b (poolSize p)); [lia..|].
    assert (∀ x, is_u32 (poolStart p + x mod poolSize p)) as Hu.
    { intros x. destruct (aligned_block (poolStart p) (32 - cidrMask p) (x mod poolSize p)) as [<- _];
        [lia|done|done| |apply w32_range].
      pose proof (Z.mod_pos_bound x (poolSize p) ltac:(lia)). lia. }
    apply IPv4_key_inj in Hk; auto. lia.
Qed.
End V4.

Section V6.
Context (Hok : net6_ok p) (Hmask : 97 ≤ cidrMask6 p) (Hsize : 1024 ≤ poolSize6 p).
Let val := be_uint32 (drop 12 (poolStart6 p)).

Lemma key6_inj x y :
  is_u32 x → is_u32 y →
  ToIPKey (take 12 (poolStart6 p) ++ be_bytes32 x) = ToIPKey (take 12 (poolStart6 p) ++ be_bytes32 y) →
  x = y.
Proof.
  intros Hx Hy E. destruct (start6_split p Hok) as (_ & Hh & _).
  assert (∀ z, valid_ip (take 12 (poolStart6 p) ++ be_bytes32 z)) as Hv
    by (intros z; right; rewrite length_app, Hh; done).
  apply ToIPKey_inj in E; [|auto..]. unfold To16 in E. rewrite !length_app, !Hh in E. cbn in E.
  apply app_inv_head in E. apply (f_equal (λ l, be_uint32 (l ++ []))) in E.
  by rewrite !be_uint32_bytes32, !w32_small in E by done.
Qed.

Lemma add_val d : 0 ≤ d < poolSize6 p → val +32 d = val + d ∧ is_u32 (val + d).
Proof.
  intros Hd. pose proof Hok as [Hm _ _ _ Hz].
  destruct (aligned_block val (128 - cidrMask6 p) d) as [E _];
    [lia|apply be_uint32_range|by apply val6_aligned|lia|].
  split; [done|]. rewrite <- E. apply w32_range.
Qed.

Lemma natural_offset6 realIP :
  0 ≤ be_uint32 (drop 12 (ComputeLevel1Hash p realIP true)) -32 val < 2 ^ 31.
Proof.
  pose proof Hok as [Hm _ _ _ Hz]. destruct (start6_split p Hok) as (_ & Hh & _).
  unfold ComputeLevel1Hash. cbn [negb]. rewrite padded6 by done. fold val.
  pose proof (Z.mod_pos_bound (fnv1aBytes (To16 realIP)) (poolSize6 p) ltac:(lia)) as Hd.
  set (d := _ mod _) in *. destruct (add_val d Hd) as [E Hu].
  rewrite drop_app_le, drop_ge by (rewrite Hh; lia). cbn [app].
  rewrite <- (app_nil_r (be_bytes32 _)), be_uint32_bytes32, E, (w32_small _ Hu).
  replace (val + d - val) with d by lia.
  pose proof (Z.pow_le_mono_r 2 (128 - cidrMask6 p) 31 ltac:(lia) ltac:(lia)).
  rewrite w32_small by (unfold_words; lia). lia.
Qed.

Lemma choose_full6 realIP : choose_fake q realIP true = None → (1024 ≤ in_use q)%nat.
Proof.
  destruct params_eqs as (_ & _ & _ & E1 & E2 & _).
  unfold choose_fake. cbn [negb].
  assert (ComputeLevel1Hash q realIP true = ComputeLevel1Hash p realIP true) as ->
    by (unfold ComputeLevel1Hash; cbn [negb]; by rewrite E1, E2).
  destruct (occupied q _); [cbn [negb]|done]. rewrite E1, E2. fold val.
  pose proof (natural_offset6 realIP) as Ho. set (o := w32 _) in *.
  assert (Z.to_nat (if 1024 <? poolSize6 p then 1024 else poolSize6 p) = Z.to_nat 1024) as ->.
  { destruct (Z.ltb_spec 1024 (poolSize6 p)); [done|]. f_equal. lia. }
  assert (∀ a, candidate6 q val o a =
    Some (take 12 (poolStart6 p) ++ be_bytes32 (val + w32 (o + a) mod poolSize6 p))) as Ec.
  { intros a. unfold candidate6. rewrite E1, E2, padded6 by done.
    destruct (add_val (w32 (o + a) mod poolSize6 p)) as [-> _]; [|done]. apply Z.mod_pos_bound. lia. }
  intros Hp. apply probe_pigeonhole in Hp; change (Z.of_nat (Z.to_nat 1024)) with 1024 in *.
  - etrans; [|exact Hp]. rewrite (omap_length_all (candidate6 q val o)).
    + by rewrite length_seqZ.
    + intros a. rewrite Ec. eauto.
  - apply NoDup_omap_keys; [|apply NoDup_seqZ].
    intros a b c d [Ha1 Ha2]%elem_of_seqZ [Hb1 Hb2]%elem_of_seqZ. rewrite !Ec.
    intros [= <-] [= <-] Hk. apply (offsets_inj o 1024 a b (poolSize6 p)); [lia..|].
    assert (∀ x, is_u32 (val + x mod poolSize6 p)) as Hu.
    { intros x. apply add_val, Z.mod_pos_bound. lia. }
    apply key6_inj in Hk; auto. lia.
Qed.
End V6.
End Capacity.

(** ** Properties *)

(** C3: a successful call gives every address of the answer a Fake-IP that the
    pool maps to it and that has not expired, and returns nothing else.  It
    reports as new exactly the addresses of the answer that had no live
    mapping, each with the Fake-IP the pool now maps it to and the version the
    pool stored; live mappings are not changed. *)
Theorem GetFakeIPsForReals_maps_all p mt now nano reals isV6 result newM p' mt' :
  pool_wf p → Forall valid_ip reals →
  GetFakeIPsForReals p mt now nano reals isV6 = (Some (result, newM), p', mt') →
  pool_wf p' ∧
  (∀ real, real ∈ reals → ∃ ip, result !! IP_String real = Some ip ∧
     rtf p' (ToIPKey real) = Some (ToIPKey ip) ∧ live p' now (ToIPKey real)) ∧
  (∀ s ip, result !! s = Some ip → ∃ real, real ∈ reals ∧ s = IP_String real) ∧
  (∀ real, real ∈ reals → is_Some (newM !! IP_String real) ↔ ¬ live p now (ToIPKey real)) ∧
  (∀ s info, newM !! s = Some info → ∃ real, real ∈ reals ∧ s = IP_String real ∧
     rtf p' (ToIPKey real) = Some (ToIPKey (mi_IP info)) ∧
     globalVersions p' !! ToIPKey (mi_IP info) = Some (mi_Version info)) ∧
  (∀ r, live p now r → rtf p' r = rtf p r).
Proof.
  intros Hwf Hv E. assert (reals ≠ []) as Hne by (intros ->; done).
  pose proof (GetFakeIPsForReals_spec p mt now nano reals isV6 Hwf Hv Hne) as H. rewrite E in H.
  pose proof (sort_reals_perm reals) as Hp. destruct H as [H1 H2 H3 H4 H5 H6 H7].
  rewrite Forall_forall in Hv. split_and!; [done| | | | |naive_solver].
  - intros real Hin. apply H2. by rewrite Hp.
  - intros s ip (real & Hin & ->)%H3. exists real. by rewrite <- Hp.
  - intros real Hin. split.
    + intros (info & (real' & Hin' & Hs & _ & Hn & _)%H4). rewrite Hp in Hin'.
      by rewrite (String_inj_key real real' (Hv _ Hin) (Hv _ Hin') Hs).
    + rewrite <- Hp in Hin. destruct (H2 real Hin) as (_ & _ & _ & Hl).
      rewrite Hp in Hin. apply H7; auto.
  - intros s info (real & Hin & ? & ? & ? & ?)%H4. exists real. by rewrite <- Hp.
Qed.

Definition answer_pool : IPPool := NewIPPool "198.18" "fd00:18::".
Definition answer_reals : list IP := [ParseIP "8.8.8.8"; ParseIP "1.1.1.1"].
Definition answer_call := GetFakeIPsForReals answer_pool metrics_zero 3 (λ i, 1000 + Z.of_nat i) answer_reals false.

Lemma answer_valid : Forall valid_ip answer_reals.
Proof. repeat apply Forall_cons_2; [right; reflexivity..|apply Forall_nil_2]. Qed.

Lemma GetFakeIPsForReals_maps_all_witness :
  ∃ ip, (answer_call.1.1 ≫= λ x, x.1 !! "8.8.8.8") = Some ip ∧
        rtf answer_call.1.2 (ToIPKey (ParseIP "8.8.8.8")) = Some (ToIPKey ip).
Proof.
  destruct answer_call.1.1 as [[result newM]|] eqn:E; [|vm_compute in E; discriminate E].
  assert (GetFakeIPsForReals answer_pool metrics_zero 3 (λ i, 1000 + Z.of_nat i) answer_reals false =
          (Some (result, newM), answer_call.1.2, answer_call.2)) as Hc.
  { fold answer_call. rewrite <- E. by destruct answer_call as [[? ?] ?]. }
  destruct (proj1 (proj2 (GetFakeIPsForReals_maps_all answer_pool metrics_zero 3
    (λ i, 1000 + Z.of_nat i) answer_reals false result newM answer_call.1.2 answer_call.2
    (NewIPPoolWithConfig_wf _ _ _) answer_valid Hc)) (ParseIP "8.8.8.8")) as (ip & H1 & H2 & _).
  - left.
  - exists ip. split; [|exact H2]. cbn [mbind option_bind fst]. exact H1.
Defined.

(** C4: a call that runs out of addresses takes everything back: no mapping is
    left that was not there before, every live mapping is kept, and it happens
    only after all candidate addresses were found taken. *)
Theorem GetFakeIPsForReals_rolls_back p mt now nano reals isV6 p' mt' :
  pool_wf p → Forall valid_ip reals → reals ≠ [] →
  GetFakeIPsForReals p mt now nano reals isV6 = (None, p', mt') →
  pool_wf p' ∧
  (∀ r f, rtf p' r = Some f → rtf p r = Some f) ∧
  (∀ r, live p now r → live p' now r ∧ rtf p' r = rtf p r) ∧
  ∃ q real, real ∈ reals ∧ params q = params p ∧ choose_fake q real isV6 = None ∧
    (in_use q < in_use p + length reals)%nat.
Proof.
  intros Hwf Hv Hne E.
  pose proof (GetFakeIPsForReals_spec p mt now nano reals isV6 Hwf Hv Hne) as H. rewrite E in H.
  destruct H as [(H1 & H2 & H3) (q & real & H4 & H5 & H6 & H7)]. split_and!; [done..|].
  pose proof (sort_reals_perm reals) as Hp. rewrite Hp in H4, H7. exists q, real. done.
Qed.

(** A pool of three usable addresses, two of them taken, asked for two more. *)
Definition tiny_pool : IPPool :=
  (AddMapping (AddMapping (NewIPPoolWithConfig "10.0.0" "fd00:18::" (mkIPPoolConfig 4 0)) metrics_zero
     (ParseIP "9.9.9.1") (ParseIP "10.0.0.1") 5 100).1.2 metrics_zero
     (ParseIP "9.9.9.2") (ParseIP "10.0.0.2") 6 100).1.2.
Definition tiny_call := GetFakeIPsForReals tiny_pool metrics_zero 3 (λ i, 1000 + Z.of_nat i) answer_reals false.

Lemma tiny_pool_wf : pool_wf tiny_pool.
Proof.
  apply AddMapping_wf; [|right; reflexivity]. apply AddMapping_wf; [|right; reflexivity].
  apply NewIPPoolWithConfig_wf.
Qed.

Lemma GetFakeIPsForReals_rolls_back_witness :
  rtf tiny_call.1.2 (ToIPKey (ParseIP "9.9.9.1")) = Some (ToIPKey (ParseIP "10.0.0.1")) ∧
  rtf tiny_call.1.2 (ToIPKey (ParseIP "1.1.1.1")) = None.
Proof.
  split; [|vm_compute; reflexivity].
  assert (GetFakeIPsForReals tiny_pool metrics_zero 3 (λ i, 1000 + Z.of_nat i) answer_reals false =
          (None, tiny_call.1.2, tiny_call.2)) as Hc.
  { fold tiny_call. assert (tiny_call.1.1 = None) as <- by (vm_compute; reflexivity).
    by destruct tiny_call as [[? ?] ?]. }
  destruct (proj1 (proj2 (proj2 (GetFakeIPsForReals_rolls_back tiny_pool metrics_zero 3
    (λ i, 1000 + Z.of_nat i) answer_reals false tiny_call.1.2 tiny_call.2
    tiny_pool_wf answer_valid ltac:(discriminate) Hc))) (ToIPKey (ParseIP "9.9.9.1"))) as [_ E].
  - exists (ToIPKey (ParseIP "10.0.0.1")), 100.
    split; [vm_compute; reflexivity|split; vm_compute; reflexivity].
  - rewrite E. vm_compute. reflexivity.
Defined.

(** C5: allocation cannot fail while the pool is nearly empty: with at least
    1024 addresses in the subnet, a request succeeds as long as it and the
    mappings in use stay within the 1016 usable IPv4 (1024 IPv6) addresses a
    request probes. *)
Theorem GetFakeIPsForReals_succeeds p mt now nano reals (isV6 : bool) :
  pool_wf p → Forall valid_ip reals → reals ≠ [] →
  (if isV6 then net6_ok p ∧ 97 ≤ cidrMask6 p ∧ 1024 ≤ poolSize6 p
   else net4_ok p ∧ 1 ≤ cidrMask p ∧ 1024 ≤ poolSize p ∧ poolSize p mod 256 = 0) →
  GetActiveCount p + Z.of_nat (length reals) ≤ (if isV6 then 1024 else 1016) →
  ∃ result newM, (GetFakeIPsForReals p mt now nano reals isV6).1.1 = Some (result, newM).
Proof.
  intros Hwf Hv Hne Hok Hcap.
  pose proof (GetFakeIPsForReals_spec p mt now nano reals isV6 Hwf Hv Hne) as H.
  destruct (GetFakeIPsForReals p mt now nano reals isV6) as [[[[result newM]|] p'] mt']; [by eauto|].
  destruct H as [_ (q & real & _ & Hc & Hpar & Hlt)]. exfalso.
  rewrite (sort_reals_perm reals) in Hlt. unfold GetActiveCount in Hcap. fold (in_use p) in Hcap.
  destruct isV6.
  - destruct Hok as (H1 & H2 & H3). pose proof (choose_full6 p q Hpar H1 H2 H3 real Hc). lia.
  - destruct Hok as (H1 & H2 & H3 & H4). pose proof (choose_full4 p q Hpar H1 H2 H3 H4 real Hc). lia.
Qed.

Lemma GetFakeIPsForReals_succeeds_witness :
  ∃ result newM, answer_call.1.1 = Some (result, newM).
Proof.
  refine (GetFakeIPsForReals_succeeds answer_pool metrics_zero 3 (λ i, 1000 + Z.of_nat i) answer_reals false
    (NewIPPoolWithConfig_wf _ _ _) answer_valid ltac:(discriminate) _ _).
  - split; [|vm_compute; split_and!; (reflexivity || discriminate)].
    apply NewIPPool_net4; [vm_compute; split; [discriminate|reflexivity]|right; vm_compute; discriminate].
  - vm_compute. discriminate.
Defined.
