(* ===== verification/Domains.v ===== *)
(** * Domain lists ([internal/parser/compiler.go]): rules, normalisation, zones

    The list compiler reads lines, normalises the domains it finds and writes
    response-policy zones.  A domain in a zone stands for itself and all names
    below it, so a list is collapsed by dropping the domains covered by others.
    The lists are arguments: reading files and downloading is not modelled.
    Two functions are parameters: [uni_lower], [strings.ToLower] on strings that
    are not ASCII, and [idna_ToASCII], [idna.ToASCII] of golang.org/x/net, which
    returns [None] on an error. *)

From Stdlib Require Import Ascii.
From Stdlib Require String.
From stdpp Require Import prelude gmap strings sorting.
From S2P Require Import Prelude GoStrings GoText Filter GoNet.

#[local] Arguments String.append : simpl nomatch.

(** ** Data *)

Record CompileConfig := mkCompileConfig {
  SourcesDir : string;
  ManualDir : string;
  ResultDir : string;
  DownloadDir : string;
  RouteAll : bool;
  FilterCasino : bool;
  BlockAds : bool;
  EnableIPv6 : bool;
  Limit : Z;
}.

Record DomainRule := mkRule { Domain : string; IsEx : bool }.

(** ** Collapsing *)

(** [domainSorter.Less]: the bytes are compared from the last one; here on the
    reversed strings. *)
Fixpoint less_rev (a b : list ascii) : bool :=
  match a, b with
  | ca :: a', cb :: b' => if Ascii.eqb ca cb then less_rev a' b' else code ca <? code cb
  | [], _ :: _ => true
  | _, [] => false
  end.

Definition Less (a b : string) : bool := less_rev (rev (chars a)) (rev (chars b)).

(** [sort.Sort(domainSorter(domains))]; the order is total, so the result does
    not depend on the algorithm. *)
Definition sort_domains (l : list string) : list string :=
  merge_sort (λ a b, Is_true (negb (Less b a))) l.

(** The loop of [CollapseDomains]; [currentSuffix] is [None] before the first
    element.  The source compacts the sorted slice in place; the element it
    reads is never one it has overwritten. *)
Fixpoint collapse_loop (currentSuffix : option string) (domains : list string) : list string :=
  match domains with
  | [] => []
  | d :: rest =>
      if match currentSuffix with None => true | Some s => negb (has_suffix d s) end
      then d :: collapse_loop (Some ("." +:+ d)) rest
      else collapse_loop currentSuffix rest
  end.

Definition CollapseDomains (domains : list string) : list string :=
  collapse_loop None (sort_domains domains).

Definition set_of (l : list string) : gset string := list_to_set l.

(** [buildSimpleRPZ]: the zone's domains and its exceptions. *)
Definition buildSimpleRPZ (rules : list DomainRule) : list string * list string :=
  let inc := set_of (Domain <$> filter (λ r, Is_true (negb (IsEx r))) rules) in
  let excMap := set_of (Domain <$> filter (λ r, Is_true (IsEx r)) rules) in
  let unionOpt := CollapseDomains (elements inc ++ elements excMap) in
  (filter (λ d, d ∉ excMap) unionOpt, CollapseDomains (elements excMap)).

(** ** Labels and prefixes *)

Definition isAlnumOrU (c : ascii) : bool :=
  ((97 <=? code c) && (code c <=? 122)) || ((65 <=? code c) && (code c <=? 90))
  || is_digit c || (code c =? 95).

Definition isValidLabel (label : string) : bool :=
  let l := String.length label in
  if (Nat.eqb l 0) || (Nat.ltb 63 l) then false
  else
    match chars label with
    | [] => false
    | c :: cs =>
        isAlnumOrU c && isAlnumOrU (List.last cs c)
        && forallb (λ c, isAlnumOrU c || Ascii.eqb c "-") (removelast cs)
    end.

Definition isPureDigits (s : string) : bool :=
  match s with EmptyString => false | _ => str_forallb is_digit s end.

Definition isNumberedPrefix (s base : string) : bool :=
  if negb (has_prefix s base) then false
  else str_forallb is_digit (of_chars (drop (String.length base) (chars s))).

Section Text.
Context (uni_lower : string → string) (idna_ToASCII : string → option string).

Definition stripPrefix (d : string) : string :=
  if 2 <=? count_char "." d then
    let dLower := ToLower uni_lower d in
    match cut_char "." dLower with
    | Some (prefix, _) =>
        if negb (bool_decide (prefix = EmptyString)) &&
           (isNumberedPrefix prefix "www" || isNumberedPrefix prefix "m" ||
            isNumberedPrefix prefix "hd" || isNumberedPrefix prefix "cdn" || isPureDigits prefix)
        then of_chars (drop (S (String.length prefix)) (chars d))
        else d
    | None => d
    end
  else d.

(** [normalizeDomain]; the empty string is the source's way to say no. *)
Definition normalizeDomain (d : string) : string :=
  let d := ToLower uni_lower (TrimSpace d) in
  let d := TrimPrefix d "*." in
  if ContainsAny d "[]~:/?#\@!$&'()*+,;=" then EmptyString
  else
    let d := Trim d "." in
    if negb (contains_char d ".") || (Nat.ltb 253 (String.length d)) then EmptyString
    else
      match idna_ToASCII d with
      | None => EmptyString
      | Some d => if forallb isValidLabel (split_char "." d) then d else EmptyString
      end.

(** ** Lines *)

Definition parseAdblockLine (line : string) (forceException : bool) : option DomainRule :=
  let line := TrimSpace line in
  if bool_decide (line = EmptyString) || Contains line "##" || Contains line "#@#" then None
  else
    let '(isEx, domain) :=
      if has_prefix line "@@||" then (true, of_chars (drop 4 (chars line)))
      else if has_prefix line "||" then (false, of_chars (drop 2 (chars line)))
      else if has_prefix line "@@" then (true, of_chars (drop 2 (chars line)))
      else (forceException, line) in
    let hasWildcard := has_prefix domain "*." in
    let checkDomain := if hasWildcard then of_chars (drop 2 (chars domain)) else domain in
    if Contains domain "/" then None
    else
      let checkDomain := before_any "^$*" checkDomain in
      let domain := if hasWildcard then "*." +:+ checkDomain else checkDomain in
      let domain := TrimSpace domain in
      if bool_decide (domain = EmptyString) || (Contains domain "*" && negb (has_prefix domain "*."))
      then None
      else
        let v := normalizeDomain domain in
        if bool_decide (v = EmptyString) then None else Some (mkRule v isEx).

(** What one file contributes: rules, filtered domains, raw zone lines. *)
Record FileResult := mkFileResult {
  fr_rules : list DomainRule;
  fr_cas : list string;
  fr_raw : list string;
}.

Definition fr_empty : FileResult := mkFileResult [] [] [].
Definition fr_app (a b : FileResult) : FileResult :=
  mkFileResult (fr_rules a ++ fr_rules b) (fr_cas a ++ fr_cas b) (fr_raw a ++ fr_raw b).

(** A domain found in a file: filtered or kept. *)
Definition keep_domain (filterCasino : bool) (r : DomainRule) : FileResult :=
  if filterCasino && IsCasino (Domain r) then mkFileResult [] [Domain r] []
  else mkFileResult [r] [] [].

(** The punctuation [validateFile] strips from both ends of a line. *)
Definition line_cutset : string := "!" +:+ String (char 34) "#$%&'()+,-/:;<=>?@[\]^_`{|}~".

(** The text of a line before its comment, trimmed; [None] for a line without
    content. *)
Definition line_content (line : string) : option string :=
  let line := TrimSpace line in
  match line with
  | EmptyString => None
  | String c _ =>
      if Ascii.eqb c "#" || Ascii.eqb c ";" then None
      else match cut_char "#" line with
           | None => Some line
           | Some (before, _) =>
               let before := TrimSpace before in
               if bool_decide (before = EmptyString) then None else Some before
           end
  end.

(** One line of [validateFile]. *)
Definition validate_line (filterCasino isExcludeFile isRpz isDomain : bool) (line : string) : FileResult :=
  match line_content line with
  | None => fr_empty
  | Some line =>
      if isRpz then
        if has_prefix line "$" || has_prefix line "@" then fr_empty else mkFileResult [] [] [line]
      else if isDomain then
        let line := Trim line line_cutset in
        if bool_decide (line = EmptyString) then fr_empty
        else
          foldr (λ field acc,
            match ParseAddr field with
            | Some _ => acc
            | None =>
                let v := normalizeDomain field in
                if bool_decide (v = EmptyString) then acc
                else fr_app (keep_domain filterCasino (mkRule v isExcludeFile)) acc
            end) fr_empty (Fields line)
      else if has_prefix line "!" || has_prefix line "[" then fr_empty
      else match parseAdblockLine line isExcludeFile with
           | Some r => keep_domain filterCasino r
           | None => fr_empty
           end
  end.

(** [validateFile] on the lines of a file. *)
Definition validateFile (lines : list string) (filterCasino isExcludeFile isRpz isDomain : bool) : FileResult :=
  foldr (λ line acc, fr_app (validate_line filterCasino isExcludeFile isRpz isDomain line) acc) fr_empty lines.

(** The kind of a list, decided by its name as in [loadDomainsWithRules]. *)
Definition list_kind (name : string) : bool * bool * bool :=
  let isExF := has_prefix name "exclude" || has_prefix name "remove" in
  let isRpzF := Contains name "rpz" in
  let isAdF := Contains name "adblock" in
  let isDomF := (Contains name "hosts" || Contains name "domain") && negb isAdF in
  (isExF, isRpzF, isDomF).

(** [loadDomainsWithRules] on the contents of the downloaded files and of the
    manual file; the downloads finish in the order of the list. *)
Definition loadDomainsWithRules (name : string) (filterCasino : bool)
    (downloaded : list (list string)) (manual : list string) : FileResult :=
  let '(isExF, isRpzF, isDomF) := list_kind name in
  foldr (λ f acc, fr_app (validateFile f filterCasino isExF isRpzF isDomF) acc)
    (validateFile manual filterCasino isExF isRpzF isDomF) downloaded.

Definition stripPrefixesMap (src : gset string) : gset string := set_map stripPrefix src.
End Text.

(** ** Zones *)

(** The compilation of proxy.rpz in [CompileLists]: the rules of the include,
    exclude and remove lists; the zone's domains and its exceptions. *)
Definition compile_proxy (uni_lower : string → string) (hpr exPOnly exG : list DomainRule)
    : list string * list string :=
  let pExcRaw := set_of ((Domain <$> exG) ++ (Domain <$> exPOnly)
                         ++ (Domain <$> filter (λ r, Is_true (IsEx r)) hpr)) in
  let pInc := set_of (Domain <$> filter (λ r, Is_true (negb (IsEx r))) hpr) in
  let piS := stripPrefixesMap uni_lower pInc in
  let unionOptimized := CollapseDomains (elements piS ++ elements pExcRaw) in
  (filter (λ d, d ∉ pExcRaw) unionOptimized, CollapseDomains (elements pExcRaw)).

(** The compilation of adblock.rpz: [har] from the include list, [hae] from the
    exclude list, [exG] from the remove list. *)
Definition compile_adblock (har hae exG : list DomainRule) : list string * list string :=
  let exCommon := set_of (Domain <$> exG) in
  let extLookup := set_of (Domain <$> hae) in
  let all := har ++ hae in
  let adExcExt := set_of (Domain <$> filter (λ r, IsEx r = true ∧ Domain r ∈ extLookup) all) in
  let adIntEx := set_of (Domain <$> filter (λ r, IsEx r = true ∧ Domain r ∉ extLookup) all) in
  let adInc := set_of (Domain <$> filter (λ r, IsEx r = false) all) in
  let adAllExc := adExcExt ∪ adIntEx ∪ exCommon in
  let adUnionOptimized := CollapseDomains (elements adInc ++ elements adAllExc) in
  (filter (λ d, d ∉ adAllExc) adUnionOptimized,
   CollapseDomains (elements adExcExt ++ elements adIntEx)).

(** [sort.Strings]. *)
Definition string_leb (a b : string) : bool :=
  match lex_cmp Z.compare (code <$> chars a) (code <$> chars b) with Gt => false | _ => true end.
Definition sort_strings (l : list string) : list string := merge_sort (λ a b, Is_true (string_leb a b)) l.

Definition nl : string := String (char 10) EmptyString.

Definition uniqueSliceFromMap (src : gset string) : list string := sort_strings (elements src).

Definition rpz_entry (target d : string) : string :=
  d +:+ ". CNAME " +:+ target +:+ nl +:+ "*." +:+ d +:+ ". CNAME " +:+ target +:+ nl.

Definition rpz_section (target : string) (l : list string) : string :=
  foldr (λ d acc, (if bool_decide (d ≠ EmptyString ∧ d ≠ ".") then rpz_entry target d else EmptyString) +:+ acc)
    EmptyString (sort_strings l).

(** The text [writeRPZFile] writes at time [unix]. *)
Definition writeRPZFile (unix : Z) (path : string) (domains excl rawRules : list string) (routeAll : bool)
    : string :=
  "$TTL 10800" +:+ nl +:+ "@ SOA . . (" +:+ itoa unix +:+ " 1 1 1 10800)" +:+ nl
  +:+ (if routeAll && Contains path "proxy" then "* CNAME ." +:+ nl else EmptyString)
  +:+ foldr (λ r acc, r +:+ nl +:+ acc) EmptyString rawRules
  +:+ rpz_section "rpz-passthru." excl
  +:+ rpz_section "." domains.
