(* ===== verification/DomainFacts.v ===== *)
(** * Domain lists: collapsing

    [CollapseDomains] keeps the meaning of a list, does not depend on its
    order, and leaves no redundant domain unless a hyphen sorts between a domain
    and its subdomains. *)

From Stdlib Require Import Ascii.
From Stdlib Require String.
From stdpp Require Import prelude gmap strings sorting.
From S2P Require Import Prelude GoStrings GoText GoNet Domains.

#[local] Arguments String.append : simpl nomatch.

(** ** Definitions *)

(** [d] is a name strictly below [o]. *)
Definition below (d o : string) : Prop := ∃ x, d = x +:+ "." +:+ o.

(** The names a list of zone domains stands for. *)
Definition covered (l : list string) (name : string) : Prop :=
  ∃ d, d ∈ l ∧ (name = d ∨ below name d).

(** No byte of the string sorts before the dot. *)
Definition no_early (s : string) : bool := str_forallb (λ c, code "." <=? code c) s.

(** ** Lemmas: the order *)

Definition char_cmp (a b : ascii) : comparison := code a ?= code b.

#[export] Instance char_cmp_order : CmpOrder char_cmp.
Proof.
  unfold char_cmp. split; intros.
  - rewrite cmp_eq_iff. split; [|congruence]. unfold code. intros E%N2Z.inj.
    by rewrite <- (ascii_N_embedding x), E, ascii_N_embedding.
  - apply cmp_antisym.
  - by eapply cmp_lt_trans.
Qed.

Definition dom_cmp (a b : string) : comparison := lex_cmp char_cmp (rev (chars a)) (rev (chars b)).

#[export] Instance dom_cmp_order : CmpOrder dom_cmp.
Proof.
  unfold dom_cmp. split; intros.
  - rewrite (cmp_eq_iff (cmp:=lex_cmp char_cmp)). split; [|congruence].
    intros E. apply chars_inj. by rewrite <- (rev_involutive (chars x)), E, rev_involutive.
  - apply (cmp_antisym (cmp:=lex_cmp char_cmp)).
  - by eapply (cmp_lt_trans (cmp:=lex_cmp char_cmp)).
Qed.

Lemma less_rev_cmp a b : less_rev a b = match lex_cmp char_cmp a b with Lt => true | _ => false end.
Proof.
  revert b. induction a as [|x a IH]; intros [|y b]; cbn; [done..|].
  unfold char_cmp at 1. destruct (Ascii.eqb_spec x y) as [->|Hne].
  - by rewrite Z.compare_refl.
  - destruct (Z.compare_spec (code x) (code y)) as [E|E|E].
    + exfalso. apply Hne. by apply (cmp_eq_iff (cmp:=char_cmp)), Z.compare_eq_iff.
    + by apply Z.ltb_lt.
    + apply Z.ltb_ge. lia.
Qed.

Lemma Less_cmp a b : Less a b = match dom_cmp a b with Lt => true | _ => false end.
Proof. apply less_rev_cmp. Qed.

(** "Not after", the relation the list is sorted by. *)
Definition dom_le (a b : string) : Prop := Is_true (negb (Less b a)).

Lemma dom_le_cmp a b : dom_le a b ↔ dom_cmp a b ≠ Gt.
Proof.
  unfold dom_le. rewrite Less_cmp, (cmp_antisym (cmp:=dom_cmp) a b).
  by destruct (dom_cmp a b); cbn; split.
Qed.

#[export] Instance dom_le_total : Total dom_le.
Proof.
  intros a b. rewrite !dom_le_cmp, (cmp_antisym (cmp:=dom_cmp) a b).
  destruct (dom_cmp a b); cbn; auto.
Qed.

#[export] Instance dom_le_trans : Transitive dom_le.
Proof. intros a b c. rewrite !dom_le_cmp. apply (cmp_le_trans dom_cmp). Qed.

#[export] Instance dom_le_antisymm : AntiSymm (=) dom_le.
Proof.
  intros a b. rewrite !dom_le_cmp, (cmp_antisym (cmp:=dom_cmp) a b). intros H1 H2.
  apply (cmp_eq_iff (cmp:=dom_cmp)). by destruct (dom_cmp a b).
Qed.

Lemma sort_domains_perm l : sort_domains l ≡ₚ l.
Proof. apply merge_sort_Permutation. Qed.

Lemma sort_domains_sorted l : StronglySorted dom_le (sort_domains l).
Proof. apply Sorted_StronglySorted; [apply _|]. apply (Sorted_merge_sort dom_le). Qed.

Lemma sort_domains_unique l k : l ≡ₚ k → sort_domains l = sort_domains k.
Proof.
  intros Hp. apply (StronglySorted_unique dom_le); [apply sort_domains_sorted..|].
  by rewrite !sort_domains_perm.
Qed.

(** ** Lemmas: names below a domain *)

Lemma below_rev d o : below d o ↔ ∃ t, rev (chars d) = rev (chars o) ++ "."%char :: t.
Proof.
  split.
  - intros [x ->]. exists (rev (chars x)). rewrite !chars_app. cbn. rewrite rev_app_distr. cbn.
    by rewrite <- app_assoc.
  - intros [t E]. exists (of_chars (rev t)). apply chars_inj.
    rewrite !chars_app, chars_of_chars. cbn.
    rewrite <- (rev_involutive (chars d)), E, rev_app_distr. cbn. rewrite rev_involutive.
    by rewrite <- app_assoc.
Qed.

Lemma below_suffix d o : has_suffix d ("." +:+ o) = true ↔ below d o.
Proof. apply has_suffix_iff. Qed.

Lemma below_trans a b c : below a b → below b c → below a c.
Proof.
  intros [x ->] [y ->]. exists (x +:+ "." +:+ y). by rewrite !str_app_assoc.
Qed.

Lemma lex_cmp_app (l k m : list ascii) : lex_cmp char_cmp (l ++ k) (l ++ m) = lex_cmp char_cmp k m.
Proof. induction l as [|x l IH]; cbn; [done|]. by rewrite (cmp_refl char_cmp). Qed.

(** A name below a domain comes after it. *)
Lemma below_after d o : below d o → dom_cmp o d = Lt.
Proof.
  intros [t E]%below_rev. unfold dom_cmp. rewrite E.
  rewrite <- (app_nil_r (rev (chars o))) at 1. by rewrite lex_cmp_app.
Qed.

Lemma below_irrefl d : ¬ below d d.
Proof. intros H%below_after. by rewrite (cmp_refl dom_cmp) in H. Qed.

(** Without early characters, only names below a domain sort between it and a
    name below it. *)
Lemma lex_between (e c m : list ascii) :
  lex_cmp char_cmp e c ≠ Gt → lex_cmp char_cmp c (e ++ m) ≠ Gt → ∃ k, c = e ++ k.
Proof.
  revert c. induction e as [|x e IH]; intros c; [by exists c|].
  destruct c as [|y c]; cbn; [done|].
  rewrite (cmp_antisym (cmp:=char_cmp) x y). destruct (char_cmp x y) eqn:E; cbn; [|done|done].
  apply (cmp_eq_iff (cmp:=char_cmp)) in E as ->. intros H1 H2.
  destruct (IH c H1 H2) as [k ->]. by exists k.
Qed.

Lemma no_early_rev s c l : no_early s = true → rev (chars s) = l → c ∈ l → code "." ≤ code c.
Proof.
  unfold no_early. rewrite str_forallb_chars, forallb_forall. intros H <- Hc.
  apply Z.leb_le, H, in_rev. by apply list_elem_of_In.
Qed.

Lemma below_between e c d :
  below d e → dom_le e c → dom_le c d → no_early c = true → c = e ∨ below c e.
Proof.
  intros [t Ht]%below_rev H1%dom_le_cmp H2%dom_le_cmp Hc. unfold dom_cmp in *. rewrite Ht in H2.
  destruct (lex_between _ _ _ H1 H2) as [k Hk]. rewrite Hk in H2. rewrite lex_cmp_app in H2.
  destruct k as [|y k].
  - left. rewrite app_nil_r in Hk. apply chars_inj.
    by rewrite <- (rev_involutive (chars c)), Hk, rev_involutive.
  - right. apply below_rev. assert (y = "."%char) as ->; [|by exists k].
    assert (code "." ≤ code y) as Hy by (eapply (no_early_rev c); [done|exact Hk|set_solver]).
    cbn in H2. unfold char_cmp in H2. destruct (Z.compare_spec (code y) (code ".")) as [E|E|E];
      [|lia|done].
    by apply (cmp_eq_iff (cmp:=char_cmp)), Z.compare_eq_iff.
Qed.

(** ** Lemmas: the loop *)

Lemma collapse_sub cur l d : d ∈ collapse_loop cur l → d ∈ l.
Proof.
  revert cur. induction l as [|e l IH]; intros cur; cbn; [done|].
  destruct (match cur with None => _ | Some _ => _ end); set_solver.
Qed.

Definition cur_suffix (cur : option string) : option string := (λ o, "." +:+ o) <$> cur.

(** Every domain is kept or below a kept one. *)
Lemma collapse_covers cur l d :
  d ∈ l → d ∈ collapse_loop (cur_suffix cur) l ∨
  ∃ o, (cur = Some o ∨ o ∈ collapse_loop (cur_suffix cur) l) ∧ below d o.
Proof.
  revert cur. induction l as [|e l IH]; intros cur; [by intros []%elem_of_nil|]; cbn.
  destruct (match cur_suffix cur with None => true | Some s => negb (has_suffix e s) end) eqn:E.
  - intros [<-|Hd]%elem_of_cons; [left; set_solver|].
    destruct (IH (Some e) Hd) as [?|(o & [[= ->]|?] & ?)]; set_solver.
  - intros [->|Hd]%elem_of_cons; [|by apply IH].
    right. destruct cur as [o|]; cbn [cur_suffix fmap option_fmap option_map] in E; [|done]. exists o. split; [by left|].
    apply below_suffix. by apply negb_false_iff in E.
Qed.

(** Nothing kept is below an element of the list that was passed before. *)
Lemma collapse_minimal l : ∀ cur before,
  StronglySorted dom_le (before ++ l) → Forall (λ c, no_early c = true) (before ++ l) →
  (∀ o, cur = Some o → o ∈ before ∧ ∀ e, e ∈ before → ¬ below o e ∧ (e = o ∨ below e o ∨ dom_le e o)) →
  (cur = None → before = []) →
  ∀ d e, d ∈ collapse_loop (cur_suffix cur) l → e ∈ before ++ l → ¬ below d e.
Proof.
  induction l as [|x l IH]; intros cur before Hs Hc Hcur Hnone d e Hd He; cbn in Hd; [by apply elem_of_nil in Hd|].
  assert (Hsx : ∀ b, b ∈ before → dom_le b x).
  { intros b Hb. eapply StronglySorted_app in Hs as (Hx & _ & _). apply Hx; set_solver. }
  assert (StronglySorted dom_le ((before ++ [x]) ++ l)) as Hs' by (by rewrite <- app_assoc).
  assert (Forall (λ c, no_early c = true) ((before ++ [x]) ++ l)) as Hc' by (by rewrite <- app_assoc).
  assert (e ∈ (before ++ [x]) ++ l) as He' by (rewrite <- app_assoc; done).
  destruct (match cur_suffix cur with None => true | Some s => negb (has_suffix x s) end) eqn:E.
  - assert (∀ b, b ∈ before → ¬ below x b) as Hx.
    { intros b Hb Hxb. destruct cur as [o|]; [|rewrite (Hnone eq_refl) in Hb; by apply elem_of_nil in Hb].
      destruct (Hcur o eq_refl) as [Ho Hall]. cbn [cur_suffix fmap option_fmap option_map] in E.
      assert (¬ below x o) as Hxo by (intros Hbx%below_suffix; by rewrite Hbx in E).
      destruct (Hall b Hb) as [Hob [->|[Hbo|Hle]]]; [done|by apply Hxo; eapply below_trans|].
      destruct (below_between b o x Hxb Hle (Hsx o Ho)) as [->|?]; [|done..].
      eapply Forall_forall in Hc; [exact Hc|set_solver]. }
    apply elem_of_cons in Hd as [->|Hd].
    + intros Hb. apply elem_of_app in He as [He|[->|He]%elem_of_cons]; [by eapply Hx|by eapply below_irrefl|].
      pose proof (below_after _ _ Hb) as Hlt.
      assert (dom_le x e) as Hle.
      { apply StronglySorted_app in Hs as (_ & _ & Hs). apply StronglySorted_cons in Hs as [Hs _].
        by eapply Forall_forall in Hs. }
      apply dom_le_cmp in Hle. by rewrite (cmp_lt_gt dom_cmp) in Hlt.
    + apply (IH (Some x) (before ++ [x]) Hs' Hc'); [|done|exact Hd|done].
      intros o [= <-]. split; [set_solver|]. intros b [Hb|Hb%list_elem_of_singleton]%elem_of_app.
      * split; [by apply Hx|]. right; right. by apply Hsx.
      * subst b. split; [apply below_irrefl|by left].
  - apply (IH cur (before ++ [x]) Hs' Hc'); [| |exact Hd|done].
    + intros o ->. destruct (Hcur o eq_refl) as [Ho Hall]. split; [set_solver|].
      cbn [cur_suffix fmap option_fmap option_map] in E. apply negb_false_iff, below_suffix in E.
      intros b [Hb|Hb%list_elem_of_singleton]%elem_of_app; [by apply Hall|].
      subst b. split; [|by auto]. intros Hox. by eapply below_irrefl, below_trans.
    + intros ->. done.
Qed.

(** ** Lemmas: zones *)

(** What the zone compilations share: the domains that are not exceptions, from
    the collapsed union, and the collapsed exceptions. *)
Definition zone_of (inc exc : gset string) : list string * list string :=
  (filter (λ d, d ∉ exc) (CollapseDomains (elements inc ++ elements exc)), CollapseDomains (elements exc)).

Lemma elem_of_CollapseDomains d l : d ∈ CollapseDomains l → d ∈ l.
Proof. intros H%collapse_sub. by rewrite sort_domains_perm in H. Qed.

Lemma CollapseDomains_kept d l :
  d ∈ l → ∃ o, o ∈ CollapseDomains l ∧ (d = o ∨ below d o).
Proof.
  intros Hd. rewrite <- sort_domains_perm in Hd.
  destruct (collapse_covers None _ d Hd) as [H|(o & [[=]|Ho] & Hb)]; eauto.
Qed.

Lemma covered_collapse l name : covered (CollapseDomains l) name ↔ covered l name.
Proof.
  split.
  - intros (d & Hd%elem_of_CollapseDomains & H). by exists d.
  - intros (d & Hd & H). destruct (CollapseDomains_kept d l Hd) as (o & Ho & Hdo).
    exists o. split; [done|]. destruct H as [->|H], Hdo as [->|Hdo]; auto.
    right. by eapply below_trans.
Qed.

Lemma collapse_no_redundant l d e :
  Forall (λ c, no_early c = true) l → d ∈ CollapseDomains l → e ∈ l → ¬ below d e.
Proof.
  intros Hc Hd He. unfold CollapseDomains in Hd.
  eapply (collapse_minimal (sort_domains l) None []); [..|exact Hd|].
  - apply sort_domains_sorted.
  - cbn [app]. by rewrite sort_domains_perm.
  - done.
  - done.
  - cbn [app]. by rewrite sort_domains_perm.
Qed.

Lemma zone_of_spec inc exc :
  let '(zone, exceptions) := zone_of inc exc in
  (∀ name, covered exceptions name ↔ covered (elements exc) name) ∧
  (∀ d, d ∈ zone → d ∈ inc ∧ d ∉ exc) ∧
  (∀ d, d ∈ inc → covered zone d ∨ covered exceptions d).
Proof.
  cbn. split_and!.
  - intros name. apply covered_collapse.
  - intros d [Hd Hin%elem_of_CollapseDomains]%list_elem_of_filter. set_solver.
  - intros d Hd. destruct (CollapseDomains_kept d (elements inc ++ elements exc)) as (o & Ho & Hdo);
      [set_solver|].
    destruct (decide (o ∈ exc)) as [Hx|Hx].
    + right. apply covered_collapse. exists o. split; [set_solver|done].
    + left. exists o. split; [|done]. by apply list_elem_of_filter.
Qed.

Lemma zone_of_excluded inc exc d e :
  (∀ c, c ∈ inc ∪ exc → no_early c = true) →
  d ∈ (zone_of inc exc).1 → e ∈ exc → ¬ below d e.
Proof.
  intros Hc [_ Hd]%list_elem_of_filter He.
  apply (collapse_no_redundant (elements inc ++ elements exc)); [|done|set_solver].
  apply Forall_forall. intros c Hin. apply Hc. set_solver.
Qed.

(** ** Properties *)

(** Collapsing a list changes neither the names it stands for nor adds
    a domain. *)
Theorem CollapseDomains_covers l :
  (∀ name, covered (CollapseDomains l) name ↔ covered l name) ∧
  (∀ d, d ∈ CollapseDomains l → d ∈ l).
Proof. split; [apply covered_collapse|]. intros d. apply elem_of_CollapseDomains. Qed.

(** The result does not depend on the order of the list, and when no
    domain has a character that sorts before the dot, it keeps no domain below
    another domain of the list. *)
Theorem CollapseDomains_canonical l k :
  l ≡ₚ k →
  CollapseDomains l = CollapseDomains k ∧
  (Forall (λ c, no_early c = true) l → ∀ d e, d ∈ CollapseDomains k → e ∈ l → ¬ below d e).
Proof.
  intros Hp. assert (CollapseDomains l = CollapseDomains k) as E
    by (unfold CollapseDomains; by rewrite (sort_domains_unique l k Hp)).
  split; [done|]. intros Hc d e Hd He. rewrite <- E in Hd. by eapply collapse_no_redundant.
Qed.

Lemma CollapseDomains_canonical_witness :
  CollapseDomains ["x.a.com"; "b.org"; "a.com"] = ["b.org"; "a.com"].
Proof.
  refine (eq_trans (proj1 (CollapseDomains_canonical ["x.a.com"; "b.org"; "a.com"]
    ["a.com"; "x.a.com"; "b.org"] _)) _).
  - symmetry. exact (Permutation_cons_append ["x.a.com"; "b.org"] "a.com").
  - vm_compute. reflexivity.
Defined.

(** A hyphen sorts before the dot: an unrelated domain hides the parent of a
    subdomain, which then stays in the list. *)
Theorem hyphen_defeats_collapse :
  CollapseDomains ["a.com"; "b-a.com"; "x.a.com"] = ["a.com"; "b-a.com"; "x.a.com"] ∧
  CollapseDomains ["a.com"; "x.a.com"] = ["a.com"].
Proof. split; vm_compute; reflexivity. Qed.

(** C37: the proxy zone.  Its exceptions stand for exactly the excluded and
    removed domains; every domain it routes is an included one, after its prefix
    is stripped, and not an excluded or removed one; every included domain, after
    its prefix is stripped, is routed or covered by an exception; and when no
    domain contains a character that sorts before the dot (a hyphen), nothing below
    an excluded domain is routed. *)
Theorem compile_proxy_spec uni hpr exPOnly exG :
  let excluded := (Domain <$> exG) ++ (Domain <$> exPOnly) ++ (Domain <$> filter (λ r, Is_true (IsEx r)) hpr) in
  let '(zone, exceptions) := compile_proxy uni hpr exPOnly exG in
  (∀ name, covered exceptions name ↔ covered excluded name) ∧
  (∀ d, d ∈ zone → (d ∉ excluded) ∧ ∃ r, r ∈ hpr ∧ IsEx r = false ∧ d = stripPrefix uni (Domain r)) ∧
  (∀ r, r ∈ hpr → IsEx r = false →
     covered zone (stripPrefix uni (Domain r)) ∨ covered exceptions (stripPrefix uni (Domain r))) ∧
  (Forall (λ d, no_early d = true)
     (excluded ++ (stripPrefix uni <$> (Domain <$> filter (λ r, Is_true (negb (IsEx r))) hpr))) →
   ∀ d e, d ∈ zone → e ∈ excluded → ¬ below d e).
Proof.
  intros excluded.
  set (inc := stripPrefixesMap uni (set_of (Domain <$> filter (λ r, Is_true (negb (IsEx r))) hpr))).
  set (exc := set_of excluded).
  change (compile_proxy uni hpr exPOnly exG) with (zone_of inc exc).
  pose proof (zone_of_spec inc exc) as H. pose proof (zone_of_excluded inc exc) as Hx.
  destruct (zone_of inc exc) as [zone exceptions]. destruct H as (H1 & H2 & H3).
  assert (∀ d, d ∈ exc ↔ d ∈ excluded) as Hexc by (intros d; apply elem_of_list_to_set).
  split_and!.
  - intros name. rewrite H1. unfold covered. split; intros (d & Hd & ?); exists d; (split; [|done]);
      rewrite elem_of_elements, Hexc in *; done.
  - intros d Hd. rewrite <- Hexc. destruct (H2 d Hd) as [Hin Hno]. split; [done|].
    subst inc. unfold stripPrefixesMap in Hin. apply elem_of_map in Hin as (x & -> & Hx').
    apply elem_of_list_to_set, list_elem_of_fmap in Hx' as (r & -> & [Hr Hin]%list_elem_of_filter).
    exists r. split; [done|]. split; [by destruct (IsEx r)|done].
  - intros r Hr Hex. apply H3. subst inc. unfold stripPrefixesMap. apply elem_of_map.
    exists (Domain r). split; [done|]. apply elem_of_list_to_set, list_elem_of_fmap_2, list_elem_of_filter.
    by rewrite Hex.
  - intros Hc d e Hd He. apply Hx; [|done|by apply Hexc].
    intros c Hin. eapply Forall_forall in Hc; [exact Hc|]. apply elem_of_app.
    apply elem_of_union in Hin as [Hin|Hin]; [right|left; by apply Hexc].
    subst inc. unfold stripPrefixesMap in Hin. apply elem_of_map in Hin as (x & -> & Hin).
    apply list_elem_of_fmap_2. by apply elem_of_list_to_set in Hin.
Qed.

(** Excluding an unrelated hyphenated domain routes what another exclusion
    should keep out. *)
Theorem hyphen_defeats_exclusion :
  let inc := [mkRule "x.a.com" false] in
  (compile_proxy id inc [mkRule "a.com" true] []).1 = [] ∧
  (compile_proxy id inc [mkRule "a.com" true; mkRule "b-a.com" true] []).1 = ["x.a.com"].
Proof. split; vm_compute; reflexivity. Qed.
