(* ===== verification/DomainText.v ===== *)
(** * Domain lists: normalised names and parsed lines

    What comes out of [normalizeDomain] is safe to write into a zone file: only
    letters, digits, hyphens, underscores and dots, in well-formed labels.  The
    adblock syntax is read back as it is written. *)

From Stdlib Require Import Ascii.
From Stdlib Require String.
From stdpp Require Import prelude gmap strings sorting.
From S2P Require Import Prelude GoStrings GoText GoNet GoNetFacts Domains DomainFacts.

#[local] Arguments String.append : simpl nomatch.

(** ** Definitions *)

Definition name_char (c : ascii) : bool := isAlnumOrU c || Ascii.eqb c "-" || Ascii.eqb c ".".

(** ** Lemmas: labels *)

Lemma isValidLabel_spec label :
  isValidLabel label = true →
  (1 ≤ String.length label ≤ 63)%nat ∧ str_forallb (λ c, isAlnumOrU c || Ascii.eqb c "-") label = true.
Proof.
  unfold isValidLabel. destruct (Nat.eqb_spec (String.length label) 0); cbn [orb]; [done|].
  destruct (Nat.ltb_spec 63 (String.length label)); [done|].
  rewrite str_forallb_chars. destruct (chars label) as [|c cs]; [done|].
  rewrite !andb_true_iff. intros [[Hc Hl] Hm]. split; [lia|]. cbn [forallb]. rewrite Hc. cbn.
  destruct (decide (cs = [])) as [->|Hne]; [done|].
  rewrite (app_removelast_last c Hne), forallb_app, Hm. cbn. by rewrite Hl.
Qed.

Lemma split_char_forallb P sep s :
  P sep = true → forallb (str_forallb P) (split_char sep s) = true → str_forallb P s = true.
Proof.
  intros Hsep. induction s as [|c s IH]; cbn; [done|].
  destruct (Ascii.eqb_spec c sep) as [->|Hne]; cbn.
  - rewrite Hsep. done.
  - pose proof (split_char_nonempty sep s). destruct (split_char sep s) as [|w ws]; [done|].
    cbn in *. rewrite !andb_true_iff in *. naive_solver.
Qed.

(** ** Lemmas: text without white space *)

(** Bytes that are neither white space nor part of a longer encoding. *)
Definition plain_char (c : ascii) : bool := (32 <? code c) && (code c <? 128).

Lemma space_len_plain (f : list Z → list Z) l :
  (∀ w, f w ≡ₚ w) → forallb plain_char l = true → space_len f l = 0%nat.
Proof.
  intros Hf Hl. assert (∀ n, space_rune (f (code <$> take n l)) = false) as Hn.
  { intros n. assert (Forall (λ z, 32 < z < 128) (f (code <$> take n l))) as Ha.
    { rewrite Hf. apply Forall_fmap, Forall_take, Forall_forall. intros c Hc%list_elem_of_In. cbn.
      rewrite forallb_forall in Hl. apply Hl in Hc. unfold plain_char in Hc. lia. }
    destruct (f (code <$> take n l)) as [|a [|b [|c [|d w]]]]; cbn; [done|..|done];
      repeat (apply Forall_cons in Ha as [? Ha]); repeat (apply orb_false_iff; split); lia. }
  unfold space_len. by rewrite !Hn.
Qed.

Lemma skip_spaces_plain (f : list Z → list Z) fuel l :
  (∀ w, f w ≡ₚ w) → forallb plain_char l = true → skip_spaces fuel f l = l.
Proof. intros Hf Hl. destruct fuel; cbn; [done|]. by rewrite space_len_plain. Qed.

Lemma TrimSpace_plain s : str_forallb plain_char s = true → TrimSpace s = s.
Proof.
  rewrite str_forallb_chars. intros Hs. unfold TrimSpace, trim_left, trim_right.
  rewrite (skip_spaces_plain id); [|intros w; reflexivity|done].
  rewrite (skip_spaces_plain (λ w, rev w)).
  - by rewrite rev_involutive, of_chars_chars.
  - intros w. symmetry. apply Permutation_rev.
  - rewrite forallb_forall in *. intros c Hc%in_rev. auto.
Qed.

Lemma name_char_plain c : name_char c = true → plain_char c = true.
Proof.
  unfold name_char, isAlnumOrU, is_digit, plain_char. rewrite !orb_true_iff.
  intros [[H|H]|H]; [lia|apply Ascii.eqb_eq in H as ->; done|apply Ascii.eqb_eq in H as ->; done].
Qed.

(** ** Lemmas: stripping prefixes *)

Lemma str_map_length f s : String.length (str_map f s) = String.length s.
Proof. induction s; cbn; auto. Qed.

Lemma lower_dot c : Ascii.eqb (lower c) "." = Ascii.eqb c ".".
Proof.
  unfold lower. destruct (_ && _) eqn:E; [|done].
  destruct (Ascii.eqb_spec c ".") as [->|Hne]; [done|].
  destruct (Ascii.eqb_spec (char (code c + 32)) ".") as [E'|]; [|done].
  apply (f_equal code) in E'. rewrite code_char in E' by lia.
  change (code ".") with 46 in E'. lia.
Qed.

(** The first dot of the lower-cased name is the first dot of the name. *)
Lemma cut_char_lower s a b :
  cut_char "." (str_map lower s) = Some (a, b) →
  ∃ a' b', s = a' +:+ "." +:+ b' ∧ String.length a' = String.length a ∧ count_char "." a' = 0.
Proof.
  revert a. induction s as [|c s IH]; intros a; cbn; [done|]. rewrite lower_dot.
  destruct (Ascii.eqb_spec c ".") as [->|Hne].
  - intros [= <- <-]. by exists EmptyString, s.
  - destruct (cut_char "." (str_map lower s)) as [[x y]|] eqn:E; cbn; [|done]. intros [= <- <-].
    destruct (IH x eq_refl) as (a' & b' & -> & Hl & Hn). exists (String c a'), b'.
    change (count_char "." (String c a')) with ((if Ascii.eqb "." c then 1 else 0) + count_char "." a').
    rewrite Hn. destruct (Ascii.eqb_spec "." c); [congruence|].
    split_and!; [done|cbn [String.length]; by rewrite Hl|done].
Qed.

Lemma length_chars s : length (chars s) = String.length s.
Proof. induction s; cbn; auto. Qed.

Lemma count_char_app c s t : count_char c (s +:+ t) = count_char c s + count_char c t.
Proof. induction s as [|d s IH]; cbn; [done|]. rewrite IH. lia. Qed.

Lemma count_char_nonneg c s : 0 ≤ count_char c s.
Proof. induction s; cbn; [lia|]. case_match; lia. Qed.

Lemma count_char_contains c s : contains_char s c = true → 1 ≤ count_char c s.
Proof.
  unfold contains_char. induction s as [|d s IH]; cbn; [done|].
  pose proof (count_char_nonneg c s). destruct (Ascii.eqb c d); cbn; [lia|]. intros. specialize (IH ltac:(done)). lia.
Qed.

(** ** Lemmas: reading a rule *)

Lemma Contains_absent c t s :
  str_forallb (λ d, negb (Ascii.eqb c d)) s = true → Contains s (String c t) = false.
Proof.
  induction s as [|d s IH]; cbn; [done|]. intros [H1 H2]%andb_true_iff.
  apply negb_true_iff in H1. rewrite H1. cbn. auto.
Qed.

Lemma has_prefix_absent c t s :
  str_forallb (λ d, negb (Ascii.eqb c d)) s = true → has_prefix s (String c t) = false.
Proof.
  destruct s as [|d s]; cbn; [done|]. intros [H1 _]%andb_true_iff.
  apply negb_true_iff in H1. by rewrite H1.
Qed.

Lemma Contains_prefix s t u : has_prefix t u = true → Contains (s +:+ t) u = true.
Proof.
  intros H. induction s as [|c s IH]; cbn [String.append Contains].
  - destruct t; cbn [Contains]; by rewrite H.
  - rewrite IH. apply orb_true_r.
Qed.

Lemma cut_char_before sep s t :
  str_forallb (λ c, negb (Ascii.eqb sep c)) s = true → cut_char sep (s +:+ String sep t) = Some (s, t).
Proof.
  induction s as [|d s IH]; cbn [str_forallb String.append cut_char].
  - intros _. by rewrite Ascii.eqb_refl.
  - intros [H1 H2]%andb_true_iff. apply negb_true_iff in H1. rewrite Ascii.eqb_sym, H1 || rewrite H1. by rewrite IH.
Qed.

Lemma before_any_clean set s t :
  str_forallb (λ d, negb (in_set set d)) s = true → before_any set (s +:+ t) = s +:+ before_any set t.
Proof.
  induction s as [|d s IH]; cbn; [done|]. intros [H1 H2]%andb_true_iff.
  apply negb_true_iff in H1. rewrite H1. by rewrite IH.
Qed.

(** The characters of a name are none of the syntax. *)
Lemma name_char_not c k : name_char c = true → name_char k = false → Ascii.eqb k c = false.
Proof. intros H1 H2. destruct (Ascii.eqb_spec k c) as [->|]; [congruence|done]. Qed.

Lemma name_absent k d :
  name_char k = false → str_forallb name_char d = true → str_forallb (λ c, negb (Ascii.eqb k c)) d = true.
Proof.
  intros Hk. apply str_forallb_impl. intros c Hc. by rewrite (name_char_not c k).
Qed.

Lemma name_no_set set d :
  str_forallb (λ k, negb (name_char k)) set = true → str_forallb name_char d = true →
  str_forallb (λ c, negb (in_set set c)) d = true.
Proof.
  intros Hset. apply str_forallb_impl. intros c Hc. unfold in_set, contains_char.
  clear -Hset Hc. induction set as [|k set IH]; cbn in *; [done|].
  apply andb_true_iff in Hset as [Hk Hset]. apply negb_true_iff in Hk.
  destruct (Ascii.eqb_spec c k) as [->|]; [congruence|]. cbn. auto.
Qed.

(** ** Properties *)

Section Claims.
Context (uni_lower : string → string) (idna_ToASCII : string → option string).

(** C40: a normalised domain is safe in a zone file: it consists of letters,
    digits, hyphens, underscores and dots, so no white space, comment or line
    end, and each of its labels has between 1 and 63 characters; whatever
    [idna.ToASCII] returns. *)
Theorem normalizeDomain_safe d :
  let v := normalizeDomain uni_lower idna_ToASCII d in
  v ≠ EmptyString →
  str_forallb name_char v = true ∧
  Forall (λ l, (1 ≤ String.length l ≤ 63)%nat) (split_char "." v).
Proof.
  intros v Hv. subst v. unfold normalizeDomain in *.
  repeat case_match; try done.
  match goal with H : forallb isValidLabel _ = true |- _ => rename H into Hl end.
  rewrite forallb_forall in Hl. split.
  - apply (split_char_forallb _ "."); [done|]. apply forallb_forall. intros l Hin%Hl.
    apply isValidLabel_spec in Hin as [_ Hin].
    eapply str_forallb_impl; [|exact Hin]. intros c Hc. unfold name_char. rewrite Hc. done.
  - apply Forall_forall. intros l Hin%list_elem_of_In%Hl. by apply isValidLabel_spec in Hin as [? _].
Qed.

(** Stripping a [www.], [m.], [hd.], [cdn.] or numeric prefix only widens
    an entry: the name is the result or below it, and the result still has a
    dot, so a top-level domain never results. *)
Theorem stripPrefix_widens d :
  is_ascii d = true → contains_char d "." = true →
  let s := stripPrefix uni_lower d in
  (d = s ∨ below d s) ∧ 1 ≤ count_char "." s.
Proof.
  intros Ha Hd s.
  assert (1 ≤ count_char "." d) as H1 by by apply count_char_contains.
  subst s. unfold stripPrefix, ToLower. rewrite Ha.
  destruct (Z.leb_spec 2 (count_char "." d)) as [H2|H2]; [|auto].
  destruct (cut_char "." (str_map lower d)) as [[prefix rest]|] eqn:E; [|auto].
  destruct (_ && _); [|auto].
  destruct (cut_char_lower d prefix rest E) as (a & b & -> & Hl & Hn).
  assert (of_chars (drop (S (String.length prefix)) (chars (a +:+ "." +:+ b))) = b) as ->.
  { rewrite !chars_app. cbn. rewrite drop_app_ge by (rewrite length_chars; lia).
    rewrite length_chars. replace (S (String.length prefix) - String.length a)%nat with 1%nat by lia.
    cbn. by rewrite drop_0, of_chars_chars. }
  split; [right; by exists a|]. rewrite !count_char_app, Hn in H2. cbn in H2. lia.
Qed.

(** The part of [parseAdblockLine] after the markers. *)
Lemma parse_marked d t line isEx b :
  str_forallb name_char d = true → d ≠ EmptyString →
  normalizeDomain uni_lower idna_ToASCII d = d →
  t = EmptyString ∨ t = "^" →
  TrimSpace line = line → line ≠ EmptyString →
  str_forallb (λ c, negb (Ascii.eqb "#" c)) line = true →
  (if has_prefix line "@@||" then (true, of_chars (drop 4 (chars line)))
   else if has_prefix line "||" then (false, of_chars (drop 2 (chars line)))
   else if has_prefix line "@@" then (true, of_chars (drop 2 (chars line)))
   else (b, line)) = (isEx, d +:+ t) →
  parseAdblockLine uni_lower idna_ToASCII line b = Some (mkRule d isEx).
Proof.
  intros Hd Hne Hn Ht Hts Hl Hh E. unfold parseAdblockLine. rewrite Hts.
  rewrite bool_decide_eq_false_2, !Contains_absent by done. cbn [orb]. rewrite E.
  assert (∀ k, name_char k = false → Ascii.eqb k "^" = false →
            str_forallb (λ c, negb (Ascii.eqb k c)) (d +:+ t) = true) as Hdt.
  { intros k Hk Hk'. rewrite str_forallb_app, name_absent by done.
    destruct Ht as [-> | ->]; cbn [str_forallb]; [done|]. by rewrite Hk'. }
  rewrite has_prefix_absent, (Contains_absent "/") by (by apply Hdt). cbn zeta.
  assert (before_any "^$*" (d +:+ t) = d) as ->.
  { rewrite before_any_clean by (by apply name_no_set). destruct Ht as [-> | ->];
      (etrans; [|apply str_app_nil_r]); done. }
  rewrite TrimSpace_plain by (eapply str_forallb_impl; [apply name_char_plain|done]).
  rewrite bool_decide_eq_false_2, (Contains_absent "*") by (done || by apply name_absent). cbn [orb andb].
  by rewrite Hn, bool_decide_eq_false_2.
Qed.

(** An adblock rule for a normalised domain is read back: a plain line
    takes its meaning from the file, [@@||d^] is an exception, and [||d^] is
    never one, not even in a file of exceptions. *)
Theorem parseAdblockLine_rules d b :
  str_forallb name_char d = true → d ≠ EmptyString →
  normalizeDomain uni_lower idna_ToASCII d = d →
  parseAdblockLine uni_lower idna_ToASCII d b = Some (mkRule d b) ∧
  parseAdblockLine uni_lower idna_ToASCII ("@@||" +:+ d +:+ "^") b = Some (mkRule d true) ∧
  parseAdblockLine uni_lower idna_ToASCII ("||" +:+ d +:+ "^") b = Some (mkRule d false).
Proof.
  intros Hd Hne Hn.
  assert (str_forallb plain_char d = true) as Hp by (eapply str_forallb_impl; [apply name_char_plain|done]).
  assert (str_forallb (λ c, negb (Ascii.eqb "#" c)) d = true) as Hh by (by apply name_absent).
  split_and!.
  - apply (parse_marked d EmptyString); auto using TrimSpace_plain.
    rewrite !has_prefix_absent, str_app_nil_r by (by apply name_absent). done.
  - apply (parse_marked d "^"); auto.
    + apply TrimSpace_plain. rewrite !str_forallb_app, Hp. done.
    + rewrite !str_forallb_app, Hh. done.
    + cbn. by rewrite drop_0, of_chars_chars.
  - apply (parse_marked d "^"); auto.
    + apply TrimSpace_plain. rewrite !str_forallb_app, Hp. done.
    + rewrite !str_forallb_app, Hh. done.
    + cbn. by rewrite drop_0, of_chars_chars.
Qed.

(** A cosmetic rule [d##selector] hides elements of the pages of [d] in a
    browser.  [parseAdblockLine] means to skip such rules, but [validateFile]
    has by then cut the line at its first [#]: the line becomes the domain
    alone, and a list containing it blocks the whole of [d]. *)
Theorem cosmetic_rule_blocks_domain d selector :
  str_forallb name_char d = true → d ≠ EmptyString →
  normalizeDomain uni_lower idna_ToASCII d = d → str_forallb plain_char selector = true →
  validate_line uni_lower idna_ToASCII false false false false (d +:+ "##" +:+ selector) =
    mkFileResult [mkRule d false] [] [] ∧
  parseAdblockLine uni_lower idna_ToASCII (d +:+ "##" +:+ selector) false = None.
Proof.
  intros Hd Hne Hn Hs.
  assert (str_forallb plain_char d = true) as Hp by (eapply str_forallb_impl; [apply name_char_plain|done]).
  assert (str_forallb (λ c, negb (Ascii.eqb "#" c)) d = true) as Hh by (by apply name_absent).
  assert (TrimSpace (d +:+ "##" +:+ selector) = d +:+ "##" +:+ selector) as Ht.
  { apply TrimSpace_plain. rewrite !str_forallb_app, Hp, Hs. done. }
  split.
  - assert (line_content (d +:+ "##" +:+ selector) = Some d) as Hc.
    { unfold line_content. rewrite Ht. change ("##" +:+ selector) with (String "#" (String "#" selector)).
      rewrite (cut_char_before "#" d (String "#" selector)) by done.
      rewrite (TrimSpace_plain d), bool_decide_eq_false_2 by done.
      destruct d as [|c d']; [done|]. cbn in Hd. apply andb_true_iff in Hd as [Hc _].
      cbn [String.append]. rewrite (Ascii.eqb_sym c "#"), (Ascii.eqb_sym c ";"), !(name_char_not c) by done. done. }
    unfold validate_line. rewrite Hc. rewrite !has_prefix_absent by (by apply name_absent). cbn [orb].
    rewrite (parse_marked d EmptyString d false false); auto using TrimSpace_plain.
    rewrite !has_prefix_absent, str_app_nil_r by (by apply name_absent). done.
  - unfold parseAdblockLine. rewrite Ht.
    assert (Contains (d +:+ "##" +:+ selector) "##" = true) as ->; [|by rewrite orb_true_r].
    by apply Contains_prefix.
Qed.
End Claims.

Lemma normalizeDomain_safe_witness :
  str_forallb name_char (normalizeDomain id Some " *.Example.COM ") = true ∧
  normalizeDomain id Some " *.Example.COM " = "example.com".
Proof.
  split; [|vm_compute; reflexivity].
  refine (proj1 (normalizeDomain_safe id Some " *.Example.COM " _)). vm_compute. discriminate.
Defined.

Lemma stripPrefix_widens_witness :
  below "www2.example.com" (stripPrefix id "www2.example.com") ∧
  stripPrefix id "www2.example.com" = "example.com".
Proof.
  split; [|vm_compute; reflexivity].
  destruct (proj1 (stripPrefix_widens id "www2.example.com" eq_refl eq_refl)) as [E|E].
  - vm_compute in E. discriminate E.
  - exact E.
Defined.

Lemma parseAdblockLine_rules_witness :
  parseAdblockLine id Some "||ads.example.com^" true = Some (mkRule "ads.example.com" false).
Proof.
  refine (proj2 (proj2 (parseAdblockLine_rules id Some "ads.example.com" true _ _ _))).
  - vm_compute. reflexivity.
  - discriminate.
  - vm_compute. reflexivity.
Defined.

Lemma cosmetic_rule_blocks_domain_witness :
  validate_line id Some false false false false "example.com##.banner" = mkFileResult [mkRule "example.com" false] [] [].
Proof.
  refine (proj1 (cosmetic_rule_blocks_domain id Some "example.com" ".banner" _ _ _ _)).
  - vm_compute. reflexivity.
  - discriminate.
  - vm_compute. reflexivity.
  - vm_compute. reflexivity.
Defined.
