(* ===== verification/IPNets.v ===== *)
(** * Address lists ([internal/parser/compiler.go]): parsing, aggregation, routes

    Addresses are lists of bits, most significant first, 32 or 128 of them; a
    prefix is an address with a number of leading bits.  The set arithmetic is
    done by the third-party package netipx; it is the class [IPSetLib], with the
    documented behaviour of [IPSetBuilder] as its laws, and IPTrie.v gives an
    instance.  Reading and writing files is not modelled: the functions take
    lines and return texts. *)

From Stdlib Require Import Ascii.
From Stdlib Require String.
From stdpp Require Import prelude gmap strings.
From S2P Require Import Prelude GoStrings GoText GoNet Domains.

#[local] Arguments String.append : simpl nomatch.

(** ** Data *)

(** [netip.Prefix] with a valid address. *)
Record Prefix := mkPrefix { Is6 : bool; addr : list bool; Bits : nat }.

#[export] Instance Prefix_eq_dec : EqDecision Prefix.
Proof. solve_decision. Defined.

Definition width (isV6 : bool) : nat := if isV6 then 128 else 32.

Definition prefix_ok (p : Prefix) : Prop :=
  length (addr p) = width (Is6 p) ∧ (Bits p ≤ width (Is6 p))%nat.

(** The address [a] of the family of [p] lies in [p]. *)
Definition inside (p : Prefix) (a : list bool) : Prop := take (Bits p) a = take (Bits p) (addr p).

(** The address of family [isV6] lies in one of the prefixes. *)
Definition in_nets (l : list Prefix) (isV6 : bool) (a : list bool) : Prop :=
  ∃ p, p ∈ l ∧ Is6 p = isV6 ∧ inside p a.

(** [Prefix.Masked] of the first [n] bits. *)
Definition masked (isV6 : bool) (a : list bool) (n : nat) : Prefix :=
  mkPrefix isV6 (take n a ++ replicate (width isV6 - n) false) n.

(** ** Text *)

Definition byte_bits (b : Byte.byte) : list bool :=
  (λ i, Z.testbit (Z_of_byte b) i) <$> [7; 6; 5; 4; 3; 2; 1; 0].

Definition bytes_bits (l : list Byte.byte) : list bool := concat (byte_bits <$> l).

Fixpoint last_slash (s : string) : option (string * string) :=
  match s with
  | EmptyString => None
  | String c s' =>
      match last_slash s' with
      | Some (a, b) => Some (String c a, b)
      | None => if Ascii.eqb c "/" then Some (EmptyString, s') else None
      end
  end.

(** [netip.ParsePrefix]. *)
Definition ParsePrefix (s : string) : option Prefix :=
  '(ipPart, bitsStr) ← last_slash s;
  ip ← ParseAddr ipPart;
  n ← (match bitsStr with
       | String c (String _ _) => if (49 <=? code c) && (code c <=? 57) then atoi bitsStr else None
       | _ => atoi bitsStr
       end);
  match ip with
  | Addr4 b => if (0 <=? n) && (n <=? 32) then Some (mkPrefix false (bytes_bits b) (Z.to_nat n)) else None
  | Addr6 b EmptyString => if (0 <=? n) && (n <=? 128) then Some (mkPrefix true (bytes_bits b) (Z.to_nat n)) else None
  | Addr6 _ _ => None
  end.

(** One line of [parseIPFile]. *)
Definition parse_ip_line (line : string) : option Prefix :=
  ipPart ← line_content line;
  let ipPart :=
    if negb (Contains ipPart "/") then
      if Contains ipPart ":" then ipPart +:+ "/128" else ipPart +:+ "/32"
    else ipPart in
  ParsePrefix ipPart.

(** [parseIPFile] on the lines of a file. *)
Definition parseIPFile (lines : list string) : list Prefix := omap parse_ip_line lines.

(** [loadIPs]: the manual file, then the downloads in the order they finish. *)
Definition loadIPs (manual : list string) (downloaded : list (list string)) : list Prefix :=
  parseIPFile manual ++ concat (parseIPFile <$> downloaded).

(** ** Filtering *)

Definition filterIPNets (src : list Prefix) (isV6 applySafeguard : bool) : list Prefix :=
  filter (λ n, Is_true
    (Bool.eqb (Is6 n) isV6 &&
     negb (applySafeguard && ((negb isV6 && (Bits n <? 4)%nat) || (isV6 && (Bits n <? 16)%nat))))) src.

(** ** Set arithmetic: the netipx package *)

(** [ipset inc exc] is [IPSet.Prefixes] after [AddPrefix] of [inc] and
    [RemovePrefix] of [exc]: the minimal sorted list of prefixes covering the
    addresses added and not removed. *)
Class IPSetLib := { ipset : list Prefix → list Prefix → list Prefix }.

Class IPSetLaws `{IPSetLib} : Prop := {
  (** the result consists of proper prefixes *)
  ipset_ok inc exc : Forall prefix_ok inc → Forall prefix_ok exc → Forall prefix_ok (ipset inc exc);
  (** and covers exactly the difference *)
  ipset_denotes inc exc isV6 a :
    Forall prefix_ok inc → Forall prefix_ok exc → length a = width isV6 →
    in_nets (ipset inc exc) isV6 a ↔ in_nets inc isV6 a ∧ ¬ in_nets exc isV6 a;
  (** two different prefixes of the result do not overlap *)
  ipset_disjoint inc exc p q a :
    Forall prefix_ok inc → Forall prefix_ok exc →
    p ∈ ipset inc exc → q ∈ ipset inc exc → Is6 p = Is6 q → length a = width (Is6 p) →
    inside p a → inside q a → p = q;
  (** a prefix all of whose addresses are covered lies within one of the result *)
  ipset_maximal inc exc q :
    Forall prefix_ok inc → Forall prefix_ok exc → prefix_ok q →
    (∀ a, length a = width (Is6 q) → inside q a → in_nets (ipset inc exc) (Is6 q) a) →
    ∃ p, p ∈ ipset inc exc ∧ Is6 p = Is6 q ∧ ∀ a, length a = width (Is6 q) → inside q a → inside p a;
}.

Section Compile.
Context `{IPSetLib}.

Definition subNetsOptimized (incNets excNets : list Prefix) (isV6 : bool) : list Prefix :=
  ipset incNets excNets.

Definition collapseIPNets (nets : list Prefix) (isV6 : bool) : list Prefix := subNetsOptimized nets [] isV6.

(** ** Aggregation *)

Definition maxPrefix (res : list Prefix) : Z := foldl (λ m n, if m <? Z.of_nat (Bits n) then Z.of_nat (Bits n) else m) (-1) res.

Definition minPrefix (isV6 : bool) : Z := if isV6 then 32 else 12.

(** One widening step: the longest prefixes lose their last bit. *)
Definition widen (m : Z) (n : Prefix) : Prefix :=
  if Z.of_nat (Bits n) =? m then masked (Is6 n) (addr n) (Z.to_nat (m - 1)) else n.

(** The loop; [fuel] bounds its iterations, of which there are at most as many
    as an address has bits. *)
Fixpoint aggregate_loop (fuel : nat) (res : list Prefix) (limit : Z) (isV6 : bool) : option (list Prefix) :=
  match fuel with
  | O => None
  | S fuel' =>
      if limit <? Z.of_nat (length res) then
        let m := maxPrefix res in
        if m <=? minPrefix isV6 then Some res
        else aggregate_loop fuel' (collapseIPNets (widen m <$> res) isV6) limit isV6
      else Some res
  end.

Definition aggregatePrefixes (nets : list Prefix) (limit : Z) (isV6 : bool) : option (list Prefix) :=
  match nets with
  | [] => Some nets
  | _ => if limit <=? 0 then Some nets
         else let res := collapseIPNets nets isV6 in
              if Z.of_nat (length res) <=? limit then Some res else aggregate_loop 130 res limit isV6
  end.

(** ** The compiled lists *)

Record IPCompileResult := mkIPCompileResult {
  RawRoutes : Z; ExcRoutes : Z; AggrRoutes : Z; RawDeny : Z; AggrDeny : Z;
}.

(** One iteration of [compileIPs]: the contents of deny-ips and route-ips for
    one family, and its statistics. *)
Definition compile_family (limit : Z) (incIps excIps denyIps : list Prefix) (isV6 : bool)
    : option (list Prefix * list Prefix * IPCompileResult) :=
  let nets := filterIPNets incIps isV6 true in
  let exNets := filterIPNets excIps isV6 false in
  let dnNets := filterIPNets denyIps isV6 false in
  let resDeny := subNetsOptimized dnNets [] isV6 in
  let exCombined := exNets ++ dnNets in
  aggrNets ← aggregatePrefixes nets limit isV6;
  let resRoutes := subNetsOptimized aggrNets exCombined isV6 in
  Some (resDeny, resRoutes,
        mkIPCompileResult (Z.of_nat (length nets)) (Z.of_nat (length exCombined))
          (Z.of_nat (length resRoutes)) (Z.of_nat (length dnNets)) (Z.of_nat (length resDeny))).

Definition compileIPs (limit : Z) (incIps excIps denyIps : list Prefix) :=
  r4 ← compile_family limit incIps excIps denyIps false;
  r6 ← compile_family limit incIps excIps denyIps true;
  Some (r4, r6).
End Compile.

(** ** The written files *)

Definition bits_byte (l : list bool) : Byte.byte := byte_of_Z (foldl (λ z b, 2 * z + Z.b2z b) 0 l).

Fixpoint bits_bytes (fuel : nat) (l : list bool) : list Byte.byte :=
  match fuel, l with
  | S f, _ :: _ => bits_byte (take 8 l) :: bits_bytes f (drop 8 l)
  | _, _ => []
  end.

(** [Prefix.String]. *)
Definition Prefix_String (p : Prefix) : string :=
  let b := bits_bytes 16 (addr p) in
  (if Is6 p then
     (if bool_decide (take 12 b = v4InV6Prefix) then "::ffff:" +:+ fmt4 (drop 12 b) else IP_String b)
   else fmt4 b) +:+ "/" +:+ itoa (Z.of_nat (Bits p)).

(** The text [writeIPFile] writes. *)
Definition writeIPFile (nets : list Prefix) : string :=
  foldr (λ n acc, Prefix_String n +:+ nl +:+ acc) EmptyString nets.
