(* ===== verification/IPTrie.v ===== *)
(** * A binary trie as an instance of the address-set interface

    An executable [IPSetLib] that satisfies [IPSetLaws]: one trie of bits per
    family, normalised so that a node with two equal leaves is a leaf.  It shows
    that the laws the compiler relies on can hold and lets the definitions of
    IPNets.v run on examples. *)

From stdpp Require Import prelude gmap strings.
From S2P Require Import Prelude GoStrings GoNet IPNets.

(** ** Definitions *)

Inductive trie := Leaf (b : bool) | Node (l r : trie).

(** The leaf or node with these children. *)
Definition node (l r : trie) : trie :=
  match l, r with
  | Leaf true, Leaf true => Leaf true
  | Leaf false, Leaf false => Leaf false
  | _, _ => Node l r
  end.

Fixpoint mem (t : trie) (a : list bool) : bool :=
  match t, a with
  | Leaf b, _ => b
  | Node l r, x :: a' => mem (if x then r else l) a'
  | Node _ _, [] => false
  end.

Definition child (t : trie) (x : bool) : trie :=
  match t with Leaf b => Leaf b | Node l r => if x then r else l end.

(** Makes all addresses below [path] members, or none of them. *)
Fixpoint set_path (b : bool) (path : list bool) (t : trie) : trie :=
  match path with
  | [] => Leaf b
  | true :: path' => node (child t false) (set_path b path' (child t true))
  | false :: path' => node (set_path b path' (child t false)) (child t true)
  end.

Fixpoint to_paths (t : trie) : list (list bool) :=
  match t with
  | Leaf b => if b then [[]] else []
  | Node l r => ((λ p, false :: p) <$> to_paths l) ++ ((λ p, true :: p) <$> to_paths r)
  end.

Fixpoint depth (t : trie) : nat :=
  match t with Leaf _ => 0 | Node l r => S (depth l `max` depth r) end.

Fixpoint norm (t : trie) : Prop :=
  match t with
  | Leaf _ => True
  | Node l r => norm l ∧ norm r ∧ ∀ b, ¬ (l = Leaf b ∧ r = Leaf b)
  end.

Definition paths_of (isV6 : bool) (l : list Prefix) : list (list bool) :=
  omap (λ p, if Bool.eqb (Is6 p) isV6 then Some (take (Bits p) (addr p)) else None) l.

Definition trie_of (inc exc : list (list bool)) : trie :=
  foldl (λ t p, set_path false p t) (foldl (λ t p, set_path true p t) (Leaf false) inc) exc.

Definition family_set (isV6 : bool) (inc exc : list Prefix) : list Prefix :=
  (λ path, masked isV6 path (length path)) <$> to_paths (trie_of (paths_of isV6 inc) (paths_of isV6 exc)).

#[export] Instance trie_lib : IPSetLib :=
  {| ipset inc exc := family_set false inc exc ++ family_set true inc exc |}.

(** ** Lemmas: tries *)

Lemma mem_node l r x a : mem (node l r) (x :: a) = mem (if x then r else l) a.
Proof. unfold node. destruct l as [[]|], r as [[]|], x; done. Qed.

Lemma depth_node l r n : (depth l ≤ n)%nat → (depth r ≤ n)%nat → (depth (node l r) ≤ S n)%nat.
Proof. unfold node. intros. destruct l as [[]|], r as [[]|]; cbn in *; lia. Qed.

Lemma norm_node l r : norm l → norm r → norm (node l r).
Proof.
  unfold node. intros. destruct l as [[]|], r as [[]|]; cbn in *; split_and?; try tauto; naive_solver.
Qed.

Lemma norm_child t x : norm t → norm (child t x).
Proof. destruct t; cbn; [done|]. intros (? & ? & _). by destruct x. Qed.

Lemma depth_child t x n : (depth t ≤ S n)%nat → (depth (child t x) ≤ n)%nat.
Proof. destruct t; cbn; [lia|]. destruct x; lia. Qed.

Lemma mem_child t x a : mem (child t x) a = mem t (x :: a).
Proof. by destruct t as [|l r]. Qed.

Lemma set_path_norm b path t : norm t → norm (set_path b path t).
Proof.
  revert t. induction path as [|x path IH]; intros t Ht; cbn; [done|].
  destruct x; apply norm_node; auto using norm_child.
Qed.

Lemma set_path_depth b path t n :
  (depth t ≤ n)%nat → (length path ≤ n)%nat → (depth (set_path b path t) ≤ n)%nat.
Proof.
  revert t n. induction path as [|x path IH]; intros t n Ht Hp; cbn in *; [lia|].
  destruct n as [|n]; [lia|]. destruct x; apply depth_node; auto using depth_child with lia.
Qed.

Lemma set_path_mem b path t a :
  (length path ≤ length a)%nat →
  mem (set_path b path t) a = if bool_decide (take (length path) a = path) then b else mem t a.
Proof.
  revert t a. induction path as [|x path IH]; intros t a Ha.
  { cbn. by rewrite bool_decide_eq_true_2. }
  destruct a as [|y a]; cbn in Ha; [lia|].
  assert (mem (set_path b (x :: path) t) (y :: a) =
    if Bool.eqb x y then mem (set_path b path (child t x)) a else mem (child t y) a) as ->.
  { destruct x, y; cbn [set_path Bool.eqb]; by rewrite mem_node. }
  cbn [length take]. destruct (Bool.eqb_spec x y) as [->|Hne].
  - rewrite IH, <- mem_child by lia.
    rewrite (bool_decide_ext (y :: _ = y :: path) (take (length path) a = path)); [done|].
    split; [by intros [=]|by intros ->].
  - rewrite mem_child, bool_decide_eq_false_2; [done|]. by intros [= -> _].
Qed.

Lemma to_paths_mem t a :
  (depth t ≤ length a)%nat →
  mem t a = true ↔ ∃ path, path ∈ to_paths t ∧ take (length path) a = path.
Proof.
  revert a. induction t as [b|l IHl r IHr]; intros a Hd; cbn.
  - destruct b; [|set_solver]. split; [|done]. intros _. exists []. set_solver.
  - destruct a as [|x a]; cbn in Hd; [lia|]. cbn.
    assert (∀ u, u ∈ ((λ p, false :: p) <$> to_paths l) ++ ((λ p, true :: p) <$> to_paths r) ↔
      ∃ p, u = false :: p ∧ p ∈ to_paths l ∨ u = true :: p ∧ p ∈ to_paths r) as Hu.
    { intros u. rewrite elem_of_app, !list_elem_of_fmap. naive_solver. }
    destruct x; [rewrite (IHr a) by lia|rewrite (IHl a) by lia]; split.
    + intros (p & Hp & E). exists (true :: p). rewrite Hu. split; [eauto|]. cbn. by rewrite E.
    + intros (u & [p [[-> Hp]|[-> Hp]]]%Hu & E); cbn in E; simplify_eq. exists p. split; [done|]. congruence.
    + intros (p & Hp & E). exists (false :: p). rewrite Hu. split; [eauto|]. cbn. by rewrite E.
    + intros (u & [p [[-> Hp]|[-> Hp]]]%Hu & E); cbn in E; simplify_eq. exists p. split; [done|]. congruence.
Qed.

Lemma to_paths_depth t path : path ∈ to_paths t → (length path ≤ depth t)%nat.
Proof.
  revert path. induction t as [b|l IHl r IHr]; intros path; cbn; [destruct b; set_solver by lia|].
  rewrite elem_of_app, !list_elem_of_fmap. intros [(p & -> & Hp)|(p & -> & Hp)]; cbn.
  - apply IHl in Hp. lia.
  - apply IHr in Hp. lia.
Qed.

Lemma to_paths_disjoint t p q a :
  p ∈ to_paths t → q ∈ to_paths t → take (length p) a = p → take (length q) a = q → p = q.
Proof.
  revert p q a. induction t as [b|l IHl r IHr]; intros p q a; cbn; [destruct b; set_solver|].
  rewrite !elem_of_app, !list_elem_of_fmap.
  intros [(p' & -> & Hp)|(p' & -> & Hp)] [(q' & -> & Hq)|(q' & -> & Hq)];
    destruct a as [|x a]; cbn; intros E1 E2; simplify_eq; f_equal; eauto.
Qed.

Lemma norm_full t n :
  norm t → (depth t ≤ n)%nat → (∀ a, length a = n → mem t a = true) → t = Leaf true.
Proof.
  revert n. induction t as [b|l IHl r IHr]; intros n Hn Hd Hall.
  - specialize (Hall (replicate n false) (length_replicate n false)). cbn in Hall. by subst b.
  - destruct Hn as (Hl & Hr & Hne). cbn in Hd. destruct n as [|n]; [lia|]. exfalso.
    apply (Hne true). split.
    + apply (IHl n); [done|lia|]. intros a Ha. apply (Hall (false :: a)). cbn. by rewrite Ha.
    + apply (IHr n); [done|lia|]. intros a Ha. apply (Hall (true :: a)). cbn. by rewrite Ha.
Qed.

Lemma to_paths_maximal q : ∀ t n,
  norm t → (depth t ≤ n)%nat → (length q ≤ n)%nat →
  (∀ a, length a = n → take (length q) a = q → mem t a = true) →
  ∃ p, p ∈ to_paths t ∧ take (length p) q = p.
Proof.
  induction q as [|x q IH]; intros t n Hn Hd Hq Hall.
  - rewrite (norm_full t n); [|done|done|intros a Ha; by apply Hall]. exists []. set_solver.
  - destruct t as [b|l r].
    + destruct b; [exists []; set_solver|].
      specialize (Hall ((x :: q) ++ replicate (n - length (x :: q)) false)).
      cbn [mem] in Hall. rewrite take_app_le, take_ge in Hall by lia.
      discriminate Hall; [|done]. rewrite length_app, length_replicate. lia.
    + destruct n as [|n]; [cbn in Hd; lia|]. destruct Hn as (Hl & Hr & _). cbn in Hd, Hq.
      destruct (IH (if x then r else l) n) as (p & Hp & E).
      * by destruct x.
      * destruct x; lia.
      * lia.
      * intros a Ha Ht. apply (Hall (x :: a)); cbn; [by rewrite Ha|by rewrite Ht].
      * exists (x :: p). cbn. rewrite E. split; [|done]. rewrite elem_of_app.
        destruct x; [right|left]; by apply list_elem_of_fmap_2.
Qed.

(** ** Lemmas: the sets *)

Section Family.
Context (isV6 : bool) (inc exc : list Prefix).
Context (Hinc : Forall prefix_ok inc) (Hexc : Forall prefix_ok exc).
Let t := trie_of (paths_of isV6 inc) (paths_of isV6 exc).

Lemma elem_of_paths l path :
  path ∈ paths_of isV6 l ↔ ∃ p, p ∈ l ∧ Is6 p = isV6 ∧ path = take (Bits p) (addr p).
Proof.
  unfold paths_of. rewrite list_elem_of_omap. split.
  - intros (p & Hp & E). exists p. destruct (Bool.eqb_spec (Is6 p) isV6); naive_solver.
  - intros (p & Hp & <- & ->). exists p. by rewrite eqb_reflx.
Qed.

Lemma paths_length l : Forall prefix_ok l → Forall (λ path, (length path ≤ width isV6)%nat) (paths_of isV6 l).
Proof.
  intros Hl. apply Forall_forall. intros path (p & Hp & <- & ->)%elem_of_paths.
  destruct (proj1 (Forall_forall _ _) Hl p Hp) as [H1 H2]. rewrite length_take. lia.
Qed.

Lemma fold_paths_wf b l t0 :
  norm t0 → (depth t0 ≤ width isV6)%nat → Forall (λ path, (length path ≤ width isV6)%nat) l →
  norm (foldl (λ t p, set_path b p t) t0 l) ∧ (depth (foldl (λ t p, set_path b p t) t0 l) ≤ width isV6)%nat.
Proof.
  revert t0. induction l as [|p l IH]; intros t0 Hn Hd Hl; cbn; [done|].
  apply Forall_cons in Hl as [Hp Hl]. apply IH; auto using set_path_norm, set_path_depth.
Qed.

Lemma trie_wf : norm t ∧ (depth t ≤ width isV6)%nat.
Proof.
  unfold t, trie_of.
  destruct (fold_paths_wf true (paths_of isV6 inc) (Leaf false)) as [H1 H2];
    [done|cbn; lia|by apply paths_length|].
  apply fold_paths_wf; auto using paths_length.
Qed.

Lemma fold_paths_mem b l t0 a :
  length a = width isV6 → Forall (λ path, (length path ≤ width isV6)%nat) l →
  mem (foldl (λ t p, set_path b p t) t0 l) a = true ↔
  if b then mem t0 a = true ∨ ∃ p, p ∈ l ∧ take (length p) a = p
  else mem t0 a = true ∧ ¬ ∃ p, p ∈ l ∧ take (length p) a = p.
Proof.
  intros Ha. revert t0. induction l as [|p l IH]; intros t0 Hl; cbn.
  { destruct b; set_solver. }
  apply Forall_cons in Hl as [Hp Hl]. rewrite (IH _ Hl), set_path_mem by lia.
  assert ((∃ q, q ∈ p :: l ∧ take (length q) a = q) ↔
          take (length p) a = p ∨ ∃ q, q ∈ l ∧ take (length q) a = q) as Hex.
  { split; [intros (q & [->|]%elem_of_cons & ?); eauto|intros [?|(q & ? & ?)]; eexists; split; eauto; set_solver]. }
  destruct b; rewrite Hex; case_bool_decide; naive_solver.
Qed.

Lemma in_nets_paths l a :
  Forall prefix_ok l → length a = width isV6 →
  in_nets l isV6 a ↔ ∃ path, path ∈ paths_of isV6 l ∧ take (length path) a = path.
Proof.
  intros Hl Ha. unfold in_nets, inside. split.
  - intros (p & Hp & Hf & E). exists (take (Bits p) (addr p)). split; [apply elem_of_paths; eauto|].
    destruct (proj1 (Forall_forall _ _) Hl p Hp) as [H1 H2]. rewrite Hf in *. rewrite length_take, Nat.min_l by lia. done.
  - intros (path & (p & Hp & Hf & ->)%elem_of_paths & E). exists p. split_and!; [done..|].
    destruct (proj1 (Forall_forall _ _) Hl p Hp) as [H1 H2]. rewrite Hf in *. rewrite length_take, Nat.min_l in E by lia. done.
Qed.

Lemma trie_mem a :
  length a = width isV6 → mem t a = true ↔ in_nets inc isV6 a ∧ ¬ in_nets exc isV6 a.
Proof.
  intros Ha. unfold t, trie_of. rewrite (fold_paths_mem false) by auto using paths_length.
  rewrite (fold_paths_mem true) by auto using paths_length.
  rewrite !in_nets_paths by done. cbn. naive_solver.
Qed.

Lemma elem_of_family p :
  p ∈ family_set isV6 inc exc ↔ ∃ path, path ∈ to_paths t ∧ p = masked isV6 path (length path).
Proof. unfold family_set. rewrite list_elem_of_fmap. naive_solver. Qed.

Lemma family_path path : path ∈ to_paths t → (length path ≤ width isV6)%nat.
Proof. intros H%to_paths_depth. pose proof (proj2 trie_wf). lia. Qed.

Lemma inside_masked path a : inside (masked isV6 path (length path)) a ↔ take (length path) a = path.
Proof.
  unfold inside, masked. cbn [Bits addr]. rewrite (take_ge path), take_app_le, (take_ge path) by lia. done.
Qed.

Lemma family_set_ok : Forall prefix_ok (family_set isV6 inc exc).
Proof.
  apply Forall_forall. intros p (path & Hp & ->)%elem_of_family. apply family_path in Hp.
  unfold prefix_ok, masked. cbn. rewrite length_app, take_ge, length_replicate by lia. lia.
Qed.

Lemma family_denotes a :
  length a = width isV6 → in_nets (family_set isV6 inc exc) isV6 a ↔ mem t a = true.
Proof.
  intros Ha. rewrite to_paths_mem by (rewrite Ha; apply trie_wf). unfold in_nets. split.
  - intros (p & (path & Hp & ->)%elem_of_family & _ & Hi%inside_masked). eauto.
  - intros (path & Hp & E). exists (masked isV6 path (length path)).
    rewrite elem_of_family, inside_masked. eauto.
Qed.
End Family.

Lemma family_is6 isV6 inc exc p : p ∈ family_set isV6 inc exc → Is6 p = isV6.
Proof. by intros (path & _ & ->)%elem_of_family. Qed.

Lemma elem_of_ipset inc exc p : p ∈ ipset inc exc ↔ p ∈ family_set (Is6 p) inc exc.
Proof.
  cbn. rewrite elem_of_app. split.
  - intros [H|H]; pose proof (family_is6 _ _ _ _ H) as E; by rewrite E.
  - destruct (Is6 p); auto.
Qed.

Lemma in_nets_ipset inc exc isV6 a :
  in_nets (ipset inc exc) isV6 a ↔ in_nets (family_set isV6 inc exc) isV6 a.
Proof.
  unfold in_nets. split; intros (p & Hp & <- & Hi); exists p; split_and!; try done; by apply elem_of_ipset.
Qed.

#[export] Instance trie_laws : IPSetLaws.
Proof.
  split.
  - intros inc exc Hi He. cbn. apply Forall_app. auto using family_set_ok.
  - intros inc exc isV6 a Hi He Ha. rewrite in_nets_ipset, family_denotes by done. by apply trie_mem.
  - intros inc exc p q a Hi He Hp%elem_of_ipset Hq%elem_of_ipset E Ha Hpa Hqa.
    rewrite <- E in Hq. clear E Ha. revert Hp Hq. generalize (Is6 p). intros isV6 Hp Hq.
    apply elem_of_family in Hp as (u & Hu & ->), Hq as (v & Hv & ->).
    rewrite inside_masked in Hpa, Hqa. by rewrite (to_paths_disjoint _ u v a Hu Hv Hpa Hqa).
  - intros inc exc q Hi He [Hq1 Hq2] Hall. destruct (trie_wf (Is6 q) inc exc Hi He) as [Hn Hd].
    assert (length (take (Bits q) (addr q)) = Bits q) as Hl by (rewrite length_take; lia).
    destruct (to_paths_maximal (take (Bits q) (addr q)) _ _ Hn Hd) as (path & Hp & E).
    + lia.
    + intros a Ha Hta. rewrite Hl in Hta. specialize (Hall a Ha Hta).
      rewrite in_nets_ipset in Hall. by apply family_denotes in Hall.
    + exists (masked (Is6 q) path (length path)). split_and!; [|done|].
      * apply elem_of_ipset, elem_of_family. eauto.
      * intros a Ha Hia. apply inside_masked. unfold inside in Hia.
        assert (length path ≤ Bits q)%nat as Hle.
        { rewrite <- E, length_take, Hl. lia. }
        transitivity (take (length path) (take (Bits q) a)); [by rewrite take_take, Nat.min_l|].
        by rewrite Hia.
Qed.
