(* ===== verification/IPNetFacts.v ===== *)
(** * Address lists: aggregation ends, routes are exact

    Proved against the interface of the address-set package, [IPSetLaws]. *)

From Stdlib Require Import Ascii.
From stdpp Require Import prelude gmap strings.
From S2P Require Import Prelude GoStrings GoText GoNet Domains IPNets IPTrie.

(** ** Lemmas: prefixes *)

(** A prefix within another is at least as long. *)
Lemma inside_bits p q :
  prefix_ok p → prefix_ok q → Is6 p = Is6 q →
  (∀ a, length a = width (Is6 q) → inside q a → inside p a) → (Bits p ≤ Bits q)%nat.
Proof.
  intros [Hp1 Hp2] [Hq1 Hq2] E Hall. destruct (decide (Bits p ≤ Bits q)%nat) as [|Hlt]; [done|exfalso].
  set (a' := alter negb (Bits q) (addr q)).
  assert (inside p (addr q)) as H1 by (by apply Hall).
  assert (inside p a') as H2.
  { apply Hall; [unfold a'; by rewrite length_alter|]. unfold inside, a'.
    apply list_eq. intros i. destruct (decide (i < Bits q)%nat).
    - rewrite !lookup_take_lt by done. by rewrite list_lookup_alter_ne by lia.
    - by rewrite !lookup_take_ge by lia. }
  unfold inside in H1, H2. rewrite <- H1 in H2. apply (f_equal (λ l, l !! Bits q)) in H2.
  rewrite !lookup_take_lt in H2 by lia. unfold a' in H2. rewrite list_lookup_alter_eq in H2.
  destruct (lookup_lt_is_Some_2 (addr q) (Bits q)) as [b Hb]; [rewrite Hq1, <- E; lia|]. rewrite Hb in H2.
  by destruct b.
Qed.

Lemma inside_self p : inside p (addr p).
Proof. done. Qed.

Lemma in_nets_app l k isV6 a : in_nets (l ++ k) isV6 a ↔ in_nets l isV6 a ∨ in_nets k isV6 a.
Proof. unfold in_nets. set_solver. Qed.

(** The safeguard only drops prefixes of the family that are too wide. *)
Lemma filterIPNets_in src isV6 safeguard p :
  p ∈ filterIPNets src isV6 safeguard ↔
  p ∈ src ∧ Is6 p = isV6 ∧ (safeguard = true → ((if isV6 then 16 else 4) ≤ Bits p)%nat).
Proof.
  unfold filterIPNets. rewrite list_elem_of_filter, Is_true_true, andb_true_iff, eqb_true_iff, negb_true_iff.
  assert (safeguard && (negb isV6 && (Bits p <? 4)%nat || isV6 && (Bits p <? 16)%nat) = false ↔
    (safeguard = true → ((if isV6 then 16 else 4) ≤ Bits p)%nat)) as ->; [|tauto].
  destruct safeguard, isV6; cbn [negb andb orb]; rewrite ?orb_false_r, ?Nat.ltb_ge; split; intros; solve [done | auto].
Qed.

Lemma filterIPNets_ok src isV6 safeguard :
  Forall prefix_ok src → Forall prefix_ok (filterIPNets src isV6 safeguard).
Proof.
  intros H. apply Forall_forall. intros p (Hp & _)%filterIPNets_in. by eapply Forall_forall in Hp.
Qed.

Lemma in_nets_filter src isV6 a : in_nets (filterIPNets src isV6 false) isV6 a ↔ in_nets src isV6 a.
Proof.
  unfold in_nets. split; intros (p & Hp & Hf & Hi); exists p; split_and!; try done.
  - by apply filterIPNets_in in Hp as [? _].
  - by apply filterIPNets_in.
Qed.

(** ** Lemmas: collapsing *)

Section Facts.
Context `{IPSetLib, !IPSetLaws}.

Definition family_ok (isV6 : bool) (l : list Prefix) : Prop :=
  Forall (λ p, prefix_ok p ∧ Is6 p = isV6) l.

Lemma family_prefix_ok isV6 l : family_ok isV6 l → Forall prefix_ok l.
Proof. intros Hl. eapply Forall_impl; [exact Hl|]. naive_solver. Qed.

(** Collapsing keeps the addresses and the family and makes no prefix longer
    than the longest one. *)
Lemma collapse_spec isV6 l :
  family_ok isV6 l →
  family_ok isV6 (collapseIPNets l isV6) ∧
  (∀ a, length a = width isV6 → in_nets (collapseIPNets l isV6) isV6 a ↔ in_nets l isV6 a) ∧
  (∀ p, p ∈ collapseIPNets l isV6 → ∃ q, q ∈ l ∧ (Bits p ≤ Bits q)%nat).
Proof.
  intros Hl. pose proof (family_prefix_ok _ _ Hl) as Hok.
  unfold collapseIPNets, subNetsOptimized.
  pose proof (ipset_ok l [] Hok (Forall_nil_2 _)) as Hrok.
  assert (∀ v a, length a = width v → in_nets (ipset l []) v a ↔ in_nets l v a) as Hden.
  { intros v a Ha. rewrite ipset_denotes by done. unfold in_nets at 2. set_solver. }
  assert (∀ p, p ∈ ipset l [] → ∃ q, q ∈ l ∧ Is6 q = Is6 p ∧ (Bits p ≤ Bits q)%nat) as Hb.
  { intros p Hp. pose proof (proj1 (Forall_forall _ _) Hrok p Hp) as Hpok.
    pose proof Hpok as [Hp1 Hp2].
    destruct (proj1 (Hden (Is6 p) (addr p) Hp1)) as (q & Hq & Hf & Hi); [by exists p|].
    pose proof (proj1 (Forall_forall _ _) Hok q Hq) as Hqok.
    destruct (ipset_maximal l [] q Hok (Forall_nil_2 _) Hqok) as (p' & Hp' & Hf' & Hsub).
    - intros a Ha Hqa. apply Hden; [done|]. by exists q.
    - assert (p = p') as <-.
      { apply (ipset_disjoint l [] p p' (addr p) Hok (Forall_nil_2 _) Hp Hp'); [congruence|done|done|].
        apply Hsub; [by rewrite Hf|done]. }
      exists q. split_and!; [done..|]. by apply inside_bits. }
  split_and!; [|auto|].
  - apply Forall_forall. intros p Hp. split; [by eapply Forall_forall in Hrok|].
    destruct (Hb p Hp) as (q & Hq & <- & _). eapply Forall_forall in Hl; [|exact Hq]. naive_solver.
  - intros p Hp. destruct (Hb p Hp) as (q & ? & _ & ?). eauto.
Qed.

(** ** Lemmas: aggregation *)

Lemma maxPrefix_spec res :
  (∀ p, p ∈ res → Z.of_nat (Bits p) ≤ maxPrefix res) ∧
  (maxPrefix res = -1 ∨ ∃ p, p ∈ res ∧ maxPrefix res = Z.of_nat (Bits p)).
Proof.
  unfold maxPrefix.
  assert (∀ m, m ≤ foldl (λ m n, if m <? Z.of_nat (Bits n) then Z.of_nat (Bits n) else m) m res ∧
    (∀ p, p ∈ res → Z.of_nat (Bits p) ≤ foldl (λ m n, if m <? Z.of_nat (Bits n) then Z.of_nat (Bits n) else m) m res) ∧
    (foldl (λ m n, if m <? Z.of_nat (Bits n) then Z.of_nat (Bits n) else m) m res = m ∨
     ∃ p, p ∈ res ∧ foldl (λ m n, if m <? Z.of_nat (Bits n) then Z.of_nat (Bits n) else m) m res = Z.of_nat (Bits p))) as Hm.
  { induction res as [|x res IH]; intros m; cbn [foldl].
    { split_and!; [lia|by intros ? []%elem_of_nil|by left]. }
    destruct (Z.ltb_spec m (Z.of_nat (Bits x))) as [Hlt|Hge].
    - destruct (IH (Z.of_nat (Bits x))) as (I1 & I2 & I3). split_and!; [lia| |].
      + intros p [->|Hp]%elem_of_cons; auto.
      + right. destruct I3 as [->|(p & Hp & ->)]; [exists x|exists p]; set_solver.
    - destruct (IH m) as (I1 & I2 & I3). split_and!; [lia| |].
      + intros p [->|Hp]%elem_of_cons; [lia|auto].
      + destruct I3 as [?|(p & Hp & ?)]; [by left|right; exists p; set_solver]. }
  by destruct (Hm (-1)) as (_ & ? & ?).
Qed.

Lemma widen_spec isV6 m res :
  family_ok isV6 res → 1 ≤ m → m = maxPrefix res →
  family_ok isV6 (widen m <$> res) ∧
  (∀ a, in_nets res isV6 a → in_nets (widen m <$> res) isV6 a) ∧
  (∀ p, p ∈ widen m <$> res → Z.of_nat (Bits p) ≤ m - 1).
Proof.
  intros Hf Hm ->. destruct (maxPrefix_spec res) as [Hle _]. set (m := maxPrefix res) in *.
  assert (∀ p, p ∈ res → prefix_ok p ∧ Is6 p = isV6) as Hp by (by apply Forall_forall). split_and!.
  - apply Forall_fmap, Forall_forall. intros p Hin. destruct (Hp p Hin) as [[H1 H2] <-]. cbn.
    unfold widen. destruct (Z.eqb_spec (Z.of_nat (Bits p)) m); [|done].
    unfold prefix_ok, masked. cbn. rewrite length_app, length_take, length_replicate. split; [lia|done].
  - intros a (p & Hin & Hfp & Hi). exists (widen m p). split; [by apply list_elem_of_fmap_2|].
    unfold widen. destruct (Z.eqb_spec (Z.of_nat (Bits p)) m) as [E|]; [|done]. split; [done|].
    unfold inside, masked in *. cbn [Bits addr]. destruct (Hp p Hin) as [[H1 H2] _].
    rewrite take_app_le, take_take, Nat.min_id by (rewrite length_take; lia).
    rewrite <- (Nat.min_l (Z.to_nat (m - 1)) (Bits p)), <- !take_take, Hi by lia. done.
  - intros q (p & -> & Hin)%list_elem_of_fmap. unfold widen. specialize (Hle p Hin).
    destruct (Z.eqb_spec (Z.of_nat (Bits p)) m); [cbn; lia|lia].
Qed.

Lemma aggregate_loop_spec isV6 limit fuel : ∀ res,
  family_ok isV6 res → (∀ p, p ∈ res → Z.of_nat (Bits p) < Z.of_nat fuel) → (0 < fuel)%nat →
  ∃ out, aggregate_loop fuel res limit isV6 = Some out ∧ family_ok isV6 out ∧
    (∀ a, length a = width isV6 → in_nets res isV6 a → in_nets out isV6 a) ∧
    (Z.of_nat (length out) ≤ limit ∨ ∀ p, p ∈ out → Z.of_nat (Bits p) ≤ minPrefix isV6).
Proof.
  induction fuel as [|fuel IH]; intros res Hf Hb Hpos; [lia|]. cbn [aggregate_loop].
  destruct (Z.ltb_spec limit (Z.of_nat (length res))) as [Hlt|Hge].
  - destruct (maxPrefix_spec res) as [Hle Hmax]. cbn zeta.
    destruct (Z.leb_spec (maxPrefix res) (minPrefix isV6)) as [Hm|Hm].
    + exists res. split_and!; [done..|auto|right]. intros p Hp. specialize (Hle p Hp). lia.
    + assert (12 ≤ minPrefix isV6) as Hmin by (by destruct isV6).
      destruct (widen_spec isV6 (maxPrefix res) res Hf) as (Wf & Wi & Wb); [lia|done|].
      destruct (collapse_spec isV6 _ Wf) as (Cf & Ci & Cb).
      assert (∀ p, p ∈ collapseIPNets (widen (maxPrefix res) <$> res) isV6 →
                Z.of_nat (Bits p) ≤ maxPrefix res - 1) as Hnew.
      { intros p (q & Hq & Hpq)%Cb. specialize (Wb q Hq). lia. }
      assert (maxPrefix res < Z.of_nat (S fuel)) as Hmf.
      { destruct Hmax as [->|(p & Hp & ->)]; [lia|auto]. }
      destruct (IH _ Cf) as (out & E & Of & Oi & Ol).
      * intros p Hp. specialize (Hnew p Hp). lia.
      * lia.
      * exists out. split_and!; [done|done| |done]. intros a Ha Hr. apply Oi; [done|].
        apply Ci; [done|]. by apply Wi.
  - exists res. split_and!; [done..|auto|by left].
Qed.

Lemma aggregate_spec isV6 limit nets :
  family_ok isV6 nets →
  ∃ out, aggregatePrefixes nets limit isV6 = Some out ∧ family_ok isV6 out ∧
    (∀ a, length a = width isV6 → in_nets nets isV6 a → in_nets out isV6 a) ∧
    (0 < limit → nets ≠ [] →
     Z.of_nat (length out) ≤ limit ∨ ∀ p, p ∈ out → Z.of_nat (Bits p) ≤ minPrefix isV6).
Proof.
  intros Hf. unfold aggregatePrefixes. destruct nets as [|n nets]; [exists []; naive_solver|].
  destruct (Z.leb_spec limit 0); [exists (n :: nets); split_and!; auto; lia|].
  destruct (collapse_spec isV6 _ Hf) as (Cf & Ci & Cb). cbn zeta.
  destruct (Z.leb_spec (Z.of_nat (length (collapseIPNets (n :: nets) isV6))) limit).
  - eexists. split_and!; [done|done|intros a Ha; by apply Ci|auto].
  - destruct (aggregate_loop_spec isV6 limit 130 _ Cf) as (out & E & Of & Oi & Ol).
    + intros p Hp. assert (prefix_ok p ∧ Is6 p = isV6) as [[_ Hw] Hv] by (by eapply Forall_forall in Cf).
      assert (width isV6 ≤ 128)%nat by (destruct isV6; cbn; lia). rewrite Hv in Hw. lia.
    + lia.
    + exists out. split_and!; [done|done|intros a Ha Hi; apply Oi, Ci; done|auto].
Qed.

(** An address of the block of [minPrefix] bits around a covered one. *)
Definition near (isV6 : bool) (l : list Prefix) (a : list bool) : Prop :=
  ∃ b, length b = width isV6 ∧ in_nets l isV6 b ∧ take (Z.to_nat (minPrefix isV6)) a = take (Z.to_nat (minPrefix isV6)) b.

Lemma near_self isV6 l a : length a = width isV6 → in_nets l isV6 a → near isV6 l a.
Proof. intros Ha Hi. by exists a. Qed.

(** Widening stays within the blocks of what was there. *)
Lemma widen_near isV6 m res a :
  family_ok isV6 res → minPrefix isV6 < m → length a = width isV6 → in_nets (widen m <$> res) isV6 a → near isV6 res a.
Proof.
  intros Hf Hm Ha (q & (p & -> & Hp)%list_elem_of_fmap & Hv & Hi).
  destruct (proj1 (Forall_forall _ _) Hf p Hp) as [[Hl Hb] Hpv]. unfold widen in Hv, Hi.
  destruct (Z.eqb_spec (Z.of_nat (Bits p)) m) as [E|E]; [|by apply near_self; [|exists p]].
  exists (addr p). split; [by rewrite Hl, Hpv|]. split; [by exists p|].
  unfold inside, masked in Hi. cbn [Bits addr] in Hi.
  rewrite take_app_le, take_take, Nat.min_id in Hi by (rewrite length_take; lia).
  rewrite <- (Nat.min_l (Z.to_nat (minPrefix isV6)) (Z.to_nat (m - 1))), <- !take_take, Hi by lia. done.
Qed.

Lemma near_trans isV6 l l' a :
  (∀ b, length b = width isV6 → in_nets l isV6 b → near isV6 l' b) → near isV6 l a → near isV6 l' a.
Proof. intros Hl (b & Hb & Hi & E). destruct (Hl b Hb Hi) as (c & ? & ? & ?). exists c. by rewrite E. Qed.

Lemma aggregate_loop_near isV6 limit fuel : ∀ res out a,
  family_ok isV6 res → aggregate_loop fuel res limit isV6 = Some out →
  length a = width isV6 → in_nets out isV6 a → near isV6 res a.
Proof.
  induction fuel as [|fuel IH]; intros res out a Hf E Ha Hi; [done|]. cbn [aggregate_loop] in E.
  destruct (limit <? Z.of_nat (length res)); [|simplify_eq; by apply near_self]. cbn zeta in E.
  destruct (Z.leb_spec (maxPrefix res) (minPrefix isV6)) as [|Hm]; [simplify_eq; by apply near_self|].
  assert (12 ≤ minPrefix isV6) as Hmin by (by destruct isV6).
  destruct (widen_spec isV6 (maxPrefix res) res Hf) as (Wf & _ & _); [lia|done|].
  destruct (collapse_spec isV6 _ Wf) as (Cf & Ci & _).
  apply (near_trans _ _ _ _ (λ b Hb Hn, widen_near isV6 (maxPrefix res) res b Hf Hm Hb (proj1 (Ci b Hb) Hn))).
  by eapply IH.
Qed.

(** What aggregation adds: nothing when the prefixes fit the limit, and otherwise
    addresses of the same blocks. *)
Lemma aggregate_near isV6 limit nets out a :
  family_ok isV6 nets → aggregatePrefixes nets limit isV6 = Some out →
  length a = width isV6 → in_nets out isV6 a →
  near isV6 nets a ∧
  (limit ≤ 0 ∨ Z.of_nat (length (collapseIPNets nets isV6)) ≤ limit → in_nets nets isV6 a).
Proof.
  intros Hf E Ha Hi. destruct (collapse_spec isV6 _ Hf) as (Cf & Ci & _). unfold aggregatePrefixes in E.
  destruct nets as [|n nets]; [simplify_eq; split; [by apply near_self|done]|].
  destruct (Z.leb_spec limit 0); [simplify_eq; split; [by apply near_self|done]|]. cbn zeta in E.
  destruct (Z.leb_spec (Z.of_nat (length (collapseIPNets (n :: nets) isV6))) limit).
  - simplify_eq. apply Ci in Hi; [|done]. split; [by apply near_self|done].
  - split; [|lia]. apply (near_trans _ (collapseIPNets (n :: nets) isV6)); [|by eapply aggregate_loop_near].
    intros b Hb Hn. apply near_self; [done|]. by apply Ci.
Qed.

(** ** Properties *)

(** C39: aggregation ends (130 iterations of the loop are always enough), loses
    no address, and returns at most [limit] prefixes unless all of them have
    been widened to the minimum length. *)
Theorem aggregatePrefixes_ends isV6 limit nets :
  Forall (λ p, prefix_ok p ∧ Is6 p = isV6) nets →
  ∃ out, aggregatePrefixes nets limit isV6 = Some out ∧
    (∀ a, length a = width isV6 → in_nets nets isV6 a → in_nets out isV6 a) ∧
    (0 < limit → nets ≠ [] →
     Z.of_nat (length out) ≤ limit ∨ ∀ p, p ∈ out → Z.of_nat (Bits p) ≤ minPrefix isV6).
Proof. intros Hf. destruct (aggregate_spec isV6 limit nets Hf) as (out & ? & _ & ? & ?). eauto. Qed.

(** The address lies in an included prefix that is not too wide: the compiler
    ignores IPv4 prefixes shorter than 4 bits and IPv6 prefixes shorter than 16. *)
Definition included (inc : list Prefix) (isV6 : bool) (a : list bool) : Prop :=
  ∃ p, p ∈ inc ∧ Is6 p = isV6 ∧ ((if isV6 then 16 else 4) ≤ Bits p)%nat ∧ inside p a.

Lemma in_nets_included inc isV6 a : in_nets (filterIPNets inc isV6 true) isV6 a ↔ included inc isV6 a.
Proof.
  unfold in_nets, included. setoid_rewrite filterIPNets_in. split; intros (p & H1).
  - exists p. destruct H1 as ((? & ? & Hb) & ? & ?). split_and!; auto.
  - exists p. naive_solver.
Qed.

(** C38: the compiled lists of a family.  No excluded and no denied address is
    routed; every other address of an included prefix is, unless the prefix is
    wider than /4 (IPv4) or /16 (IPv6); an address that is routed lies in the /12
    (IPv4) or /32 (IPv6) block of such an included one and, when the collapsed
    prefixes do not exceed the limit, is one itself; and the deny list covers
    exactly the denied addresses. *)
Theorem compile_family_exact limit inc exc deny isV6 :
  Forall prefix_ok inc → Forall prefix_ok exc → Forall prefix_ok deny →
  ∃ denyOut routes stats, compile_family limit inc exc deny isV6 = Some (denyOut, routes, stats) ∧
    ∀ a, length a = width isV6 →
      (in_nets routes isV6 a → ¬ in_nets exc isV6 a ∧ ¬ in_nets deny isV6 a) ∧
      (included inc isV6 a → ¬ in_nets exc isV6 a → ¬ in_nets deny isV6 a → in_nets routes isV6 a) ∧
      (in_nets routes isV6 a → let n := (if isV6 then 32 else 12)%nat in
         ∃ b, length b = width isV6 ∧ included inc isV6 b ∧ take n a = take n b) ∧
      (limit ≤ 0 ∨ Z.of_nat (length (collapseIPNets (filterIPNets inc isV6 true) isV6)) ≤ limit →
         in_nets routes isV6 a → included inc isV6 a) ∧
      (in_nets denyOut isV6 a ↔ in_nets deny isV6 a).
Proof.
  intros Hi He Hd. unfold compile_family, subNetsOptimized. cbn zeta.
  assert (family_ok isV6 (filterIPNets inc isV6 true)) as Hf.
  { apply Forall_forall. intros p (Hp & Hv & _)%filterIPNets_in. split; [by eapply Forall_forall in Hp|done]. }
  destruct (aggregate_spec isV6 limit _ Hf) as (out & Eout & Of & Oi & _). rewrite Eout. cbn [mbind option_bind].
  do 3 eexists. split; [done|]. intros a Ha.
  assert (Forall prefix_ok (filterIPNets exc isV6 false ++ filterIPNets deny isV6 false)) as Hx
    by (apply Forall_app; auto using filterIPNets_ok).
  pose proof (family_prefix_ok _ _ Of) as Hout.
  pose proof (ipset_denotes out _ isV6 a Hout Hx Ha) as Hr. rewrite in_nets_app, !in_nets_filter in Hr.
  pose proof (ipset_denotes (filterIPNets deny isV6 false) [] isV6 a
    (filterIPNets_ok deny isV6 false Hd) (Forall_nil_2 _) Ha) as Hdn. rewrite in_nets_filter in Hdn.
  split_and!.
  - rewrite Hr. naive_solver.
  - intros H1%in_nets_included H2 H3. rewrite Hr. naive_solver.
  - rewrite Hr. intros [Ho _]. destruct (aggregate_near _ _ _ _ a Hf Eout Ha Ho) as [(b & Hb & Hn & E) _].
    exists b. rewrite <- in_nets_included. split_and!; [done..|]. by destruct isV6.
  - rewrite Hr. intros Hl [Ho _]. apply in_nets_included. by apply (aggregate_near _ _ _ _ a Hf Eout Ha Ho).
  - rewrite Hdn. split; [naive_solver|]. intros Hda. split; [done|]. by intros (? & []%elem_of_nil & _).
Qed.
End Facts.

(** ** Examples *)

Definition net (s : string) : Prefix := default (mkPrefix false [] 0) (ParsePrefix s).

Lemma net_ok l :
  forallb (λ s, match ParsePrefix s with
    | Some p => (Nat.eqb (length (addr p)) (width (Is6 p)) && Nat.leb (Bits p) (width (Is6 p)))%nat
    | None => false end) l = true →
  Forall prefix_ok (net <$> l).
Proof.
  intros H. apply Forall_fmap, Forall_forall. intros s Hs%list_elem_of_In. cbn.
  rewrite forallb_forall in H. apply H in Hs. unfold net. destruct (ParsePrefix s); [|done]. cbn.
  apply andb_true_iff in Hs as [H1%Nat.eqb_eq H2%Nat.leb_le]. done.
Qed.

Definition demo_inc : list Prefix := net <$> ["10.0.0.0/9"; "10.128.0.0/9"; "192.0.2.0/24"; "2001:db8::/32"].
Definition demo_exc : list Prefix := net <$> ["10.1.0.0/16"].
Definition demo_deny : list Prefix := net <$> ["192.0.2.7"; "198.51.100.0/24"].

Lemma demo_inc_v4 : Forall (λ p, prefix_ok p ∧ Is6 p = false) (filterIPNets demo_inc false true).
Proof.
  apply Forall_forall. intros p (Hp & Hv & _)%filterIPNets_in. split; [|done].
  assert (Forall prefix_ok demo_inc) as Hok by (apply net_ok; vm_compute; reflexivity).
  by eapply Forall_forall in Hok.
Qed.

Lemma aggregatePrefixes_ends_witness :
  ∃ out, aggregatePrefixes (filterIPNets demo_inc false true) 1 false = Some out ∧
    (∀ p, p ∈ out → Z.of_nat (Bits p) ≤ 12 ∨ length out = 1%nat).
Proof.
  destruct (aggregatePrefixes_ends false 1 (filterIPNets demo_inc false true) demo_inc_v4)
    as (out & E & _ & Hl).
  exists out. split; [exact E|]. intros p Hp. destruct Hl as [Hl|Hl].
  - lia.
  - vm_compute. discriminate.
  - right. clear E. destruct out as [|x out]; [by apply elem_of_nil in Hp|]. cbn [length] in *. lia.
  - left. exact (Hl p Hp).
Defined.

Lemma compile_family_exact_witness :
  ∃ denyOut routes stats,
    compile_family 500 demo_inc demo_exc (net <$> ["198.51.100.0/24"]) false = Some (denyOut, routes, stats) ∧
    ¬ in_nets routes false (addr (net "10.1.2.3/32")).
Proof.
  destruct (compile_family_exact 500 demo_inc demo_exc (net <$> ["198.51.100.0/24"]) false)
    as (denyOut & routes & stats & E & Hx).
  - apply net_ok. vm_compute. reflexivity.
  - apply net_ok. vm_compute. reflexivity.
  - apply net_ok. vm_compute. reflexivity.
  - exists denyOut, routes, stats. split; [exact E|]. intros Hr.
    destruct (proj1 (Hx (addr (net "10.1.2.3/32")) ltac:(vm_compute; reflexivity)) Hr) as [Hn _].
    apply Hn. exists (net "10.1.0.0/16"). split; [left|]. split; vm_compute; reflexivity.
Defined.

(** The limit holds before the exclusions are subtracted, not after: one prefix
    is allowed, eight are written. *)
Theorem exclusions_exceed_limit :
  ∃ denyOut routes stats,
    compile_family 1 (net <$> ["10.0.0.0/8"]) (net <$> ["10.1.0.0/16"]) [] false =
      Some (denyOut, routes, stats) ∧ AggrRoutes stats = 8.
Proof. do 3 eexists. split; [reflexivity|vm_compute; reflexivity]. Qed.
