(* ===== verification/Sync.v ===== *)
(** * Peer-to-peer synchronisation ([internal/dnsengine/sync.go])

    Nodes connect to each other, exchange their mappings and keep each other
    informed.  A connection is shared by the goroutine that handles it, the
    table of connections and the writers, so connections live in a heap and the
    table holds references.  Each definition is what a goroutine does between
    two blocking operations; the clock readings, the addresses of the sockets
    and the decoded messages are arguments.  TLS, gob and the sockets are not
    modelled: a message that cannot be decoded is [None]. *)

From Stdlib Require Import Ascii.
From Stdlib Require String.
From stdpp Require Import prelude gmap strings.
From S2P Require Import Prelude GoStrings GoText GoNet GoHostPort Metrics IPPool.

#[local] Arguments String.append : simpl nomatch.

(** ** Data *)

Definition MsgTypeHandshake : Z := 0.
Definition MsgTypePEX : Z := 1.
Definition MsgTypePing : Z := 2.
Definition MsgTypeMappings : Z := 3.

Record SyncHandshake := mkHandshake {
  UUID : Z;
  Port : Z;
  hs_PoolNet : string;
  hs_PoolNet6 : string;
  SlotsPerDomain : Z;
  ResultHash : string;
  AuthToken : string;
}.

Record SyncMessage := mkMessage {
  Type_ : Z;
  Handshake : option SyncHandshake;
  PEXIP : IP;
  PEXPort : Z;
  Mappings : list Mapping;
}.

(** [writeChan] is the content of the channel, oldest first; the [None] that
    [Close] sends stops the writer.  [wire] is what the writer has encoded,
    [writing] whether it runs. *)
Record SafeConn := mkConn {
  writeChan : list (option SyncMessage);
  wire : list SyncMessage;
  writing : bool;
  closed : bool;
  peerUUID : Z;
  isOutgoing : bool;
  localAddr : string;
}.

Definition connId : Type := nat.

Record SyncManager := mkSync {
  peers : list string;
  syncPort : string;
  nodeUUID : Z;
  poolNet : string;
  poolNet6 : string;
  authToken : string;
  syncPortNum : Z;
  certFingerprints : list (list Byte.byte);
  resultHash : string;
  conns : gmap string connId;
  activeDials : gmap string Z;
  done : bool;
  heap : gmap connId SafeConn;
  pool : option IPPool;
  metrics : Metrics;
  nftLog : list (IP * IP * Z);
}.

Definition set_conns (c : gmap string connId) (h : gmap connId SafeConn) (s : SyncManager) : SyncManager :=
  mkSync (peers s) (syncPort s) (nodeUUID s) (poolNet s) (poolNet6 s) (authToken s) (syncPortNum s)
    (certFingerprints s) (resultHash s) c (activeDials s) (done s) h (pool s) (metrics s) (nftLog s).

Definition set_heap (h : gmap connId SafeConn) (s : SyncManager) : SyncManager := set_conns (conns s) h s.

Definition set_dials (d : gmap string Z) (s : SyncManager) : SyncManager :=
  mkSync (peers s) (syncPort s) (nodeUUID s) (poolNet s) (poolNet6 s) (authToken s) (syncPortNum s)
    (certFingerprints s) (resultHash s) (conns s) d (done s) (heap s) (pool s) (metrics s) (nftLog s).

Definition set_done (s : SyncManager) : SyncManager :=
  mkSync (peers s) (syncPort s) (nodeUUID s) (poolNet s) (poolNet6 s) (authToken s) (syncPortNum s)
    (certFingerprints s) (resultHash s) (conns s) (activeDials s) true (heap s) (pool s) (metrics s) (nftLog s).

Definition set_pool (p : option IPPool) (m : Metrics) (log : list (IP * IP * Z)) (s : SyncManager) : SyncManager :=
  mkSync (peers s) (syncPort s) (nodeUUID s) (poolNet s) (poolNet6 s) (authToken s) (syncPortNum s)
    (certFingerprints s) (resultHash s) (conns s) (activeDials s) (done s) (heap s) p m log.

(** ** Construction *)

(** The peer addresses of the PEERS variable. *)
Definition parse_peers (peersStr syncPort : string) : list string :=
  if bool_decide (peersStr = EmptyString) then []
  else omap (λ p, let p := TrimSpace p in
               if bool_decide (p = EmptyString) then None
               else Some (if negb (contains_char p ":") then p +:+ ":" +:+ syncPort else p))
         (split_char "," peersStr).

(** [hex.DecodeString]. *)
Fixpoint hex_decode (l : list ascii) : option (list Byte.byte) :=
  match l with
  | [] => Some []
  | [_] => None
  | a :: b :: l' =>
      x ← hex_val a; y ← hex_val b; rest ← hex_decode l';
      Some (byte_of_Z (x * 16 + y) :: rest)
  end.

Definition parse_fingerprints (hashStr : string) : list (list Byte.byte) :=
  if bool_decide (hashStr = EmptyString) then []
  else omap (λ part,
         let part := remove_char ":" (TrimSpace part) in
         if bool_decide (part = EmptyString) then None
         else match hex_decode (chars part) with
              | Some d => if Nat.eqb (length d) 32 then Some d else None
              | None => None
              end) (split_char "," hashStr).

(** [token] and [hashStr] are the environment's NEXTPATH_SYNC_TOKEN and
    NEXTPATH_SYNC_CERT_FINGERPRINT, [now] the clock, [h] the result hash. *)
Definition NewSyncManager (peersStr syncPort poolNet poolNet6 : string) (p : option IPPool)
    (token hashStr h : string) (now : Z) : SyncManager :=
  mkSync (parse_peers peersStr syncPort) syncPort (w64 now) poolNet poolNet6 token
    (atoi_value syncPort mod 2 ^ 16) (parse_fingerprints hashStr) h ∅ ∅ false ∅ p metrics_zero [].

(** [RefreshResultHash] combines the contents of the two hash files. *)
Definition RefreshResultHash (domainsHash ipsHash : string) : string :=
  TrimSpace domainsHash +:+ ":" +:+ TrimSpace ipsHash.

Definition checkAuthToken (s : SyncManager) (supplied : string) : bool :=
  bool_decide (authToken s = EmptyString) || bool_decide (supplied = authToken s).

(** The certificate check of [tryConnect] when pinning is on: [hash] is the
    SHA-256 of the peer's first certificate, [None] without one. *)
Definition verify_pin (s : SyncManager) (hash : option (list Byte.byte)) : bool :=
  match hash with
  | None => false
  | Some h => existsb (λ fp, bool_decide (h = fp)) (certFingerprints s)
  end.

(** ** Connections *)

Definition chan_cap : nat := 1024.

Definition NewSafeConn (addr : string) : SafeConn := mkConn [] [] true false 0 false addr.

Definition set_queue (q : list (option SyncMessage)) (sc : SafeConn) : SafeConn :=
  mkConn q (wire sc) (writing sc) (closed sc) (peerUUID sc) (isOutgoing sc) (localAddr sc).

Definition set_wire (w : list SyncMessage) (sc : SafeConn) : SafeConn :=
  mkConn (writeChan sc) w (writing sc) (closed sc) (peerUUID sc) (isOutgoing sc) (localAddr sc).

Definition set_closed (sc : SafeConn) : SafeConn :=
  mkConn (writeChan sc) (wire sc) (writing sc) true (peerUUID sc) (isOutgoing sc) (localAddr sc).

Definition stop_writing (sc : SafeConn) : SafeConn :=
  mkConn (writeChan sc) (wire sc) false (closed sc) (peerUUID sc) (isOutgoing sc) (localAddr sc).

(** Sending without blocking: [None] when the channel is full. *)
Definition try_send (m : option SyncMessage) (sc : SafeConn) : option SafeConn :=
  if Nat.ltb (length (writeChan sc)) chan_cap then Some (set_queue (writeChan sc ++ [m]) sc) else None.

(** [SafeConn.Close]: once only; it marks the connection and tells the writer
    to stop if there is room. *)
Definition close_conn (sc : SafeConn) : SafeConn :=
  if closed sc then sc
  else default (set_closed sc) (try_send None (set_closed sc)).

Definition ping_msg : SyncMessage := mkMessage MsgTypePing None [] 0 [].

(** What the writer meets: a message to take (in either of its two selects), a
    flush, a tick.  [ok] tells whether the encoding or the flush succeeds. *)
Inductive WriteEvent := WRecv (ok : bool) | WFlush (ok : bool) | WTick (ok : bool).

Definition writeLoop (e : WriteEvent) (sc : SafeConn) : SafeConn :=
  if negb (writing sc) then sc
  else match e with
       | WRecv ok =>
           match writeChan sc with
           | [] => sc
           | None :: q => stop_writing (set_queue q sc)
           | Some m :: q =>
               let sc := set_queue q sc in
               if ok then set_wire (wire sc ++ [m]) sc else stop_writing (close_conn sc)
           end
       | WFlush ok => if ok then sc else stop_writing (close_conn sc)
       | WTick ok => if ok then set_wire (wire sc ++ [ping_msg]) sc else stop_writing (close_conn sc)
       end.

(** Queueing a message for an open connection; a full queue closes it. *)
Definition enqueue (m : SyncMessage) (sc : SafeConn) : SafeConn :=
  if closed sc then sc
  else match try_send (Some m) sc with Some sc' => sc' | None => close_conn sc end.

Definition on_conn (f : SafeConn → SafeConn) (c : connId) (s : SyncManager) : SyncManager :=
  set_heap (alter f c (heap s)) s.

Definition mappings_msg (l : list Mapping) : SyncMessage := mkMessage MsgTypeMappings None [] 0 l.

Definition BroadcastMappings (mappings : list Mapping) (s : SyncManager) : SyncManager :=
  match mappings with
  | [] => s
  | _ => foldl (λ s '(_, c), on_conn (enqueue (mappings_msg mappings)) c s) s (map_to_list (conns s))
  end.

(** The batches of [sendAllMappingsToConn], [cur] being the current one. *)
Fixpoint batches (cur : list Mapping) (l : list Mapping) : list (list Mapping) :=
  match l with
  | [] => match cur with [] => [] | _ => [cur] end
  | m :: l' =>
      let cur := cur ++ [m] in
      if Nat.leb 1000 (length cur) then cur :: batches [] l' else batches cur l'
  end.

(** Queueing the batches; the first one that finds the connection closed or its
    queue full ends the transfer.  After a full batch the goroutine sleeps:
    [sleep i] is what the others do to the connection the i-th time. *)
Fixpoint send_batches (sleep : nat → SafeConn → SafeConn) (i : nat) (bs : list (list Mapping)) (sc : SafeConn)
    : SafeConn :=
  match bs with
  | [] => sc
  | b :: bs' =>
      if closed sc then sc
      else match try_send (Some (mappings_msg b)) sc with
           | Some sc' =>
               send_batches sleep (S i) bs' (if Nat.leb 1000 (length b) then sleep i sc' else sc')
           | None => close_conn sc
           end
  end.

Definition sendAllMappingsToConn (sleep : nat → SafeConn → SafeConn) (mappings : list Mapping) (sc : SafeConn)
    : SafeConn := send_batches sleep 0 (batches [] mappings) sc.

(** [sendPexMessage]: tells the connection about the peer at [peerAddr]. *)
Definition pex_msg (peerAddr : string) : option SyncMessage :=
  '(host, portStr) ← SplitHostPort peerAddr;
  let ip := ParseIP host in
  if is_nil ip then None
  else port ← atoi portStr; Some (mkMessage MsgTypePEX None ip (port mod 2 ^ 16) []).

Definition sendPexMessage (peerAddr : string) (sc : SafeConn) : SafeConn :=
  match pex_msg peerAddr with Some m => enqueue m sc | None => sc end.

(** [shouldKeepNewConnection]; the arguments are the fields it reads. *)
Definition shouldKeepNewConnection (nodeUUID : Z) (localSyncPort : string) (oldConn newConn : SafeConn)
    (remoteCanonical : string) : bool :=
  let localIP := match SplitHostPort (localAddr newConn) with Some (h, _) => h | None => EmptyString end in
  let localCanonical := JoinHostPort localIP localSyncPort in
  let cmp := lex_cmp Z.compare (code <$> chars localCanonical) (code <$> chars remoteCanonical) in
  if negb (peerUUID newConn =? peerUUID oldConn) then true
  else if Bool.eqb (isOutgoing newConn) (isOutgoing oldConn) then true
  else if isOutgoing newConn then
    if nodeUUID <? peerUUID newConn then true
    else if nodeUUID =? peerUUID newConn then match cmp with Lt => true | _ => false end
    else false
  else
    if peerUUID newConn <? nodeUUID then true
    else if nodeUUID =? peerUUID newConn then match cmp with Gt => true | _ => false end
    else false.

(** ** Opening a connection *)

Definition readHandshake (msg : option SyncMessage) : option SyncHandshake :=
  m ← msg;
  if negb (Type_ m =? MsgTypeHandshake) then None else Handshake m.

Definition canonical_ip (ip : IP) : IP := if is_nil (To4 ip) then ip else To4 ip.

(** The checks a handshake has to pass: the peer's identity and address. *)
Definition check_handshake (s : SyncManager) (outgoing : bool) (remote : option IP) (msg : option SyncMessage)
    : option (Z * string) :=
  hs ← readHandshake msg;
  if negb (checkAuthToken s (AuthToken hs)) then None
  else if UUID hs =? nodeUUID s then None
  else
    ip ← remote;
    let selfAddr := JoinHostPort (IP_String (canonical_ip ip)) (itoa (Port hs)) in
    if negb outgoing &&
       (negb (bool_decide (hs_PoolNet hs = poolNet s)) || negb (bool_decide (hs_PoolNet6 hs = poolNet6 s)))
    then None
    else Some (UUID hs, selfAddr).

Definition own_handshake (s : SyncManager) : SyncHandshake :=
  mkHandshake (nodeUUID s) (syncPortNum s) (poolNet s) (poolNet6 s) 0 (resultHash s) (authToken s).

(** Entering the connection into the table, against an older one to the same
    peer; [None] when the older one is kept or the manager is closing. *)
Definition register (s : SyncManager) (c : connId) (outgoing : bool) (selfAddr : string) : option SyncManager :=
  if done s then None
  else
    let keep :=
      match conns s !! selfAddr with
      | Some old =>
          if bool_decide (old = c) then Some s
          else match heap s !! old, heap s !! c with
               | Some oldConn, Some newConn =>
                   if shouldKeepNewConnection (nodeUUID s) (syncPort s) oldConn newConn selfAddr
                   then Some (on_conn close_conn old s) else None
               | _, _ => None
               end
      | None => Some s
      end in
    s ← keep;
    let s := set_conns (<[selfAddr := c]> (conns s)) (heap s) s in
    Some (if outgoing then set_dials (delete selfAddr (activeDials s)) s else s).

Definition set_peer (uuid : Z) (outgoing : bool) (sc : SafeConn) : SafeConn :=
  mkConn (writeChan sc) (wire sc) (writing sc) (closed sc) uuid outgoing (localAddr sc).

(** The first part of [handleConnection]: the handshake.  Returns the peer's
    address when the connection is accepted; a refused connection is closed. *)
Definition open_connection (s : SyncManager) (c : connId) (outgoing : bool) (remote : option IP)
    (msg : option SyncMessage) : SyncManager * option string :=
  let drop (s : SyncManager) := (on_conn close_conn c s, None) in
  match check_handshake s outgoing remote msg with
  | None => drop s
  | Some (uuid, selfAddr) =>
      let answered :=
        if outgoing then Some s
        else sc ← heap s !! c;
             sc' ← try_send (Some (mkMessage MsgTypeHandshake (Some (own_handshake s)) [] 0 [])) sc;
             Some (set_heap (<[c := sc']> (heap s)) s) in
      match answered with
      | None => drop s
      | Some s =>
          let s := on_conn (set_peer uuid outgoing) c s in
          match register s c outgoing selfAddr with
          | None => drop s
          | Some s => (s, Some selfAddr)
          end
      end
  end.

(** The second part: the mappings, then the introductions. *)
Definition greet (sleep : nat → SafeConn → SafeConn) (s : SyncManager) (c : connId) (selfAddr : string)
    (localIPs : gset string) : SyncManager :=
  let s := match pool s with
           | Some p => on_conn (sendAllMappingsToConn sleep (GetAllMappings p)) c s
           | None => s
           end in
  let others := filter (λ a, a.1 ≠ selfAddr) (map_to_list (conns s)) in
  let s := foldl (λ s a,
      match SplitHostPort a.1 with
      | Some (host, _) => if bool_decide (host ∈ localIPs) then s else on_conn (sendPexMessage a.1) c s
      | None => s
      end) s others in
  foldl (λ s a, on_conn (sendPexMessage selfAddr) a.2 s) s others.

(** ** Receiving *)

Definition isInSubnet (s : SyncManager) (ip : IP) : bool :=
  if is_nil ip then false
  else if negb (is_nil (To4 ip)) then
    match ParseCIDR (poolNet s) with Some n => IPNet_Contains n ip | None => false end
  else
    match ParseCIDR (poolNet6 s) with Some n => IPNet_Contains n ip | None => false end.

(** One mapping of a message; [nano] and [now] are the clock as a Unix time and
    as an instant. *)
Definition recv_mapping (nano now : Z) (s : SyncManager) (m : Mapping) : SyncManager :=
  if is_nil (FakeIP m) || is_nil (RealIP m) then s
  else if negb (isInSubnet s (FakeIP m)) then s
  else
    let apply (s : SyncManager) :=
      set_pool (pool s) (metrics s) (nftLog s ++ [(FakeIP m, RealIP m, MappingTTL)]) s in
    match pool s with
    | None => apply s
    | Some p =>
        if Version m <? GetVersion p (FakeIP m) then s
        else
          let p := ObserveVersion nano (Version m) p in
          let '(ok, p, mt) := AddMapping p (metrics s) (RealIP m) (FakeIP m) (Version m) (now + MappingTTL) in
          let s := set_pool (Some p) mt (nftLog s) s in
          if ok then apply s else s
    end.

(** [IP.IsLoopback], [IsMulticast], [IsUnspecified], [IsLinkLocalUnicast]. *)
Definition byte_at (l : list Byte.byte) (i : nat) : Z := default 0 (Z_of_byte <$> l !! i).
Definition IsLoopback (ip : IP) : bool :=
  if negb (is_nil (To4 ip)) then byte_at (To4 ip) 0 =? 127
  else IP_Equal ip (replicate 15 Byte.x00 ++ [Byte.x01]).
Definition IsMulticast (ip : IP) : bool :=
  if negb (is_nil (To4 ip)) then Z.land (byte_at (To4 ip) 0) 0xf0 =? 0xe0
  else Nat.eqb (length ip) 16 && (byte_at ip 0 =? 0xff).
Definition IsUnspecified (ip : IP) : bool :=
  IP_Equal ip (IPv4 Byte.x00 Byte.x00 Byte.x00 Byte.x00) || IP_Equal ip (replicate 16 Byte.x00).
Definition IsLinkLocalUnicast (ip : IP) : bool :=
  if negb (is_nil (To4 ip)) then (byte_at (To4 ip) 0 =? 169) && (byte_at (To4 ip) 1 =? 254)
  else Nat.eqb (length ip) 16 && (byte_at ip 0 =? 0xfe) && (Z.land (byte_at ip 1) 0xc0 =? 0x80).

(** [tryConnect] up to the start of the dialling goroutine: the new state and
    whether a dial is started. *)
Definition tryConnect (now : Z) (s : SyncManager) (peerAddr : string) (localIPs : gset string)
    : SyncManager * bool :=
  if bool_decide (is_Some (conns s !! peerAddr)) then (s, false)
  else if match activeDials s !! peerAddr with
          | Some dialTime => now - dialTime <? 10 * second
          | None => false
          end then (s, false)
  else
    let s := set_dials (<[peerAddr := now]> (activeDials s)) s in
    if match SplitHostPort peerAddr with Some (host, _) => bool_decide (host ∈ localIPs) | None => false end
    then (set_dials (delete peerAddr (activeDials s)) s, false)
    else if done s then (set_dials (delete peerAddr (activeDials s)) s, false)
    else (s, true).

(** The peers to connect to: the address and the name its certificate is
    checked for.  [LookupIP] is the resolver; [None] is an error. *)
Definition peer_targets (LookupIP : string → option (list IP)) (localIPs : gset string) (s : SyncManager)
    (peerRaw : string) : list (string * string) :=
  let '(host, port) := default (peerRaw, syncPort s) (SplitHostPort peerRaw) in
  let ips := if is_nil (ParseIP host) then LookupIP host else Some [ParseIP host] in
  match ips with
  | None => [(JoinHostPort host port, host)]
  | Some l =>
      omap (λ ip : IP,
        let ipStr := IP_String (canonical_ip ip) in
        if bool_decide (ipStr ∈ localIPs) then None else Some (JoinHostPort ipStr port, host)) l
  end.

(** [discoverAndConnect]: the new state and the dials it starts.  The round is
    described for a manager nobody else uses meanwhile; the dials of a round that
    other goroutines interrupt are single steps of [sync_step] in SyncInv.v. *)
Definition discoverAndConnect (LookupIP : string → option (list IP)) (now : Z) (localIPs : gset string)
    (s : SyncManager) : SyncManager * list (string * string) :=
  foldl (λ '(s, dials) '(addr, host),
      let '(s, dial) := tryConnect now s addr localIPs in
      (s, if dial then dials ++ [(addr, host)] else dials))
    (s, []) (mjoin (peer_targets LookupIP localIPs s <$> peers s)).

(** ** Dialling *)

(** The modes of NEXTPATH_SYNC_STRICT_TLS: pinning, and no verification. *)
Definition tls_mode (uni : string → string) (strictTLS : string) : bool * bool :=
  let v := ToLower uni (TrimSpace strictTLS) in
  (bool_decide (v = "pinning") || bool_decide (v = "pin"),
   bool_decide (v = "false") || bool_decide (v = "0") || bool_decide (v = "n") || bool_decide (v = "no")).

Definition no_pins (s : SyncManager) : bool := match certFingerprints s with [] => true | _ => false end.

(** What the peer presents: the SHA-256 of its first certificate and whether
    the standard verification accepts the chain. *)
Definition tls_accepts (uni : string → string) (strictTLS : string) (s : SyncManager)
    (hash : option (list Byte.byte)) (verified : bool) : bool :=
  let '(isPinning, skipVerify) := tls_mode uni strictTLS in
  (skipVerify || isPinning || verified) &&
  (if isPinning && negb (no_pins s) then verify_pin s hash else true).

(** The dialling goroutine once the dial has returned, [Some addr] with the
    local address when TCP and TLS succeeded; [c] is the new connection.
    Returns whether it is handed to [handleConnection]. *)
Definition finish_dial (s : SyncManager) (peerAddr : string) (c : connId) (dialled : option string)
    : SyncManager * bool :=
  let finish (s : SyncManager) := set_dials (delete peerAddr (activeDials s)) s in
  match dialled with
  | None => (finish s, false)
  | Some addr =>
      if done s then (finish s, false)
      else
        let hs := mkHandshake (nodeUUID s) (atoi_value (syncPort s) mod 2 ^ 16) (poolNet s) (poolNet6 s) 0
                    (resultHash s) (authToken s) in
        let sc := NewSafeConn addr in
        match try_send (Some (mkMessage MsgTypeHandshake (Some hs) [] 0 [])) sc with
        | None => (finish (set_heap (<[c := close_conn sc]> (heap s)) s), false)
        | Some sc => (finish (set_heap (<[c := sc]> (heap s)) s), true)
        end
  end.

(** ** The server *)

Definition default_token : string := "change_me_to_a_secure_random_string".

Definition set_fingerprints (l : list (list Byte.byte)) (s : SyncManager) : SyncManager :=
  mkSync (peers s) (syncPort s) (nodeUUID s) (poolNet s) (poolNet6 s) (authToken s) (syncPortNum s)
    l (resultHash s) (conns s) (activeDials s) (done s) (heap s) (pool s) (metrics s) (nftLog s).

(** [StartServer] up to the listener: [None] when synchronisation does not
    start.  [tls] is the loaded certificate's fingerprint, [None] when there is
    no usable certificate. *)
Definition StartServer (uni : string → string) (strictTLS hashStr : string)
    (tls : option (option (list Byte.byte))) (s : SyncManager) : option SyncManager :=
  match tls with
  | None => None
  | Some fingerprint =>
      if bool_decide (authToken s = EmptyString) || bool_decide (authToken s = default_token) then None
      else if (tls_mode uni strictTLS).1 then
        if negb (bool_decide (TrimSpace hashStr = EmptyString)) && no_pins s then None
        else match fingerprint with
             | Some fp => if no_pins s then Some (set_fingerprints [fp] s) else Some s
             | None => Some s
             end
      else Some s
  end.

(** A connection accepted by the listener. *)
Definition accept (s : SyncManager) (c : connId) (addr : string) : SyncManager :=
  set_heap (<[c := NewSafeConn addr]> (heap s)) s.

(** One message of the receive loop: the new state, the dial it starts, and
    whether the loop goes on.  [clock] reads the Unix time and the instant at
    the i-th mapping. *)
Definition handle_message (clock : nat → Z * Z) (now : Z) (localIPs : gset string) (s : SyncManager)
    (msg : SyncMessage) : SyncManager * option string * bool :=
  if Type_ msg =? MsgTypePEX then
    if (PEXPort msg =? 0) || IsLoopback (PEXIP msg) || IsMulticast (PEXIP msg)
       || IsUnspecified (PEXIP msg) || IsLinkLocalUnicast (PEXIP msg) then (s, None, true)
    else if 50 <=? Z.of_nat (size (conns s)) then (s, None, true)
    else
      let peerAddr := JoinHostPort (IP_String (PEXIP msg)) (itoa (PEXPort msg)) in
      let '(s, dial) := tryConnect now s peerAddr localIPs in
      (s, if dial then Some peerAddr else None, true)
  else if Type_ msg =? MsgTypePing then (s, None, true)
  else if Type_ msg =? MsgTypeMappings then
    let s := set_pool (pool s) (add_syncs (Z.of_nat (length (Mappings msg))) (metrics s)) (nftLog s) s in
    (foldl (λ s '(i, m), recv_mapping (clock i).1 (clock i).2 s m) s (imap (λ i m, (i, m)) (Mappings msg)),
     None, true)
  else (s, None, false).

(** The receive loop on the messages that arrive; [clock k i] reads the clock at
    the i-th mapping of the k-th message, [now k] at the k-th message.  Returns
    the dials it starts. *)
Fixpoint receive (clock : nat → nat → Z * Z) (now : nat → Z) (localIPs : gset string) (k : nat)
    (s : SyncManager) (msgs : list SyncMessage) : SyncManager * list string :=
  match msgs with
  | [] => (s, [])
  | msg :: msgs' =>
      let '(s, dial, go) := handle_message (clock k) (now k) localIPs s msg in
      let '(s, dials) := if go : bool then receive clock now localIPs (S k) s msgs' else (s, []) in
      (s, match dial with Some d => d :: dials | None => dials end)
  end.

(** The end of [handleConnection]. *)
Definition cleanup (s : SyncManager) (c : connId) (selfAddr : string) : SyncManager :=
  let s := if bool_decide (selfAddr ≠ EmptyString) && bool_decide (conns s !! selfAddr = Some c)
           then set_conns (delete selfAddr (conns s)) (heap s) s else s in
  on_conn close_conn c s.

(** [SyncManager.Close] first closes [done] ([set_done]) and then, under the lock
    it takes only after that, the connections of the table. *)
Definition close_conns (s : SyncManager) : SyncManager :=
  foldl (λ s '(_, c), on_conn close_conn c s) s (map_to_list (conns s)).
