(* ===== verification/SyncFacts.v ===== *)
(** * Peer-to-peer synchronisation: connections

    The table of connections: what an accepted or refused handshake changes,
    which of two connections between the same peers survives, and what the
    start-up checks guarantee about the peers that get in. *)

From Stdlib Require Import Ascii.
From Stdlib Require String.
From stdpp Require Import prelude gmap strings.
From S2P Require Import Prelude GoStrings GoText GoNet GoNetFacts GoHostPort Metrics IPPool Sync.

#[local] Arguments String.append : simpl nomatch.

(** ** Lemmas: one connection *)

Lemma close_conn_closed sc : closed (close_conn sc) = true.
Proof. unfold close_conn, try_send. destruct (closed sc) eqn:E; [done|]. by case_match. Qed.

Lemma close_conn_peer sc : peerUUID (close_conn sc) = peerUUID sc ∧ isOutgoing (close_conn sc) = isOutgoing sc.
Proof. unfold close_conn, try_send. by repeat case_match. Qed.

Lemma try_send_room m sc :
  (length (writeChan sc) < chan_cap)%nat → try_send m sc = Some (set_queue (writeChan sc ++ [m]) sc).
Proof. intros H. unfold try_send. by destruct (Nat.ltb_spec (length (writeChan sc)) chan_cap); [|lia]. Qed.

(** ** Lemmas: the fields an operation leaves alone *)

Lemma heap_on_conn f c s c' :
  heap (on_conn f c s) !! c' = if decide (c = c') then f <$> heap s !! c' else heap s !! c'.
Proof.
  unfold on_conn, set_heap, set_conns. cbn [heap]. case_decide as E.
  - subst. by rewrite lookup_alter_eq.
  - by rewrite lookup_alter_ne.
Qed.

Lemma heap_on_conn_eq f c s : heap (on_conn f c s) !! c = f <$> heap s !! c.
Proof. rewrite heap_on_conn. by rewrite decide_True. Qed.

Lemma heap_on_conn_ne f c s c' : c ≠ c' → heap (on_conn f c s) !! c' = heap s !! c'.
Proof. intros. rewrite heap_on_conn. by rewrite decide_False. Qed.

(** ** Lemmas: registering *)

Lemma register_new s c outgoing addr :
  done s = false → conns s !! addr = None →
  ∃ s', register s c outgoing addr = Some s' ∧ conns s' = <[addr := c]> (conns s) ∧ heap s' = heap s ∧
    nodeUUID s' = nodeUUID s ∧ syncPort s' = syncPort s ∧ done s' = false.
Proof.
  intros Hd Hn. unfold register. rewrite Hd, Hn. cbn [mbind option_bind].
  eexists. split; [done|]. by destruct outgoing.
Qed.

(** Against an older connection the verdict of the tie-breaker decides. *)
Lemma register_contested s c old outgoing addr oldConn newConn :
  done s = false → conns s !! addr = Some old → old ≠ c →
  heap s !! old = Some oldConn → heap s !! c = Some newConn →
  if shouldKeepNewConnection (nodeUUID s) (syncPort s) oldConn newConn addr
  then ∃ s', register s c outgoing addr = Some s' ∧ conns s' = <[addr := c]> (conns s) ∧
       heap s' = alter close_conn old (heap s)
  else register s c outgoing addr = None.
Proof.
  intros Hd Ho Hne H1 H2. unfold register. rewrite Hd, Ho, bool_decide_eq_false_2 by done.
  rewrite H1, H2. case_match; [|done]. cbn [mbind option_bind].
  eexists. split; [done|]. by destruct outgoing.
Qed.

(** The verdict between the two directions of one pair of peers. *)
Lemma keep_new_cross node port addr o n :
  peerUUID n = peerUUID o → isOutgoing n = negb (isOutgoing o) → node ≠ peerUUID o →
  shouldKeepNewConnection node port o n addr = Bool.eqb (isOutgoing n) (node <? peerUUID o).
Proof.
  intros Hp Ho Hne. unfold shouldKeepNewConnection. rewrite Hp, Z.eqb_refl, Ho. cbn [negb].
  destruct (isOutgoing o); cbn [negb Bool.eqb].
  - destruct (Z.ltb_spec (peerUUID o) node), (Z.ltb_spec node (peerUUID o)), (Z.eqb_spec node (peerUUID o));
      done || lia.
  - destruct (Z.ltb_spec node (peerUUID o)), (Z.eqb_spec node (peerUUID o)); done || lia.
Qed.

Lemma check_handshake_Some s outgoing remote msg uuid addr :
  check_handshake s outgoing remote msg = Some (uuid, addr) ↔
  ∃ hs ip, readHandshake msg = Some hs ∧ remote = Some ip ∧ uuid = UUID hs ∧
    addr = JoinHostPort (IP_String (canonical_ip ip)) (itoa (Port hs)) ∧
    checkAuthToken s (AuthToken hs) = true ∧ UUID hs ≠ nodeUUID s ∧
    (outgoing = false → hs_PoolNet hs = poolNet s ∧ hs_PoolNet6 hs = poolNet6 s).
Proof.
  unfold check_handshake. destruct (readHandshake msg) as [hs|]; cbn [mbind option_bind]; [|naive_solver].
  destruct (checkAuthToken s (AuthToken hs)) eqn:Ea; cbn [negb]; [|naive_solver congruence].
  destruct (Z.eqb_spec (UUID hs) (nodeUUID s)); [naive_solver|].
  destruct remote as [ip|]; cbn [mbind option_bind]; [|naive_solver].
  destruct outgoing; cbn [negb andb].
  { naive_solver. }
  repeat case_bool_decide; cbn; naive_solver.
Qed.

(** ** Lemmas: opening a connection *)

(** What the checks and the tie-breaker read of the manager. *)
Definition node_config (s : SyncManager) : Z * string * string * string * string * bool :=
  (nodeUUID s, syncPort s, poolNet s, poolNet6 s, authToken s, done s).

Lemma node_config_eq s s' : node_config s = node_config s' → nodeUUID s = nodeUUID s' ∧ done s = done s'.
Proof. by intros [= ? _ _ _ _ ?]. Qed.

Lemma check_handshake_config s s' outgoing remote msg :
  node_config s = node_config s' → check_handshake s outgoing remote msg = check_handshake s' outgoing remote msg.
Proof. intros [= Hu _ H4 H6 Ha _]. unfold check_handshake, checkAuthToken. by rewrite Hu, H4, H6, Ha. Qed.

Lemma register_config s c outgoing addr s' : register s c outgoing addr = Some s' → node_config s' = node_config s.
Proof.
  unfold register. destruct (done s) eqn:Hd; [done|]. intros H.
  apply bind_Some in H as (s1 & H1 & [= <-]).
  assert (node_config s1 = node_config s) as H by (repeat case_match; naive_solver).
  by destruct outgoing.
Qed.

(** The connection as it stands when the table is consulted. *)
Definition greeted (s : SyncManager) (uuid : Z) (outgoing : bool) (sc : SafeConn) : SafeConn :=
  set_peer uuid outgoing
    (if outgoing then sc
     else set_queue (writeChan sc ++ [Some (mkMessage MsgTypeHandshake (Some (own_handshake s)) [] 0 [])]) sc).

Lemma on_conn_insert f c s sc : heap s !! c = Some sc → on_conn f c s = set_heap (<[c := f sc]> (heap s)) s.
Proof.
  intros H. unfold on_conn. f_equal. apply map_eq. intros i. destruct (decide (c = i)) as [->|].
  - by rewrite lookup_insert_eq, lookup_alter_eq, H.
  - by rewrite lookup_insert_ne, lookup_alter_ne.
Qed.

Lemma open_connection_checked s c outgoing remote msg uuid addr sc :
  check_handshake s outgoing remote msg = Some (uuid, addr) → heap s !! c = Some sc →
  (length (writeChan sc) < chan_cap)%nat →
  let s1 := set_heap (<[c := greeted s uuid outgoing sc]> (heap s)) s in
  open_connection s c outgoing remote msg =
  match register s1 c outgoing addr with Some s2 => (s2, Some addr) | None => (on_conn close_conn c s1, None) end.
Proof.
  intros Hc Hh Hroom. cbn zeta. unfold open_connection. rewrite Hc. destruct outgoing.
  - by rewrite (on_conn_insert _ _ _ _ Hh).
  - rewrite Hh. cbn [mbind option_bind]. rewrite try_send_room by done. cbn [mbind option_bind].
    rewrite (on_conn_insert _ c _ _ (lookup_insert_eq _ _ _)).
    unfold greeted, set_heap, set_conns. cbn [heap conns]. by rewrite insert_insert_eq.
Qed.

(** ** Lemmas: two connections to one peer *)

Definition open_at (s : SyncManager) (c : connId) : Prop := ∃ sc, heap s !! c = Some sc ∧ closed sc = false.
Definition closed_at (s : SyncManager) (c : connId) : Prop := ∃ sc, heap s !! c = Some sc ∧ closed sc = true.
Definition ready_at (s : SyncManager) (c : connId) : Prop :=
  ∃ sc, heap s !! c = Some sc ∧ closed sc = false ∧ (length (writeChan sc) < chan_cap)%nat.

Lemma open_first s c outgoing remote msg uuid addr :
  check_handshake s outgoing remote msg = Some (uuid, addr) → done s = false → conns s !! addr = None →
  ready_at s c →
  let s' := (open_connection s c outgoing remote msg).1 in
  node_config s' = node_config s ∧ conns s' = <[addr := c]> (conns s) ∧
  (∃ sc, heap s' !! c = Some sc ∧ closed sc = false ∧ peerUUID sc = uuid ∧ isOutgoing sc = outgoing) ∧
  ∀ c', c ≠ c' → heap s' !! c' = heap s !! c'.
Proof.
  intros Hc Hd Hn (sc & Hh & Hcl & Hroom). cbn zeta.
  rewrite (open_connection_checked _ _ _ _ _ _ _ _ Hc Hh Hroom). cbn zeta.
  set (s1 := set_heap _ s). destruct (register_new s1 c outgoing addr Hd Hn) as (s2 & Hr & Hcs & Hhp & _).
  rewrite Hr. cbn [fst]. split_and!.
  - by rewrite (register_config _ _ _ _ _ Hr).
  - done.
  - rewrite Hhp. exists (greeted s uuid outgoing sc). unfold s1, set_heap, set_conns. cbn [heap].
    rewrite lookup_insert_eq. split_and!; [done| |done|done]. by unfold greeted; destruct outgoing.
  - intros c' Hne. rewrite Hhp. unfold s1, set_heap, set_conns. cbn [heap]. by rewrite lookup_insert_ne.
Qed.

Lemma open_second s c old outgoing remote msg uuid addr oldConn :
  check_handshake s outgoing remote msg = Some (uuid, addr) → done s = false → conns s !! addr = Some old →
  old ≠ c → heap s !! old = Some oldConn → closed oldConn = false → peerUUID oldConn = uuid →
  isOutgoing oldConn = negb outgoing → ready_at s c →
  let s' := (open_connection s c outgoing remote msg).1 in
  let keep := Bool.eqb outgoing (nodeUUID s <? uuid) in
  conns s' !! addr = Some (if keep then c else old) ∧
  open_at s' (if keep then c else old) ∧ closed_at s' (if keep then old else c).
Proof.
  intros Hc Hd Ho Hne Hold Hocl Hpeer Hout (sc & Hh & Hcl & Hroom). cbn zeta.
  apply check_handshake_Some in Hc as Huuid. destruct Huuid as (hs & _ & _ & _ & -> & _ & _ & Hu & _).
  rewrite (open_connection_checked _ _ _ _ _ _ _ _ Hc Hh Hroom). cbn zeta.
  set (n := greeted s (UUID hs) outgoing sc). set (s1 := set_heap _ s).
  assert (heap s1 !! old = Some oldConn) as Hold1 by (unfold s1; cbn; by rewrite lookup_insert_ne).
  assert (heap s1 !! c = Some n) as Hnew1 by (unfold s1; cbn; by rewrite lookup_insert_eq).
  assert (closed n = false) as Hncl by (unfold n, greeted; by destruct outgoing).
  pose proof (register_contested s1 c old outgoing addr oldConn n Hd Ho Hne Hold1 Hnew1) as Hr.
  rewrite keep_new_cross in Hr by (unfold n, greeted; cbn; rewrite ?Hout, ?negb_involutive; congruence).
  change (isOutgoing n) with outgoing in Hr. change (nodeUUID s1) with (nodeUUID s) in Hr. rewrite Hpeer in Hr.
  destruct (Bool.eqb _ _).
  - destruct Hr as (s' & -> & Hcs & Hhp). cbn [fst]. rewrite Hcs, lookup_insert_eq.
    split_and!; [done| |]; unfold open_at, closed_at; rewrite Hhp.
    + rewrite lookup_alter_ne by done. eauto.
    + rewrite lookup_alter_eq, Hold1. cbn. eauto using close_conn_closed.
  - rewrite Hr. cbn [fst]. unfold open_at, closed_at. rewrite heap_on_conn_ne, heap_on_conn_eq by done.
    rewrite Hnew1, Hold1. split_and!; [done|eauto|]. cbn. eauto using close_conn_closed.
Qed.

(** Two peers dialled each other.  At one of them: its outgoing connection [co],
    its incoming one [ci], and the handshakes read from them. *)
Record crossing (s : SyncManager) (co ci : connId) (ro ri : option IP) (mo mi : option SyncMessage)
    (uuid : Z) (addr : string) : Prop := {
  cr_out : check_handshake s true ro mo = Some (uuid, addr);
  cr_in : check_handshake s false ri mi = Some (uuid, addr);
  cr_done : done s = false;
  cr_free : conns s !! addr = None;
  cr_ne : co ≠ ci;
  cr_ready_out : ready_at s co;
  cr_ready_in : ready_at s ci;
}.

(** The handlers of the two connections, in the given order. *)
Definition open_both (out_first : bool) (s : SyncManager) (co ci : connId) (ro ri : option IP)
    (mo mi : option SyncMessage) : SyncManager :=
  if out_first
  then (open_connection (open_connection s co true ro mo).1 ci false ri mi).1
  else (open_connection (open_connection s ci false ri mi).1 co true ro mo).1.

Lemma open_both_survivor out_first s co ci ro ri mo mi uuid addr :
  crossing s co ci ro ri mo mi uuid addr →
  let s' := open_both out_first s co ci ro ri mo mi in
  let out := nodeUUID s <? uuid in
  conns s' !! addr = Some (if out then co else ci) ∧
  open_at s' (if out then co else ci) ∧ closed_at s' (if out then ci else co).
Proof.
  intros [Ho Hi Hd Hf Hne Hro Hri]. unfold open_both. cbn zeta. destruct out_first.
  - destruct (open_first s co true ro mo uuid addr Ho Hd Hf Hro) as (Hc & Hcs & (sc & Hsc & Hcl & Hp & Hout) & Hh).
    set (s1 := (open_connection s co true ro mo).1) in *. destruct (node_config_eq s1 s Hc) as [Hu Hd1].
    destruct (open_second s1 ci co false ri mi uuid addr sc) as (H1 & H2 & H3); try done.
    + by rewrite (check_handshake_config s1 s).
    + by rewrite Hd1.
    + by rewrite Hcs, lookup_insert_eq.
    + destruct Hri as (sci & ? & ?). exists sci. by rewrite Hh.
    + rewrite Hu in *. by destruct (nodeUUID s <? uuid).
  - destruct (open_first s ci false ri mi uuid addr Hi Hd Hf Hri) as (Hc & Hcs & (sc & Hsc & Hcl & Hp & Hout) & Hh).
    set (s1 := (open_connection s ci false ri mi).1) in *. destruct (node_config_eq s1 s Hc) as [Hu Hd1].
    destruct (open_second s1 co ci true ro mo uuid addr sc) as (H1 & H2 & H3); try done.
    + by rewrite (check_handshake_config s1 s).
    + by rewrite Hd1.
    + by rewrite Hcs, lookup_insert_eq.
    + destruct Hro as (sco & ? & ?). exists sco. by rewrite Hh.
    + rewrite Hu in *. by destruct (nodeUUID s <? uuid).
Qed.

(** ** Lemmas: what opening a connection may change *)

Definition untouched (s s' : SyncManager) : Prop :=
  pool s' = pool s ∧ nftLog s' = nftLog s ∧ metrics s' = metrics s.

Lemma untouched_trans s1 s2 s3 : untouched s1 s2 → untouched s2 s3 → untouched s1 s3.
Proof. unfold untouched. intuition congruence. Qed.

Definition refused (s s' : SyncManager) (c : connId) : Prop :=
  conns s' = conns s ∧ activeDials s' = activeDials s ∧
  (∀ c', c ≠ c' → heap s' !! c' = heap s !! c') ∧ (∀ sc, heap s' !! c = Some sc → closed sc = true).

Lemma drop_refused s c : refused s (on_conn close_conn c s) c.
Proof.
  split_and!; [done|done| |].
  - intros c' Hne. by rewrite heap_on_conn_ne.
  - rewrite heap_on_conn_eq. intros sc (o & _ & ->)%fmap_Some. apply close_conn_closed.
Qed.

Lemma drop_refused_from s s1 c :
  conns s1 = conns s → activeDials s1 = activeDials s → (∀ c', c ≠ c' → heap s1 !! c' = heap s !! c') →
  refused s (on_conn close_conn c s1) c.
Proof.
  intros H1 H2 H3. destruct (drop_refused s1 c) as (? & ? & Hh & ?).
  split_and!; [congruence|congruence| |done]. intros c' Hne. rewrite Hh, H3; done.
Qed.

Lemma register_Some s c outgoing addr s' :
  register s c outgoing addr = Some s' →
  done s = false ∧ conns s' = <[addr := c]> (conns s) ∧ untouched s s'.
Proof.
  unfold register. destruct (done s) eqn:Hd; [done|]. intros H. split; [done|].
  apply bind_Some in H as (s1 & H1 & [= <-]).
  assert (conns s1 = conns s ∧ untouched s s1) as [Hc Hu].
  { unfold untouched. repeat case_match; by simplify_eq. }
  rewrite <- Hc. by destruct outgoing.
Qed.

(** ** Properties *)

(** C16: when two nodes dial each other at the same time, the tie-breaker makes
    both keep the same one of the two connections and close the other, in
    whatever order each node handles them.  [xA] and [xB] are the two ends of
    the connection A dialled, [yA] and [yB] those of the one B dialled. *)
Theorem crossing_dials_agree A B xA yA xB yB roA riA moA miA roB riB moB miB addrA addrB ordA ordB :
  crossing A xA yA roA riA moA miA (nodeUUID B) addrB →
  crossing B yB xB roB riB moB miB (nodeUUID A) addrA →
  let A' := open_both ordA A xA yA roA riA moA miA in
  let B' := open_both ordB B yB xB roB riB moB miB in
  (conns A' !! addrB = Some xA ∧ open_at A' xA ∧ closed_at A' yA ∧
   conns B' !! addrA = Some xB ∧ open_at B' xB ∧ closed_at B' yB) ∨
  (conns A' !! addrB = Some yA ∧ open_at A' yA ∧ closed_at A' xA ∧
   conns B' !! addrA = Some yB ∧ open_at B' yB ∧ closed_at B' xB).
Proof.
  intros HA HB. cbn zeta.
  pose proof (open_both_survivor ordA _ _ _ _ _ _ _ _ _ HA) as H1.
  pose proof (open_both_survivor ordB _ _ _ _ _ _ _ _ _ HB) as H2.
  apply cr_out, check_handshake_Some in HA as (hs & _ & _ & _ & Hu & _ & _ & Hne & _). rewrite <- Hu in Hne.
  cbn zeta in H1, H2.
  destruct (Z.ltb_spec (nodeUUID A) (nodeUUID B)), (Z.ltb_spec (nodeUUID B) (nodeUUID A)); try lia.
  - left. tauto.
  - right. tauto.
Qed.

Definition node_demo (uuid : Z) : SyncManager :=
  accept (accept (NewSyncManager EmptyString "8053" "198.18.0.0/15" "fd00::/108" None "secret" EmptyString
    EmptyString uuid) 0%nat "10.0.0.1:40000") 1%nat "10.0.0.1:8053".

Definition hello_demo (uuid : Z) : option SyncMessage :=
  Some (mkMessage MsgTypeHandshake (Some (own_handshake (node_demo uuid))) [] 0 []).

Lemma crossing_demo a b ip :
  bool_decide (w64 b = w64 a) = false →
  crossing (node_demo a) 0%nat 1%nat (Some ip) (Some ip) (hello_demo b) (hello_demo b) (w64 b)
    (JoinHostPort (IP_String (canonical_ip ip)) "8053").
Proof.
  intros Hne%bool_decide_eq_false. split; try done.
  - unfold check_handshake. cbn -[w64]. by destruct (Z.eqb_spec (w64 b) (w64 a)).
  - unfold check_handshake. cbn -[w64]. by destruct (Z.eqb_spec (w64 b) (w64 a)).
  - eexists. split; [done|]. split; [done|]. cbn. unfold chan_cap. lia.
  - eexists. split; [done|]. split; [done|]. cbn. unfold chan_cap. lia.
Qed.

Lemma crossing_dials_agree_witness :
  conns (open_both true (node_demo 5) 0%nat 1%nat (Some (ParseIP "10.0.0.2")) (Some (ParseIP "10.0.0.2"))
           (hello_demo 9) (hello_demo 9)) !! "10.0.0.2:8053" = Some 0%nat ∧
  conns (open_both false (node_demo 9) 0%nat 1%nat (Some (ParseIP "10.0.0.1")) (Some (ParseIP "10.0.0.1"))
           (hello_demo 5) (hello_demo 5)) !! "10.0.0.1:8053" = Some 1%nat.
Proof.
  pose proof (crossing_dials_agree (node_demo 5) (node_demo 9) 0%nat 1%nat 1%nat 0%nat _ _ _ _ _ _ _ _ _ _
    true false (crossing_demo 5 9 (ParseIP "10.0.0.2") eq_refl) (crossing_demo 9 5 (ParseIP "10.0.0.1") eq_refl))
    as [(H1 & _ & _ & H2 & _)|(H1 & _)].
  - split; [exact H1|exact H2].
  - exfalso. vm_compute in H1. discriminate.
Defined.

(** C22: a connection enters the table only after a handshake that carries the
    node's token, comes from another node and, when the peer dialled, names the
    same two pool networks; it is entered under the peer's own address.  A
    refused one is closed and changes nothing else, and no handshake touches
    the pool or the packet filter. *)
Theorem open_connection_guards s c outgoing remote msg :
  let '(s', r) := open_connection s c outgoing remote msg in
  untouched s s' ∧
  match r with
  | Some addr =>
      done s = false ∧ conns s' = <[addr := c]> (conns s) ∧
      ∃ hs ip, readHandshake msg = Some hs ∧ remote = Some ip ∧
        addr = JoinHostPort (IP_String (canonical_ip ip)) (itoa (Port hs)) ∧
        checkAuthToken s (AuthToken hs) = true ∧ UUID hs ≠ nodeUUID s ∧
        (outgoing = false → hs_PoolNet hs = poolNet s ∧ hs_PoolNet6 hs = poolNet6 s)
  | None => refused s s' c
  end.
Proof.
  unfold open_connection. destruct (check_handshake s outgoing remote msg) as [[uuid addr]|] eqn:Hc.
  2:{ split; [done|apply drop_refused]. }
  apply check_handshake_Some in Hc as (hs & ip & H1 & H2 & -> & H4 & H5 & H6 & H7).
  set (answered := if outgoing then Some s else _).
  assert (∀ s1, answered = Some s1 → untouched s s1 ∧ done s1 = done s ∧ conns s1 = conns s ∧
            activeDials s1 = activeDials s ∧ ∀ c', c ≠ c' → heap s1 !! c' = heap s !! c') as Ha.
  { unfold answered. destruct outgoing; [by intros s1 [= <-]|].
    intros s1 (sc & _ & (sc' & _ & [= <-])%bind_Some)%bind_Some. split_and!; try done.
    intros c' Hne. unfold set_heap, set_conns. cbn [heap]. by rewrite lookup_insert_ne. }
  destruct answered as [s1|]; [|split; [done|apply drop_refused]].
  destruct (Ha s1 eq_refl) as (Hu & Hd & Hcs & Had & Hh).
  set (s2 := on_conn (set_peer (UUID hs) outgoing) c s1).
  destruct (register s2 c outgoing addr) as [s3|] eqn:Hr.
  - apply register_Some in Hr as (Hd2 & Hcs2 & Hu2). split; [exact (untouched_trans s s1 s3 Hu Hu2)|].
    split_and!; [by rewrite <- Hd|by rewrite Hcs2, <- Hcs|eauto 10].
  - split; [done|]. apply drop_refused_from; try done.
    intros c' Hne. unfold s2. rewrite heap_on_conn_ne by done. by apply Hh.
Qed.

Lemma verify_pin_elem s hash : verify_pin s hash = true → ∃ h, hash = Some h ∧ h ∈ certFingerprints s.
Proof.
  unfold verify_pin. destruct hash as [h|]; [|done]. intros (fp & Hin & Heq)%existsb_exists.
  apply bool_decide_eq_true in Heq as <-. exists h. split; [done|]. by apply list_elem_of_In.
Qed.

(** C23: a node that starts synchronisation has a secret other than the example
    one and accepts only handshakes carrying it; with pinning its outgoing
    connections reach only hosts presenting a pinned certificate, and with
    neither pinning nor verification turned off only verified ones. *)
Theorem started_node_authenticates uni strictTLS hashStr tls s s' :
  StartServer uni strictTLS hashStr tls s = Some s' →
  authToken s' ≠ EmptyString ∧ authToken s' ≠ default_token ∧
  (∀ outgoing remote msg uuid addr, check_handshake s' outgoing remote msg = Some (uuid, addr) →
     ∃ hs, readHandshake msg = Some hs ∧ AuthToken hs = authToken s') ∧
  (∀ fp, tls = Some (Some fp) → (tls_mode uni strictTLS).1 = true →
     ∀ hash verified, tls_accepts uni strictTLS s' hash verified = true →
       ∃ h, hash = Some h ∧ h ∈ certFingerprints s') ∧
  (tls_mode uni strictTLS = (false, false) →
     ∀ hash verified, tls_accepts uni strictTLS s' hash verified = true → verified = true).
Proof.
  unfold StartServer. destruct tls as [fingerprint|]; [|done].
  destruct (bool_decide (authToken s = EmptyString)) eqn:E1; [done|].
  destruct (bool_decide (authToken s = default_token)) eqn:E2; [done|].
  apply bool_decide_eq_false in E1, E2. cbn [orb]. intros Hs.
  assert (authToken s' = authToken s) as Ht by (repeat case_match; by simplify_eq).
  rewrite Ht. split_and!; [done|done| | |].
  - intros outgoing remote msg uuid addr (hs & ip & H1 & _ & _ & _ & H5 & _)%check_handshake_Some.
    exists hs. split; [done|]. unfold checkAuthToken in H5. rewrite Ht in H5.
    rewrite bool_decide_eq_false_2 in H5 by done. cbn [orb] in H5. by apply bool_decide_eq_true in H5.
  - intros fp [= ->] Hpin hash verified. rewrite Hpin in Hs. unfold tls_accepts.
    destruct (tls_mode uni strictTLS) as [pin skip]. cbn [fst] in Hpin. subst pin.
    assert (no_pins s' = false) as ->.
    { destruct (no_pins s) eqn:Ep; [|by repeat case_match; simplify_eq].
      case_match; [done|]. by simplify_eq. }
    cbn [andb negb]. intros [_ H]%andb_prop. by apply verify_pin_elem.
  - intros Hm hash verified. unfold tls_accepts. rewrite Hm. cbn. by rewrite andb_true_r.
Qed.

Lemma started_node_authenticates_witness :
  ∃ s', StartServer id "pin" EmptyString (Some (Some [Byte.x01; Byte.x02])) (node_demo 5) = Some s' ∧
    ∀ hash verified, tls_accepts id "pin" s' hash verified = true →
      ∃ h, hash = Some h ∧ h ∈ certFingerprints s'.
Proof.
  eexists. split; [vm_compute; reflexivity|].
  refine (proj1 (proj2 (proj2 (proj2 (started_node_authenticates id "pin" EmptyString
    (Some (Some [Byte.x01; Byte.x02])) (node_demo 5) _ _)))) [Byte.x01; Byte.x02] eq_refl _);
    vm_compute; reflexivity.
Defined.
