(* ===== verification/SyncData.v ===== *)
(** * Peer-to-peer synchronisation: the exchange of mappings

    What a received mapping does to the pool and the packet filter, and the
    transfer of a whole pool to a peer that connects: batching, the bounded
    queue, the writer, and the receiver's handler, composed. *)

From Stdlib Require Import Ascii.
From Stdlib Require String.
From stdpp Require Import prelude gmap strings.
From S2P Require Import Prelude GoStrings GoText GoNet GoNetFacts GoHostPort Metrics IPPool PoolInv.
From S2P Require Import PoolOps PoolReach PoolPrune PoolSpec PoolConv Sync SyncFacts.

#[local] Arguments String.append : simpl nomatch.

(** ** Lemmas: one mapping *)

Lemma models_hlc a h p : models a p → models a (set_hlc h p).
Proof. intros [H1 H2]. split; [by apply set_hlc_wf|exact H2]. Qed.

(** The handler's version test refuses only what [AddMapping] refuses too. *)
Lemma version_guard a p r fake v :
  models a p → 0 ≤ v → v < GetVersion p fake → spec_rejects a r (ToIPKey fake) v = true.
Proof.
  intros Hm Hv Hlt. unfold GetVersion in Hlt.
  destruct (globalVersions p !! ToIPKey fake) as [ev|] eqn:E; cbn in Hlt; [|lia].
  apply (models_versions a p Hm) in E as (r0 & en & Hen & Hf & Hev).
  apply bool_decide_eq_true. exists r0, en. split; [done|]. left. split; [done|]. apply outdated_rank.
  unfold outdated. rewrite Hev. by destruct (Z.ltb_spec v ev); [|lia].
Qed.

(** What a received mapping should do: nothing outside the node's networks,
    the pool's specification inside. *)
Definition spec_recv (s : SyncManager) (a : apool) (m : Mapping) (now : Z) : bool * apool :=
  if isInSubnet s (FakeIP m)
  then spec_add a (ToIPKey (RealIP m)) (ToIPKey (FakeIP m)) (Version m) (now + MappingTTL)
  else (false, a).

Lemma recv_mapping_spec nano now s m p a :
  pool s = Some p → models a p → valid_ip (RealIP m) → is_u64 (Version m) →
  let s' := recv_mapping nano now s m in
  let spec := spec_recv s a m now in
  (∃ p', pool s' = Some p' ∧ models spec.2 p') ∧
  nftLog s' = nftLog s ++ (if spec.1 then [(FakeIP m, RealIP m, MappingTTL)] else []).
Proof.
  intros Hp Hm Hv Hu. cbn zeta. unfold recv_mapping, spec_recv.
  assert (is_nil (RealIP m) = false) as -> by (unfold valid_ip in Hv; destruct (RealIP m); cbn in *; lia || done).
  rewrite orb_false_r. destruct (is_nil (FakeIP m)) eqn:En.
  { unfold isInSubnet. rewrite En. rewrite app_nil_r. eauto. }
  destruct (isInSubnet s (FakeIP m)); cbn [negb]; [|rewrite app_nil_r; eauto]. rewrite Hp.
  destruct (Z.ltb_spec (Version m) (GetVersion p (FakeIP m))) as [Hlt|Hge].
  { unfold spec_add. rewrite (version_guard a p) by (done || apply Hu). rewrite app_nil_r. eauto. }
  set (p1 := ObserveVersion nano (Version m) p).
  pose proof (AddMapping_spec a p1 (metrics s) (RealIP m) (FakeIP m) (Version m) (now + MappingTTL)
    (models_hlc _ _ _ Hm) Hv) as [H1 H2].
  destruct (AddMapping p1 (metrics s) (RealIP m) (FakeIP m) (Version m) (now + MappingTTL)) as [[ok p2] mt].
  cbn [fst snd] in H1, H2. rewrite <- H1. destruct ok; cbn; [eauto|]. rewrite app_nil_r. eauto.
Qed.

Lemma recv_mapping_nets nano now s m :
  poolNet (recv_mapping nano now s m) = poolNet s ∧ poolNet6 (recv_mapping nano now s m) = poolNet6 s.
Proof. unfold recv_mapping. repeat case_match; done. Qed.

Lemma isInSubnet_nets s s' ip :
  poolNet s = poolNet s' → poolNet6 s = poolNet6 s' → isInSubnet s ip = isInSubnet s' ip.
Proof. intros H1 H2. unfold isInSubnet. by rewrite H1, H2. Qed.

(** ** Properties: receiving *)

(** C18: a mapping received from a peer is ignored, nothing of the node being
    touched, when it lacks an address or its Fake-IP lies outside the node's own
    pool networks.  With a real address of 4 or 16 bytes it otherwise updates
    the pool exactly as the specification of [AddMapping] says, and the packet
    filter is told of it exactly when the pool accepted it.  (The receiver does
    not check the length of the address; [malformed_real_breaks_pool] is what
    another one does to the pool.) *)
Theorem recv_mapping_refines nano now s m :
  (FakeIP m = [] ∨ RealIP m = [] ∨ isInSubnet s (FakeIP m) = false → recv_mapping nano now s m = s) ∧
  ∀ p a, pool s = Some p → models a p → valid_ip (RealIP m) → is_u64 (Version m) →
    let s' := recv_mapping nano now s m in
    let spec := spec_recv s a m now in
    (∃ p', pool s' = Some p' ∧ models spec.2 p') ∧
    nftLog s' = nftLog s ++ (if spec.1 then [(FakeIP m, RealIP m, MappingTTL)] else []).
Proof.
  split; [|intros p a; apply recv_mapping_spec]. unfold recv_mapping.
  intros [-> |[-> | ->]]; [done|by rewrite orb_true_r|by case_match].
Qed.

Definition receiver_demo : SyncManager :=
  NewSyncManager EmptyString "8053" "198.18.0.0/15" "fd00:18::/108" (Some demo_pool) "secret" EmptyString
    EmptyString 5.

Lemma recv_mapping_refines_witness :
  nftLog (recv_mapping 1 10 receiver_demo (mkMapping demo_fake demo_real 7)) = [(demo_fake, demo_real, MappingTTL)] ∧
  nftLog (recv_mapping 1 10 receiver_demo (mkMapping (ParseIP "8.8.8.8") demo_real 7)) = [].
Proof.
  split.
  - etrans; [refine (proj2 (proj2 (recv_mapping_refines 1 10 receiver_demo (mkMapping demo_fake demo_real 7)) demo_pool ∅
      eq_refl (models_NewIPPool _ _ _) _ _)); [right; vm_compute; reflexivity|vm_compute; split; done]|].
    vm_compute. reflexivity.
  - rewrite (proj1 (recv_mapping_refines 1 10 receiver_demo (mkMapping (ParseIP "8.8.8.8") demo_real 7)));
      [vm_compute; reflexivity|]. right. right. vm_compute. reflexivity.
Defined.

(** ** Lemmas: batches *)

Lemma batches_join l : ∀ cur, mjoin (batches cur l) = cur ++ l.
Proof.
  induction l as [|m l IH]; intros cur; cbn [batches].
  - destruct cur; cbn; by rewrite ?app_nil_r.
  - case_match.
    + change (mjoin (?b :: ?bs)) with (b ++ mjoin bs). rewrite IH. by rewrite <- app_assoc.
    + rewrite IH, <- app_assoc. done.
Qed.

Lemma batches_size l : ∀ cur, (length cur < 1000)%nat → Forall (λ b, (0 < length b ≤ 1000)%nat) (batches cur l).
Proof.
  induction l as [|m l IH]; intros cur Hc; cbn [batches].
  - destruct cur; [done|]. apply Forall_singleton. cbn in *. lia.
  - destruct (Nat.leb_spec 1000 (length (cur ++ [m]))) as [H|H]; rewrite length_app in H; cbn in H.
    + constructor; [rewrite length_app; cbn; lia|]. apply IH. cbn. lia.
    + apply IH. rewrite length_app. cbn. lia.
Qed.

Lemma batches_count l : ∀ cur,
  (length cur < 1000)%nat → (1000 * length (batches cur l) < length cur + length l + 1000)%nat.
Proof.
  induction l as [|m l IH]; intros cur Hc; cbn [batches].
  - destruct cur; cbn in *; lia.
  - destruct (Nat.leb_spec 1000 (length (cur ++ [m]))) as [H|H]; rewrite length_app in H; cbn in H.
    + cbn [length]. specialize (IH [] ltac:(cbn; lia)). cbn in IH. lia.
    + specialize (IH (cur ++ [m])). rewrite length_app in IH. cbn in IH. cbn [length]. lia.
Qed.

(** ** Lemmas: what reaches the wire *)

(** The messages the peer gets: those encoded and those still queued. *)
Definition stream (sc : SafeConn) : list SyncMessage := wire sc ++ omap id (writeChan sc).

Definition alive (sc : SafeConn) : Prop := closed sc = false ∧ Forall is_Some (writeChan sc).

(** While the sender sleeps only the writer works, without errors. *)
Definition quiet (e : WriteEvent) : Prop :=
  match e with WRecv ok | WFlush ok => ok = true | WTick _ => False end.
Definition only_writes (sleep : nat → SafeConn → SafeConn) : Prop :=
  ∀ i sc, ∃ es, Forall quiet es ∧ sleep i sc = foldl (flip writeLoop) sc es.

Lemma write_keeps e sc :
  quiet e → alive sc →
  alive (writeLoop e sc) ∧ stream (writeLoop e sc) = stream sc ∧
  (length (writeChan (writeLoop e sc)) ≤ length (writeChan sc))%nat.
Proof.
  intros Hq [Hc Hf]. unfold writeLoop. destruct (writing sc); [|done].
  destruct e as [ok|ok|ok]; cbn in Hq; [| |done]; subst ok; [|done].
  destruct (writeChan sc) as [|[m|] q] eqn:E; cbn [negb].
  - unfold alive. by rewrite E.
  - apply Forall_cons in Hf as [_ Hf]. split; [done|]. unfold stream. rewrite E. cbn.
    split; [by rewrite <- app_assoc|lia].
  - apply Forall_cons in Hf as [[? [=]] _].
Qed.

Lemma writes_keep es : ∀ sc,
  Forall quiet es → alive sc →
  let sc' := foldl (flip writeLoop) sc es in
  alive sc' ∧ stream sc' = stream sc ∧ (length (writeChan sc') ≤ length (writeChan sc))%nat.
Proof.
  induction es as [|e es IH]; intros sc Hq Ha; [done|]. apply Forall_cons in Hq as [He Hes].
  destruct (write_keeps e sc He Ha) as (H1 & H2 & H3). destruct (IH (writeLoop e sc) Hes H1) as (H4 & H5 & H6).
  cbn. split_and!; [done|congruence|]. etrans; [exact H6|exact H3].
Qed.

Lemma queue_keeps m sc :
  alive sc → alive (set_queue (writeChan sc ++ [Some m]) sc) ∧
  stream (set_queue (writeChan sc ++ [Some m]) sc) = stream sc ++ [m].
Proof.
  intros [Hc Hf]. unfold alive, stream. cbn. split.
  - split; [done|]. apply Forall_app. split; [done|]. by apply Forall_singleton.
  - by rewrite omap_app, app_assoc.
Qed.

Lemma send_batches_stream sleep bs : ∀ i sc,
  only_writes sleep → alive sc → (length (writeChan sc) + length bs ≤ chan_cap)%nat →
  let sc' := send_batches sleep i bs sc in alive sc' ∧ stream sc' = stream sc ++ (mappings_msg <$> bs).
Proof.
  induction bs as [|b bs IH]; intros i sc Hs Ha Hlen; cbn [send_batches length] in *.
  { by rewrite app_nil_r. }
  rewrite (proj1 Ha), try_send_room by lia.
  destruct (queue_keeps (mappings_msg b) sc Ha) as [Ha1 Hst1].
  set (sc1 := set_queue _ sc) in *.
  assert (length (writeChan sc1) = length (writeChan sc) + 1)%nat as Hl1 by (unfold sc1; cbn; by rewrite length_app).
  set (sc2 := if Nat.leb 1000 (length b) then sleep i sc1 else sc1).
  assert (alive sc2 ∧ stream sc2 = stream sc1 ∧ (length (writeChan sc2) ≤ length (writeChan sc1))%nat)
    as (Ha2 & Hst2 & Hl2).
  { unfold sc2. case_match; [|done]. destruct (Hs i sc1) as (es & Hes & ->). by apply writes_keep. }
  destruct (IH (S i) sc2 Hs Ha2) as [H1 H2]; [lia|]. split; [done|].
  rewrite H2, Hst2, Hst1, <- app_assoc. done.
Qed.

Lemma sendAll_stream sleep l sc :
  only_writes sleep → alive sc →
  Z.of_nat (length l) ≤ 1000 * (Z.of_nat chan_cap - Z.of_nat (length (writeChan sc))) →
  let sc' := sendAllMappingsToConn sleep l sc in
  alive sc' ∧ stream sc' = stream sc ++ (mappings_msg <$> batches [] l).
Proof.
  intros Hs Ha Hl. apply send_batches_stream; [done|done|].
  pose proof (batches_count l [] ltac:(cbn; lia)) as H. cbn in H. lia.
Qed.

(** ** Lemmas: receiving lists *)

Definition same_nets (s s' : SyncManager) : Prop := poolNet s' = poolNet s ∧ poolNet6 s' = poolNet6 s.

(** A mapping the node takes into account. *)
Definition admissible (s : SyncManager) (m : Mapping) : Prop :=
  valid_ip (RealIP m) ∧ is_u64 (Version m) ∧ isInSubnet s (FakeIP m) = true.

Lemma admissible_nets s s' m : same_nets s s' → admissible s m → admissible s' m.
Proof. intros [H4 H6] (? & ? & ?). split_and!; [done|done|]. by rewrite (isInSubnet_nets s' s). Qed.

(** Receiving admissible mappings is the specification's fold over updates with
    the same contents. *)
Lemma recv_list (clk : nat → Z * Z) L : ∀ s p a,
  pool s = Some p → models a p → Forall (admissible s) L.*2 →
  let s' := foldl (λ s '(i, m), recv_mapping (clk i).1 (clk i).2 s m) s L in
  ∃ us p', mapping_of <$> us = L.*2 ∧ pool s' = Some p' ∧ models (foldl spec_update a us) p' ∧ same_nets s s'.
Proof.
  induction L as [|[i m] L IH]; intros s p a Hp Hm HL; cbn [foldl].
  { exists [], p. split_and!; done. }
  cbn in HL. apply Forall_cons in HL as [(Hv & Hu & Hin) HL].
  pose proof (recv_mapping_spec (clk i).1 (clk i).2 s m p a Hp Hm Hv Hu) as [(p1 & Hp1 & Hm1) _].
  pose proof (recv_mapping_nets (clk i).1 (clk i).2 s m) as Hn1.
  unfold spec_recv in Hm1. rewrite Hin in Hm1.
  destruct (IH _ p1 _ Hp1 Hm1) as (us & p2 & Hus & Hp2 & Hm2 & Hn2).
  { eapply Forall_impl; [exact HL|]. intros m'. by apply admissible_nets. }
  exists (mkUpdate (RealIP m) (FakeIP m) (Version m) ((clk i).2 + MappingTTL) :: us), p2.
  split_and!; [|done|exact Hm2|].
  - cbn. rewrite Hus. by destruct m.
  - destruct Hn1, Hn2. split; congruence.
Qed.

Lemma imap_pairs_snd (l : list Mapping) : (imap (λ i m, (i, m)) l).*2 = l.
Proof. rewrite fmap_imap. etrans; [apply (imap_const id)|apply list_fmap_id]. Qed.

Lemma receive_batches clock now localIPs bs : ∀ k s p a,
  pool s = Some p → models a p → Forall (admissible s) (mjoin bs) →
  let s' := (receive clock now localIPs k s (mappings_msg <$> bs)).1 in
  ∃ us p', mapping_of <$> us = mjoin bs ∧ pool s' = Some p' ∧ models (foldl spec_update a us) p'.
Proof.
  induction bs as [|b bs IH]; intros k s p a Hp Hm Hbs; cbn zeta.
  { exists [], p. done. }
  change (mjoin (b :: bs)) with (b ++ mjoin bs) in *. apply Forall_app in Hbs as [Hb Hbs].
  cbn [fmap list_fmap receive]. unfold handle_message. cbn [Type_ mappings_msg Mappings].
  change (MsgTypeMappings =? MsgTypePEX) with false. change (MsgTypeMappings =? MsgTypePing) with false.
  change (MsgTypeMappings =? MsgTypeMappings) with true. cbn iota.
  set (s1 := set_pool _ _ _ s).
  destruct (recv_list (clock k) (imap (λ i m, (i, m)) b) s1 p a Hp Hm) as (us & p1 & Hus & Hp1 & Hm1 & Hn).
  { rewrite imap_pairs_snd. exact Hb. }
  rewrite imap_pairs_snd in Hus. set (s2 := foldl _ s1 _) in *.
  destruct (IH (S k) s2 p1 _ Hp1 Hm1) as (us2 & p2 & Hus2 & Hp2 & Hm2).
  { eapply Forall_impl; [exact Hbs|]. intros m. by apply (admissible_nets s s2). }
  exists (us ++ us2), p2. rewrite fmap_app, Hus, Hus2, foldl_app. split_and!; [done| |done].
  destruct (receive clock now localIPs (S k) s2 _) as [s3 ds]. exact Hp2.
Qed.

(** ** Properties: the transfer *)

(** A node that connects gets the whole pool: as long as the snapshot fits
    the queue, every mapping goes out exactly once and in order, in non-empty
    batches of at most a thousand, whatever the writer does meanwhile, and the
    connection stays open. *)
Theorem snapshot_is_streamed sleep l sc :
  only_writes sleep → alive sc →
  Z.of_nat (length l) ≤ 1000 * (Z.of_nat chan_cap - Z.of_nat (length (writeChan sc))) →
  let sc' := sendAllMappingsToConn sleep l sc in
  closed sc' = false ∧
  ∃ bs, stream sc' = stream sc ++ (mappings_msg <$> bs) ∧ mjoin bs = l ∧
    Forall (λ b, (0 < length b ≤ 1000)%nat) bs.
Proof.
  intros Hs Ha Hl. destruct (sendAll_stream sleep l sc Hs Ha Hl) as [[Hc _] Hst]. split; [done|].
  exists (batches [] l). split_and!; [done|apply batches_join|]. apply batches_size. cbn. lia.
Qed.

(** A writer that takes two messages and flushes during every sleep. *)
Definition steady (i : nat) (sc : SafeConn) : SafeConn :=
  foldl (flip writeLoop) sc [WRecv true; WRecv true; WFlush true].

Lemma steady_only_writes : only_writes steady.
Proof. intros i sc. exists [WRecv true; WRecv true; WFlush true]. split; [|done]. by repeat constructor. Qed.

Definition demo_mapping : Mapping := mkMapping demo_fake demo_real 7.

Lemma snapshot_is_streamed_witness :
  closed (sendAllMappingsToConn steady (replicate 1001 demo_mapping) (NewSafeConn "10.0.0.1:8053")) = false.
Proof.
  refine (proj1 (snapshot_is_streamed steady (replicate 1001 demo_mapping) (NewSafeConn "10.0.0.1:8053")
    steady_only_writes _ _)).
  - split; [reflexivity|constructor].
  - rewrite length_replicate. vm_compute. discriminate.
Defined.

(** C15: the whole exchange.  A node with an empty pool that reads what a peer
    with pool [p] sends after the handshake [hello] ends with exactly the
    peer's mappings and versions, provided that the snapshot fits the peer's
    queue, that all its Fake-IPs lie in the receiver's networks, and that while
    the peer queues its snapshot only the writer of the connection works, without
    errors: no broadcast or ping is queued and no write fails. *)
Theorem cold_start_replicates p sleep sc hello s base4 base6 cfg clock now localIPs :
  pool_wf p → (∀ f v, globalVersions p !! f = Some v → is_u64 v) →
  only_writes sleep → alive sc → stream sc = [hello] →
  Z.of_nat (length (GetAllMappings p)) ≤ 1000 * (Z.of_nat chan_cap - Z.of_nat (length (writeChan sc))) →
  pool s = Some (NewIPPoolWithConfig base4 base6 cfg) →
  (∀ m, m ∈ GetAllMappings p → isInSubnet s (FakeIP m) = true) →
  let sc' := sendAllMappingsToConn sleep (GetAllMappings p) sc in
  ∃ q, pool (receive clock now localIPs 0 s (tail (stream sc'))).1 = Some q ∧
    (∀ r, rtf q r = rtf p r) ∧ (∀ f, globalVersions q !! f = globalVersions p !! f).
Proof.
  intros H Hu Hs Ha Hst Hl Hp Hin. cbn zeta.
  destruct (sendAll_stream sleep _ sc Hs Ha Hl) as [_ ->]. rewrite Hst. cbn [tail app].
  destruct (receive_batches clock now localIPs (batches [] (GetAllMappings p)) 0 s _ ∅ Hp
    (models_NewIPPool _ _ _)) as (us & q & Hus & Hq & Hm).
  { rewrite batches_join. apply Forall_forall. intros m Hm. split_and!; [by eapply snapshot_valid| |by apply Hin].
    apply elem_of_GetAllMappings in Hm as (f & r & v & _ & Hv & ->); [|done]. by apply (Hu f). }
  exists q. split; [done|]. apply (snapshot_models p q us H); [|done]. rewrite Hus, batches_join. done.
Qed.

Definition hello_conn : SafeConn := set_wire [ping_msg] (NewSafeConn "10.0.0.1:8053").

Lemma cold_start_replicates_witness :
  ∃ q, pool (receive (λ _ _, (1, 1)) (λ _, 1) ∅ 0 receiver_demo
         (tail (stream (sendAllMappingsToConn steady (GetAllMappings prune_demo) hello_conn)))).1 = Some q ∧
    rtf q (ToIPKey demo_real) = Some (ToIPKey demo_fake).
Proof.
  destruct (cold_start_replicates prune_demo steady hello_conn ping_msg receiver_demo "198.18" "fd00:18::"
    (mkIPPoolConfig DefaultPoolSizeV4 DefaultPoolSizeV6) (λ _ _, (1, 1)) (λ _, 1) ∅
    (proj1 prune_demo_models)) as (q & Hq & Hr & _).
  - intros f v Hv. apply (models_versions _ _ prune_demo_models) in Hv as (r & en & He & _ & <-).
    assert (map_Forall (λ _ en, 0 ≤ e_version en < 2 ^ 64) prune_spec_demo) as Hall
      by (apply (bool_decide_unpack _); vm_compute; exact I).
    exact (Hall r en He).
  - apply steady_only_writes.
  - split; [reflexivity|constructor].
  - reflexivity.
  - vm_compute. discriminate.
  - reflexivity.
  - apply Forall_forall, (bool_decide_unpack _). vm_compute. exact I.
  - exists q. split; [exact Hq|]. rewrite Hr. vm_compute. reflexivity.
Defined.

(** ** Lemmas: introductions *)

Lemma IP_Equal_To16 ip x : valid_ip ip → length x = 16%nat → IP_Equal (To16 ip) x = IP_Equal ip x.
Proof.
  intros [H|H] Hx; unfold IP_Equal, To16; rewrite H, Hx; cbn [Nat.eqb].
  - rewrite length_app, H. change (Nat.eqb (length v4InV6Prefix + 4) 16) with true. cbn [andb].
    apply eq_bool_prop_intro. rewrite andb_True, !bool_decide_spec. split.
    + intros <-. done.
    + intros [Ht ->]. by rewrite <- Ht, take_drop.
  - by rewrite H.
Qed.

(** The receiver refuses to dial these. *)
Definition unroutable (ip : IP) : bool :=
  IsLoopback ip || IsMulticast ip || IsUnspecified ip || IsLinkLocalUnicast ip.

Lemma unroutable_To16 ip : valid_ip ip → unroutable (To16 ip) = unroutable ip.
Proof.
  intros Hv. unfold unroutable, IsLoopback, IsMulticast, IsUnspecified, IsLinkLocalUnicast.
  rewrite To4_To16, !IP_Equal_To16 by done. destruct (is_nil (To4 ip)) eqn:E; [|done].
  apply is_nil_true in E. by destruct (To16_To4_nil ip Hv E) as [_ ->].
Qed.

Lemma canonical_ip_valid ip : valid_ip ip → valid_ip (canonical_ip ip) ∧ To16 (canonical_ip ip) = To16 ip.
Proof.
  intros Hv. unfold canonical_ip. destruct (is_nil (To4 ip)) eqn:E; [done|].
  apply is_nil_false in E. pose proof (To4_length ip E) as Hl. split; [by left|].
  rewrite (To16_of_To4 ip) by done. unfold To16. by rewrite Hl.
Qed.

(** ** Properties: introductions *)

(** C24: an introduction survives the wire.  The address under which a peer is
    registered is encoded as an address and a port, and the node that receives
    it rebuilds the same text: it dials that peer, subject to its checks, and
    registers it under the same key. *)
Theorem pex_introduces s ip port clock now localIPs :
  valid_ip ip → 0 < port < 2 ^ 16 →
  let addr := JoinHostPort (IP_String (canonical_ip ip)) (itoa port) in
  ∃ msg, pex_msg addr = Some msg ∧
    handle_message clock now localIPs s msg =
      if unroutable ip || (50 <=? Z.of_nat (size (conns s))) then (s, None, true)
      else let '(s', dial) := tryConnect now s addr localIPs in (s', if dial then Some addr else None, true).
Proof.
  intros Hv Hport addr. destruct (canonical_ip_valid ip Hv) as [Hc Hc16].
  exists (mkMessage MsgTypePEX None (To16 ip) port []). split.
  - unfold pex_msg, addr. rewrite SplitHostPort_addr by (done || lia). cbn [mbind option_bind].
    rewrite ParseIP_String, Hc16 by done.
    assert (is_nil (To16 ip) = false) as -> by (pose proof (To16_length ip Hv); by destruct (To16 ip)).
    rewrite atoi_itoa by lia. cbn [mbind option_bind]. by rewrite Z.mod_small by lia.
  - unfold handle_message. cbn [Type_ PEXPort PEXIP]. change (MsgTypePEX =? MsgTypePEX) with true. cbn iota.
    destruct (Z.eqb_spec port 0); [lia|]. cbn [orb].
    fold (unroutable (To16 ip)). rewrite unroutable_To16 by done.
    destruct (unroutable ip); cbn [orb]; [done|]. case_match; [done|].
    rewrite <- Hc16, IP_String_To16 by done. done.
Qed.

Lemma pex_introduces_witness :
  ∃ msg, pex_msg "10.0.0.7:8053" = Some msg ∧
    (handle_message (λ _, (1, 1)) 1 ∅ receiver_demo msg).1.2 = Some "10.0.0.7:8053".
Proof.
  destruct (pex_introduces receiver_demo (ParseIP "10.0.0.7") 8053 (λ _, (1, 1)) 1 ∅) as (msg & H1 & H2).
  - right. reflexivity.
  - lia.
  - exists msg. split; [exact H1|]. rewrite H2. vm_compute. reflexivity.
Defined.
