(* ===== verification/SyncInv.v ===== *)
(** * Synchronisation: the well-formedness of a running node

    Every reachable state of a node keeps its table of connections sound: what
    the table refers to exists, belongs to another node and stands under one
    address only, the queues respect their capacity, and once [Close] has closed
    the table's connections, the table holds closed connections only. *)

From Stdlib Require Import Ascii.
From Stdlib Require String.
From stdpp Require Import prelude gmap strings.
From S2P Require Import Prelude GoStrings GoText GoNet GoHostPort Metrics IPPool Sync SyncFacts.

#[local] Arguments String.append : simpl nomatch.

Create HintDb sync.

(** ** What happens to a connection *)

(** Its peer stays, it is not reopened, and its queue stays within bounds. *)
Record evolves (sc sc' : SafeConn) : Prop := {
  ev_peer : peerUUID sc' = peerUUID sc;
  ev_closed : closed sc = true → closed sc' = true;
  ev_queue : (length (writeChan sc) ≤ chan_cap)%nat → (length (writeChan sc') ≤ chan_cap)%nat;
}.

Lemma evolves_refl sc : evolves sc sc.
Proof. done. Qed.

Lemma evolves_trans a b c : evolves a b → evolves b c → evolves a c.
Proof. intros [? ? ?] [? ? ?]. split; [congruence|auto|auto]. Qed.

Lemma try_send_evolves m sc sc' : try_send m sc = Some sc' → evolves sc sc'.
Proof.
  unfold try_send. destruct (Nat.ltb_spec (length (writeChan sc)) chan_cap); [|done]. intros [= <-].
  split; [done|done|]. cbn. rewrite length_app. cbn. lia.
Qed.

Lemma set_closed_evolves sc : evolves sc (set_closed sc).
Proof. done. Qed.

Lemma close_evolves sc : evolves sc (close_conn sc).
Proof.
  unfold close_conn. destruct (closed sc); [done|].
  destruct (try_send None (set_closed sc)) as [sc'|] eqn:E; cbn [default]; [|apply set_closed_evolves].
  eapply evolves_trans; [apply set_closed_evolves|by eapply try_send_evolves].
Qed.

Lemma enqueue_evolves m sc : evolves sc (enqueue m sc).
Proof.
  unfold enqueue. destruct (closed sc); [done|].
  destruct (try_send (Some m) sc) as [sc'|] eqn:E; [by eapply try_send_evolves|apply close_evolves].
Qed.

Lemma set_queue_evolves q sc : (length q ≤ length (writeChan sc))%nat → evolves sc (set_queue q sc).
Proof. intros Hq. split; [done|done|]. cbn. lia. Qed.

Lemma writeLoop_evolves e sc : evolves sc (writeLoop e sc).
Proof.
  unfold writeLoop. destruct (writing sc); [|done]. cbn [negb].
  assert (∀ x, evolves x (stop_writing x)) as Hw by done. assert (∀ w x, evolves x (set_wire w x)) as Hx by done.
  destruct e as [ok|ok|ok].
  - destruct (writeChan sc) as [|[m|] q] eqn:Eq; [done| |].
    + assert (evolves sc (set_queue q sc)) as Hq by (apply set_queue_evolves; rewrite Eq; cbn; lia).
      destruct ok; (eapply evolves_trans; [exact Hq|]); [apply Hx|]. eapply evolves_trans; [apply close_evolves|apply Hw].
    + eapply evolves_trans; [|apply Hw]. apply set_queue_evolves. rewrite Eq. cbn. lia.
  - destruct ok; [done|]. eapply evolves_trans; [apply close_evolves|apply Hw].
  - destruct ok; [apply Hx|]. eapply evolves_trans; [apply close_evolves|apply Hw].
Qed.

Lemma send_batches_evolves sleep bs : (∀ i x, evolves x (sleep i x)) → ∀ i sc, evolves sc (send_batches sleep i bs sc).
Proof.
  intros Hs. induction bs as [|b bs IH]; intros i sc; cbn [send_batches]; [done|].
  destruct (closed sc); [done|].
  destruct (try_send (Some (mappings_msg b)) sc) as [sc'|] eqn:E; [|apply close_evolves].
  eapply evolves_trans; [by eapply try_send_evolves|]. case_match; [|apply IH].
  eapply evolves_trans; [apply Hs|apply IH].
Qed.

Lemma pex_evolves a sc : evolves sc (sendPexMessage a sc).
Proof. unfold sendPexMessage. destruct (pex_msg a); [apply enqueue_evolves|done]. Qed.

#[export] Hint Resolve evolves_refl close_evolves enqueue_evolves writeLoop_evolves pex_evolves : sync.

(** ** The invariant *)

(** [shut] says that [Close] has closed the connections of the table. *)
Record sync_ok (shut : bool) (s : SyncManager) : Prop := {
  so_done : shut = true → done s = true;
  so_reg a c : conns s !! a = Some c →
    ∃ sc, heap s !! c = Some sc ∧ peerUUID sc ≠ nodeUUID s ∧ (shut = true → closed sc = true);
  so_inj a b c : conns s !! a = Some c → conns s !! b = Some c → a = b;
  so_queue c sc : heap s !! c = Some sc → (length (writeChan sc) ≤ chan_cap)%nat;
}.

(** Only connections that evolve differ. *)
Lemma sync_ok_heap {shut} s s' :
  conns s' = conns s → nodeUUID s' = nodeUUID s → done s' = done s →
  (∀ c, heap s' !! c = heap s !! c ∨
        (∃ sc sc', heap s !! c = Some sc ∧ heap s' !! c = Some sc' ∧ evolves sc sc') ∨
        (heap s !! c = None ∧ ∀ sc', heap s' !! c = Some sc' → (length (writeChan sc') ≤ chan_cap)%nat)) →
  sync_ok shut s → sync_ok shut s'.
Proof.
  intros Hc Hn Hd Hh [H0 H1 H2 H3]. split; rewrite ?Hc, ?Hn, ?Hd; [done| |done|].
  - intros a c Ha. destruct (H1 a c Ha) as (sc & Hsc & Hp & Hcl).
    destruct (Hh c) as [E|[(x & y & E1 & E2 & [P Q _])|[E _]]]; [rewrite E; eauto| |congruence].
    exists y. simplify_eq. split; [done|]. split; [congruence|auto].
  - intros c sc Hsc. destruct (Hh c) as [E|[(x & y & E1 & E2 & [_ _ Q])|[_ E]]]; [apply (H3 c); congruence| |auto].
    simplify_eq. eauto.
Qed.

Lemma on_conn_ok {shut} f c s : (∀ sc, evolves sc (f sc)) → sync_ok shut s → sync_ok shut (on_conn f c s).
Proof.
  intros Hf. apply sync_ok_heap; try done. intros d. cbn. destruct (decide (d = c)) as [-> | Hne].
  - rewrite lookup_alter_eq. destruct (heap s !! c) as [sc|]; [|by left]. right. left. cbn. eauto.
  - left. by rewrite lookup_alter_ne.
Qed.

Lemma fold_conn_ok {shut A} (g : SyncManager → A → SyncManager) l s :
  (∀ s x, sync_ok shut s → sync_ok shut (g s x)) → sync_ok shut s → sync_ok shut (foldl g s l).
Proof. intros Hg. revert s. induction l as [|x l IH]; intros s Hs; [done|]. cbn. auto. Qed.

Lemma set_dials_ok {shut} d s : sync_ok shut s → sync_ok shut (set_dials d s).
Proof. intros [? ? ? ?]. by split. Qed.

Lemma set_pool_ok {shut} p m l s : sync_ok shut s → sync_ok shut (set_pool p m l s).
Proof. intros [? ? ? ?]. by split. Qed.

#[export] Hint Resolve on_conn_ok fold_conn_ok set_dials_ok set_pool_ok : sync.

Lemma broadcast_ok {shut} l s : sync_ok shut s → sync_ok shut (BroadcastMappings l s).
Proof. intros Hs. destruct l; [done|]. apply fold_conn_ok; [|done]. intros x [a c] Hx. auto with sync. Qed.

Lemma greet_ok {shut} sleep s c a ips : (∀ i x, evolves x (sleep i x)) → sync_ok shut s → sync_ok shut (greet sleep s c a ips).
Proof.
  intros Hsl Hs. unfold greet. apply fold_conn_ok; [auto with sync|]. apply fold_conn_ok.
  - intros x y Hx. destruct (SplitHostPort y.1) as [[h ?]|]; [|done]. case_bool_decide; auto with sync.
  - destruct (pool s); [|done]. apply on_conn_ok; [|done]. intros sc. by apply send_batches_evolves.
Qed.

Lemma recv_ok {shut} nano now s m : sync_ok shut s → sync_ok shut (recv_mapping nano now s m).
Proof. intros Hs. unfold recv_mapping. repeat case_match; auto with sync. Qed.

Lemma tryConnect_ok {shut} now s a ips : sync_ok shut s → sync_ok shut (tryConnect now s a ips).1.
Proof. intros Hs. unfold tryConnect. repeat case_match; cbn [fst]; auto with sync. Qed.

Lemma handle_message_ok {shut} clock now ips s m : sync_ok shut s → sync_ok shut (handle_message clock now ips s m).1.1.
Proof.
  intros Hs. unfold handle_message. case_match.
  - repeat (case_match; [done|]). pose proof (tryConnect_ok now s
      (JoinHostPort (IP_String (PEXIP m)) (itoa (PEXPort m))) ips Hs) as Htc.
    by destruct (tryConnect now s _ ips) as [s0 dial].
  - case_match; [done|]. case_match; [|done]. cbn [fst]. apply fold_conn_ok; [|auto with sync].
    intros x [i y] Hx. by apply recv_ok.
Qed.

Lemma cleanup_ok {shut} s c a : sync_ok shut s → sync_ok shut (cleanup s c a).
Proof.
  intros Hs. unfold cleanup. apply on_conn_ok; [auto with sync|]. case_match; [|done].
  destruct Hs as [H0 H1 H2 H3]. split; cbn; [done| |intros x y d|done].
  - intros x d [_ Hx]%lookup_delete_Some. eauto.
  - intros [_ Hx]%lookup_delete_Some [_ Hy]%lookup_delete_Some. eauto.
Qed.

(** Closing closes every connection of the table. *)
Lemma close_fold (l : list (string * connId)) : ∀ s : SyncManager,
  let s' := foldl (λ s '(_, c), on_conn close_conn c s) s l in
  conns s' = conns s ∧ nodeUUID s' = nodeUUID s ∧ done s' = done s ∧
  ∀ c, match heap s !! c with
       | Some sc => ∃ sc', heap s' !! c = Some sc' ∧ evolves sc sc' ∧ (c ∈ l.*2 → closed sc' = true)
       | None => heap s' !! c = None
       end.
Proof.
  induction l as [|[a d] l IH]; intros s; cbn [foldl].
  - cbn zeta. split_and!; try done. intros c. destruct (heap s !! c) as [sc|]; [|done].
    exists sc. split; [done|]. split; [done|]. by intros ?%elem_of_nil.
  - destruct (IH (on_conn close_conn d s)) as (H1 & H2 & H3 & H4). cbn zeta. split_and!; [done..|]. intros c.
    specialize (H4 c). cbn in H4. destruct (decide (c = d)) as [-> | Hne].
    + rewrite lookup_alter_eq in H4. destruct (heap s !! d) as [sc|]; [|done]. cbn in H4.
      destruct H4 as (sc' & Hs' & He & _). exists sc'. split; [done|].
      split; [eapply evolves_trans; [apply close_evolves|done]|]. intros _. apply He, close_conn_closed.
    + rewrite lookup_alter_ne in H4 by done. destruct (heap s !! c) as [sc|]; [|done].
      destruct H4 as (sc' & Hs' & He & Hcl). exists sc'. split; [done|]. split; [done|].
      cbn. intros [-> | Hin]%elem_of_cons; [done|auto].
Qed.

Lemma close_conns_ok {shut} s : (shut = true → done s = true) → sync_ok false s → sync_ok shut (close_conns s).
Proof.
  intros Hd [_ H1 H2 H3].
  destruct (close_fold (map_to_list (conns s)) s) as (E1 & E2 & E3 & E4). unfold close_conns.
  split; rewrite ?E1, ?E2, ?E3; [done| |exact H2|].
  - intros a c Ha. destruct (H1 a c Ha) as (sc & Hsc & Hp & _). specialize (E4 c). rewrite Hsc in E4.
    destruct E4 as (sc' & Hs' & [P _ _] & Hcl). exists sc'. split; [done|]. split; [rewrite P; exact Hp|]. intros _.
    apply Hcl. apply list_elem_of_fmap. exists (a, c). split; [done|]. by apply elem_of_map_to_list.
  - intros c sc' Hsc'. specialize (E4 c). destruct (heap s !! c) as [sc|] eqn:Eh; [|congruence].
    destruct E4 as (x & Hx & He & _). simplify_eq. apply He. eauto.
Qed.

Lemma sync_ok_open {shut} s : sync_ok shut s → sync_ok false s.
Proof.
  intros [_ H1 H2 H3]. split; [done| |done|done].
  intros a c (sc & ? & ? & _)%H1. exists sc. split_and!; done.
Qed.

Lemma set_done_ok {shut} s : sync_ok shut s → sync_ok shut (set_done s).
Proof. intros [? ? ? ?]. by split. Qed.

(** ** Opening *)

Lemma open_ok {shut} s c outgoing remote msg :
  (∀ a, conns s !! a ≠ Some c) → is_Some (heap s !! c) → sync_ok shut s →
  sync_ok shut (open_connection s c outgoing remote msg).1.
Proof.
  intros Hfree [sc0 Hsc0] Hs. unfold open_connection.
  assert (∀ x, sync_ok shut x → sync_ok shut (on_conn close_conn c x)) as Hdrop by auto with sync.
  destruct (check_handshake s outgoing remote msg) as [[uuid selfAddr]|] eqn:Ech; [|by apply Hdrop].
  assert (uuid ≠ nodeUUID s) as Huuid.
  { unfold check_handshake in Ech. destruct (readHandshake msg) as [hs|]; [|done]. cbn in Ech.
    destruct (negb (checkAuthToken s (AuthToken hs))); [done|]. destruct (Z.eqb_spec (UUID hs) (nodeUUID s)); [done|].
    destruct remote; [|done]. cbn in Ech. repeat case_match; by simplify_eq. }
  set (answered := if outgoing then Some s else _).
  assert (∀ s1, answered = Some s1 → sync_ok shut s1 ∧ conns s1 = conns s ∧ nodeUUID s1 = nodeUUID s ∧
            is_Some (heap s1 !! c)) as Hans.
  { intros s1. unfold answered. destruct outgoing; [intros [= <-]; rewrite Hsc0; eauto|]. rewrite Hsc0. cbn.
    destruct (try_send _ sc0) as [sc1|] eqn:Et; [|done]. cbn. intros [= <-].
    split; [|cbn; rewrite lookup_insert_eq; eauto]. eapply sync_ok_heap; [..|exact Hs]; try done. intros d. cbn.
    destruct (decide (d = c)) as [-> | Hne]; [|left; by rewrite lookup_insert_ne].
    right. left. rewrite lookup_insert_eq. exists sc0, sc1. split; [done|]. split; [done|]. by eapply try_send_evolves. }
  destruct answered as [s1|]; [|by apply Hdrop].
  destruct (Hans s1 eq_refl) as (Hs1 & Hc1 & Hn1 & [sc1 Hsc1]).
  set (s2 := on_conn (set_peer uuid outgoing) c s1).
  assert (sync_ok shut s2 ∧ heap s2 !! c = Some (set_peer uuid outgoing sc1)) as [Hs2 Hh2].
  { split; [|unfold s2; cbn; by rewrite lookup_alter_eq, Hsc1]. destruct Hs1 as [H0 H1 H2 H3]. split.
    - exact H0.
    - intros a d Ha. cbn in Ha. assert (d ≠ c) as Hne by (intros ->; apply (Hfree a); congruence).
      unfold s2. cbn. rewrite lookup_alter_ne by done. eauto.
    - exact H2.
    - intros d x. unfold s2. cbn. destruct (decide (d = c)) as [-> | Hne].
      + rewrite lookup_alter_eq, Hsc1. cbn. intros [= <-]. cbn. eauto.
      + rewrite lookup_alter_ne by done. eauto. }
  destruct (register s2 c outgoing selfAddr) as [s3|] eqn:Er; [|by apply Hdrop]. cbn [fst].
  unfold register in Er. destruct (done s2) eqn:Ed; [done|].
  destruct (match conns s2 !! selfAddr with Some _ => _ | None => _ end) as [s4|] eqn:Ek; [|done].
  cbn [mbind option_bind] in Er. injection Er as <-.
  assert (sync_ok shut s4 ∧ conns s4 = conns s2 ∧ nodeUUID s4 = nodeUUID s2 ∧ done s4 = false ∧
    ∃ sc4, heap s4 !! c = Some sc4 ∧ peerUUID sc4 = uuid) as (Hs4 & Hc4 & Hn4 & Hd4 & sc4 & Hh4 & Hp4).
  { destruct (conns s2 !! selfAddr) as [old|] eqn:Eo; [|simplify_eq; eauto 10]. case_bool_decide; [simplify_eq; eauto 10|].
    rewrite Hh2 in Ek. destruct (heap s2 !! old); [|done]. case_match; [|done]. injection Ek as <-.
    split; [auto with sync|]. split; [done|]. split; [done|]. split; [done|].
    assert (heap (on_conn close_conn old s2) !! c = heap s2 !! c) as -> by (by apply lookup_alter_ne).
    rewrite Hh2. eauto. }
  assert (sync_ok shut (set_conns (<[selfAddr := c]> (conns s4)) (heap s4) s4)) as Hfin.
  { destruct Hs4 as [H0 H1 H2 H3]. assert (∀ a, conns s4 !! a ≠ Some c) as Hf4 by (intros a; rewrite Hc4; cbn; rewrite Hc1; apply Hfree).
    split; cbn; [done| |intros a b d|done].
    - intros a d [[<- <-]|[Hne Ha]]%lookup_insert_Some; [|eauto]. exists sc4. split; [done|]. split; [|intros Ht; specialize (H0 Ht); congruence].
      rewrite Hp4, Hn4. cbn. by rewrite Hn1.
    - intros [[<- <-]|[_ Ha]]%lookup_insert_Some [[<- E]|[_ Hb]]%lookup_insert_Some; eauto; exfalso; [by apply (Hf4 b)|].
      subst d. by apply (Hf4 a). }
  destruct outgoing; [by apply set_dials_ok|done].
Qed.

(** ** Runs *)

(** The steps of a node: what its goroutines do between two blocking operations.
    A connection is new when it is created and is handled once. *)
Inductive sync_step : SyncManager → SyncManager → Prop :=
  | step_accept s c addr : heap s !! c = None → sync_step s (accept s c addr)
  | step_dial s now a ips : sync_step s (tryConnect now s a ips).1
  | step_dialled s a c addr : heap s !! c = None → sync_step s (finish_dial s a c addr).1
  | step_open s c outgoing remote msg :
      (∀ a, conns s !! a ≠ Some c) → is_Some (heap s !! c) → sync_step s (open_connection s c outgoing remote msg).1
  | step_greet s sleep c a ips : (∀ i x, evolves x (sleep i x)) → sync_step s (greet sleep s c a ips)
  | step_write s e c : sync_step s (on_conn (writeLoop e) c s)
  | step_message s clock now ips m : sync_step s (handle_message clock now ips s m).1.1
  | step_broadcast s l : sync_step s (BroadcastMappings l s)
  | step_cleanup s c a : sync_step s (cleanup s c a)
  | step_done s : sync_step s (set_done s)
  | step_close s : done s = true → sync_step s (close_conns s).

Lemma finish_dial_ok {shut} s a c addr : heap s !! c = None → sync_ok shut s → sync_ok shut (finish_dial s a c addr).1.
Proof.
  intros Hc Hs. unfold finish_dial. destruct addr as [addr|]; [|by apply set_dials_ok].
  destruct (done s); [by apply set_dials_ok|]. cbn [try_send]. apply set_dials_ok.
  eapply sync_ok_heap; [..|exact Hs]; try done. intros d. cbn. destruct (decide (d = c)) as [-> | Hne].
  - right. right. split; [done|]. rewrite lookup_insert_eq. intros x [= <-]. cbn. unfold chan_cap. lia.
  - left. by rewrite lookup_insert_ne.
Qed.

Lemma sync_step_ok {shut} s s' : sync_step s s' → sync_ok shut s → sync_ok shut s'.
Proof.
  intros Hst Hs. destruct Hst; eauto using greet_ok, handle_message_ok, broadcast_ok, cleanup_ok, set_done_ok, close_conns_ok, sync_ok_open,
    tryConnect_ok, finish_dial_ok, open_ok with sync.
  eapply sync_ok_heap; [..|exact Hs]; try done. intros d. cbn. destruct (decide (d = c)) as [-> | Hne].
  - right. right. split; [done|]. rewrite lookup_insert_eq. intros x [= <-]. cbn. lia.
  - left. by rewrite lookup_insert_ne.
Qed.

Lemma sync_steps_ok {shut} s s' : rtc sync_step s s' → sync_ok shut s → sync_ok shut s'.
Proof. induction 1 as [|x y z Hxy _ IH]; eauto using sync_step_ok. Qed.

(** C17: in every state a node reaches, each connection of its table exists,
    leads to another node and stands under one address only; no queue exceeds its
    capacity; and once [Close], which closes [done] first, has closed the
    connections of the table, the table holds closed connections only, whatever
    the other goroutines do afterwards. *)
Theorem reachable_node_ok peersStr port net4 net6 p token hashStr h now s :
  rtc sync_step (NewSyncManager peersStr port net4 net6 p token hashStr h now) s →
  (∀ a c, conns s !! a = Some c → ∃ sc, heap s !! c = Some sc ∧ peerUUID sc ≠ nodeUUID s) ∧
  (∀ a b c, conns s !! a = Some c → conns s !! b = Some c → a = b) ∧
  (∀ c sc, heap s !! c = Some sc → (length (writeChan sc) ≤ 1024)%nat) ∧
  (done s = true → ∀ s', rtc sync_step (close_conns s) s' →
     done s' = true ∧ ∀ a c, conns s' !! a = Some c → ∃ sc, heap s' !! c = Some sc ∧ closed sc = true).
Proof.
  intros Hs. assert (sync_ok false s) as Hok.
  { eapply sync_steps_ok; [exact Hs|]. split; cbn; [done|by intros a c ?%lookup_empty_Some
      |by intros a b c ?%lookup_empty_Some|by intros c sc ?%lookup_empty_Some]. }
  pose proof Hok as [_ H1 H2 H3]. split_and!; [|done|done|].
  - intros a c (sc & ? & ? & _)%H1. eauto.
  - intros Hd s' Hs'. assert (sync_ok true s') as [D1 D2 _ _].
    { eapply sync_steps_ok; [exact Hs'|]. by apply close_conns_ok. }
    split; [by apply D1|]. intros a c (sc & ? & _ & Hcl)%D2. eauto.
Qed.

Definition fresh_node : SyncManager := NewSyncManager EmptyString "5353" "198.18.0.0/15" "fd00:18::/108" None "secret" EmptyString "h" 7.

Definition greeting : option SyncMessage :=
  Some (mkMessage MsgTypeHandshake (Some (mkHandshake 9 5353 "198.18.0.0/15" "fd00:18::/108" 0 "h" "secret")) [] 0 []).

Definition greeted_node : SyncManager :=
  (open_connection (accept fresh_node 0%nat "10.0.0.1:5353") 0%nat false (Some (ParseIP "10.0.0.2")) greeting).1.

Lemma reachable_node_ok_witness :
  conns greeted_node !! "10.0.0.2:5353" = Some 0%nat ∧
  ∃ sc, heap greeted_node !! 0%nat = Some sc ∧ peerUUID sc ≠ nodeUUID greeted_node.
Proof.
  assert (conns greeted_node !! "10.0.0.2:5353" = Some 0%nat) as Hc by (vm_compute; reflexivity).
  split; [exact Hc|].
  assert (rtc sync_step fresh_node greeted_node) as Hr.
  { eapply rtc_l; [apply (step_accept _ 0%nat "10.0.0.1:5353"); reflexivity|].
    apply rtc_once, step_open; [intros a; cbn; by rewrite lookup_empty|]. eexists. reflexivity. }
  destruct (proj1 (reachable_node_ok EmptyString "5353" "198.18.0.0/15" "fd00:18::/108" None "secret" EmptyString "h" 7
    greeted_node Hr) "10.0.0.2:5353" 0%nat Hc) as (sc & Hsc & Hp).
  exists sc. split; [exact Hsc|exact Hp].
Defined.
