(* ===== verification/Shutdown.v ===== *)
(** * Synchronisation: the goroutines of a node and its shutdown ([sync.go])

    [StartServer] starts the accept loop, accepting and dialling start a handler
    per connection, and [SyncManager.Close] waits for all of them through three
    wait groups.  Here a node is its state (see [Sync]) together with the
    goroutines that are under way and the counters of the groups; every rule is
    one goroutine's work between two points at which another may run.  A counter
    is an integer of its own, changed where the code calls [Add] and [Done]. *)

From Stdlib Require Import Ascii.
From Stdlib Require String.
From stdpp Require Import prelude gmap strings relations.
From S2P Require Import Prelude GoStrings GoText GoNet GoHostPort Metrics IPPool Sync SyncInv.

(** ** Goroutines *)

Inductive Goroutine :=
  | Acceptor                                     (* the accept loop *)
  | Dialer (peerAddr : string)                   (* started by [tryConnect], before the dial *)
  | DialLeaving (peerAddr : string)              (* its deferred calls *)
  | Handshaking (c : connId) (outgoing : bool)   (* [handleConnection] up to the table *)
  | Serving (c : connId) (selfAddr : string)     (* its receive loop *)
  | Leaving (c : connId).                        (* its deferred calls *)

(** Where the call of [Close] stands. *)
Inductive ClosePC := NotClosing | DoneClosed | WaitAccept | WaitDial | WaitHandlers | Returned.

#[export] Instance ClosePC_eq_dec : EqDecision ClosePC.
Proof. solve_decision. Defined.

Record Server := mkServer {
  node : SyncManager;
  threads : list Goroutine;
  acceptWg : Z;
  dialWg : Z;
  handlersWg : Z;
  closer : ClosePC;
}.

(** [StartServer] once the listener is open. *)
Definition serve (s : SyncManager) : Server := mkServer s [Acceptor] 1 0 0 NotClosing.

(** ** Their work *)

(** The accept loop hands a connection to a handler. *)
Definition do_accept (c : connId) (addr : string) (v : Server) : Server :=
  mkServer (accept (node v) c addr) (threads v ++ [Handshaking c false]) (acceptWg v) (dialWg v)
    (handlersWg v + 1) (closer v).

(** [tryConnect]: a dial is counted before its goroutine starts. *)
Definition do_connect (now : Z) (a : string) (ips : gset string) (v : Server) : Server :=
  let '(s, dial) := tryConnect now (node v) a ips in
  if dial then mkServer s (threads v ++ [Dialer a]) (acceptWg v) (dialWg v + 1) (handlersWg v) (closer v)
  else mkServer s (threads v) (acceptWg v) (dialWg v) (handlersWg v) (closer v).

(** The dialling goroutine when the dial has returned, up to its deferred calls:
    whether a handler is started. *)
Definition dial_connected (s : SyncManager) (c : connId) (dialled : option string) : SyncManager * bool :=
  match dialled with
  | None => (s, false)
  | Some addr =>
      if done s then (s, false)
      else
        let hs := mkHandshake (nodeUUID s) (atoi_value (syncPort s) mod 2 ^ 16) (poolNet s) (poolNet6 s) 0
                    (resultHash s) (authToken s) in
        let sc := NewSafeConn addr in
        match try_send (Some (mkMessage MsgTypeHandshake (Some hs) [] 0 [])) sc with
        | None => (set_heap (<[c := close_conn sc]> (heap s)) s, false)
        | Some sc => (set_heap (<[c := sc]> (heap s)) s, true)
        end
  end.

Definition dial_leave (s : SyncManager) (peerAddr : string) : SyncManager :=
  set_dials (delete peerAddr (activeDials s)) s.

(** The handler is counted before the dialling goroutine leaves its group. *)
Definition do_dial (a : string) (l1 l2 : list Goroutine) (c : connId) (dialled : option string) (v : Server) : Server :=
  let '(s, started) := dial_connected (node v) c dialled in
  mkServer s (l1 ++ (DialLeaving a :: (if started then [Handshaking c true] else [])) ++ l2) (acceptWg v) (dialWg v)
    (if started then handlersWg v + 1 else handlersWg v) (closer v).

Definition do_dial_leave (a : string) (rest : list Goroutine) (v : Server) : Server :=
  mkServer (dial_leave (node v) a) rest (acceptWg v) (dialWg v - 1) (handlersWg v) (closer v).

(** The first part of [handleConnection]. *)
Definition do_handshake (c : connId) (outgoing : bool) (l1 l2 : list Goroutine) (remote : option IP)
    (msg : option SyncMessage) (v : Server) : Server :=
  let '(s, res) := open_connection (node v) c outgoing remote msg in
  mkServer s (l1 ++ [match res with Some a => Serving c a | None => Leaving c end] ++ l2)
    (acceptWg v) (dialWg v) (handlersWg v) (closer v).

(** A message of the receive loop; an unknown one ends the loop. *)
Definition do_message (c : connId) (a : string) (l1 l2 : list Goroutine) (clock : nat → Z * Z) (now : Z)
    (ips : gset string) (msg : SyncMessage) (v : Server) : Server :=
  let '(s, dial, go) := handle_message clock now ips (node v) msg in
  let s := if go : bool then s else cleanup s c a in
  mkServer s (l1 ++ ((if go then Serving c a else Leaving c) :: match dial with Some d => [Dialer d] | None => [] end) ++ l2)
    (acceptWg v) (match dial with Some _ => dialWg v + 1 | None => dialWg v end) (handlersWg v) (closer v).

(** The receive loop ends on an error of the connection. *)
Definition do_read_error (c : connId) (a : string) (l1 l2 : list Goroutine) (v : Server) : Server :=
  mkServer (cleanup (node v) c a) (l1 ++ [Leaving c] ++ l2) (acceptWg v) (dialWg v) (handlersWg v) (closer v).

Definition do_leave (rest : list Goroutine) (v : Server) : Server :=
  mkServer (node v) rest (acceptWg v) (dialWg v) (handlersWg v - 1) (closer v).

Definition do_accept_leave (rest : list Goroutine) (v : Server) : Server :=
  mkServer (node v) rest (acceptWg v - 1) (dialWg v) (handlersWg v) (closer v).

Definition with_node (s : SyncManager) (v : Server) : Server :=
  mkServer s (threads v) (acceptWg v) (dialWg v) (handlersWg v) (closer v).
Definition with_closer (pc : ClosePC) (v : Server) : Server :=
  mkServer (node v) (threads v) (acceptWg v) (dialWg v) (handlersWg v) pc.

(** A step of [Close]; [None] while a group it waits for is not empty. *)
Definition close_next (v : Server) : option Server :=
  match closer v with
  | NotClosing => Some (with_closer DoneClosed (with_node (set_done (node v)) v))
  | DoneClosed => Some (with_closer WaitAccept (with_node (close_conns (node v)) v))
  | WaitAccept => if acceptWg v =? 0 then Some (with_closer WaitDial v) else None
  | WaitDial => if dialWg v =? 0 then Some (with_closer WaitHandlers v) else None
  | WaitHandlers => if handlersWg v =? 0 then Some (with_closer Returned v) else None
  | Returned => None
  end.

(** ** Runs *)

(** [sv_connect] also covers the peer discovery, which no group counts. *)
Inductive server_step (v : Server) : Server → Prop :=
  | sv_accept c addr : Acceptor ∈ threads v → heap (node v) !! c = None → server_step v (do_accept c addr v)
  | sv_accept_leave l1 l2 :
      threads v = l1 ++ Acceptor :: l2 → done (node v) = true → server_step v (do_accept_leave (l1 ++ l2) v)
  | sv_connect now a ips : server_step v (do_connect now a ips v)
  | sv_dial a l1 l2 c dialled :
      threads v = l1 ++ Dialer a :: l2 → heap (node v) !! c = None → server_step v (do_dial a l1 l2 c dialled v)
  | sv_dial_leave a l1 l2 :
      threads v = l1 ++ DialLeaving a :: l2 → server_step v (do_dial_leave a (l1 ++ l2) v)
  | sv_handshake c outgoing l1 l2 remote msg :
      threads v = l1 ++ Handshaking c outgoing :: l2 →
      server_step v (do_handshake c outgoing l1 l2 remote msg v)
  | sv_greet c a sleep ips :
      Serving c a ∈ threads v → (∀ i x, evolves x (sleep i x)) →
      server_step v (with_node (greet sleep (node v) c a ips) v)
  | sv_message c a l1 l2 clock now ips msg :
      threads v = l1 ++ Serving c a :: l2 → server_step v (do_message c a l1 l2 clock now ips msg v)
  | sv_read_error c a l1 l2 :
      threads v = l1 ++ Serving c a :: l2 → server_step v (do_read_error c a l1 l2 v)
  | sv_leave c l1 l2 : threads v = l1 ++ Leaving c :: l2 → server_step v (do_leave (l1 ++ l2) v)
  | sv_write e c : server_step v (with_node (on_conn (writeLoop e) c (node v)) v)
  | sv_broadcast l : server_step v (with_node (BroadcastMappings l (node v)) v)
  | sv_close v' : close_next v = Some v' → server_step v v'.

(** The steps that no peer can delay: they end what is under way.  A dial fails
    after its timeout, a handshake after its deadline, and reading from a
    connection fails once the connection is closed. *)
Inductive ending_step (v : Server) : Server → Prop :=
  | en_accept_leave l1 l2 :
      threads v = l1 ++ Acceptor :: l2 → done (node v) = true → ending_step v (do_accept_leave (l1 ++ l2) v)
  | en_dial a l1 l2 c :
      threads v = l1 ++ Dialer a :: l2 → heap (node v) !! c = None → ending_step v (do_dial a l1 l2 c None v)
  | en_dial_leave a l1 l2 :
      threads v = l1 ++ DialLeaving a :: l2 → ending_step v (do_dial_leave a (l1 ++ l2) v)
  | en_handshake c outgoing l1 l2 :
      threads v = l1 ++ Handshaking c outgoing :: l2 → ending_step v (do_handshake c outgoing l1 l2 None None v)
  | en_read_error c a l1 l2 sc :
      threads v = l1 ++ Serving c a :: l2 → heap (node v) !! c = Some sc → closed sc = true →
      ending_step v (do_read_error c a l1 l2 v)
  | en_leave c l1 l2 : threads v = l1 ++ Leaving c :: l2 → ending_step v (do_leave (l1 ++ l2) v)
  | en_close v' : close_next v = Some v' → ending_step v v'.

(** The steps a goroutine still needs to end, and those of [Close]. *)
Definition thread_work (t : Goroutine) : nat :=
  match t with
  | Acceptor | DialLeaving _ | Leaving _ => 1
  | Dialer _ | Handshaking _ _ | Serving _ _ => 2
  end%nat.
Definition close_work (pc : ClosePC) : nat :=
  match pc with
  | NotClosing => 5 | DoneClosed => 4 | WaitAccept => 3 | WaitDial => 2 | WaitHandlers => 1 | Returned => 0
  end%nat.
Definition work (v : Server) : nat := (sum_list_with thread_work (threads v) + close_work (closer v))%nat.
