(* ===== verification/ShutdownFacts.v ===== *)
(** * Theorems about the shutdown of a node

    The wait groups count what they should, so [Close] returns only when no
    goroutine of the synchronisation is left, and none is started afterwards;
    and nothing a peer does keeps it from returning. *)

From Stdlib Require Import Ascii.
From Stdlib Require String.
From stdpp Require Import prelude gmap strings relations.
From S2P Require Import Prelude GoStrings GoText GoNet GoHostPort Metrics IPPool Sync SyncFacts SyncInv Shutdown.

#[local] Arguments String.append : simpl nomatch.

Create HintDb shutdown.

(** ** What no operation undoes *)

(** Connections stay in the heap and stay closed, and an entry leaves the table
    only when its connection is closed. *)
Record monotone (s s' : SyncManager) : Prop := {
  mo_done : done s' = done s;
  mo_heap c sc : heap s !! c = Some sc → ∃ sc', heap s' !! c = Some sc' ∧ (closed sc = true → closed sc' = true);
  mo_conns a c : conns s !! a = Some c →
    conns s' !! a = Some c ∨ ∃ sc', heap s' !! c = Some sc' ∧ closed sc' = true;
}.

#[export] Instance monotone_preorder : PreOrder monotone.
Proof.
  split.
  - intros s. split; eauto.
  - intros s1 s2 s3 [D1 H1 C1] [D2 H2 C2]. split; [congruence| |].
    + intros c sc (sc2 & E2 & F2)%H1. destruct (H2 c sc2 E2) as (sc3 & E3 & F3). eauto.
    + intros a c [Hc|(sc2 & E2 & F2)]%C1; [by apply C2|]. destruct (H2 c sc2 E2) as (sc3 & E3 & F3). eauto.
Qed.

(** Only the heap changes, and there only by adding or not reopening. *)
Lemma monotone_heap s s' :
  conns s' = conns s → done s' = done s →
  (∀ c sc, heap s !! c = Some sc → ∃ sc', heap s' !! c = Some sc' ∧ (closed sc = true → closed sc' = true)) →
  monotone s s'.
Proof. intros Hc Hd Hh. split; [done|done|]. rewrite Hc. eauto. Qed.

Lemma monotone_same s s' : conns s' = conns s → done s' = done s → heap s' = heap s → monotone s s'.
Proof. intros Hc Hd Hh. apply monotone_heap; rewrite ?Hh; eauto. Qed.

Lemma monotone_on_conn f c s : (∀ sc, evolves sc (f sc)) → monotone s (on_conn f c s).
Proof.
  intros Hf. apply monotone_heap; try done. intros d sc Hd. cbn. destruct (decide (d = c)) as [-> | Hne].
  - rewrite lookup_alter_eq, Hd. cbn. eexists. split; [done|]. apply Hf.
  - rewrite lookup_alter_ne by done. eauto.
Qed.

Lemma monotone_fold {A} (g : SyncManager → A → SyncManager) l s :
  (∀ s x, monotone s (g s x)) → monotone s (foldl g s l).
Proof. intros Hg. revert s. induction l as [|x l IH]; intros s; [done|]. cbn. etrans; [apply Hg|apply IH]. Qed.

Lemma monotone_new c sc s : heap s !! c = None → monotone s (set_heap (<[c := sc]> (heap s)) s).
Proof.
  intros Hc. apply monotone_heap; try done. intros d x Hd. cbn. assert (c ≠ d) by congruence.
  rewrite lookup_insert_ne by done. eauto.
Qed.

#[export] Hint Resolve monotone_same monotone_on_conn monotone_fold monotone_new : shutdown.

Ltac mono := cbn [fst snd]; solve [auto with sync shutdown].

Lemma tryConnect_monotone now s a ips :
  monotone s (tryConnect now s a ips).1 ∧ (done s = true → (tryConnect now s a ips).2 = false).
Proof.
  unfold tryConnect. repeat case_match; cbn; (split; [by apply monotone_same|intros Hd; cbn in *; congruence]).
Qed.

Lemma message_monotone clock now ips s m :
  let r := handle_message clock now ips s m in monotone s r.1.1 ∧ (done s = true → r.1.2 = None).
Proof.
  cbn zeta. unfold handle_message. destruct (Type_ m =? MsgTypePEX).
  - destruct (_ || _); [done|]. destruct (50 <=? _); [done|].
    pose proof (tryConnect_monotone now s (JoinHostPort (IP_String (PEXIP m)) (itoa (PEXPort m))) ips) as [H1 H2].
    destruct (tryConnect _ _ _ _) as [s' d]. cbn in *. split; [done|]. by intros ->%H2.
  - destruct (Type_ m =? MsgTypePing); [done|]. destruct (Type_ m =? MsgTypeMappings); [|done]. cbn. split; [|done].
    etrans; [|apply monotone_fold]; [by apply monotone_same|]. intros x [i y]. unfold recv_mapping.
    repeat case_match; try done; by apply monotone_same.
Qed.

Lemma greet_monotone sleep s c a ips : (∀ i x, evolves x (sleep i x)) → monotone s (greet sleep s c a ips).
Proof.
  intros Hs. unfold greet. etrans; [|apply monotone_fold; auto with sync shutdown].
  etrans; [|apply monotone_fold].
  - destruct (pool s); [|done]. apply monotone_on_conn. intros x. by apply send_batches_evolves.
  - intros x y. repeat case_match; auto with sync shutdown; done.
Qed.

Lemma broadcast_monotone l s : monotone s (BroadcastMappings l s).
Proof. destruct l; [done|]. apply monotone_fold. intros x [a c]. auto with sync shutdown. Qed.

Lemma close_conns_monotone s : monotone s (close_conns s).
Proof. apply monotone_fold. intros x [a c]. auto with sync shutdown. Qed.

Lemma cleanup_monotone s c a : is_Some (heap s !! c) → monotone s (cleanup s c a).
Proof.
  intros [sc Hc]. unfold cleanup.
  assert (monotone s (on_conn close_conn c s)) as [_ Hh _] by auto with sync shutdown.
  case_match eqn:E; [|auto with sync shutdown]. split; [done|done|]. cbn.
  intros b d Hb. destruct (decide (a = b)) as [<-|Hne]; [|left; by rewrite lookup_delete_ne].
  right. apply andb_true_iff in E as [_ E%bool_decide_eq_true]. assert (d = c) as -> by congruence.
  exists (close_conn sc). rewrite lookup_alter_eq, Hc. split; [done|]. apply close_conn_closed.
Qed.

(** Registering replaces an entry only after closing its connection, and not
    when the node is closing. *)
Lemma register_monotone s c outgoing a s' :
  register s c outgoing a = Some s' → done s = false ∧ monotone s s' ∧ conns s' !! a = Some c.
Proof.
  unfold register. destruct (done s) eqn:Hd; [done|].
  match goal with |- context [mbind _ ?k] => destruct k as [s1|] eqn:E end; [|done].
  assert (monotone s s1 ∧ conns s1 = conns s ∧
    ∀ old, conns s !! a = Some old → old = c ∨ ∃ sc', heap s1 !! old = Some sc' ∧ closed sc' = true) as (Hm & Hcn & Hold).
  { destruct (conns s !! a) as [old|] eqn:Ea; [|simplify_eq; split_and!; try done].
    case_bool_decide; [simplify_eq; split_and!; try done; naive_solver|].
    destruct (heap s !! old) as [x|] eqn:Ex; [|done]. destruct (heap s !! c) as [y|]; [|done].
    case_match; [|done]. simplify_eq. split_and!; [auto with sync shutdown|done|]. intros ? [= <-]. right.
    exists (close_conn x). cbn. rewrite lookup_alter_eq, Ex. split; [done|apply close_conn_closed]. }
  cbn. intros [= <-]. split_and!; [done| |destruct outgoing; cbn; by rewrite lookup_insert_eq].
  etrans; [exact Hm|]. assert (∀ s2, conns s2 = <[a := c]> (conns s1) → heap s2 = heap s1 → done s2 = done s1 → monotone s1 s2)
    as Hgo; [|destruct outgoing; by apply Hgo].
  intros s2 E1 E2 E3. split; [done|rewrite E2; eauto|]. rewrite E1, E2, Hcn. intros b d Hb.
  destruct (decide (a = b)) as [<-|Hne]; [|left; by rewrite lookup_insert_ne].
  rewrite lookup_insert_eq. destruct (Hold d Hb) as [->|?]; auto.
Qed.

Lemma set_peer_closed uuid o sc : closed (set_peer uuid o sc) = closed sc.
Proof. done. Qed.

Lemma open_monotone s c outgoing remote msg :
  let r := open_connection s c outgoing remote msg in
  monotone s r.1 ∧ ∀ a, r.2 = Some a → done s = false ∧ conns r.1 !! a = Some c.
Proof.
  cbn zeta. unfold open_connection. destruct (check_handshake s outgoing remote msg) as [[uuid a]|];
    [|split; [mono|done]].
  match goal with |- context [match (if outgoing then _ else ?k) with _ => _ end] => set (answered := k) end.
  assert (∀ s1, (if outgoing then Some s else answered) = Some s1 → monotone s s1) as Hb.
  { destruct outgoing; [by intros ? [= <-]|]. subst answered. destruct (heap s !! c) as [sc|] eqn:Ec; [|done]. cbn.
    destruct (try_send _ sc) as [sc'|] eqn:Es; [|done]. intros ? [= <-]. apply monotone_heap; try done.
    intros d x Hd. cbn. destruct (decide (c = d)) as [<-|Hne]; [|rewrite lookup_insert_ne by done; eauto].
    rewrite lookup_insert_eq. simplify_eq. eexists. split; [done|]. by apply (try_send_evolves _ _ _ Es). }
  destruct (if outgoing then Some s else answered) as [s1|]; [|split; [mono|done]].
  specialize (Hb s1 eq_refl). set (s2 := on_conn (set_peer uuid outgoing) c s1).
  assert (monotone s s2) as H2.
  { etrans; [exact Hb|]. apply monotone_heap; try done. intros d x Hd. cbn. destruct (decide (d = c)) as [-> | Hne].
    - rewrite lookup_alter_eq, Hd. cbn. eauto.
    - rewrite lookup_alter_ne by done. eauto. }
  destruct (register s2 c outgoing a) as [s3|] eqn:E; cbn [fst snd].
  - apply register_monotone in E as (Hd & H3 & Hc). split; [by etrans|]. intros ? [= <-]. split; [|done].
    rewrite <- Hd. symmetry. apply H2.
  - split; [|done]. etrans; [exact H2|]. auto with sync shutdown.
Qed.

(** Closing closes every connection of the table. *)
Lemma close_conns_closed s a c :
  is_Some (heap s !! c) → conns s !! a = Some c → ∃ sc, heap (close_conns s) !! c = Some sc ∧ closed sc = true.
Proof.
  intros [sc Hsc] Hc. destruct (close_fold (map_to_list (conns s)) s) as (_ & _ & _ & Hh). specialize (Hh c).
  rewrite Hsc in Hh. destruct Hh as (sc' & Hs' & _ & Hcl). exists sc'. split; [done|]. apply Hcl.
  apply list_elem_of_fmap. exists (a, c). split; [done|]. by apply elem_of_map_to_list.
Qed.

(** The two halves of the dialling goroutine. *)
Lemma finish_dial_split s a c dialled :
  finish_dial s a c dialled =
  (dial_leave (dial_connected s c dialled).1 a, (dial_connected s c dialled).2).
Proof. unfold finish_dial, dial_connected, dial_leave. by repeat case_match. Qed.

Lemma dial_monotone s c dialled :
  heap s !! c = None → let r := dial_connected s c dialled in
  monotone s r.1 ∧ (r.2 = true → done s = false ∧ is_Some (heap r.1 !! c)).
Proof.
  intros Hc. cbn zeta. unfold dial_connected. destruct dialled as [addr|]; [|done].
  destruct (done s) eqn:Hd; [done|]. destruct (try_send _ _); cbn [fst snd]; (split; [auto with shutdown|]); [|done].
  intros _. cbn. by rewrite lookup_insert_eq.
Qed.

(** ** The invariant *)

Definition is_acceptor (t : Goroutine) : bool := match t with Acceptor => true | _ => false end.
Definition is_dialer (t : Goroutine) : bool := match t with Dialer _ | DialLeaving _ => true | _ => false end.
Definition is_handler (t : Goroutine) : bool :=
  match t with Handshaking _ _ | Serving _ _ | Leaving _ => true | _ => false end.

Definition count (p : Goroutine → bool) (l : list Goroutine) : Z := Z.of_nat (length (filter p l)).

(** A handler's connection exists, and a serving one stands in the table unless
    it is closed. *)
Definition thread_ok (s : SyncManager) (t : Goroutine) : Prop :=
  match t with
  | Handshaking c _ => is_Some (heap s !! c)
  | Serving c a => ∃ sc, heap s !! c = Some sc ∧ (conns s !! a = Some c ∨ closed sc = true)
  | _ => True
  end.

(** Its connection is closed, so its receive loop ends. *)
Definition thread_shut (s : SyncManager) (t : Goroutine) : Prop :=
  match t with Serving c _ => ∃ sc, heap s !! c = Some sc ∧ closed sc = true | _ => True end.

(** What [Close] has achieved. *)
Definition stage_ok (v : Server) : Prop :=
  (closer v ≠ NotClosing → done (node v) = true) ∧
  ((close_work (closer v) ≤ 3)%nat → Forall (thread_shut (node v)) (threads v)) ∧
  ((close_work (closer v) ≤ 2)%nat → acceptWg v = 0) ∧
  ((close_work (closer v) ≤ 1)%nat → dialWg v = 0) ∧
  ((close_work (closer v) = 0)%nat → handlersWg v = 0).

Record server_ok (v : Server) : Prop := {
  sk_accept : acceptWg v = count is_acceptor (threads v);
  sk_dial : dialWg v = count is_dialer (threads v);
  sk_handlers : handlersWg v = count is_handler (threads v);
  sk_threads : Forall (thread_ok (node v)) (threads v);
  sk_stage : stage_ok v;
}.

Lemma thread_ok_mono s s' t : monotone s s' → thread_ok s t → thread_ok s' t.
Proof.
  intros [_ Hh Hc]. destruct t as [| | |c o|c a|c]; try done; cbn.
  - intros [sc Hsc]. destruct (Hh c sc Hsc) as (sc' & ? & _). eauto.
  - intros (sc & Hsc & H). destruct (Hh c sc Hsc) as (sc' & Hsc' & Hcl). exists sc'. split; [done|].
    destruct H as [H|H]; [|auto]. destruct (Hc a c H) as [?|(x & ? & ?)]; [auto|]. right. congruence.
Qed.

Lemma thread_shut_mono s s' t : monotone s s' → thread_shut s t → thread_shut s' t.
Proof.
  intros [_ Hh _]. destruct t as [| | |c o|c a|c]; try done; cbn.
  intros (sc & Hsc & H). destruct (Hh c sc Hsc) as (sc' & Hsc' & Hcl). eauto.
Qed.

Lemma count_app p l k : count p (l ++ k) = count p l + count p k.
Proof. unfold count. rewrite filter_app, length_app. lia. Qed.

Lemma count_cons p t l : count p (t :: l) = (if p t then 1 else 0) + count p l.
Proof. unfold count. rewrite filter_cons. destruct (p t); cbn [length]; case_decide; cbn in *; try lia; done. Qed.

Lemma count_nil p : count p [] = 0.
Proof. done. Qed.

(** Counting in a list whose shape is known. *)
Ltac counts :=
  rewrite ?count_app, ?count_cons, ?count_nil in *; cbn [is_acceptor is_dialer is_handler] in *; lia.

Lemma count_zero p l : count p l = 0 → ∀ t, t ∈ l → p t = false.
Proof.
  intros Hz t Ht. destruct (p t) eqn:E; [|done]. apply list_elem_of_split in Ht as (l1 & l2 & ->).
  rewrite count_app, count_cons, E in Hz. unfold count in Hz. lia.
Qed.

(** A step that leaves [Close] where it is. *)
Lemma server_ok_move v s' l' aw dw hw :
  server_ok v → monotone (node v) s' →
  aw = count is_acceptor l' → dw = count is_dialer l' → hw = count is_handler l' →
  Forall (λ t, t ∈ threads v ∨ thread_ok s' t) l' →
  (done s' = true →
     Forall (λ t, t ∈ threads v ∨ thread_shut s' t) l' ∧ aw ≤ acceptWg v ∧ dw ≤ dialWg v ∧
     (acceptWg v = 0 → hw ≤ handlersWg v)) →
  server_ok (mkServer s' l' aw dw hw (closer v)).
Proof.
  intros [Ka Kd Kh Kt (S1 & S2 & S3 & S4 & S5)] Hm -> -> -> Hok Hcl. split; try done; cbn [node threads closer].
  - eapply Forall_impl; [exact Hok|]. intros t [Ht|?]; [|done].
    eapply thread_ok_mono; [exact Hm|]. exact (proj1 (Forall_forall _ _) Kt t Ht).
  - assert (closer v ≠ NotClosing → done s' = true) as S1' by (rewrite (mo_done _ _ Hm); done).
    assert (∀ n, (n ≤ 3)%nat → (close_work (closer v) ≤ n)%nat → done s' = true) as Hd.
    { intros n Hn Hw. apply S1'. intros E. rewrite E in Hw. cbn in Hw. lia. }
    assert (∀ p, 0 ≤ count p l') as Hpos by (intros; unfold count; lia).
    unfold stage_ok. cbn [node threads closer acceptWg dialWg handlersWg]. split_and!; [done|..]; intros Hw.
    + destruct (Hcl (Hd 3%nat ltac:(lia) Hw)) as [Hf _]. eapply Forall_impl; [exact Hf|]. intros t [Ht|?]; [|done].
      eapply thread_shut_mono; [exact Hm|]. exact (proj1 (Forall_forall _ _) (S2 Hw) t Ht).
    + destruct (Hcl (Hd 2%nat ltac:(lia) Hw)) as (_ & H & _). specialize (S3 Hw). specialize (Hpos is_acceptor). lia.
    + destruct (Hcl (Hd 1%nat ltac:(lia) Hw)) as (_ & _ & H & _). specialize (S4 Hw). specialize (Hpos is_dialer). lia.
    + destruct (Hcl (Hd 0%nat ltac:(lia) ltac:(lia))) as (_ & _ & _ & H). specialize (S5 Hw).
      specialize (H (S3 ltac:(lia))). specialize (Hpos is_handler). lia.
Qed.

(** Nothing but the node changes. *)
Lemma server_ok_node v s' : server_ok v → monotone (node v) s' → server_ok (with_node s' v).
Proof.
  intros Hv Hm. apply server_ok_move; [done|done|apply Hv|apply Hv|apply Hv| |].
  - apply Forall_forall. auto.
  - intros _. split_and!; [apply Forall_forall; auto|lia..].
Qed.

Lemma Forall_old (P : Goroutine → Prop) l k : l ⊆ k → Forall (λ t, t ∈ k ∨ P t) l.
Proof. intros Hl. apply Forall_forall. auto. Qed.

(** One goroutine of the list goes on as [k]. *)
Lemma Forall_replaced (P : Goroutine → Prop) l1 t l2 k :
  Forall P k → Forall (λ x, x ∈ l1 ++ t :: l2 ∨ P x) (l1 ++ k ++ l2).
Proof.
  intros Hk. rewrite !Forall_app. split_and!; [apply Forall_old; set_solver| |apply Forall_old; set_solver].
  eapply Forall_impl; [exact Hk|]. auto.
Qed.

Section Counts.
Context (v : Server) (Hv : server_ok v) (l1 l2 : list Goroutine) (t : Goroutine).
Context (Ht : threads v = l1 ++ t :: l2).

Lemma split_counts :
  acceptWg v = count is_acceptor l1 + (if is_acceptor t then 1 else 0) + count is_acceptor l2 ∧
  dialWg v = count is_dialer l1 + (if is_dialer t then 1 else 0) + count is_dialer l2 ∧
  handlersWg v = count is_handler l1 + (if is_handler t then 1 else 0) + count is_handler l2.
Proof.
  destruct Hv as [-> -> -> _ _]. rewrite Ht, !count_app, !count_cons. lia.
Qed.

(** The goroutine [t] goes on as [k], and the counters follow. *)
Lemma server_ok_replace s' k aw dw hw :
  monotone (node v) s' → Forall (thread_ok s') k → (done s' = true → Forall (λ x, x = t ∨ thread_shut s' x) k) →
  aw - acceptWg v = count is_acceptor k - (if is_acceptor t then 1 else 0) →
  dw - dialWg v = count is_dialer k - (if is_dialer t then 1 else 0) →
  hw - handlersWg v = count is_handler k - (if is_handler t then 1 else 0) →
  (done s' = true → aw ≤ acceptWg v ∧ dw ≤ dialWg v ∧ hw ≤ handlersWg v) →
  server_ok (mkServer s' (l1 ++ k ++ l2) aw dw hw (closer v)).
Proof.
  intros Hm Hok Hsh H1 H2 H3 H4. destruct split_counts as (C1 & C2 & C3).
  apply server_ok_move; [done|done|rewrite !count_app; lia..| |].
  - rewrite Ht. by apply Forall_replaced.
  - intros Hd. specialize (H4 Hd). split_and!; [|lia..]. rewrite Ht, !Forall_app.
    split_and!; [apply Forall_old; set_solver| |apply Forall_old; set_solver].
    eapply Forall_impl; [exact (Hsh Hd)|]. intros x [->|?]; [left; set_solver|by right].
Qed.
End Counts.

(** What the invariant says about a goroutine of the list. *)
Lemma thread_known v l1 t l2 : server_ok v → threads v = l1 ++ t :: l2 → thread_ok (node v) t.
Proof.
  intros Hv Ht. pose proof (sk_threads v Hv) as H. rewrite Ht in H. apply Forall_app in H as [_ H].
  by apply Forall_cons in H as [? _].
Qed.

Lemma close_next_ok v v' : server_ok v → close_next v = Some v' → server_ok v'.
Proof.
  intros Hv. pose proof Hv as [Ka Kd Kh Kt (S1 & S2 & S3 & S4 & S5)]. unfold close_next.
  assert (∀ pc, (close_work pc = pred (close_work (closer v)))%nat → pc ≠ NotClosing →
    (closer v ≠ NotClosing) → (close_work pc ≤ 2)%nat →
    (close_work pc = 2%nat → acceptWg v = 0) → (close_work pc = 1%nat → dialWg v = 0) →
    (close_work pc = 0%nat → handlersWg v = 0) → server_ok (with_closer pc v)) as Hgo.
  { intros pc Hpc Hn Hn' Hw H2 H1 H0. split; cbn; try done. unfold stage_ok. cbn. split_and!; intros Hle.
    - auto.
    - apply S2. lia.
    - destruct (decide (close_work pc = 2)%nat); [auto|]. apply S3. lia.
    - destruct (decide (close_work pc = 1)%nat); [auto|]. apply S4. lia.
    - auto. }
  destruct (closer v) eqn:Ec.
  - intros [= <-]. split; cbn; try done. unfold stage_ok. cbn. split_and!; intros; (done || lia).
  - intros [= <-]. split; cbn; try done.
    + eapply Forall_impl; [exact Kt|]. intros t. apply thread_ok_mono, close_conns_monotone.
    + unfold stage_ok. cbn. split_and!; intros Hle; try lia.
      * rewrite (mo_done _ _ (close_conns_monotone (node v))). by apply S1.
      * eapply Forall_impl; [exact Kt|]. intros [| | | |c a|] Ht; try done. destruct Ht as (sc & Hsc & [Hc|Hc]).
        -- cbn. eapply close_conns_closed; eauto.
        -- apply (thread_shut_mono (node v)); [apply close_conns_monotone|]. cbn. eauto.
  - destruct (Z.eqb_spec (acceptWg v) 0); [|done]. intros [= <-]. apply Hgo; cbn; (done || lia).
  - destruct (Z.eqb_spec (dialWg v) 0); [|done]. intros [= <-]. apply Hgo; cbn; (done || lia).
  - destruct (Z.eqb_spec (handlersWg v) 0); [|done]. intros [= <-]. apply Hgo; cbn; (done || lia).
  - done.
Qed.

Lemma server_step_ok v v' : server_ok v → server_step v v' → server_ok v'.
Proof.
  intros Hv Hst. destruct Hst as [c addr Hin Hc|l1 l2 Ht Hd|now a ips|a l1 l2 c dialled Ht Hc|a l1 l2 Ht
    |c o l1 l2 remote msg Ht|c a sleep ips Hin Hs|c a l1 l2 clock now ips msg Ht|c a l1 l2 Ht|c l1 l2 Ht|e c|l|v' Hn].
  - apply list_elem_of_split in Hin as (l1 & l2 & Ht). unfold do_accept.
    pose proof (split_counts v Hv l1 l2 Acceptor Ht) as (C1 & _). cbn [is_acceptor] in C1.
    apply server_ok_move; [done|by apply monotone_new|..| |].
    1-3: destruct Hv as [Ka Kd Kh _ _]; counts.
    + apply Forall_app. split; [by apply Forall_old|]. apply Forall_singleton. right. cbn. by rewrite lookup_insert_eq.
    + intros _. split_and!; [|lia|lia|unfold count in *; lia]. apply Forall_app. split; [by apply Forall_old|].
      apply Forall_singleton. by right.
  - apply (server_ok_replace v Hv l1 l2 Acceptor Ht (node v) []); (done || counts || auto).
  - unfold do_connect. pose proof (tryConnect_monotone now (node v) a ips) as [Hm Hd].
    destruct (tryConnect now (node v) a ips) as [s dial]. cbn [fst snd] in *.
    destruct dial; [|by apply server_ok_node]. pose proof Hv as [Ka Kd Kh _ _].
    apply server_ok_move; [done|done|counts..| |].
    + apply Forall_app. split; [by apply Forall_old|]. apply Forall_singleton. by right.
    + intros Hs. rewrite (mo_done _ _ Hm) in Hs. by specialize (Hd Hs).
  - unfold do_dial. destruct (dial_monotone (node v) c dialled Hc) as [Hm Hs].
    destruct (dial_connected (node v) c dialled) as [s started]. cbn [fst snd] in *.
    apply (server_ok_replace v Hv l1 l2 (Dialer a) Ht); [done|..].
    + destruct started; repeat constructor. by apply Hs.
    + intros _. destruct started; repeat constructor; by right.
    + destruct started; counts.
    + destruct started; counts.
    + destruct started; counts.
    + intros Hd. rewrite (mo_done _ _ Hm) in Hd. destruct started; [|lia]. destruct (Hs eq_refl). congruence.
  - apply (server_ok_replace v Hv l1 l2 (DialLeaving a) Ht (dial_leave (node v) a) []); try (done || counts).
    by apply monotone_same.
  - unfold do_handshake. destruct (open_monotone (node v) c o remote msg) as [Hm Hs].
    pose proof (thread_known v l1 _ l2 Hv Ht) as [sc Hsc].
    destruct (open_connection (node v) c o remote msg) as [s res]. cbn [fst snd] in *.
    apply (server_ok_replace v Hv l1 l2 (Handshaking c o) Ht); [done|..].
    + destruct res as [a|]; apply Forall_singleton; [|done]. cbn. destruct (mo_heap _ _ Hm c sc Hsc) as (sc' & ? & _).
      exists sc'. split; [done|]. left. by apply Hs.
    + intros Hd. rewrite (mo_done _ _ Hm) in Hd. destruct res as [a|]; apply Forall_singleton.
      { destruct (Hs a eq_refl). congruence. }
      by right.
    + destruct res; counts.
    + destruct res; counts.
    + destruct res; counts.
    + lia.
  - apply server_ok_node; [done|]. by apply greet_monotone.
  - unfold do_message. pose proof (thread_known v l1 _ l2 Hv Ht) as Hk.
    destruct (message_monotone clock now ips (node v) msg) as [Hm Hs].
    destruct (handle_message clock now ips (node v) msg) as [[s dial] go]. cbn [fst snd] in *.
    assert (thread_ok s (Serving c a)) as Hk' by (by eapply thread_ok_mono).
    assert (monotone (node v) (if go then s else cleanup s c a)) as Hm'.
    { destruct go; [done|]. etrans; [exact Hm|]. apply cleanup_monotone. destruct Hk' as (sc & ? & _). eauto. }
    apply (server_ok_replace v Hv l1 l2 (Serving c a) Ht); [exact Hm'|..].
    + destruct go, dial; repeat constructor; exact Hk'.
    + intros _. destruct go, dial; repeat apply Forall_cons_2; try apply Forall_nil_2; (by left) || (by right).
    + destruct go, dial; counts.
    + destruct go, dial; counts.
    + destruct go, dial; counts.
    + intros Hd. rewrite (mo_done _ _ Hm') in Hd. rewrite (Hs Hd). lia.
  - pose proof (thread_known v l1 _ l2 Hv Ht) as (sc & Hsc & _).
    apply (server_ok_replace v Hv l1 l2 (Serving c a) Ht); [by apply cleanup_monotone; eauto|..|counts|counts|counts|counts].
    + by apply Forall_singleton.
    + intros _. apply Forall_singleton. by right.
  - apply (server_ok_replace v Hv l1 l2 (Leaving c) Ht (node v) []); (done || counts || auto).
  - apply server_ok_node; [done|]. auto with sync shutdown.
  - apply server_ok_node; [done|]. apply broadcast_monotone.
  - by eapply close_next_ok.
Qed.

Lemma serve_ok s : server_ok (serve s).
Proof. split; try done; [by apply Forall_singleton|]. unfold stage_ok. cbn. split_and!; intros; (done || lia). Qed.

Lemma running_server_ok s v : rtc server_step (serve s) v → server_ok v.
Proof.
  intros H. assert (∀ x, rtc server_step x v → server_ok x → server_ok v) as Hgo; [|eapply Hgo; [done|apply serve_ok]].
  intros x Hx. induction Hx; eauto using server_step_ok.
Qed.

(** Every goroutine is in a group. *)
Lemma no_threads v : server_ok v → acceptWg v = 0 → dialWg v = 0 → handlersWg v = 0 → threads v = [].
Proof.
  intros [Ka Kd Kh _ _] Ha Hd Hh. rewrite Ka in Ha. rewrite Kd in Hd. rewrite Kh in Hh.
  destruct (threads v) as [|t l] eqn:E; [done|].
  pose proof (count_zero _ _ Ha t ltac:(left)). pose proof (count_zero _ _ Hd t ltac:(left)).
  pose proof (count_zero _ _ Hh t ltac:(left)). by destruct t.
Qed.

Lemma returned_threads v : server_ok v → closer v = Returned → threads v = [].
Proof.
  intros Hv E. pose proof (sk_stage v Hv) as (_ & _ & S3 & S4 & S5). rewrite E in *. cbn in *.
  apply no_threads; [done|apply S3; lia|apply S4; lia|by apply S5].
Qed.

Lemma returned_stays v v' : server_step v v' → closer v = Returned → closer v' = Returned.
Proof.
  intros Hst E. destruct Hst as [| | | | | | | | | | | |v' Hn]; try done.
  - unfold do_connect. by repeat case_match.
  - unfold do_dial. by case_match.
  - unfold do_handshake. by case_match.
  - unfold do_message. by repeat case_match.
  - unfold close_next in Hn. by rewrite E in Hn.
Qed.

Lemma returned_stays_rtc v v' : rtc server_step v v' → closer v = Returned → closer v' = Returned.
Proof. induction 1; eauto using returned_stays. Qed.

(** ** Lemmas: ending *)

Lemma ending_is_step v v' : ending_step v v' → server_step v v'.
Proof. destruct 1; eauto using server_step. Qed.

Lemma ending_works v v' : ending_step v v' → (work v' < work v)%nat.
Proof.
  intros Hst. unfold work. destruct Hst as [l1 l2 Ht|a l1 l2 c Ht|a l1 l2 Ht|c o l1 l2 Ht|c a l1 l2 sc Ht|c l1 l2 Ht|v' Hn].
  1-6: rewrite Ht; cbn; rewrite !sum_list_with_app; cbn; lia.
  unfold close_next in Hn. repeat case_match; simplify_eq/=; lia.
Qed.

Lemma ending_run n v v' : nsteps ending_step n v v' → (n + work v' ≤ work v)%nat.
Proof. induction 1 as [|n x y z Hxy _ IH]; [lia|]. apply ending_works in Hxy. lia. Qed.

(** A goroutine of a closing node can go on towards its end. *)
Lemma thread_ends v t l :
  server_ok v → threads v = t :: l → (close_work (closer v) ≤ 3)%nat → ∃ v', ending_step v v'.
Proof.
  intros Hv Ht Hw. pose proof (sk_stage v Hv) as (S1 & S2 & _).
  assert (done (node v) = true) as Hd by (apply S1; intros E; rewrite E in Hw; cbn in Hw; lia).
  specialize (S2 Hw). rewrite Ht in S2. apply Forall_cons in S2 as [Hsh _].
  destruct t as [|a|a|c o|c a|c].
  - eexists. by apply (en_accept_leave v [] l).
  - eexists. apply (en_dial v a [] l (fresh (dom (heap (node v))))); [done|]. apply not_elem_of_dom, is_fresh.
  - eexists. by apply (en_dial_leave v a [] l).
  - eexists. by apply (en_handshake v c o [] l).
  - destruct Hsh as (sc & ? & ?). eexists. by apply (en_read_error v c a [] l sc).
  - eexists. by apply (en_leave v c [] l).
Qed.

Lemma ending_goes_on v : server_ok v → closer v ≠ NotClosing → closer v ≠ Returned → ∃ v', ending_step v v'.
Proof.
  intros Hv Hn Hr. destruct (decide (close_work (closer v) ≤ 3)%nat) as [Hw|Hw].
  - destruct (threads v) as [|t l] eqn:Ht; [|by eapply thread_ends].
    pose proof Hv as [Ka Kd Kh _ _]. rewrite Ht in *.
    assert (∃ v', close_next v = Some v') as [v' Hc]; [|eexists; by apply en_close].
    unfold close_next. rewrite Ka, Kd, Kh. destruct (closer v); try done; eauto.
  - destruct (closer v) eqn:E; cbn in Hw; try lia; try done. eexists. apply en_close. unfold close_next. by rewrite E.
Qed.

(** ** Properties *)

(** C19: the shutdown leaves nothing behind.  The wait groups never go below zero,
    and once [Close] has returned there is no accept loop, dial or handler left,
    and no later step starts one. *)
Theorem close_leaves_nothing s v :
  rtc server_step (serve s) v →
  0 ≤ acceptWg v ∧ 0 ≤ dialWg v ∧ 0 ≤ handlersWg v ∧
  (closer v = Returned → ∀ v', rtc server_step v v' → threads v' = []).
Proof.
  intros H. pose proof (running_server_ok s v H) as Hv. pose proof Hv as [-> -> -> _ _].
  split_and!; [unfold count; lia..|]. intros Hr v' Hv'. apply returned_threads.
  - apply (running_server_ok s). by etrans.
  - by eapply returned_stays_rtc.
Qed.

(** C20: the shutdown ends.  From every state in which [Close] has been called,
    the goroutines end without the help of a peer (dials and handshakes by their
    time limits, the receive loops because their connections are closed): a run
    of these steps is at most as long as the work that was left, and it stops
    only when [Close] has returned. *)
Theorem close_returns s v :
  rtc server_step (serve s) v → closer v ≠ NotClosing →
  (∀ n v', nsteps ending_step n v v' → (n ≤ work v)%nat) ∧
  (∀ v', rtc ending_step v v' → (∀ v'', ¬ ending_step v' v'') → closer v' = Returned).
Proof.
  intros H Hn. split; [intros n v' Hs%ending_run; lia|]. intros v' Hs Hstuck.
  assert (server_ok v' ∧ closer v' ≠ NotClosing) as [Hv' Hn'].
  { pose proof (running_server_ok s v H) as Hv. clear H Hstuck. induction Hs as [|x y z Hxy _ IH]; [done|].
    apply IH; [|eapply server_step_ok; eauto using ending_is_step].
    pose proof (ending_works x y Hxy) as Hw. destruct Hxy as [| | | | | |y Hc]; try done.
    unfold close_next in Hc. repeat case_match; simplify_eq/=; done. }
  destruct (decide (closer v' = Returned)) as [?|Hr]; [done|].
  destruct (ending_goes_on v' Hv' Hn' Hr) as [v'' ?]. by destruct (Hstuck v'').
Qed.

(** ** Witnesses *)

(** A node that serves one peer and is dialling another. *)
Definition busy_node : Server :=
  do_connect 9 "10.0.0.9:5353" ∅
    (do_handshake 0%nat false [Acceptor] [] (Some (ParseIP "10.0.0.1")) greeting
      (do_accept 0%nat "10.0.0.2:5353" (serve fresh_node))).

Definition next (v : Server) : Server := default v (close_next v).

Definition closing_node : Server := next (next busy_node).

Lemma busy_run : rtc server_step (serve fresh_node) busy_node.
Proof.
  eapply rtc_l; [apply (sv_accept _ 0%nat "10.0.0.2:5353"); [left|reflexivity]|].
  eapply rtc_l; [apply (sv_handshake _ 0%nat false [Acceptor] [] (Some (ParseIP "10.0.0.1")) greeting); reflexivity|].
  apply rtc_once, sv_connect.
Qed.

Lemma next_step v : is_Some (close_next v) → server_step v (next v).
Proof. intros [v' Hv]. unfold next. rewrite Hv. by apply sv_close. Qed.

Lemma closing_run : rtc server_step (serve fresh_node) closing_node.
Proof.
  eapply rtc_r; [|apply next_step; vm_compute; eauto]. eapply rtc_r; [exact busy_run|]. apply next_step. vm_compute. eauto.
Qed.

Definition peer_addr : string := "10.0.0.1:5353".
Definition dial_addr : string := "10.0.0.9:5353".

(** The rest of the shutdown. *)
Definition ending1 : Server := do_accept_leave ([] ++ [Serving 0%nat peer_addr; Dialer dial_addr]) closing_node.
Definition ending2 : Server := do_read_error 0%nat peer_addr [] [Dialer dial_addr] ending1.
Definition ending3 : Server := do_leave ([] ++ [Dialer dial_addr]) ending2.
Definition ending4 : Server := do_dial dial_addr [] [] 1%nat None ending3.
Definition ending5 : Server := do_dial_leave dial_addr ([] ++ []) ending4.
Definition ended_node : Server := next (next (next ending5)).

Lemma ended_run : rtc server_step closing_node ended_node.
Proof.
  apply (rtc_l _ _ ending1). { apply sv_accept_leave; vm_compute; reflexivity. }
  apply (rtc_l _ _ ending2). { apply sv_read_error. reflexivity. }
  apply (rtc_l _ _ ending3). { apply (sv_leave _ 0%nat). reflexivity. }
  apply (rtc_l _ _ ending4). { apply sv_dial; [reflexivity|vm_compute; reflexivity]. }
  apply (rtc_l _ _ ending5). { apply sv_dial_leave. reflexivity. }
  apply (rtc_l _ _ (next ending5)). { apply next_step. vm_compute. eauto. }
  apply (rtc_l _ _ (next (next ending5))). { apply next_step. vm_compute. eauto. }
  apply rtc_once, next_step. vm_compute. eauto.
Qed.

Lemma close_leaves_nothing_witness :
  closer ended_node = Returned ∧ threads closing_node ≠ [] ∧ threads ended_node = [] ∧
  ∀ v', rtc server_step ended_node v' → threads v' = [].
Proof.
  assert (closer ended_node = Returned) as Hr by (vm_compute; reflexivity).
  assert (rtc server_step (serve fresh_node) ended_node) as H by (etrans; [exact closing_run|exact ended_run]).
  pose proof (proj2 (proj2 (proj2 (close_leaves_nothing fresh_node ended_node H))) Hr) as Hall.
  split; [exact Hr|]. split; [vm_compute; discriminate|]. split; [|exact Hall]. apply Hall, rtc_refl.
Defined.

Lemma close_returns_witness :
  work closing_node = 8%nat ∧ (∀ n v', nsteps ending_step n closing_node v' → (n ≤ 8)%nat) ∧
  (∀ v', rtc ending_step closing_node v' → (∀ v'', ¬ ending_step v' v'') → closer v' = Returned).
Proof.
  assert (work closing_node = 8%nat) as Hw by (vm_compute; reflexivity). split; [exact Hw|]. rewrite <- Hw.
  apply (close_returns fresh_node closing_node closing_run). vm_compute. discriminate.
Defined.
