(* ===== verification/Discovery.v ===== *)
(** * Synchronisation: the node's own addresses, its certificate, peer discovery ([sync.go])

    What the node learns from its host, and the rounds of peer discovery: which
    peers a round dials. *)

From Stdlib Require Import Ascii.
From Stdlib Require String.
From stdpp Require Import prelude gmap strings.
From S2P Require Import Prelude GoStrings GoText GoNet GoNetFacts GoHostPort Metrics IPPool Sync SyncFacts SyncData.

#[local] Arguments String.append : simpl nomatch.

(** ** The host *)

(** [addrs] are the addresses of the interfaces, [None] for one that is not a
    network, and [None] as a whole when they cannot be read. *)
Definition getLocalIPs (addrs : option (list (option IP))) : gset string :=
  match addrs with
  | None => ∅
  | Some l => list_to_set (omap (λ addr, localIP ← addr; Some (IP_String (canonical_ip localIP))) l)
  end.

(** What [os.Stat] finds. *)
Inductive Stat := Found | NotExist | StatError.

(** The last default stands when none exists; without defaults the code would
    panic. *)
Definition resolvePath (stat : string → Stat) (envVal : string) (defaults : list string) : option string :=
  if negb (bool_decide (envVal = EmptyString)) then Some envVal
  else match find (λ p, match stat p with Found => true | _ => false end) defaults with
       | Some p => Some p
       | None => last defaults
       end.

Inductive TLSError := NotConfigured | LoadFailed.

(** [load] reads the pair of files and returns the certificates of the chain,
    [sha256] is the hash; the result is the fingerprint of the first one. *)
Definition getTLSConfig (stat : string → Stat) (load : string → string → option (list (list Byte.byte)))
    (sha256 : list Byte.byte → list Byte.byte) (certEnv keyEnv : string) : option (list Byte.byte) + TLSError :=
  let path env defaults := default EmptyString (resolvePath stat env defaults) in
  let certFile := path certEnv ["/run/secrets/cert.pem"; "/app/nextpath/certs/cert.pem"] in
  let keyFile := path keyEnv ["/run/secrets/key.pem"; "/app/nextpath/certs/key.pem"] in
  if match stat certFile with NotExist => true | _ => false end then inr NotConfigured
  else if match stat keyFile with NotExist => true | _ => false end then inr NotConfigured
  else match load certFile keyFile with
       | None => inr LoadFailed
       | Some [] => inl None
       | Some (cert :: _) => inl (Some (sha256 cert))
       end.

(** The certificate as [StartServer] uses it. *)
Definition loaded_tls (r : option (list Byte.byte) + TLSError) : option (option (list Byte.byte)) :=
  match r with inl fp => Some fp | inr _ => None end.

(** Whether [logResultHashDrift] warns. *)
Definition logResultHashDrift (s : SyncManager) (peerHash : string) : bool :=
  if bool_decide (resultHash s = EmptyString) || bool_decide (peerHash = EmptyString) then false
  else negb (bool_decide (resultHash s = peerHash)).

(** ** Rounds *)

(** The first [n] rounds of [startPeerDiscovery], from the [i]-th on; a round
    reads the clock, the interfaces and the resolver anew, and [others i] is what
    the other goroutines do to the node until the next tick. *)
Fixpoint startPeerDiscovery (LookupIP : nat → string → option (list IP)) (now : nat → Z)
    (addrs : nat → option (list (option IP))) (others : nat → SyncManager → SyncManager) (n i : nat) (s : SyncManager)
    : SyncManager * list (list (string * string)) :=
  match n with
  | O => (s, [])
  | S n' =>
      let '(s, dials) := discoverAndConnect (LookupIP i) (now i) (getLocalIPs (addrs i)) s in
      let '(s, more) := startPeerDiscovery LookupIP now addrs others n' (S i) (others i s) in
      (s, dials :: more)
  end.

(** ** What a round should do *)

(** The node wants to reach the address: it is not connected to it, no dial of
    the last ten seconds is under way, it is not one of its own, and the node is
    not closing. *)
Definition wanted (now : Z) (localIPs : gset string) (s : SyncManager) (a : string) : Prop :=
  conns s !! a = None ∧
  (∀ t, activeDials s !! a = Some t → 10 * second ≤ now - t) ∧
  (∀ host port, SplitHostPort a = Some (host, port) → host ∉ localIPs) ∧
  done s = false.

(** The addresses of the configured peers. *)
Definition targets (LookupIP : string → option (list IP)) (localIPs : gset string) (s : SyncManager)
    : list (string * string) := mjoin (peer_targets LookupIP localIPs s <$> peers s).

(** ** Lemmas *)

Lemma tryConnect_wanted now s a ips : (tryConnect now s a ips).2 = true ↔ wanted now ips s a.
Proof.
  unfold tryConnect, wanted. destruct (conns s !! a) as [c|] eqn:Ec.
  { rewrite bool_decide_eq_true_2 by eauto. cbn. naive_solver. }
  rewrite bool_decide_eq_false_2 by (intros [? [=]]).
  assert ((∀ t, activeDials s !! a = Some t → 10 * second ≤ now - t) ↔
    match activeDials s !! a with Some t => now - t <? 10 * second | None => false end = false) as Hrec.
  { destruct (activeDials s !! a) as [t|]; [|naive_solver]. destruct (Z.ltb_spec (now - t) (10 * second)).
    - split; [|done]. intros H'. specialize (H' t eq_refl). lia.
    - split; [done|]. intros _ ? [= <-]. lia. }
  rewrite Hrec. destruct (match activeDials s !! a with Some _ => _ | None => _ end); cbn; [naive_solver|].
  destruct (SplitHostPort a) as [[host port]|] eqn:Es.
  - case_bool_decide as Hin; cbn; [split; [done|]; intros (_ & _ & H & _); by destruct (H host port)|].
    destruct (done s); cbn; [naive_solver|]. split; [|done]. intros _. split_and!; try done. naive_solver.
  - destruct (done s); cbn; [naive_solver|]. split; [|done]. intros _. split_and!; done.
Qed.

(** What a call leaves behind: the stamp of the dial it starts, or no stamp when
    the address is the node's own or the node is closing. *)
Lemma tryConnect_shape now s a ips :
  let r := tryConnect now s a ips in
  (conns r.1 = conns s ∧ peers r.1 = peers s) ∧ done r.1 = done s ∧
  ((r.2 = true ∧ activeDials r.1 = <[a := now]> (activeDials s)) ∨
   (r.2 = false ∧ (activeDials r.1 = activeDials s ∨
      (activeDials r.1 = delete a (activeDials s) ∧ ∀ t, ¬ wanted now ips t a ∨ done s = true)))).
Proof.
  cbn zeta. unfold tryConnect. case_bool_decide; [by split_and!; auto|].
  match goal with |- context [if ?b then _ else _] => destruct b end; [by split_and!; auto|].
  destruct (match SplitHostPort a with Some _ => _ | None => _ end) eqn:El; cbn [fst snd].
  - split_and!; [done..|]. right. split; [done|]. right. cbn. split; [by rewrite delete_insert_eq|].
    intros t. left. intros (_ & _ & W3 & _). destruct (SplitHostPort a) as [[h q]|]; [|done].
    apply bool_decide_eq_true in El. by apply (W3 h q).
  - cbn. destruct (done s) eqn:Ed; cbn; (split_and!; [done|done|done|]); [|by auto].
    right. split; [done|]. right. split; [by rewrite delete_insert_eq|]. by right.
Qed.

(** Dialling an address makes it unwanted and leaves the others as they are. *)
Lemma tryConnect_others now s a ips b :
  let r := tryConnect now s a ips in wanted now ips r.1 b ↔ wanted now ips s b ∧ ¬ (r.2 = true ∧ b = a).
Proof.
  cbn zeta. destruct (tryConnect_shape now s a ips) as ([Hc _] & Hd & Hcase).
  set (s' := (tryConnect now s a ips).1) in *.
  assert (∀ x, activeDials s' !! x = activeDials s !! x → wanted now ips s' x ↔ wanted now ips s x) as Hsame
    by (intros x E; unfold wanted; by rewrite Hc, Hd, E).
  destruct Hcase as [[Hr E]|[Hr [E|[E Hun]]]].
  - destruct (decide (b = a)) as [-> | Hne].
    + split; [|naive_solver]. intros (_ & W & _). specialize (W now). rewrite E, lookup_insert_eq in W.
      specialize (W eq_refl). unfold second, nanosecond in W. lia.
    + rewrite Hsame by (by rewrite E, lookup_insert_ne). naive_solver.
  - rewrite Hsame by (by rewrite E). naive_solver congruence.
  - destruct (decide (b = a)) as [-> | Hne].
    + split; [|intros [W _]]; [intros W|]; exfalso.
      * destruct (Hun s') as [?|Hdn]; [done|]. destruct W as (_ & _ & _ & W). congruence.
      * destruct (Hun s) as [?|Hdn]; [done|]. destruct W as (_ & _ & _ & W). congruence.
    + rewrite Hsame by (by rewrite E, lookup_delete_ne). naive_solver congruence.
Qed.

(** A sequence of calls dials the wanted addresses among its own, each once. *)
Lemma round_spec now ips (l : list (string * string)) : ∀ s dials,
  let r := foldl (λ '(s, dials) '(addr, host),
             let '(s, dial) := tryConnect now s addr ips in (s, if dial then dials ++ [(addr, host)] else dials))
             (s, dials) l in
  ∃ new, r.2 = dials ++ new ∧ NoDup new.*1 ∧
    (∀ a, a ∈ new.*1 ↔ a ∈ l.*1 ∧ wanted now ips s a) ∧ (conns r.1 = conns s ∧ peers r.1 = peers s) ∧ done r.1 = done s ∧
    (∀ a t, activeDials r.1 !! a = Some t → t = now ∨ activeDials s !! a = Some t).
Proof.
  induction l as [|[a host] l IH]; intros s dials; cbn zeta; cbn [foldl].
  { exists []. rewrite app_nil_r. split_and!; [done|constructor|set_solver|done|done|done|auto]. }
  destruct (tryConnect_shape now s a ips) as ([Hc Hp] & Hd & Hsh).
  pose proof (tryConnect_wanted now s a ips) as Hw. pose proof (tryConnect_others now s a ips) as Ho.
  destruct (tryConnect now s a ips) as [s1 d]. cbn [fst snd] in *.
  destruct (IH s1 (if d then dials ++ [(a, host)] else dials)) as (new & E1 & E2 & E3 & [E4 E4'] & E5 & E6). cbn zeta in *.
  exists ((if d then [(a, host)] else []) ++ new). rewrite E1, E4, E4', E5.
  split_and!; [destruct d; [by rewrite <- app_assoc|done]| | |done|done|done|].
  - destruct d; [|done]. constructor; [|done]. intros [_ [_ Hna]%Ho]%E3. naive_solver.
  - intros b. rewrite fmap_app, elem_of_app, E3, Ho. cbn [fmap list_fmap fst]. rewrite elem_of_cons.
    destruct d; cbn [fmap list_fmap]; rewrite ?elem_of_cons, ?elem_of_nil.
    + destruct (decide (b = a)) as [-> | Hne]; naive_solver.
    + destruct (decide (b = a)) as [-> | Hne]; naive_solver.
  - intros b t [->|Ht]%E6; [by left|].
    destruct Hsh as [[_ E]|[_ [E|[E _]]]]; rewrite E in Ht; [|by right|right; by apply lookup_delete_Some in Ht as [_ ?]].
    apply lookup_insert_Some in Ht as [[_ <-]|[_ ?]]; auto.
Qed.

Lemma discover_spec LookupIP now ips s :
  let r := discoverAndConnect LookupIP now ips s in
  NoDup r.2.*1 ∧ (∀ a, a ∈ r.2.*1 ↔ a ∈ (targets LookupIP ips s).*1 ∧ wanted now ips s a) ∧
  (conns r.1 = conns s ∧ peers r.1 = peers s) ∧ done r.1 = done s ∧
  (∀ a t, activeDials r.1 !! a = Some t → t = now ∨ activeDials s !! a = Some t).
Proof.
  destruct (round_spec now ips (targets LookupIP ips s) s []) as (new & E & H). cbn zeta.
  rewrite <- (app_nil_l new) in H. rewrite <- E in H. exact H.
Qed.

Lemma local_listed l ip : Some ip ∈ l → IP_String (canonical_ip ip) ∈ getLocalIPs (Some l).
Proof.
  intros Hin. apply elem_of_list_to_set, list_elem_of_omap. exists (Some ip). by split.
Qed.

Lemma canonical_text ip : valid_ip ip → IP_String (canonical_ip ip) = IP_String ip.
Proof.
  intros Hv. destruct (canonical_ip_valid ip Hv) as [Hc E].
  by rewrite <- (IP_String_To16 ip), <- E, IP_String_To16.
Qed.

(** A peer given by its address is a target unless it is the node's own. *)
Lemma literal_target LookupIP ips s peerRaw host port :
  peerRaw ∈ peers s → SplitHostPort peerRaw = Some (host, port) → is_nil (ParseIP host) = false →
  IP_String (canonical_ip (ParseIP host)) ∉ ips →
  JoinHostPort (IP_String (canonical_ip (ParseIP host))) port ∈ (targets LookupIP ips s).*1.
Proof.
  intros Hp Hs Hip Hloc. apply list_elem_of_fmap. eexists (_, host). split; [done|].
  apply list_elem_of_join. exists (peer_targets LookupIP ips s peerRaw). split; [|by apply list_elem_of_fmap_2].
  unfold peer_targets. rewrite Hs. cbn [default from_option id]. rewrite Hip. cbn.
  rewrite bool_decide_eq_false_2 by done. left.
Qed.

(** ** Properties *)

(** C21: a round of peer discovery starts exactly one dial for every configured
    peer address that the node wants to reach (not connected, not dialled within
    ten seconds, not one of its own, and the node not closing) and none besides;
    in particular it never dials an address of one of its interfaces. *)
Theorem discovery_dials_wanted LookupIP now addrs s :
  let ips := getLocalIPs addrs in
  let dials := (discoverAndConnect LookupIP now ips s).2 in
  NoDup dials.*1 ∧
  (∀ a, a ∈ dials.*1 ↔ a ∈ (targets LookupIP ips s).*1 ∧ wanted now ips s a) ∧
  (∀ ip n, valid_ip ip → 0 ≤ n → (∃ l, addrs = Some l ∧ Some ip ∈ l) → JoinHostPort (IP_String ip) (itoa n) ∉ dials.*1) ∧
  (∀ peerRaw host port, peerRaw ∈ peers s → SplitHostPort peerRaw = Some (host, port) → is_nil (ParseIP host) = false →
     let a := JoinHostPort (IP_String (canonical_ip (ParseIP host))) port in
     wanted now ips s a → IP_String (canonical_ip (ParseIP host)) ∉ ips → a ∈ dials.*1).
Proof.
  intros ips dials. destruct (discover_spec LookupIP now ips s) as (E2 & E3 & _). fold dials in E2, E3. split_and!; [done|done| |].
  - intros ip n Hv Hn (l & -> & Hin) (_ & _ & _ & Hloc & _)%E3.
    apply (Hloc (IP_String ip) (itoa n)); [by apply SplitHostPort_addr|].
    rewrite <- canonical_text by done. by apply local_listed.
  - intros peerRaw host port Hp Hs Hip a Hw Hloc. apply E3. split; [|done]. by apply (literal_target _ _ _ peerRaw).
Qed.

(** The interfaces and the peers of a node: one peer is the node itself, another
    is written as an IPv4-mapped address. *)
Definition meshed : SyncManager :=
  NewSyncManager "10.0.0.2:5353,[::ffff:10.0.0.9]:5353,10.0.0.9:5353" "5353" "198.18.0.0/15" "fd00:18::/108" None
    "secret" EmptyString "h" 7.
Definition own_addrs : option (list (option IP)) := Some [None; Some (ParseIP "10.0.0.2")].

Lemma discovery_dials_wanted_witness :
  (discoverAndConnect (λ _, None) 100 (getLocalIPs own_addrs) meshed).2.*1 = ["10.0.0.9:5353"] ∧
  NoDup (discoverAndConnect (λ _, None) 100 (getLocalIPs own_addrs) meshed).2.*1.
Proof.
  split; [vm_compute; reflexivity|]. exact (proj1 (discovery_dials_wanted (λ _, None) 100 own_addrs meshed)).
Defined.

(** ** Rounds *)

(** A configured peer that stays out of reach is dialled again in every round:
    between the rounds its dial ends or stays, and the clock advances by more
    than the ten seconds a dial blocks another. *)
Lemma unreachable_peer_retried LookupIP now addrs others peerRaw host port n : ∀ i s,
  let a := JoinHostPort (IP_String (canonical_ip (ParseIP host))) port in
  SplitHostPort peerRaw = Some (host, port) → is_nil (ParseIP host) = false →
  (∀ k, 10 * second ≤ now (S k) - now k) →
  (∀ k, IP_String (canonical_ip (ParseIP host)) ∉ getLocalIPs (addrs k)) →
  (∀ k h p, SplitHostPort a = Some (h, p) → h ∉ getLocalIPs (addrs k)) →
  (∀ k s, peers (others k s) = peers s ∧ (conns s !! a = None → conns (others k s) !! a = None) ∧
     done (others k s) = done s ∧ (activeDials (others k s) !! a = activeDials s !! a ∨ activeDials (others k s) !! a = None)) →
  peerRaw ∈ peers s → wanted (now i) (getLocalIPs (addrs i)) s a →
  let rounds := (startPeerDiscovery LookupIP now addrs others n i s).2 in
  length rounds = n ∧ Forall (λ dials, a ∈ dials.*1) rounds.
Proof.
  induction n as [|n IH]; intros i s a Hs Hip Hnow Hloc Hsplit Hoth Hpeer Hw; [done|]. cbn zeta. cbn [startPeerDiscovery].
  set (ips := getLocalIPs (addrs i)) in *.
  destruct (discover_spec (LookupIP i) (now i) ips s) as (_ & E3 & [Hc Hp] & Hdn & Hst).
  assert (a ∈ (discoverAndConnect (LookupIP i) (now i) ips s).2.*1) as Ha.
  { apply E3. split; [|done]. apply (literal_target _ _ _ peerRaw); [done|done|done|exact (Hloc i)]. }
  destruct (discoverAndConnect (LookupIP i) (now i) ips s) as [s1 dials]. cbn [fst snd] in *.
  destruct (Hoth i s1) as (O1 & O2 & O3 & O4). destruct Hw as (W1 & W2 & W3 & W4).
  destruct (IH (S i) (others i s1) Hs Hip Hnow Hloc Hsplit Hoth) as [L1 L2]; [congruence| |].
  - split_and!; [apply O2; congruence| |by apply Hsplit|congruence].
    intros t Ht. change (activeDials (others i s1) !! a = Some t) in Ht. specialize (Hnow i). assert (t ≤ now i); [|lia].
    destruct O4 as [O4|O4]; rewrite O4 in Ht; [|done]. destruct (Hst a t Ht) as [->|Hold]; [lia|].
    specialize (W2 t Hold). unfold second, nanosecond in W2. lia.
  - destruct (startPeerDiscovery LookupIP now addrs others n (S i) (others i s1)) as [s2 more]. cbn [snd length] in *.
    split; [by rewrite L1|]. by constructor.
Qed.
