(* ===== verification/Proxy.v ===== *)
(** * The DNS proxy ([internal/dnsengine/proxy.go])

    A query is resolved upstream, the addresses of the answer are exchanged for
    Fake-IPs of the pool, and the rewritten answer goes back to the client,
    while the mappings are written to the packet filter and broadcast.  The
    messages are those of the DNS library, reduced to what the proxy reads: the
    record types it distinguishes, their addresses and times to live.  The
    network exchanges, the clocks and the library's failure and empty replies
    are arguments and constructors. *)

From Stdlib Require Import Ascii.
From Stdlib Require String.
From stdpp Require Import prelude gmap strings.
From S2P Require Import Prelude GoStrings GoNet Metrics IPPool.

(** ** Messages *)

(** SVCB parameters; a parameter of another kind keeps its key. *)
Inductive SVCBKeyValue :=
  | SVCBIPv4Hint (Hint : list IP)
  | SVCBIPv6Hint (Hint : list IP)
  | SVCBOther (key : Z) (data : string).

Definition SVCB_IPV4HINT : Z := 4.
Definition SVCB_IPV6HINT : Z := 6.

Definition Key (kv : SVCBKeyValue) : Z :=
  match kv with
  | SVCBIPv4Hint _ => SVCB_IPV4HINT
  | SVCBIPv6Hint _ => SVCB_IPV6HINT
  | SVCBOther k _ => k
  end.

Record Header := mkHeader { Name : string; Ttl : Z }.

Inductive RR :=
  | A (h : Header) (a : IP)
  | AAAA (h : Header) (aaaa : IP)
  | SVCB (h : Header) (target : string) (Value : list SVCBKeyValue)
  | HTTPS (h : Header) (target : string) (Value : list SVCBKeyValue)
  | RRSIG (h : Header)
  | NSEC (h : Header)
  | NSEC3 (h : Header)
  | OtherRR (h : Header) (data : string).

Record Msg := mkMsg {
  Question : list string;
  Answer : list RR;
  Ns : list RR;
  Extra : list RR;
  Truncated : bool;
  AuthenticatedData : bool;
}.

(** What the client gets: the library's empty reply to the query, its failure
    reply, or a message. *)
Inductive Reply := EmptyReply (r : Msg) | FailedReply (r : Msg) | MsgReply (m : Msg).

(** ** The proxy *)

Record DNSProxy := mkProxy {
  px_pool : IPPool;
  hasNft : bool;
  hasSync : bool;
  upstreams : list string;
  maxTTL : Z;
  enableIPv6 : bool;
}.

Definition NewDNSProxy (upstreamAddr : string) (p : IPPool) (nft sync : bool) (ttl : Z) (v6 : bool) : DNSProxy :=
  mkProxy p nft sync [upstreamAddr] ttl v6.

(** [UpdatePool] swaps the pool and closes the old one; closing a closed pool
    panics. *)
Definition UpdatePool (px : DNSProxy) (newPool : IPPool) : option (DNSProxy * IPPool) :=
  old ← Close (px_pool px);
  Some (mkProxy newPool (hasNft px) (hasSync px) (upstreams px) (maxTTL px) (enableIPv6 px), old).

(** ** Collecting the addresses *)

Definition IPv4zero : IP := IPv4 Byte.x00 Byte.x00 Byte.x00 Byte.x00.
Definition IPv6zero : IP := replicate 16 Byte.x00.

Definition addV4 (realV4 : list IP) (ip : IP) : list IP :=
  let ip4 := To4 ip in
  if is_nil ip4 then realV4
  else if IP_Equal ip4 IPv4zero then realV4
  else if existsb (λ existing, IP_Equal existing ip4) realV4 then realV4
  else realV4 ++ [ip4].

Definition addV6 (enableIPv6 : bool) (realV6 : list IP) (ip : IP) : list IP :=
  if negb enableIPv6 then realV6
  else if negb (is_nil (To4 ip)) then realV6
  else if IP_Equal ip IPv6zero then realV6
  else if existsb (λ existing, IP_Equal existing ip) realV6 then realV6
  else realV6 ++ [ip].

Definition extractSVCBHints (v6 : bool) (st : list IP * list IP) (values : list SVCBKeyValue)
    : list IP * list IP :=
  foldl (λ st kv,
    match kv with
    | SVCBIPv4Hint hint => (foldl addV4 st.1 hint, st.2)
    | SVCBIPv6Hint hint => if negb v6 then st else (st.1, foldl (addV6 v6) st.2 hint)
    | SVCBOther _ _ => st
    end) st values.

Definition collectIPs (v6 : bool) (st : list IP * list IP) (rr : RR) : list IP * list IP :=
  match rr with
  | A _ a => (addV4 st.1 a, st.2)
  | AAAA _ a => (st.1, addV6 v6 st.2 a)
  | SVCB _ _ values => extractSVCBHints v6 st values
  | HTTPS _ _ values => extractSVCBHints v6 st values
  | _ => st
  end.

Definition collect (v6 : bool) (resp : Msg) : list IP * list IP :=
  foldl (collectIPs v6) (foldl (collectIPs v6) (foldl (collectIPs v6) ([], []) (Answer resp)) (Ns resp)) (Extra resp).

(** ** Rewriting *)

Definition patch_hints (m : gmap string IP) (hint : list IP) : list IP := omap (λ ip, m !! IP_String ip) hint.

Definition patchSVCBValues (values : list SVCBKeyValue) (mapV4 mapV6 : gmap string IP) (v6 : bool)
    : list SVCBKeyValue :=
  omap (λ kv,
    if Key kv =? SVCB_IPV4HINT then
      Some (match kv with SVCBIPv4Hint hint => SVCBIPv4Hint (patch_hints mapV4 hint) | _ => kv end)
    else if Key kv =? SVCB_IPV6HINT then
      if negb v6 then None
      else Some (match kv with SVCBIPv6Hint hint => SVCBIPv6Hint (patch_hints mapV6 hint) | _ => kv end)
    else Some kv) values.

Definition cap_ttl (limit : Z) (h : Header) : Header := mkHeader (Name h) (Z.min (Ttl h) limit).

(** What [filterRRs] does with one record. *)
Definition filter_rr (mapV4 mapV6 : gmap string IP) (limit : Z) (v6 : bool) (rr : RR) : option RR :=
  match rr with
  | A h a =>
      match mapV4 !! IP_String a with
      | Some fake => Some (A (cap_ttl limit h) fake)
      | None => Some rr
      end
  | AAAA h a =>
      if negb v6 then None
      else match mapV6 !! IP_String a with
           | Some fake => Some (AAAA (cap_ttl limit h) fake)
           | None => Some rr
           end
  | SVCB h t values => Some (SVCB (cap_ttl limit h) t (patchSVCBValues values mapV4 mapV6 v6))
  | HTTPS h t values => Some (HTTPS (cap_ttl limit h) t (patchSVCBValues values mapV4 mapV6 v6))
  | RRSIG _ | NSEC _ | NSEC3 _ => None
  | OtherRR _ _ => Some rr
  end.

Definition filterRRs (mapV4 mapV6 : gmap string IP) (limit : Z) (v6 : bool) (rrs : list RR) : list RR :=
  omap (filter_rr mapV4 mapV6 limit v6) rrs.

(** ** Publishing *)

(** What the goroutine of a request sends: to the packet filter the Fake-IP,
    the address and the lifetime, to the peers the new mappings. *)
Record Publication := mkPub { pub_nft : list (IP * IP * Z); pub_sync : list Mapping }.

(** One family; [conv] is [To4] or [To16]. *)
Definition nft_writes (conv : IP → IP) (m : gmap string IP) : list (IP * IP * Z) :=
  omap (λ '(realStr, fake),
    let parsedIP := ParseIP realStr in
    if is_nil parsedIP then None else Some (fake, conv parsedIP, MappingTTL)) (map_to_list m).

Definition sync_mappings (conv : IP → IP) (m : gmap string MappingInfo) : list Mapping :=
  omap (λ '(realStr, info),
    let parsedIP := ParseIP realStr in
    if is_nil parsedIP then None else Some (mkMapping (mi_IP info) (conv parsedIP) (mi_Version info)))
    (map_to_list m).

Definition publish (px : DNSProxy) (mapV4 mapV6 : gmap string IP) (newV4 newV6 : gmap string MappingInfo)
    : Publication :=
  mkPub (if hasNft px then nft_writes To4 mapV4 ++ nft_writes To16 mapV6 else [])
        (if hasSync px then sync_mappings To4 newV4 ++ sync_mappings To16 newV6 else []).

(** ** The upstream *)

(** [udp u i] and [tcp u i] are the outcomes of the exchanges of the i-th
    attempt with upstream [u]. *)
Definition attempt_upstream (udp tcp : string → nat → option Msg) (u : string) (i : nat) : option Msg :=
  resp ← udp u i;
  if Truncated resp then Some (default resp (tcp u i)) else Some resp.

Fixpoint resolveUpstream (udp tcp : string → nat → option Msg) (ups : list string) : option Msg :=
  match ups with
  | [] => None
  | u :: ups' =>
      match attempt_upstream udp tcp u 0 with
      | Some resp => Some resp
      | None =>
          match attempt_upstream udp tcp u 1 with
          | Some resp => Some resp
          | None => resolveUpstream udp tcp ups'
          end
      end
  end.

(** ** The handler *)

(** The clock: the readings of the two allocation calls and of the versions
    they assign. *)
Record Clock := mkClock { now4 : Z; nano4 : nat → Z; now6 : Z; nano6 : nat → Z }.

(** One family of an answer; nothing to do without addresses. *)
Definition allocate (p : IPPool) (mt : Metrics) (now : Z) (nano : nat → Z) (reals : list IP) (isV6 : bool)
    : option (gmap string IP * gmap string MappingInfo) * IPPool * Metrics :=
  match reals with
  | [] => (Some (∅, ∅), p, mt)
  | _ => GetFakeIPsForReals p mt now nano reals isV6
  end.

(** The handler once the upstream has answered. *)
Definition process (px : DNSProxy) (mt : Metrics) (ck : Clock) (r resp : Msg)
    : Reply * IPPool * Metrics * option Publication :=
  let '(realV4, realV6) := collect (enableIPv6 px) resp in
  match allocate (px_pool px) mt (now4 ck) (nano4 ck) realV4 false with
  | (None, p, mt) => (FailedReply r, p, mt, None)
  | (Some (mapV4, newV4), p, mt) =>
      match allocate p mt (now6 ck) (nano6 ck) realV6 true with
      | (None, p, mt) => (FailedReply r, rollback p newV4, mt, None)
      | (Some (mapV6, newV6), p, mt) =>
          let rewrite_section := filterRRs mapV4 mapV6 (maxTTL px) (enableIPv6 px) in
          let resp' := mkMsg (Question resp) (rewrite_section (Answer resp)) (rewrite_section (Ns resp))
                         (rewrite_section (Extra resp)) (Truncated resp) false in
          (MsgReply resp', p, mt, Some (publish px mapV4 mapV6 newV4 newV6))
      end
  end.

Definition handleDNSRequest (udp tcp : string → nat → option Msg) (px : DNSProxy) (mt : Metrics) (ck : Clock)
    (r : Msg) : Reply * IPPool * Metrics * option Publication :=
  let mt := add_dns_query mt in
  let trivial_query :=
    match Question r with
    | [] => true
    | [q] => bool_decide (q = ".") || bool_decide (q = "healthcheck.nextpath.")
    | _ => false
    end in
  if trivial_query then (EmptyReply r, px_pool px, mt, None)
  else match resolveUpstream udp tcp (upstreams px) with
       | None => (FailedReply r, px_pool px, add_dns_error mt, None)
       | Some resp => process px mt ck r resp
       end.
