(* ===== verification/ProxyFacts.v ===== *)
(** * The DNS proxy: what the client gets and what is published

    The rewritten answer is specified record by record against the final pool,
    and by the addresses its reader finds in it: Fake-IPs of the upstream's
    addresses, apart from 0.0.0.0, :: and IPv4-mapped IPv6 addresses.  A request that fails leaves nothing behind. *)

From Stdlib Require Import Ascii.
From Stdlib Require String.
From stdpp Require Import prelude gmap strings.
From S2P Require Import Prelude GoStrings GoNet GoNetFacts GoHostPort Metrics IPPool PoolInv.
From S2P Require Import PoolOps PoolReach PoolPrune PoolRange PoolAlloc Proxy.

(** ** Specification *)

(** An address is an IPv4 address when its 16-byte form is IPv4-mapped. *)
Definition is_v4 (a : IP) : Prop := ∃ b, length b = 4%nat ∧ To16 a = v4InV6Prefix ++ b.

(** The addresses the proxy exchanges for a Fake-IP: IPv4 addresses other than
    0.0.0.0 where a record holds IPv4 addresses; addresses other than :: that are
    not IPv4-mapped where it holds IPv6 addresses ([exchanged4_spec],
    [exchanged6_spec]). *)
Definition exchanged4 (ip : IP) : bool := negb (is_nil (To4 ip)) && negb (IP_Equal (To4 ip) IPv4zero).
Definition exchanged6 (ip : IP) : bool := is_nil (To4 ip) && negb (IP_Equal ip IPv6zero).

Definition kv_v4 (kv : SVCBKeyValue) : list IP := match kv with SVCBIPv4Hint l => l | _ => [] end.
Definition kv_v6 (kv : SVCBKeyValue) : list IP := match kv with SVCBIPv6Hint l => l | _ => [] end.

(** The addresses of a record, by the place they stand in. *)
Definition rr_v4 (rr : RR) : list IP :=
  match rr with A _ a => [a] | SVCB _ _ l | HTTPS _ _ l => mjoin (kv_v4 <$> l) | _ => [] end.
Definition rr_v6 (rr : RR) : list IP :=
  match rr with AAAA _ a => [a] | SVCB _ _ l | HTTPS _ _ l => mjoin (kv_v6 <$> l) | _ => [] end.

Definition records (m : Msg) : list RR := Answer m ++ Ns m ++ Extra m.
Definition addrs4 (m : Msg) : list IP := mjoin (rr_v4 <$> records m).
Definition addrs6 (m : Msg) : list IP := mjoin (rr_v6 <$> records m).

(** Addresses have four or sixteen bytes. *)
Definition msg_valid (m : Msg) : Prop := Forall valid_ip (addrs4 m) ∧ Forall valid_ip (addrs6 m).

Section Rewritten.
Context (p : IPPool) (limit : Z) (v6 : bool).

(** [f] is the Fake-IP of [a]. *)
Definition fake_for (a f : IP) : Prop := rtf p (ToIPKey a) = Some (ToIPKey f).

Definition addr_rewritten (routable : bool) (h : Header) (a : IP) (h' : Header) (a' : IP) : Prop :=
  if routable then fake_for a a' ∧ h' = cap_ttl limit h else a' = a ∧ h' = h.

Definition hints_rewritten (routable : IP → bool) (hs hs' : list IP) : Prop :=
  Forall2 fake_for (filter (λ a, routable a = true) hs) hs'.

(** A list whose elements are replaced or dropped. *)
Definition rewritten {X} (R : X → option X → Prop) (l l' : list X) : Prop :=
  ∃ os, Forall2 R l os ∧ l' = omap id os.

Definition kv_rewritten (kv : SVCBKeyValue) (o : option SVCBKeyValue) : Prop :=
  match kv with
  | SVCBIPv4Hint hs => ∃ hs', o = Some (SVCBIPv4Hint hs') ∧ hints_rewritten exchanged4 hs hs'
  | SVCBIPv6Hint hs =>
      if v6 then ∃ hs', o = Some (SVCBIPv6Hint hs') ∧ hints_rewritten exchanged6 hs hs' else o = None
  | SVCBOther k _ => o = if (k =? SVCB_IPV6HINT) && negb v6 then None else Some kv
  end.

Definition rr_rewritten (rr : RR) (o : option RR) : Prop :=
  match rr with
  | A h a => ∃ h' a', o = Some (A h' a') ∧ addr_rewritten (exchanged4 a) h a h' a'
  | AAAA h a =>
      if v6 then ∃ h' a', o = Some (AAAA h' a') ∧ addr_rewritten (exchanged6 a) h a h' a' else o = None
  | SVCB h t l => ∃ l', o = Some (SVCB (cap_ttl limit h) t l') ∧ rewritten kv_rewritten l l'
  | HTTPS h t l => ∃ l', o = Some (HTTPS (cap_ttl limit h) t l') ∧ rewritten kv_rewritten l l'
  | RRSIG _ | NSEC _ | NSEC3 _ => o = None
  | OtherRR _ _ => o = Some rr
  end.
End Rewritten.

(** ** Lemmas: the addresses of a rewritten answer *)

Lemma is_v4_To4 a : valid_ip a → is_v4 a ↔ To4 a ≠ [].
Proof.
  intros Hv. split.
  - intros (b & Hb & E) Hn. destruct (To16_To4_nil a Hv Hn) as [Hl H16].
    revert Hn. rewrite <- (To4_To16 a Hv), E. destruct b as [|? [|? [|? [|? [|]]]]]; try done.
  - intros Hn. exists (To4 a). split; [by apply To4_length|by apply To16_of_To4].
Qed.

Lemma exchanged4_spec a :
  valid_ip a → exchanged4 a = true ↔ is_v4 a ∧ To16 a ≠ To16 IPv4zero.
Proof.
  intros Hv. rewrite is_v4_To4 by done. unfold exchanged4.
  destruct (is_nil (To4 a)) eqn:En; cbn [negb andb]; [apply is_nil_true in En; naive_solver|].
  apply is_nil_false in En. pose proof (To4_length a En) as Hl. rewrite (To16_of_To4 a En).
  unfold IP_Equal. rewrite Hl. change (length IPv4zero) with 16%nat. cbn [Nat.eqb andb].
  change (take 12 IPv4zero) with v4InV6Prefix. change (drop 12 IPv4zero) with (replicate 4 Byte.x00).
  change (To16 IPv4zero) with (v4InV6Prefix ++ replicate 4 Byte.x00).
  rewrite bool_decide_true by done. cbn [andb]. case_bool_decide as E; cbn [negb].
  - rewrite E. naive_solver.
  - split; [|done]. intros _. split; [done|]. intros H%app_inv_head. done.
Qed.

Lemma exchanged6_spec a :
  valid_ip a → exchanged6 a = true ↔ ¬ is_v4 a ∧ To16 a ≠ IPv6zero.
Proof.
  intros Hv. rewrite is_v4_To4 by done. unfold exchanged6.
  destruct (is_nil (To4 a)) eqn:En; cbn [andb].
  - apply is_nil_true in En. destruct (To16_To4_nil a Hv En) as [Hl ->]. rewrite En.
    unfold IP_Equal. rewrite Hl. change (length IPv6zero) with 16%nat. cbn [Nat.eqb].
    case_bool_decide; cbn [negb]; naive_solver.
  - apply is_nil_false in En. naive_solver.
Qed.

(** What stands in the place of an address: the Fake-IP of one, or one that is
    not exchanged. *)
Definition stands (p : IPPool) (exch : IP → bool) (l : list IP) (a' : IP) : Prop :=
  (∃ a, a ∈ l ∧ fake_for p a a') ∨ (a' ∈ l ∧ exch a' = false).

Lemma stands_sub p exch l l' a : l ⊆ l' → stands p exch l a → stands p exch l' a.
Proof. intros Hs [(x & Hx & H)|[H1 H2]]; [left; eauto|right; eauto]. Qed.

Lemma hints_stand p exch hs hs' a' : hints_rewritten p exch hs hs' → a' ∈ hs' → stands p exch hs a'.
Proof.
  intros H (i & Ha)%list_elem_of_lookup.
  destruct (Forall2_lookup_r _ _ _ _ _ H Ha) as (a & Hl & Hf). left. exists a. split; [|done].
  apply list_elem_of_lookup_2, list_elem_of_filter in Hl as [_ ?]. done.
Qed.

(** A list of elements with addresses, each replaced or dropped. *)
Lemma rewritten_stand {X} p exch (R : X → option X → Prop) (f : X → list IP) l l' a' :
  (∀ x x' b, R x (Some x') → b ∈ f x' → stands p exch (f x) b) →
  rewritten R l l' → a' ∈ mjoin (f <$> l') → stands p exch (mjoin (f <$> l)) a'.
Proof.
  intros HR (os & H2 & ->) (fs & Ha & (x' & -> & Hx)%list_elem_of_fmap)%list_elem_of_join.
  apply list_elem_of_omap in Hx as (o & Ho & E). cbn in E. subst o.
  apply list_elem_of_lookup in Ho as (i & Hi).
  destruct (Forall2_lookup_r _ _ _ _ _ H2 Hi) as (x & Hl & Hr).
  eapply stands_sub; [|by eapply HR]. intros y Hy. apply list_elem_of_join.
  exists (f x). split; [done|]. apply list_elem_of_fmap. exists x. split; [done|].
  by eapply list_elem_of_lookup_2.
Qed.

Lemma addr_stands p limit exch h a h' a' b :
  addr_rewritten p limit (exch a) h a h' a' → b ∈ [a'] → stands p exch [a] b.
Proof.
  unfold addr_rewritten. intros H ->%list_elem_of_singleton. destruct (exch a) eqn:E.
  - left. exists a. split; [left|apply H].
  - destruct H as [-> _]. right. split; [left|done].
Qed.

Lemma kv_stand4 p v6 kv kv' b :
  kv_rewritten p v6 kv (Some kv') → b ∈ kv_v4 kv' → stands p exchanged4 (kv_v4 kv) b.
Proof.
  destruct kv as [hs|hs|k d]; cbn [kv_rewritten].
  - intros (hs' & [= ->] & H). by apply hints_stand.
  - destruct v6; [|done]. intros (hs' & [= ->] & H) Hb. by apply not_elem_of_nil in Hb.
  - case_match; [done|]. intros [= ->] Hb. by apply not_elem_of_nil in Hb.
Qed.

Lemma kv_stand6 p v6 kv kv' b :
  kv_rewritten p v6 kv (Some kv') → b ∈ kv_v6 kv' → stands p exchanged6 (kv_v6 kv) b.
Proof.
  destruct kv as [hs|hs|k d]; cbn [kv_rewritten].
  - intros (hs' & [= ->] & H) Hb. by apply not_elem_of_nil in Hb.
  - destruct v6; [|done]. intros (hs' & [= ->] & H). by apply hints_stand.
  - case_match; [done|]. intros [= ->] Hb. by apply not_elem_of_nil in Hb.
Qed.

Lemma rr_stand4 p limit v6 rr rr' b :
  rr_rewritten p limit v6 rr (Some rr') → b ∈ rr_v4 rr' → stands p exchanged4 (rr_v4 rr) b.
Proof.
  destruct rr; cbn [rr_rewritten]; try done.
  - intros (h' & a' & [= ->] & H). by eapply addr_stands.
  - destruct v6; [|done]. intros (h' & a' & [= ->] & H) Hb. by apply not_elem_of_nil in Hb.
  - intros (l' & [= ->] & H). eapply rewritten_stand; [apply kv_stand4|exact H].
  - intros (l' & [= ->] & H). eapply rewritten_stand; [apply kv_stand4|exact H].
  - intros [= ->] Hb. by apply not_elem_of_nil in Hb.
Qed.

Lemma rr_stand6 p limit v6 rr rr' b :
  rr_rewritten p limit v6 rr (Some rr') → b ∈ rr_v6 rr' → stands p exchanged6 (rr_v6 rr) b.
Proof.
  destruct rr; cbn [rr_rewritten]; try done.
  - intros (h' & a' & [= ->] & H) Hb. by apply not_elem_of_nil in Hb.
  - destruct v6; [|done]. intros (h' & a' & [= ->] & H). by eapply addr_stands.
  - intros (l' & [= ->] & H). eapply rewritten_stand; [apply kv_stand6|exact H].
  - intros (l' & [= ->] & H). eapply rewritten_stand; [apply kv_stand6|exact H].
  - intros [= ->] Hb. by apply not_elem_of_nil in Hb.
Qed.

Lemma rewritten_app {X} (R : X → option X → Prop) l1 l2 l1' l2' :
  rewritten R l1 l1' → rewritten R l2 l2' → rewritten R (l1 ++ l2) (l1' ++ l2').
Proof.
  intros (o1 & H1 & ->) (o2 & H2 & ->). exists (o1 ++ o2).
  split; [by apply Forall2_app|]. by rewrite omap_app.
Qed.

(** The addresses the client finds. *)
Lemma rewritten_shows4 p limit v6 m m' :
  Forall valid_ip (addrs4 m) → rewritten (rr_rewritten p limit v6) (records m) (records m') →
  ∀ a', a' ∈ addrs4 m' → is_v4 a' → To16 a' ≠ To16 IPv4zero → ∃ a, a ∈ addrs4 m ∧ fake_for p a a'.
Proof.
  intros Hv Hr a' Ha H4 Hz.
  destruct (rewritten_stand p exchanged4 _ _ _ _ a' (rr_stand4 p limit v6) Hr Ha) as [|[Hin He]]; [done|].
  apply (proj1 (Forall_forall _ _) Hv) in Hin. pose proof (proj2 (exchanged4_spec a' Hin) (conj H4 Hz)). congruence.
Qed.

Lemma rewritten_shows6 p limit v6 m m' :
  Forall valid_ip (addrs6 m) → rewritten (rr_rewritten p limit v6) (records m) (records m') →
  ∀ a', a' ∈ addrs6 m' → ¬ is_v4 a' → To16 a' ≠ IPv6zero → ∃ a, a ∈ addrs6 m ∧ fake_for p a a'.
Proof.
  intros Hv Hr a' Ha H4 Hz.
  destruct (rewritten_stand p exchanged6 _ _ _ _ a' (rr_stand6 p limit v6) Hr Ha) as [|[Hin He]]; [done|].
  apply (proj1 (Forall_forall _ _) Hv) in Hin. pose proof (proj2 (exchanged6_spec a' Hin) (conj H4 Hz)). congruence.
Qed.

(** ** Lemmas: collecting *)

Lemma addV6_off L l : foldl (addV6 false) l L = l.
Proof. by induction L. Qed.

Lemma extract_split v6 l : ∀ st,
  extractSVCBHints v6 st l =
  (foldl addV4 st.1 (mjoin (kv_v4 <$> l)), foldl (addV6 v6) st.2 (mjoin (kv_v6 <$> l))).
Proof.
  unfold extractSVCBHints. induction l as [|kv l IH]; intros [l4 l6]; [done|].
  change (mjoin (?f <$> kv :: l)) with (f kv ++ mjoin (f <$> l)). rewrite !foldl_app. cbn [foldl].
  rewrite IH. destruct kv as [h|h|k d]; cbn [kv_v4 kv_v6 foldl fst snd]; [done| |done].
  destruct v6; cbn [negb]; [done|].
  by rewrite !addV6_off.
Qed.

Lemma collect_split v6 l : ∀ st,
  foldl (collectIPs v6) st l =
  (foldl addV4 st.1 (mjoin (rr_v4 <$> l)), foldl (addV6 v6) st.2 (mjoin (rr_v6 <$> l))).
Proof.
  induction l as [|rr l IH]; intros [l4 l6]; [done|].
  change (mjoin (?f <$> rr :: l)) with (f rr ++ mjoin (f <$> l)). rewrite !foldl_app. cbn [foldl].
  rewrite IH. by destruct rr; cbn [collectIPs rr_v4 rr_v6 foldl]; rewrite ?extract_split.
Qed.

Lemma collect_eq v6 m : collect v6 m = (foldl addV4 [] (addrs4 m), foldl (addV6 v6) [] (addrs6 m)).
Proof. unfold collect. rewrite <- !foldl_app. apply collect_split. Qed.

Lemma IP_Equal_same ip x : length ip = length x → IP_Equal ip x = bool_decide (ip = x).
Proof. intros H. unfold IP_Equal. by rewrite H, Nat.eqb_refl. Qed.

Lemma existsb_equal n l (x : IP) :
  length x = n → Forall (λ y, length y = n) l → existsb (λ y, IP_Equal y x) l = true ↔ x ∈ l.
Proof.
  intros Hx Hl. rewrite existsb_exists. split.
  - intros (y & Hin & Heq). apply list_elem_of_In in Hin as Hin'.
    rewrite IP_Equal_same in Heq by (rewrite Hx; exact (proj1 (Forall_forall _ _) Hl y Hin')).
    by apply bool_decide_eq_true in Heq as ->.
  - intros Hin. exists x. split; [by apply list_elem_of_In|]. rewrite IP_Equal_same by done.
    by apply bool_decide_eq_true.
Qed.

Lemma addV4_fold L : ∀ l,
  Forall (λ y, length y = 4%nat) l →
  Forall (λ y, length y = 4%nat) (foldl addV4 l L) ∧
  ∀ x, x ∈ foldl addV4 l L ↔ x ∈ l ∨ ∃ a, a ∈ L ∧ exchanged4 a = true ∧ x = To4 a.
Proof.
  induction L as [|a L IH]; intros l Hl; cbn [foldl]; [set_solver|].
  assert (Forall (λ y, length y = 4%nat) (addV4 l a) ∧
          ∀ x, x ∈ addV4 l a ↔ x ∈ l ∨ (exchanged4 a = true ∧ x = To4 a)) as [H1 H2].
  { unfold addV4, exchanged4. destruct (is_nil (To4 a)) eqn:En; cbn [negb andb]; [naive_solver|].
    destruct (IP_Equal (To4 a) IPv4zero); cbn [negb]; [naive_solver|].
    apply is_nil_false in En. pose proof (To4_length a En) as H4.
    destruct (existsb _ l) eqn:Ex.
    - apply (existsb_equal 4) in Ex; [|done|done]. set_solver.
    - split; [apply Forall_app; auto|]. set_solver. }
  destruct (IH _ H1) as [H3 H4]. split; [done|]. intros x. rewrite H4, H2. set_solver.
Qed.

Lemma addV6_fold L : ∀ l,
  Forall valid_ip L → Forall (λ y, length y = 16%nat) l →
  Forall (λ y, length y = 16%nat) (foldl (addV6 true) l L) ∧
  ∀ x, x ∈ foldl (addV6 true) l L ↔ x ∈ l ∨ (x ∈ L ∧ exchanged6 x = true).
Proof.
  induction L as [|a L IH]; intros l HL Hl; cbn [foldl]; [set_solver|].
  apply Forall_cons in HL as [Ha HL].
  assert (Forall (λ y, length y = 16%nat) (addV6 true l a) ∧
          ∀ x, x ∈ addV6 true l a ↔ x ∈ l ∨ (x = a ∧ exchanged6 x = true)) as [H1 H2].
  { unfold addV6. cbn [negb].
    assert (∀ b : bool, exchanged6 a = b → b = false →
      Forall (λ y, length y = 16%nat) l ∧ ∀ x, x ∈ l ↔ x ∈ l ∨ (x = a ∧ exchanged6 x = true)) as Hno.
    { intros b Hb ->. split; [done|]. intros x. split; [by left|]. intros [?|[-> ?]]; congruence. }
    destruct (is_nil (To4 a)) eqn:En; cbn [negb]; [|eapply Hno; [unfold exchanged6; by rewrite En|done]].
    destruct (IP_Equal a IPv6zero) eqn:Ez; [eapply Hno; [unfold exchanged6; by rewrite En, Ez|done]|].
    assert (exchanged6 a = true) as Hr by (unfold exchanged6; by rewrite En, Ez).
    apply is_nil_true in En. destruct (To16_To4_nil a Ha En) as [H16 _].
    destruct (existsb _ l) eqn:Ex.
    - apply (existsb_equal 16) in Ex; [|done|done]. split; [done|].
      intros x. split; [by left|]. by intros [?|[-> _]].
    - split; [apply Forall_app; auto|]. intros x. rewrite elem_of_app, list_elem_of_singleton.
      split; [intros [?| ->]; auto|intros [?|[-> _]]; auto]. }
  destruct (IH _ HL H1) as [H3 H4]. split; [done|]. intros x. rewrite H4, H2. set_solver.
Qed.

(** ** Lemmas: one family *)

Lemma allocate_spec p mt now nano reals isV6 :
  pool_wf p → Forall valid_ip reals →
  match allocate p mt now nano reals isV6 with
  | (Some (result, newM), p', _) => ∃ l, l ≡ₚ reals ∧ loop_inv p now l p' result newM
  | (None, p', _) => unchanged_but_expired now p p'
  end.
Proof.
  intros Hwf Hv. unfold allocate. destruct reals as [|r0 rs].
  { exists []. split; [done|]. by apply loop_inv_start. }
  pose proof (GetFakeIPsForReals_spec p mt now nano (r0 :: rs) isV6 Hwf Hv ltac:(done)) as H.
  destruct GetFakeIPsForReals as [[[[result newM]|] p'] mt']; [|by destruct H].
  exists (sort_reals (r0 :: rs)). split; [apply sort_reals_perm|done].
Qed.

Lemma allocate_other p mt now nano reals isV6 r :
  pool_wf p → Forall valid_ip reals → (∀ real, real ∈ reals → ToIPKey real ≠ r) →
  let '(res, p', _) := allocate p mt now nano reals isV6 in
  rtf p' r = rtf p r ∧
  (is_Some res → ∀ f v, rtf p r = Some f → globalVersions p !! f = Some v → globalVersions p' !! f = Some v).
Proof.
  intros Hwf Hv Hne. unfold allocate. destruct reals as [|r0 rs]; [done|]. by apply GetFakeIPsForReals_other.
Qed.

(** The text of an address determines the address. *)
Lemma String_To16 a b : valid_ip a → valid_ip b → IP_String a = IP_String b → To16 a = To16 b.
Proof. intros Ha Hb E. by rewrite <- (ParseIP_String a), E, ParseIP_String. Qed.

Lemma To4_valid a : To4 a ≠ [] → valid_ip (To4 a).
Proof. intros H. left. by apply To4_length. Qed.

Lemma To4_idem a : To4 (To4 a) = To4 a.
Proof.
  destruct (decide (To4 a = [])) as [E|E]; [by rewrite E|]. by apply To4_v4, To4_length.
Qed.

Lemma To16_To4 a : valid_ip a → To4 a ≠ [] → To16 (To4 a) = To16 a.
Proof.
  intros Hv H. rewrite (To16_of_To4 (To4 a)) by (by rewrite To4_idem). by rewrite To4_idem, To16_of_To4.
Qed.

Lemma ToIPKey_To4 a : valid_ip a → To4 a ≠ [] → ToIPKey (To4 a) = ToIPKey a.
Proof. intros Hv H. rewrite <- (ToIPKey_To16 a), <- (ToIPKey_To16 (To4 a)), To16_To4; auto using To4_valid. Qed.

Lemma IP_String_To4 a : valid_ip a → To4 a ≠ [] → IP_String (To4 a) = IP_String a.
Proof. intros Hv H. rewrite <- (IP_String_To16 a), <- (IP_String_To16 (To4 a)), To16_To4; auto using To4_valid. Qed.

Lemma exchanged4_To4 a b : To4 a = To4 b → exchanged4 a = exchanged4 b.
Proof. intros H. unfold exchanged4. by rewrite H. Qed.

Lemma exchanged4_nonnil a : exchanged4 a = true → To4 a ≠ [].
Proof. unfold exchanged4. intros [H _]%andb_prop. apply is_nil_false. by destruct (is_nil (To4 a)). Qed.

(** The key of an address tells its family. *)
Lemma key_family a : isIPv6 (ToIPKey a) = is_nil (To4 a).
Proof. unfold ToIPKey. by destruct (is_nil (To4 a)). Qed.

(** The IPv4 table of an answer. *)
Lemma lookup_v4 p now L l result newM q a :
  loop_inv p now l q result newM → l ≡ₚ foldl addV4 [] L → Forall valid_ip L → a ∈ L →
  if exchanged4 a then ∃ f, result !! IP_String a = Some f ∧ rtf q (ToIPKey a) = Some (ToIPKey f)
  else result !! IP_String a = None.
Proof.
  intros Hinv Hl HL Ha. assert (valid_ip a) as Hva by exact (proj1 (Forall_forall _ _) HL a Ha).
  destruct (addV4_fold L []) as [_ Hmem]; [done|]. destruct (exchanged4 a) eqn:Hr.
  - pose proof (exchanged4_nonnil a Hr) as Hn. destruct (li_done _ _ _ _ _ _ Hinv (To4 a)) as (f & H1 & H2 & _).
    { rewrite Hl, Hmem. right. eauto. }
    exists f. by rewrite <- IP_String_To4, <- ToIPKey_To4.
  - destruct (result !! IP_String a) as [f|] eqn:E; [|done]. exfalso.
    destruct (li_result _ _ _ _ _ _ Hinv _ _ E) as (real & Hin & Hs). rewrite Hl, Hmem in Hin.
    destruct Hin as [Hin|(b & Hb & Hrb & ->)]; [set_solver|].
    pose proof (exchanged4_nonnil b Hrb) as Hn. apply String_To16 in Hs; [|done|by apply To4_valid].
    assert (valid_ip b) as Hvb by exact (proj1 (Forall_forall _ _) HL b Hb).
    rewrite To16_To4 in Hs by done.
    assert (To4 a = To4 b) as H4 by (rewrite <- To4_To16, Hs, To4_To16 by done; done).
    rewrite (exchanged4_To4 a b H4) in Hr. congruence.
Qed.

(** The IPv6 table. *)
Lemma lookup_v6 p now L l result newM q a :
  loop_inv p now l q result newM → l ≡ₚ foldl (addV6 true) [] L → Forall valid_ip L → a ∈ L →
  if exchanged6 a then ∃ f, result !! IP_String a = Some f ∧ rtf q (ToIPKey a) = Some (ToIPKey f)
  else result !! IP_String a = None.
Proof.
  intros Hinv Hl HL Ha. assert (valid_ip a) as Hva by exact (proj1 (Forall_forall _ _) HL a Ha).
  destruct (addV6_fold L []) as [Hlen Hmem]; [done|done|]. destruct (exchanged6 a) eqn:Hr.
  - destruct (li_done _ _ _ _ _ _ Hinv a) as (f & H1 & H2 & _); [|eauto]. rewrite Hl, Hmem. right. eauto.
  - destruct (result !! IP_String a) as [f|] eqn:E; [|done]. exfalso.
    destruct (li_result _ _ _ _ _ _ Hinv _ _ E) as (b & Hin & Hs). rewrite Hl, Hmem in Hin.
    destruct Hin as [Hin|[Hb Hrb]]; [set_solver|].
    assert (valid_ip b) as Hvb by exact (proj1 (Forall_forall _ _) HL b Hb).
    apply String_To16 in Hs; [|done|done]. unfold exchanged6 in Hr, Hrb. apply andb_prop in Hrb as [Hb4 Hbz].
    assert (To4 a = To4 b) as H4 by (rewrite <- To4_To16, Hs, To4_To16 by done; done).
    rewrite H4, Hb4 in Hr. apply is_nil_true in Hb4. rewrite Hb4 in H4.
    destruct (To16_To4_nil a Hva H4) as [_ Ea], (To16_To4_nil b Hvb Hb4) as [_ Eb].
    rewrite Ea, Eb in Hs. subst b. by rewrite Hbz in Hr.
Qed.

(** ** Lemmas: rewriting *)

Lemma rewritten_omap {X} (R : X → option X → Prop) (g : X → option X) l :
  (∀ x, x ∈ l → R x (g x)) → rewritten R l (omap g l).
Proof.
  intros H. exists (g <$> l). split.
  - apply Forall2_fmap_r, Forall_Forall2_diag, Forall_forall. auto.
  - clear H. induction l as [|x l IH]; [done|]. cbn. rewrite IH. by destruct (g x).
Qed.

(** A table gives every routable address of the list its Fake-IP and knows no
    other. *)
Definition table_for (p : IPPool) (routable : IP → bool) (m : gmap string IP) (L : list IP) : Prop :=
  ∀ a, a ∈ L → if routable a then ∃ f, m !! IP_String a = Some f ∧ fake_for p a f else m !! IP_String a = None.

Lemma table_for_sub p routable m L L' : L' ⊆ L → table_for p routable m L → table_for p routable m L'.
Proof. intros Hs H a Ha. apply H, Hs, Ha. Qed.

Lemma patch_hints_rewritten p routable m hs :
  table_for p routable m hs → hints_rewritten p routable hs (patch_hints m hs).
Proof.
  unfold hints_rewritten, patch_hints. induction hs as [|a hs IH]; intros H; [constructor|].
  assert (table_for p routable m hs) as Hhs by (eapply table_for_sub; [|exact H]; set_solver).
  pose proof (H a ltac:(left)) as Ha. rewrite filter_cons. cbn [omap list_omap].
  destruct (routable a) eqn:E.
  - destruct Ha as (f & -> & Hf). rewrite decide_True by done. constructor; auto.
  - rewrite Ha, decide_False by congruence. auto.
Qed.

Section Filter.
Context (p : IPPool) (limit : Z) (v6 : bool) (m4 m6 : gmap string IP).

Lemma elem_mjoin {X Y} (f : X → list Y) (l : list X) x : x ∈ l → f x ⊆ mjoin (f <$> l).
Proof. intros Hx y Hy. apply list_elem_of_join. exists (f x). split; [done|]. by apply list_elem_of_fmap_2. Qed.

Lemma patch_rewritten l :
  table_for p exchanged4 m4 (mjoin (kv_v4 <$> l)) → (v6 = true → table_for p exchanged6 m6 (mjoin (kv_v6 <$> l))) →
  rewritten (kv_rewritten p v6) l (patchSVCBValues l m4 m6 v6).
Proof.
  intros H4 H6. apply rewritten_omap. intros kv Hkv.
  pose proof (elem_mjoin kv_v4 l kv Hkv) as S4. pose proof (elem_mjoin kv_v6 l kv Hkv) as S6.
  destruct kv as [h|h|k d]; cbn [Key kv_rewritten].
  - eexists. split; [done|]. by apply patch_hints_rewritten, (table_for_sub _ _ _ _ _ S4).
  - change (SVCB_IPV6HINT =? SVCB_IPV4HINT) with false. rewrite Z.eqb_refl. destruct v6; [|done].
    eexists. split; [done|]. apply patch_hints_rewritten, (table_for_sub _ _ _ _ _ S6). auto.
  - destruct (Z.eqb_spec k SVCB_IPV4HINT) as [->|]; [done|].
    destruct (Z.eqb_spec k SVCB_IPV6HINT); cbn [andb]; [by destruct v6|done].
Qed.

Lemma addr_rewritten_lookup (routable : IP → bool) (m : gmap string IP) h a :
  (if routable a then ∃ f, m !! IP_String a = Some f ∧ fake_for p a f else m !! IP_String a = None) →
  ∃ h' a', addr_rewritten p limit (routable a) h a h' a' ∧
    match m !! IP_String a with
    | Some f => h' = cap_ttl limit h ∧ a' = f
    | None => h' = h ∧ a' = a
    end.
Proof.
  unfold addr_rewritten. destruct (routable a).
  - intros (f & -> & Hf). eauto 10.
  - intros ->. eauto 10.
Qed.

Lemma filterRRs_rewritten rrs :
  table_for p exchanged4 m4 (mjoin (rr_v4 <$> rrs)) → (v6 = true → table_for p exchanged6 m6 (mjoin (rr_v6 <$> rrs))) →
  rewritten (rr_rewritten p limit v6) rrs (filterRRs m4 m6 limit v6 rrs).
Proof.
  intros H4 H6. apply rewritten_omap. intros rr Hrr.
  pose proof (elem_mjoin rr_v4 rrs rr Hrr) as S4. pose proof (elem_mjoin rr_v6 rrs rr Hrr) as S6.
  assert (table_for p exchanged4 m4 (rr_v4 rr)) as T4 by (by apply (table_for_sub _ _ _ _ _ S4)).
  assert (v6 = true → table_for p exchanged6 m6 (rr_v6 rr)) as T6
    by (intros E; apply (table_for_sub _ _ _ _ _ S6); auto).
  destruct rr as [h a|h a|h t l|h t l| | | |]; cbn [filter_rr rr_rewritten]; try done.
  - destruct (addr_rewritten_lookup exchanged4 m4 h a) as (h' & a' & Hr & Hm); [apply T4; left|].
    exists h', a'. split; [|done]. case_match; by destruct Hm as [-> ->].
  - destruct v6; [|done]. cbn [negb].
    destruct (addr_rewritten_lookup exchanged6 m6 h a) as (h' & a' & Hr & Hm); [apply T6; [done|left]|].
    exists h', a'. split; [|done]. case_match; by destruct Hm as [-> ->].
  - eexists. split; [done|]. by apply patch_rewritten.
  - eexists. split; [done|]. by apply patch_rewritten.
Qed.
End Filter.

(** ** Lemmas: the handler *)

Section Process.
Context (px : DNSProxy) (mt : Metrics) (ck : Clock) (r resp : Msg).
Context (Hmsg : msg_valid resp).

Let reals4 := foldl addV4 [] (addrs4 resp).
Let reals6 := foldl (addV6 (enableIPv6 px)) [] (addrs6 resp).

Lemma reals4_valid : Forall valid_ip reals4.
Proof.
  destruct (addV4_fold (addrs4 resp) []) as [H _]; [done|].
  eapply Forall_impl; [exact H|]. by left.
Qed.

Lemma reals4_addr x : x ∈ reals4 → ∃ a, a ∈ addrs4 resp ∧ exchanged4 a = true ∧ x = To4 a ∧ ToIPKey x = ToIPKey a.
Proof.
  intros Hx. destruct (addV4_fold (addrs4 resp) []) as [_ H]; [done|].
  apply H in Hx as [Hx|(a & Ha & Hr & ->)]; [set_solver|]. exists a. split_and!; [done..|].
  apply ToIPKey_To4; [exact (proj1 (Forall_forall _ _) (proj1 Hmsg) a Ha)|by apply exchanged4_nonnil].
Qed.

Lemma reals6_spec :
  Forall valid_ip reals6 ∧ ∀ x, x ∈ reals6 → enableIPv6 px = true ∧ x ∈ addrs6 resp ∧ exchanged6 x = true.
Proof.
  unfold reals6. destruct (enableIPv6 px).
  - destruct (addV6_fold (addrs6 resp) []) as [H1 H2]; [apply Hmsg|done|]. split.
    + eapply Forall_impl; [exact H1|]. by right.
    + intros x Hx. apply H2 in Hx as [Hx|Hx]; [set_solver|]. naive_solver.
  - rewrite addV6_off. split; [done|]. set_solver.
Qed.

(** An IPv4 key is not among the IPv6 ones. *)
Lemma reals6_key k x : isIPv6 k = false → x ∈ reals6 → ToIPKey x ≠ k.
Proof.
  intros Hk Hx. destruct (proj2 reals6_spec x Hx) as (_ & _ & Hr). intros <-. rewrite key_family in Hk.
  unfold exchanged6 in Hr. by rewrite Hk in Hr.
Qed.

Lemma addrs4_key a : a ∈ addrs4 resp → exchanged4 a = true → isIPv6 (ToIPKey a) = false.
Proof. intros _ H%exchanged4_nonnil. rewrite key_family. by apply is_nil_false. Qed.

(** The two calls of a request that succeeds, and what it returns. *)
Record exchanged (p4 p6 : IPPool) (m4 m6 : gmap string IP) (n4 n6 : gmap string MappingInfo) : Prop := {
  ex_l4 : ∃ l, l ≡ₚ reals4 ∧ loop_inv (px_pool px) (now4 ck) l p4 m4 n4;
  ex_l6 : ∃ l, l ≡ₚ reals6 ∧ loop_inv p4 (now6 ck) l p6 m6 n6;
  ex_keep : ∀ k, isIPv6 k = false → rtf p6 k = rtf p4 k ∧
    ∀ f v, rtf p4 k = Some f → globalVersions p4 !! f = Some v → globalVersions p6 !! f = Some v;
}.

Lemma process_success resp' p' mt' pub :
  pool_wf (px_pool px) → process px mt ck r resp = (MsgReply resp', p', mt', pub) →
  ∃ p4 m4 m6 n4 n6, exchanged p4 p' m4 m6 n4 n6 ∧ pub = Some (publish px m4 m6 n4 n6) ∧
    let section := filterRRs m4 m6 (maxTTL px) (enableIPv6 px) in
    resp' = mkMsg (Question resp) (section (Answer resp)) (section (Ns resp)) (section (Extra resp))
              (Truncated resp) false.
Proof.
  intros Hwf. unfold process. rewrite collect_eq. fold reals4 reals6.
  pose proof (allocate_spec (px_pool px) mt (now4 ck) (nano4 ck) reals4 false Hwf reals4_valid) as H4.
  destruct (allocate (px_pool px) mt _ _ reals4 false) as [[[[m4 n4]|] p4] mt4]; [|done].
  destruct H4 as (l4 & Hl4 & Hi4). pose proof (li_wf _ _ _ _ _ _ Hi4) as Hwf4.
  pose proof (allocate_spec p4 mt4 (now6 ck) (nano6 ck) reals6 true Hwf4 (proj1 reals6_spec)) as H6.
  assert (∀ k, isIPv6 k = false → let '(res, q, _) := allocate p4 mt4 (now6 ck) (nano6 ck) reals6 true in
    rtf q k = rtf p4 k ∧ (is_Some res → ∀ f v, rtf p4 k = Some f → globalVersions p4 !! f = Some v →
                           globalVersions q !! f = Some v)) as Hk.
  { intros k Hk. apply allocate_other; [done|apply reals6_spec|]. intros x. by apply reals6_key. }
  destruct (allocate p4 mt4 _ _ reals6 true) as [[[[m6 n6]|] p6] mt6]; [|done].
  destruct H6 as (l6 & Hl6 & Hi6). intros [= <- <- <- <-].
  exists p4, m4, m6, n4, n6. split_and!; [|done|done].
  split; [eauto|eauto|]. intros k Hkf. destruct (Hk k Hkf) as [E1 E2]. split; [done|]. apply E2. eauto.
Qed.

(** The tables of a successful request, against the final pool. *)
Lemma exchanged_tables p4 p6 m4 m6 n4 n6 :
  exchanged p4 p6 m4 m6 n4 n6 →
  table_for p6 exchanged4 m4 (addrs4 resp) ∧ (enableIPv6 px = true → table_for p6 exchanged6 m6 (addrs6 resp)).
Proof.
  intros [(l4 & Hl4 & Hi4) (l6 & Hl6 & Hi6) Hkeep]. split.
  - intros a Ha. pose proof (lookup_v4 _ _ _ _ _ _ _ a Hi4 Hl4 (proj1 Hmsg) Ha) as H.
    destruct (exchanged4 a) eqn:Hr; [|done]. destruct H as (f & Hf & Hrt). exists f. split; [done|].
    unfold fake_for. by rewrite (proj1 (Hkeep _ (addrs4_key a Ha Hr))).
  - intros Hv a Ha. unfold reals6 in Hl6. rewrite Hv in Hl6.
    exact (lookup_v6 _ _ _ _ _ _ _ a Hi6 Hl6 (proj2 Hmsg) Ha).
Qed.
End Process.

(** ** Lemmas: publishing *)

Section Publish.
Context (p q : IPPool) (now : Z) (l : list IP) (m : gmap string IP) (n : gmap string MappingInfo).
Context (Hinv : loop_inv p now l q m n) (Hl : Forall valid_ip l).
Context (conv : IP → IP) (Hconv : ∀ x, x ∈ l → ToIPKey (conv (To16 x)) = ToIPKey x).

(** Every key of the tables is the text of an address asked for. *)
Lemma table_text x : x ∈ l → ParseIP (IP_String x) = To16 x ∧ is_nil (To16 x) = false.
Proof.
  intros Hx. assert (valid_ip x) as Hv by exact (proj1 (Forall_forall _ _) Hl x Hx).
  split; [by apply ParseIP_String|]. pose proof (To16_length x Hv). by destruct (To16 x).
Qed.

Lemma nft_writes_sound f real ttl :
  (f, real, ttl) ∈ nft_writes conv m →
  ∃ x, x ∈ l ∧ ToIPKey real = ToIPKey x ∧ rtf q (ToIPKey x) = Some (ToIPKey f) ∧ ttl = MappingTTL.
Proof.
  intros ([s f'] & Hin%elem_of_map_to_list & E)%list_elem_of_omap.
  destruct (li_result _ _ _ _ _ _ Hinv s f' Hin) as (x & Hx & ->).
  destruct (table_text x Hx) as [Ht Hn]. cbn beta iota zeta in E. rewrite Ht, Hn in E. simplify_eq.
  destruct (li_done _ _ _ _ _ _ Hinv x Hx) as (f' & Hf & Hr & _). exists x. split_and!; [done|auto|congruence|done].
Qed.

Lemma nft_writes_complete x :
  x ∈ l → ∃ f, (f, conv (To16 x), MappingTTL) ∈ nft_writes conv m ∧ rtf q (ToIPKey x) = Some (ToIPKey f).
Proof.
  intros Hx. destruct (li_done _ _ _ _ _ _ Hinv x Hx) as (f & Hf & Hr & _). exists f. split; [|done].
  apply list_elem_of_omap. exists (IP_String x, f). split; [by apply elem_of_map_to_list|].
  cbn beta iota zeta. by destruct (table_text x Hx) as [-> ->].
Qed.

Lemma sync_mappings_sound mm :
  mm ∈ sync_mappings conv n →
  ∃ x, x ∈ l ∧ ToIPKey (RealIP mm) = ToIPKey x ∧ rtf q (ToIPKey x) = Some (ToIPKey (FakeIP mm)) ∧
    globalVersions q !! ToIPKey (FakeIP mm) = Some (Version mm).
Proof.
  intros ([s info] & Hin%elem_of_map_to_list & E)%list_elem_of_omap.
  destruct (li_new _ _ _ _ _ _ Hinv s info Hin) as (x & Hx & -> & Hr & _ & Hv).
  destruct (table_text x Hx) as [Ht Hn]. cbn beta iota zeta in E. rewrite Ht, Hn in E. simplify_eq. exists x. cbn. auto.
Qed.

Lemma sync_mappings_complete k f :
  recorded n k f → ∃ mm, mm ∈ sync_mappings conv n ∧ ToIPKey (RealIP mm) = k ∧ ToIPKey (FakeIP mm) = f.
Proof.
  intros (s & info & Hs & Hk & Hf). destruct (li_new _ _ _ _ _ _ Hinv s info Hs) as (x & Hx & -> & _).
  destruct (table_text x Hx) as [Ht Hn].
  exists (mkMapping (mi_IP info) (conv (To16 x)) (mi_Version info)). split_and!; [|cbn|done].
  - apply list_elem_of_omap. exists (IP_String x, info). split; [by apply elem_of_map_to_list|].
    cbn beta iota zeta. by rewrite Ht, Hn.
  - rewrite Ht in Hk. rewrite Hconv by done. rewrite <- Hk. symmetry. apply ToIPKey_To16.
    exact (proj1 (Forall_forall _ _) Hl x Hx).
Qed.
End Publish.

(** What the two lists of a request guarantee about their addresses. *)
Lemma published_families px resp l4 l6 :
  msg_valid resp → l4 ≡ₚ foldl addV4 [] (addrs4 resp) → l6 ≡ₚ foldl (addV6 (enableIPv6 px)) [] (addrs6 resp) →
  Forall valid_ip l4 ∧ (∀ x, x ∈ l4 → ToIPKey (To4 (To16 x)) = ToIPKey x) ∧
  (∀ x, x ∈ l4 → isIPv6 (ToIPKey x) = false) ∧
  Forall valid_ip l6 ∧ (∀ x, x ∈ l6 → ToIPKey (To16 (To16 x)) = ToIPKey x).
Proof.
  intros Hmsg Hl4 Hl6. pose proof (reals4_valid resp) as Hv4. rewrite <- Hl4 in Hv4.
  destruct (reals6_spec px resp Hmsg) as [Hv6 _]. rewrite <- Hl6 in Hv6.
  assert (∀ x, x ∈ l4 → length x = 4%nat) as Hlen.
  { intros x. rewrite Hl4. destruct (addV4_fold (addrs4 resp) []) as [H _]; [done|].
    exact (proj1 (Forall_forall _ _) H x). }
  split_and!; [done| | |done|].
  - intros x Hx. rewrite To4_To16 by exact (proj1 (Forall_forall _ _) Hv4 x Hx). by rewrite To4_v4 by auto.
  - intros x Hx. rewrite key_family, To4_v4 by auto. specialize (Hlen x Hx). by destruct x.
  - intros x Hx. assert (valid_ip x) as Hv by exact (proj1 (Forall_forall _ _) Hv6 x Hx).
    rewrite To16_idemp by done. by apply ToIPKey_To16.
Qed.

Lemma handle_reply udp tcp px mt ck r resp' p' mt' pub :
  handleDNSRequest udp tcp px mt ck r = (MsgReply resp', p', mt', pub) →
  ∃ resp, resolveUpstream udp tcp (upstreams px) = Some resp ∧
    process px (add_dns_query mt) ck r resp = (MsgReply resp', p', mt', pub).
Proof.
  unfold handleDNSRequest. intros H. match type of H with (if ?b then _ else _) = _ => destruct b end; [done|].
  destruct (resolveUpstream udp tcp (upstreams px)) as [resp|]; [|done]. eauto.
Qed.

(** ** Properties *)

(** C11: apart from 0.0.0.0, :: and IPv4-mapped IPv6 addresses (which
    [mapped_address_passes] shows to pass), the client sees only Fake-IPs: every
    address in an A record or an IPv4 hint of its reply is the Fake-IP the pool
    maps an address of the upstream's answer to, and so is every address in an
    AAAA record or an IPv6 hint.  Record by record, in every section, the reply
    is the upstream's answer: signatures and denials (RRSIG, NSEC, NSEC3) are
    dropped, AAAA records and IPv6 hints are dropped when IPv6 is off, other
    hints that are not exchanged are dropped, the time to live of records with
    exchanged addresses and of SVCB and HTTPS records is capped, other records
    are unchanged, and of the message only the authenticated-data flag changes,
    which is cleared.  The upstream's addresses have 4 or 16 bytes. *)
Theorem answer_hides_addresses udp tcp px mt ck r resp' p' mt' pub :
  pool_wf (px_pool px) →
  (∀ resp, resolveUpstream udp tcp (upstreams px) = Some resp → msg_valid resp) →
  handleDNSRequest udp tcp px mt ck r = (MsgReply resp', p', mt', pub) →
  ∃ resp, resolveUpstream udp tcp (upstreams px) = Some resp ∧ pool_wf p' ∧
    (∀ a', a' ∈ addrs4 resp' → is_v4 a' → To16 a' ≠ To16 IPv4zero → ∃ a, a ∈ addrs4 resp ∧ fake_for p' a a') ∧
    (∀ a', a' ∈ addrs6 resp' → ¬ is_v4 a' → To16 a' ≠ IPv6zero → ∃ a, a ∈ addrs6 resp ∧ fake_for p' a a') ∧
    rewritten (rr_rewritten p' (maxTTL px) (enableIPv6 px)) (Answer resp) (Answer resp') ∧
    rewritten (rr_rewritten p' (maxTTL px) (enableIPv6 px)) (Ns resp) (Ns resp') ∧
    rewritten (rr_rewritten p' (maxTTL px) (enableIPv6 px)) (Extra resp) (Extra resp') ∧
    AuthenticatedData resp' = false ∧ Question resp' = Question resp ∧ Truncated resp' = Truncated resp.
Proof.
  intros Hwf Hup (resp & Hres & Hproc)%handle_reply. pose proof (Hup resp Hres) as Hmsg.
  destruct (process_success px _ ck r resp Hmsg _ _ _ _ Hwf Hproc) as (p4 & m4 & m6 & n4 & n6 & Hex & _ & ->).
  destruct (exchanged_tables px ck resp Hmsg _ _ _ _ _ _ Hex) as [T4 T6].
  assert (∀ rrs, (∀ x, x ∈ rrs → x ∈ records resp) →
    rewritten (rr_rewritten p' (maxTTL px) (enableIPv6 px)) rrs
      (filterRRs m4 m6 (maxTTL px) (enableIPv6 px) rrs)) as Hsec.
  { intros rrs Hs. assert (∀ f : RR → list IP, mjoin (f <$> rrs) ⊆ mjoin (f <$> records resp)) as Hsub.
    { intros f y (l & Hy & (rr & -> & Hin)%list_elem_of_fmap)%list_elem_of_join.
      exact (elem_mjoin f (records resp) rr (Hs rr Hin) y Hy). }
    apply filterRRs_rewritten.
    - exact (table_for_sub _ _ _ _ _ (Hsub rr_v4) T4).
    - intros E. exact (table_for_sub _ _ _ _ _ (Hsub rr_v6) (T6 E)). }
  exists resp. destruct (ex_l6 _ _ _ _ _ _ _ _ _ Hex) as (l6 & _ & Hi6). unfold records in Hsec.
  set (resp2 := mkMsg _ _ _ _ _ _).
  assert (rewritten (rr_rewritten p' (maxTTL px) (enableIPv6 px)) (records resp) (records resp2)) as Hall
    by (repeat apply rewritten_app; apply Hsec; set_solver).
  split_and!; [done|exact (li_wf _ _ _ _ _ _ Hi6)| | |apply Hsec; set_solver..|done|done|done].
  - by apply (rewritten_shows4 p' (maxTTL px) (enableIPv6 px)); [apply Hmsg|].
  - by apply (rewritten_shows6 p' (maxTTL px) (enableIPv6 px)); [apply Hmsg|].
Qed.

(** C12: a request that fails, whether upstream or because the pool ran out of
    addresses of either family, publishes nothing and leaves no mapping that
    was not there before; the mappings of addresses outside the answer are
    untouched. *)
Theorem failed_request_leaves_nothing udp tcp px mt ck r r' p' mt' pub :
  pool_wf (px_pool px) →
  (∀ resp, resolveUpstream udp tcp (upstreams px) = Some resp → msg_valid resp) →
  handleDNSRequest udp tcp px mt ck r = (FailedReply r', p', mt', pub) →
  pub = None ∧ pool_wf p' ∧ (∀ k f, rtf p' k = Some f → rtf (px_pool px) k = Some f) ∧
  ∀ k, (∀ resp a, resolveUpstream udp tcp (upstreams px) = Some resp → a ∈ addrs4 resp ++ addrs6 resp →
          ToIPKey a ≠ k) → rtf p' k = rtf (px_pool px) k.
Proof.
  intros Hwf Hup. unfold handleDNSRequest. case_match; [done|].
  destruct (resolveUpstream udp tcp (upstreams px)) as [resp|]; [|by intros [= _ <- _ <-]].
  pose proof (Hup resp eq_refl) as Hmsg. unfold process. rewrite collect_eq.
  set (reals4 := foldl addV4 [] _). set (reals6 := foldl (addV6 _) [] _).
  pose proof (reals4_valid resp) as Hv4. fold reals4 in Hv4.
  destruct (reals6_spec px resp Hmsg) as [Hv6 Hin6]. fold reals6 in Hv6, Hin6.
  pose proof (reals4_addr resp Hmsg) as Hin4. fold reals4 in Hin4.
  pose proof (allocate_spec (px_pool px) (add_dns_query mt) (now4 ck) (nano4 ck) reals4 false Hwf Hv4) as H4.
  assert (∀ k, (∀ resp0 a, Some resp = Some resp0 → a ∈ addrs4 resp0 ++ addrs6 resp0 → ToIPKey a ≠ k) →
    (∀ x, x ∈ reals4 → ToIPKey x ≠ k) ∧ ∀ x, x ∈ reals6 → ToIPKey x ≠ k) as Hk.
  { intros k Hk. split.
    - intros x (a & Ha & _ & _ & ->)%Hin4. apply (Hk resp); [done|set_solver].
    - intros x (_ & Hx & _)%Hin6. apply (Hk resp); [done|set_solver]. }
  pose proof (λ k, allocate_other (px_pool px) (add_dns_query mt) (now4 ck) (nano4 ck) reals4 false k Hwf Hv4) as Ho4.
  destruct (allocate (px_pool px) _ _ _ reals4 false) as [[[[m4 n4]|] p4] mt4].
  2:{ intros [= _ <- _ <-]. destruct H4 as (H41 & H42 & _). split_and!; [done|done|done|].
      intros k [Hk4 _]%Hk. by apply Ho4. }
  destruct H4 as (l4 & Hl4 & Hi4). pose proof (li_wf _ _ _ _ _ _ Hi4) as Hwf4.
  pose proof (allocate_spec p4 mt4 (now6 ck) (nano6 ck) reals6 true Hwf4 Hv6) as H6.
  pose proof (λ k, allocate_other p4 mt4 (now6 ck) (nano6 ck) reals6 true k Hwf4 Hv6) as Ho6.
  destruct (allocate p4 mt4 _ _ reals6 true) as [[[[m6 n6]|] p6] mt6]; [done|].
  destruct H6 as (Hwf6 & H62 & _). intros [= _ <- _ <-].
  assert (∀ s info, n4 !! s = Some info → ∃ x, x ∈ reals4 ∧ s = IP_String x) as Hn4.
  { intros s info (x & Hx & -> & _)%(li_new _ _ _ _ _ _ Hi4). exists x. by rewrite <- Hl4. }
  destruct (rollback_spec p6 n4 Hwf6) as (Hq1 & Hq2 & Hq3).
  { intros s info (x & Hx & ->)%Hn4. pose proof (proj1 (Forall_forall _ _) Hv4 x Hx) as Hx'.
    rewrite ParseIP_String by done. by apply valid_To16. }
  split_and!; [done|done| |].
  - intros k f Hkf. apply Hq2 in Hkf as Hp6. destruct Hp6 as [Hp6 _]. apply (Hq3 k f Hp6) in Hkf.
    destruct (li_old _ _ _ _ _ _ Hi4 k f (H62 k f Hp6)); done.
  - intros k [Hk4 Hk6]%Hk. destruct (Ho4 k Hk4) as [<- _]. destruct (Ho6 k Hk6) as [<- _].
    destruct (rtf p6 k) as [f|] eqn:E6.
    + apply Hq3; [done|]. intros (s & info & (x & Hx & ->)%Hn4 & Hkey & _).
      rewrite String_key in Hkey by exact (proj1 (Forall_forall _ _) Hv4 x Hx). by apply (Hk4 x).
    + destruct (rtf (rollback p6 n4) k) as [f|] eqn:E; [|done]. apply Hq2 in E as [? _]. congruence.
Qed.

(** C13: what a request publishes agrees with the pool.  The packet filter is
    told only mappings of the pool, with the full lifetime, and all those the
    answer uses; the peers are told only mappings of the pool, with the
    versions stored there, and every mapping the request created. *)
Theorem publication_agrees_with_pool udp tcp px mt ck r resp' p' mt' pub :
  pool_wf (px_pool px) →
  (∀ resp, resolveUpstream udp tcp (upstreams px) = Some resp → msg_valid resp) →
  handleDNSRequest udp tcp px mt ck r = (MsgReply resp', p', mt', Some pub) →
  (∀ f real ttl, (f, real, ttl) ∈ pub_nft pub → fake_for p' real f ∧ ttl = MappingTTL) ∧
  (hasNft px = true → ∃ resp, resolveUpstream udp tcp (upstreams px) = Some resp ∧
     ∀ a, (a ∈ addrs4 resp ∧ exchanged4 a = true) ∨ (enableIPv6 px = true ∧ a ∈ addrs6 resp ∧ exchanged6 a = true) →
       ∃ f real, (f, real, MappingTTL) ∈ pub_nft pub ∧ ToIPKey real = ToIPKey a ∧ fake_for p' a f) ∧
  (∀ m, m ∈ pub_sync pub → fake_for p' (RealIP m) (FakeIP m) ∧
     globalVersions p' !! ToIPKey (FakeIP m) = Some (Version m)) ∧
  (hasSync px = true → ∀ k f, rtf p' k = Some f → rtf (px_pool px) k = Some f ∨
     ∃ m, m ∈ pub_sync pub ∧ ToIPKey (RealIP m) = k ∧ ToIPKey (FakeIP m) = f).
Proof.
  intros Hwf Hup (resp & Hres & Hproc)%handle_reply. pose proof (Hup resp Hres) as Hmsg.
  destruct (process_success px _ ck r resp Hmsg _ _ _ _ Hwf Hproc) as (p4 & m4 & m6 & n4 & n6 & Hex & [= ->] & _).
  destruct Hex as [(l4 & Hl4 & Hi4) (l6 & Hl6 & Hi6) Hkeep].
  destruct (published_families px resp l4 l6 Hmsg Hl4 Hl6) as (Hv4 & Hc4 & Hk4 & Hv6 & Hc6).
  pose proof (nft_writes_sound _ _ _ _ _ _ Hi4 Hv4 To4 Hc4) as N4.
  pose proof (nft_writes_sound _ _ _ _ _ _ Hi6 Hv6 To16 Hc6) as N6.
  pose proof (sync_mappings_sound _ _ _ _ _ _ Hi4 Hv4 To4 Hc4) as S4.
  pose proof (sync_mappings_sound _ _ _ _ _ _ Hi6 Hv6 To16 Hc6) as S6.
  unfold publish, fake_for. cbn [pub_nft pub_sync]. split_and!.
  - intros f real ttl Hin. destruct (hasNft px); [|set_solver].
    apply elem_of_app in Hin as [(x & Hx & Hk & Hr & ->)%N4|(x & Hx & Hk & Hr & ->)%N6]; rewrite Hk; [|done].
    by rewrite (proj1 (Hkeep _ (Hk4 x Hx))).
  - intros ->. exists resp. split; [done|]. intros a [[Ha Hr]|(Hon & Ha & Hr)].
    + pose proof (exchanged4_nonnil a Hr) as Hn.
      assert (valid_ip a) as Hva by exact (proj1 (Forall_forall _ _) (proj1 Hmsg) a Ha).
      assert (To4 a ∈ l4) as Hin.
      { rewrite Hl4. apply (addV4_fold (addrs4 resp) []); [done|]. right. eauto. }
      destruct (nft_writes_complete _ _ _ _ _ _ Hi4 Hv4 To4 (To4 a) Hin) as (f & Hf & Hrt).
      exists f, (To4 (To16 (To4 a))). rewrite elem_of_app, <- (ToIPKey_To4 a) by done.
      rewrite (proj1 (Hkeep _ (Hk4 (To4 a) Hin))). auto.
    + assert (a ∈ l6) as Hin.
      { rewrite Hl6, Hon. apply (addV6_fold (addrs6 resp) []); [apply Hmsg|done|]. auto. }
      destruct (nft_writes_complete _ _ _ _ _ _ Hi6 Hv6 To16 a Hin) as (f & Hf & Hrt).
      exists f, (To16 (To16 a)). rewrite elem_of_app. auto.
  - intros m Hin. destruct (hasSync px); [|set_solver].
    apply elem_of_app in Hin as [(x & Hx & Hk & Hr & Hv)%S4|(x & Hx & Hk & Hr & Hv)%S6]; rewrite Hk; [|done].
    destruct (Hkeep _ (Hk4 x Hx)) as [-> Hver]. eauto.
  - intros -> k f Hkf. destruct (li_old _ _ _ _ _ _ Hi6 k f Hkf) as [H4|H6].
    + destruct (li_old _ _ _ _ _ _ Hi4 k f H4) as [|Hrec]; [by left|]. right.
      destruct (sync_mappings_complete _ _ _ _ _ _ Hi4 Hv4 To4 Hc4 k f Hrec) as (mm & Hmm & ?). exists mm.
      rewrite elem_of_app. auto.
    + right. destruct (sync_mappings_complete _ _ _ _ _ _ Hi6 Hv6 To16 Hc6 k f H6) as (mm & Hmm & ?). exists mm.
      rewrite elem_of_app. auto.
Qed.

(** ** A request *)

Definition demo_query : Msg := mkMsg ["example.com."] [] [] [] false false.
Definition demo_answer : Msg :=
  mkMsg ["example.com."]
    [A (mkHeader "example.com." 300) (ParseIP "8.8.8.8"); RRSIG (mkHeader "example.com." 300)]
    [] [AAAA (mkHeader "example.com." 5) (ParseIP "2001:db8::1")] false true.

Definition demo_udp (u : string) (i : nat) : option Msg := if Nat.eqb i 1 then Some demo_answer else None.
Definition demo_tcp (u : string) (i : nat) : option Msg := None.
Definition demo_clock : Clock := mkClock 3 (λ i, 1000 + Z.of_nat i) 4 (λ i, 2000 + Z.of_nat i).
Definition demo_proxy (p : IPPool) : DNSProxy := NewDNSProxy "9.9.9.9:53" p true true 60 true.
Definition demo_call (p : IPPool) := handleDNSRequest demo_udp demo_tcp (demo_proxy p) metrics_zero demo_clock demo_query.

Lemma demo_valid p resp : resolveUpstream demo_udp demo_tcp (upstreams (demo_proxy p)) = Some resp → msg_valid resp.
Proof.
  intros [= <-]. split; apply Forall_singleton; right; vm_compute; reflexivity.
Qed.

(** The parts of a call without its pool. *)
Definition reply_of (c : Reply * IPPool * Metrics * option Publication) : Reply := c.1.1.1.
Definition pool_of (c : Reply * IPPool * Metrics * option Publication) : IPPool := c.1.1.2.

Lemma call_parts c : c = (reply_of c, pool_of c, c.1.2, c.2).
Proof. by destruct c as [[[? ?] ?] ?]. Qed.

Definition demo_reply : Msg :=
  match reply_of (demo_call answer_pool) with MsgReply m => m | _ => demo_query end.

Lemma answer_hides_addresses_witness :
  ∃ a, Answer demo_reply = [A (mkHeader "example.com." 60) a] ∧
       fake_for (pool_of (demo_call answer_pool)) (ParseIP "8.8.8.8") a.
Proof.
  assert (reply_of (demo_call answer_pool) = MsgReply demo_reply) as Hr by (vm_compute; reflexivity).
  pose proof (call_parts (demo_call answer_pool)) as Hc. rewrite Hr in Hc.
  destruct (answer_hides_addresses demo_udp demo_tcp (demo_proxy answer_pool) metrics_zero demo_clock demo_query
    demo_reply _ _ _ (NewIPPoolWithConfig_wf _ _ _) (demo_valid answer_pool) Hc)
    as (resp & Hres & _ & _ & _ & (os & Hos & Hans) & _).
  injection Hres as <-. rewrite Hans. cbn [Answer demo_answer] in Hos.
  apply Forall2_cons_inv_l in Hos as (o1 & os1 & HA & Hos1 & ->).
  apply Forall2_cons_inv_l in Hos1 as (o2 & os2 & Hdrop & Hos2 & ->). apply Forall2_nil_inv_l in Hos2 as ->.
  hnf in HA. destruct HA as (h & a & -> & Ha). hnf in Hdrop. subst o2. exists a.
  assert (exchanged4 (ParseIP "8.8.8.8") = true) as Hrt by (vm_compute; reflexivity).
  unfold addr_rewritten in Ha. rewrite Hrt in Ha. destruct Ha as [Ha ->]. split; [reflexivity|exact Ha].
Defined.

(** A pool whose IPv6 addresses are all taken: the request fails after its IPv4
    addresses were mapped. *)
Definition full6_pool : IPPool :=
  (AddMapping (AddMapping (NewIPPoolWithConfig "198.18" "fd00:18::" (mkIPPoolConfig 4096 2)) metrics_zero
     (ParseIP "2001:db8::5") (ParseIP "fd00:18::") 5 100).1.2 metrics_zero
     (ParseIP "2001:db8::6") (ParseIP "fd00:18::1") 6 100).1.2.

Lemma full6_pool_wf : pool_wf full6_pool.
Proof.
  apply AddMapping_wf; [|right; reflexivity]. apply AddMapping_wf; [|right; reflexivity].
  apply NewIPPoolWithConfig_wf.
Qed.

Lemma failed_request_leaves_nothing_witness :
  rtf (pool_of (demo_call full6_pool)) (ToIPKey (ParseIP "8.8.8.8")) = None.
Proof.
  assert (reply_of (demo_call full6_pool) = FailedReply demo_query) as Hr by (vm_compute; reflexivity).
  pose proof (call_parts (demo_call full6_pool)) as Hc. rewrite Hr in Hc.
  pose proof (failed_request_leaves_nothing demo_udp demo_tcp (demo_proxy full6_pool) metrics_zero demo_clock
    demo_query _ _ _ _ full6_pool_wf (demo_valid full6_pool) Hc) as (_ & _ & Hnew & _).
  assert (rtf (px_pool (demo_proxy full6_pool)) (ToIPKey (ParseIP "8.8.8.8")) = None) as Hn
    by (vm_compute; reflexivity).
  destruct (rtf (pool_of (demo_call full6_pool)) (ToIPKey (ParseIP "8.8.8.8"))) as [f|] eqn:Hf; [|reflexivity].
  pose proof (eq_trans (eq_sym Hn) (Hnew (ToIPKey (ParseIP "8.8.8.8")) f Hf)) as E. discriminate E.
Defined.

Definition demo_pub : Publication := default (mkPub [] []) (demo_call answer_pool).2.

Lemma publication_agrees_with_pool_witness :
  length (pub_sync demo_pub) = 2%nat ∧
  ∀ m, m ∈ pub_sync demo_pub → fake_for (pool_of (demo_call answer_pool)) (RealIP m) (FakeIP m).
Proof.
  split; [vm_compute; reflexivity|].
  assert (reply_of (demo_call answer_pool) = MsgReply demo_reply) as Hr by (vm_compute; reflexivity).
  assert ((demo_call answer_pool).2 = Some demo_pub) as Hp by (vm_compute; reflexivity).
  pose proof (call_parts (demo_call answer_pool)) as Hc. rewrite Hr, Hp in Hc.
  intros m Hm. exact (proj1 (proj1 (proj2 (proj2 (publication_agrees_with_pool demo_udp demo_tcp
    (demo_proxy answer_pool) metrics_zero demo_clock demo_query _ _ _ _ (NewIPPoolWithConfig_wf _ _ _)
    (demo_valid answer_pool) Hc))) m Hm)).
Defined.

(** IPv4-mapped addresses in AAAA records are neither exchanged nor dropped: the
    client receives them as they are, although they name an IPv4 host. *)
Definition mapped_answer : Msg :=
  mkMsg ["example.com."] [AAAA (mkHeader "example.com." 300) (ParseIP "::ffff:8.8.8.8")] [] [] false false.

Theorem mapped_address_passes :
  reply_of (process (demo_proxy answer_pool) metrics_zero demo_clock demo_query mapped_answer) =
  MsgReply mapped_answer.
Proof. vm_compute. reflexivity. Qed.
