(* ===== verification/Nft.v ===== *)
(** * The packet filter ([internal/netlink/nftables.go])

    Mappings are queued by [AddMapping] and written in batches by one worker.
    The netlink library and the kernel are parameters: [commit] applies one
    transaction to the kernel's two maps, entirely or, on an error, not at all,
    as a netlink batch does; [add_error] is the library refusing to encode a
    list of elements.  The worker is modelled between two of its selects, with
    the choice of a ready case as an argument.  The texts that are piped to the
    nft command are modelled as strings. *)

From Stdlib Require Import Ascii.
From Stdlib Require String.
From stdpp Require Import prelude gmap strings.
From S2P Require Import Prelude GoStrings GoText GoNet Metrics IPPool.

#[local] Arguments String.append : simpl nomatch.

Definition tableName : string := "nextpath".
Definition batchMaxSize : nat := 256.
Definition batchChanSize : Z := 8192.

(** [v] is the value of the environment variable, empty when it is not set. *)
Definition parseBoolEnv (uni : string → string) (v : string) (defaultVal : bool) : bool :=
  let v := ToLower uni (TrimSpace v) in
  if bool_decide (v = EmptyString) then defaultVal
  else bool_decide (v = "true") || bool_decide (v = "1") || bool_decide (v = "y") || bool_decide (v = "yes").

(** A queued mapping; [op_id] stands for the channel its caller waits on. *)
Record mappingOp := mkOp { op_id : nat; op_fake : IP; op_real : IP; op_timeout : Z }.

Record SetElement := mkElement { el_Key : IP; el_Val : IP; el_Timeout : Z }.

(** ** Elements of a batch *)

Definition op_element (enableIPv6 : bool) (op : mappingOp) : option (bool * SetElement) :=
  let isIPv6 := is_nil (To4 (op_fake op)) in
  if isIPv6 && negb enableIPv6 then None
  else
    let keyBytes := if isIPv6 then To16 (op_fake op) else To4 (op_fake op) in
    let valBytes := if isIPv6 then To16 (op_real op) else To4 (op_real op) in
    if is_nil keyBytes || is_nil valBytes then None
    else Some (isIPv6, mkElement keyBytes valBytes (op_timeout op)).

Definition v4ToAdd (enableIPv6 : bool) (batch : list mappingOp) : list SetElement :=
  omap (λ op, match op_element enableIPv6 op with Some (false, el) => Some el | _ => None end) batch.
Definition v6ToAdd (enableIPv6 : bool) (batch : list mappingOp) : list SetElement :=
  omap (λ op, match op_element enableIPv6 op with Some (true, el) => Some el | _ => None end) batch.

Section Client.
Context {Kernel : Type}.
Context (commit : Kernel → list SetElement → list SetElement → Kernel + string).
Context (add_error : list SetElement → option string).

(** The client: [conn] tells whether a connection is established, [batchCh] is
    the content of the channel, [batch] what the worker holds; [results] are
    the answers the callers got, oldest first. *)
Record NFTClient := mkNFT {
  conn : bool;
  kernel : Kernel;
  batchCh : list mappingOp;
  batch : list mappingOp;
  cancelled : bool;
  stopped_worker : bool;
  results : list (nat * option string);
}.

Definition NewNFTClient (k : Kernel) : NFTClient := mkNFT true k [] [] false false [].

Definition with_conn (b : bool) (c : NFTClient) : NFTClient :=
  mkNFT b (kernel c) (batchCh c) (batch c) (cancelled c) (stopped_worker c) (results c).
Definition with_kernel (k : Kernel) (c : NFTClient) : NFTClient :=
  mkNFT (conn c) k (batchCh c) (batch c) (cancelled c) (stopped_worker c) (results c).
Definition with_queue (ch b : list mappingOp) (c : NFTClient) : NFTClient :=
  mkNFT (conn c) (kernel c) ch b (cancelled c) (stopped_worker c) (results c).
Definition with_results (r : list (nat * option string)) (c : NFTClient) : NFTClient :=
  mkNFT (conn c) (kernel c) (batchCh c) (batch c) (cancelled c) (stopped_worker c) r.
Definition stop_worker (c : NFTClient) : NFTClient :=
  mkNFT (conn c) (kernel c) (batchCh c) (batch c) (cancelled c) true (results c).

(** [Close] up to the wait for the worker, and the closing after it. *)
Definition Close_begin (c : NFTClient) : NFTClient :=
  mkNFT (conn c) (kernel c) (batchCh c) (batch c) true (stopped_worker c) (results c).
Definition Close_end (c : NFTClient) : NFTClient := with_conn false c.

(** [dial i] is whether the i-th attempt to open a socket succeeds. *)
Definition reconnectLocked (dial : nat → bool) (c : NFTClient) : NFTClient * option string :=
  if existsb dial (seq 0 5) then (with_conn true c, None)
  else (with_conn false c, Some "failed to reconnect Netlink socket after 5 attempts").

(** [Reconnect] is the same under the lock. *)
Definition Reconnect (dial : nat → bool) (c : NFTClient) : NFTClient * option string := reconnectLocked dial c.

(** ** Writing a batch *)

Definition flushBatchLocked (enableIPv6 : bool) (c : NFTClient) (b : list mappingOp) : NFTClient * option string :=
  if negb (conn c) then (c, Some "netlink connection is not established")
  else
    let v4 := v4ToAdd enableIPv6 b in
    let v6 := v6ToAdd enableIPv6 b in
    let has (l : list SetElement) := match l with [] => false | _ => true end in
    let refuse (l : list SetElement) := if has l then add_error l else None in
    match refuse v4 with
    | Some e => (c, Some ("failed to add " +:+ itoa (Z.of_nat (length v4)) +:+ " v4 elements: " +:+ e))
    | None =>
        match (if enableIPv6 then refuse v6 else None) with
        | Some e => (c, Some ("failed to add " +:+ itoa (Z.of_nat (length v6)) +:+ " v6 elements: " +:+ e))
        | None =>
            if has v4 || has v6 then
              match commit (kernel c) v4 v6 with
              | inl k => (with_kernel k c, None)
              | inr e => (c, Some ("batch add flush failed: " +:+ e))
              end
            else (c, None)
        end
    end.

(** [flush] of the worker: it empties the batch and answers its callers. *)
Definition flush (enableIPv6 : bool) (dial : nat → bool) (c : NFTClient) : NFTClient :=
  match batch c with
  | [] => c
  | b =>
      let '(c, err) := flushBatchLocked enableIPv6 c b in
      let '(c, finalErr) :=
        match err with
        | None => (c, None)
        | Some e =>
            if Contains e "file exists" then (c, None)
            else
              let '(c, retryErr) := reconnectLocked dial c in
              match retryErr with
              | Some _ => (c, Some e)
              | None =>
                  let '(c, retryErr2) := flushBatchLocked enableIPv6 c b in
                  (c, match retryErr2 with
                      | Some e2 => if Contains e2 "file exists" then None else Some e2
                      | None => None
                      end)
              end
        end in
      with_queue (batchCh c) [] (with_results (results c ++ ((λ op, (op_id op, finalErr)) <$> b)) c)
  end.

(** One step of [batchWorker].  [prefer] is the choice of the select when both
    the cancellation and a queued mapping are ready. *)
Definition worker_step (enableIPv6 : bool) (dial : nat → bool) (prefer : bool) (c : NFTClient) : NFTClient :=
  let finish (c : NFTClient) := stop_worker (flush enableIPv6 dial c) in
  if stopped_worker c then c
  else match batch c, batchCh c with
       | [], [] => if cancelled c then finish c else c
       | [], op :: ch => if cancelled c && prefer then finish c else with_queue ch [op] c
       | b, ch =>
           if negb (Nat.ltb (length b) batchMaxSize) then flush enableIPv6 dial c
           else match ch with
                | [] => if cancelled c then finish c else flush enableIPv6 dial c
                | op :: ch' =>
                    if cancelled c && prefer then finish c else with_queue ch' (b ++ [op]) c
                end
       end.

(** [AddMapping] up to the wait for its answer: the error it returns at once,
    or [None] when it waits or has nothing to do. *)
Definition nft_AddMapping (enableIPv6 : bool) (c : NFTClient) (op : mappingOp) : NFTClient * option string :=
  if is_nil (op_fake op) || is_nil (op_real op) then (c, Some "invalid address")
  else if negb enableIPv6 && is_nil (To4 (op_fake op)) then (c, None)
  else if Z.of_nat (length (batchCh c)) <? batchChanSize
       then (with_queue (batchCh c ++ [op]) (batch c) c, None)
       else (c, Some "batch queue is full").
End Client.
Arguments NFTClient : clear implicits.

(** ** Deny sets *)

(** One line of a compiled deny list; [None] when it is skipped. *)
Definition deny_line (line : string) : option string :=
  let line := match cut_char "#" line with Some (before, _) => before | None => line end in
  let line := TrimSpace line in
  if bool_decide (line = EmptyString) then None
  else if contains_char line "/" then
    match ParseCIDR line with Some _ => Some line | None => None end
  else if is_nil (ParseIP line) then None else Some line.

(** [content] is [None] when the file cannot be read. *)
Definition getDenyElements (content : option string) : string :=
  match content with
  | None => EmptyString
  | Some text => join_with ", " (omap deny_line (split_char (char 10) text))
  end.

Definition newline : string := String (char 10) EmptyString.

Definition deny_commands (set elements : string) : string :=
  "flush set inet " +:+ tableName +:+ " " +:+ set +:+ newline +:+
  (if bool_decide (elements = EmptyString) then EmptyString
   else "add element inet " +:+ tableName +:+ " " +:+ set +:+ " { " +:+ elements +:+ " }" +:+ newline).

(** The commands [ReloadDenySets] gives to nft. *)
Definition ReloadDenySets (enableIPv6 : bool) (v4 v6 : option string) : string :=
  deny_commands "deny_v4" (getDenyElements v4) +:+
  (if enableIPv6 then deny_commands "deny_v6" (getDenyElements v6) else EmptyString).

(** ** Recovery *)

Record MappingRecovery := mkRecovery { rec_RealIP : IP; rec_Expires : Z }.

(** What the kernel returns for one map: its elements (the timeout field holds
    the time left), or an error. *)
Definition missing_map (e : string) : bool := Contains e "no such file or directory".

Definition add_recovered (m : gmap string MappingRecovery) (els : list SetElement) : gmap string MappingRecovery :=
  foldl (λ m el, <[IP_String (el_Key el) := mkRecovery (el_Val el) (el_Timeout el)]> m) m els.

Definition ReadExistingMappings (established enableIPv6 : bool) (v4 v6 : list SetElement + string)
    : option (gmap string MappingRecovery) :=
  if negb established then None
  else
    let read (m : gmap string MappingRecovery) (res : list SetElement + string) :=
      match res with
      | inl els => Some (add_recovered m els)
      | inr e => if missing_map e then Some m else None
      end in
    m ← read ∅ v4;
    if enableIPv6 then read m v6 else Some m.

(** The recovery of [main]: every mapping read back enters the pool with
    version 0; [now] is the clock. *)
Definition recover_mappings (now : Z) (p : IPPool) (mt : Metrics) (existing : gmap string MappingRecovery)
    : IPPool * Metrics :=
  foldl (λ st '(fakeStr, record),
    let fakeIP := ParseIP fakeStr in
    if is_nil fakeIP then st
    else let '(_, p, mt) := AddMapping st.1 st.2 (rec_RealIP record) fakeIP 0 (now + rec_Expires record) in (p, mt))
    (p, mt) (map_to_list existing).
