(* ===== verification/NftFacts.v ===== *)
(** * The packet filter: the worker, the deny sets and recovery

    Every accepted mapping is answered once and in order, and what an answer
    says about the kernel; a deny list read back; the mappings the kernel kept
    recovered into a new pool. *)

From Stdlib Require Import Ascii.
From Stdlib Require String.
From stdpp Require Import prelude gmap strings.
From S2P Require Import Prelude GoStrings GoText GoNet GoNetFacts Metrics IPPool PoolInv PoolOps.
From S2P Require Import PoolReach PoolPrune PoolSpec PoolConv PoolRange PoolAlloc Nft.

#[local] Arguments String.append : simpl nomatch.

Section Worker.
Context {Kernel : Type}.
Context (commit : Kernel → list SetElement → list SetElement → Kernel + string).
Context (add_error : list SetElement → option string).
Context (enableIPv6 : bool).

Implicit Types c : NFTClient Kernel.

(** ** Lemmas: flushing *)

(** Only the connection and the kernel differ. *)
Definition same_side c c' : Prop :=
  batchCh c' = batchCh c ∧ cancelled c' = cancelled c ∧ stopped_worker c' = stopped_worker c ∧ results c' = results c.

Lemma same_side_trans c1 c2 c3 : same_side c1 c2 → same_side c2 c3 → same_side c1 c3.
Proof. unfold same_side. intuition congruence. Qed.

Lemma flushBatch_side c l : same_side c (flushBatchLocked commit add_error enableIPv6 c l).1.
Proof. unfold flushBatchLocked. repeat case_match; done. Qed.

Lemma reconnect_side dial c : same_side c (reconnectLocked dial c).1.
Proof. unfold reconnectLocked. by case_match. Qed.

(** A flush ends in some client that differs on that side only, with one verdict
    for the whole batch. *)
Lemma flush_shape dial c :
  batch c ≠ [] → ∃ c1 verdict, same_side c c1 ∧
  flush commit add_error enableIPv6 dial c =
  with_queue (batchCh c1) [] (with_results (results c1 ++ ((λ op, (op_id op, verdict)) <$> batch c)) c1).
Proof.
  intros Hne. unfold flush. destruct (batch c) as [|o b] eqn:Eb; [done|].
  set (l := o :: b). pose proof (flushBatch_side c l) as H1.
  destruct (flushBatchLocked commit add_error enableIPv6 c l) as [c1 [e|]]; [|eauto].
  destruct (Contains e "file exists"); [eauto|].
  pose proof (reconnect_side dial c1) as H2. destruct (reconnectLocked dial c1) as [c2 [e2|]].
  { exists c2, (Some e). split; [by eapply same_side_trans|done]. }
  pose proof (flushBatch_side c2 l) as H3. destruct (flushBatchLocked commit add_error enableIPv6 c2 l) as [c3 e3].
  eexists c3, _. split; [|reflexivity]. by do 2 (eapply same_side_trans; [eassumption|]).
Qed.

(** Flushing answers the whole batch and leaves the queue alone. *)
Lemma flush_answers dial c :
  let c' := flush commit add_error enableIPv6 dial c in
  batchCh c' = batchCh c ∧ batch c' = [] ∧ cancelled c' = cancelled c ∧ stopped_worker c' = stopped_worker c ∧
  ∃ verdict, results c' = results c ++ ((λ op, (op_id op, verdict)) <$> batch c).
Proof.
  destruct (decide (batch c = [])) as [E|E].
  - cbn zeta. assert (flush commit add_error enableIPv6 dial c = c) as -> by (unfold flush; by rewrite E).
    rewrite E. split_and!; [done..|]. exists None. by rewrite app_nil_r.
  - destruct (flush_shape dial c E) as (c1 & v & (H1 & H2 & H3 & H4) & ->). cbn. rewrite H4. eauto 10.
Qed.

(** ** Lemmas: the worker *)

Definition ids (l : list mappingOp) : list nat := op_id <$> l.

(** The mappings answered, held and queued, oldest first. *)
Definition handled c : list nat := (results c).*1 ++ ids (batch c) ++ ids (batchCh c).

Lemma flush_handled dial c : handled (flush commit add_error enableIPv6 dial c) = handled c.
Proof.
  destruct (flush_answers dial c) as (H1 & H2 & _ & _ & v & H3). unfold handled. rewrite H1, H2, H3.
  unfold ids. rewrite fmap_app, <- list_fmap_compose, <- app_assoc. done.
Qed.

Lemma worker_step_ok dial prefer c :
  (length (batch c) ≤ batchMaxSize)%nat →
  let c' := worker_step commit add_error enableIPv6 dial prefer c in
  handled c' = handled c ∧ (length (batch c') ≤ batchMaxSize)%nat.
Proof.
  intros Hb. cbn zeta. unfold worker_step. destruct (stopped_worker c); [done|].
  destruct (flush_answers dial c) as (_ & H2 & _). pose proof (flush_handled dial c) as Hh.
  assert (∀ x, handled (stop_worker x) = handled x) as Hs by done.
  assert (length (@nil mappingOp) ≤ batchMaxSize)%nat as H0 by (unfold batchMaxSize; cbn; lia).
  destruct (batch c) as [|o b] eqn:Eb, (batchCh c) as [|op ch] eqn:Ec.
  - destruct (cancelled c); [|by rewrite Eb]. rewrite Hs, Hh. cbn [batch stop_worker]. by rewrite H2.
  - destruct (cancelled c && prefer).
    + rewrite Hs, Hh. cbn [batch stop_worker]. by rewrite H2.
    + unfold handled. cbn. rewrite Eb, Ec. split; [done|]. unfold batchMaxSize. lia.
  - destruct (Nat.ltb_spec (length (o :: b)) batchMaxSize); cbn [negb].
    + destruct (cancelled c); rewrite ?Hs, Hh; cbn [batch stop_worker]; by rewrite H2.
    + by rewrite Hh, H2.
  - destruct (Nat.ltb_spec (length (o :: b)) batchMaxSize); cbn [negb].
    + destruct (cancelled c && prefer); [rewrite Hs, Hh; cbn [batch stop_worker]; by rewrite H2|].
      unfold handled, ids. cbn. rewrite Eb, Ec. cbn. rewrite fmap_app, <- app_assoc. cbn. split; [done|].
      rewrite length_app. cbn in *. lia.
    + by rewrite Hh, H2.
Qed.

(** The operations of the client, with the mappings accepted so far. *)
Inductive nft_step : NFTClient Kernel * list nat → NFTClient Kernel * list nat → Prop :=
  | step_worker c acc dial prefer :
      nft_step (c, acc) (worker_step commit add_error enableIPv6 dial prefer c, acc)
  | step_accepted c acc op c' :
      nft_AddMapping enableIPv6 c op = (c', None) → (enableIPv6 = true ∨ To4 (op_fake op) ≠ []) →
      nft_step (c, acc) (c', acc ++ [op_id op])
  | step_refused c acc op c' e : nft_AddMapping enableIPv6 c op = (c', Some e) → nft_step (c, acc) (c', acc)
  | step_close c acc : nft_step (c, acc) (Close_begin c, acc).

Definition client_ok (x : NFTClient Kernel * list nat) : Prop :=
  handled x.1 = x.2 ∧ (length (batch x.1) ≤ batchMaxSize)%nat ∧ Z.of_nat (length (batchCh x.1)) ≤ batchChanSize ∧
  (stopped_worker x.1 = true → cancelled x.1 = true ∧ batch x.1 = []).

Lemma worker_step_queue dial prefer c :
  let c' := worker_step commit add_error enableIPv6 dial prefer c in
  (length (batchCh c') ≤ length (batchCh c))%nat ∧ cancelled c' = cancelled c ∧
  (stopped_worker c' = true → (stopped_worker c = true ∧ c' = c) ∨ (cancelled c = true ∧ batch c' = [])).
Proof.
  destruct (flush_answers dial c) as (H1 & H2 & H3 & H4 & _). unfold worker_step. cbn zeta.
  destruct (stopped_worker c) eqn:Es; [auto|].
  destruct (batch c) as [|o b], (batchCh c) as [|op ch] eqn:Ec, (cancelled c) eqn:Ecc, prefer;
    repeat case_match; cbn [batchCh stop_worker with_queue cancelled stopped_worker andb length] in *;
    cbn [batch stop_worker with_queue]; rewrite ?H1, ?H2, ?H3, ?H4, ?Ec, ?Ecc, ?Es; cbn [length];
    (split_and!; [lia|done|]); by auto.
Qed.

Lemma nft_step_ok x y : client_ok x → nft_step x y → client_ok y.
Proof.
  intros (H1 & H2 & H3 & H4) Hs.
  destruct Hs as [c acc dial prefer|c acc op c' Ha Hf|c acc op c' e Ha|c acc]; cbn [fst snd] in *.
  - destruct (worker_step_ok dial prefer c H2) as [E1 E2].
    destruct (worker_step_queue dial prefer c) as (Q1 & Q2 & Q3).
    split_and!; cbn [fst snd]; [congruence|done|lia|]. rewrite Q2. intros [[? ->]|?]%Q3; auto.
  - unfold nft_AddMapping in Ha. destruct (is_nil (op_fake op) || is_nil (op_real op)); [done|].
    destruct (negb enableIPv6 && is_nil (To4 (op_fake op))) eqn:E.
    { exfalso. apply andb_prop in E as [E1 E2]. destruct Hf as [-> | Hf]; [done|].
      by apply is_nil_true in E2. }
    destruct (Z.ltb_spec (Z.of_nat (length (batchCh c))) batchChanSize); simplify_eq. split_and!.
    + cbn [fst snd]. unfold handled, ids. cbn. by rewrite fmap_app, !app_assoc.
    + done.
    + cbn. rewrite length_app. cbn. lia.
    + done.
  - unfold nft_AddMapping in Ha. repeat case_match; by simplify_eq.
  - split_and!; [done..|]. intros Hw. split; [done|]. by apply H4.
Qed.

Lemma nft_steps_ok x y : rtc nft_step x y → client_ok x → client_ok y.
Proof. induction 1; eauto using nft_step_ok. Qed.

(** The worker alone, for [n] steps. *)
Fixpoint run (n : nat) (dial : nat → nat → bool) (prefer : nat → bool) c : NFTClient Kernel :=
  match n with
  | O => c
  | S n' => run n' dial prefer (worker_step commit add_error enableIPv6 (dial n') (prefer n') c)
  end.

Definition work_left c : nat := 2 * length (batchCh c) + (match batch c with [] => 0 | _ => 1 end).

Lemma worker_progress dial prefer c :
  cancelled c = false → stopped_worker c = false →
  let c' := worker_step commit add_error enableIPv6 dial prefer c in
  cancelled c' = false ∧ stopped_worker c' = false ∧ (work_left c' ≤ Nat.pred (work_left c))%nat.
Proof.
  intros Hc Hs. destruct (flush_answers dial c) as (H1 & H2 & H3 & H4 & _).
  cbn zeta. unfold worker_step, work_left. rewrite Hs, Hc. cbn [andb].
  destruct (batch c) as [|o b] eqn:Eb, (batchCh c) as [|op ch] eqn:Ec.
  - rewrite Eb, Ec. done.
  - cbn. split_and!; [done|done|lia].
  - replace (if negb (Nat.ltb (length (o :: b)) batchMaxSize) then flush commit add_error enableIPv6 dial c
             else flush commit add_error enableIPv6 dial c) with (flush commit add_error enableIPv6 dial c)
      by (by case_match). rewrite H1, H2, H3, H4. cbn. split_and!; [done|done|lia].
  - case_match.
    + rewrite H1, H2, H3, H4. cbn. split_and!; [done|done|lia].
    + cbn. split_and!; [done|done|]. destruct b; cbn; lia.
Qed.

Lemma run_drains n dial prefer : ∀ c,
  cancelled c = false → stopped_worker c = false → (length (batch c) ≤ batchMaxSize)%nat → (work_left c ≤ n)%nat →
  (results (run n dial prefer c)).*1 = handled c.
Proof.
  induction n as [|n IH]; intros c Hc Hs Hb Hw; cbn [run].
  - unfold work_left in Hw. unfold handled. destruct (batch c); [|lia]. destruct (batchCh c); [|cbn in Hw; lia].
    cbn. by rewrite app_nil_r.
  - destruct (worker_progress (dial n) (prefer n) c Hc Hs) as (H1 & H2 & H3).
    destruct (worker_step_ok (dial n) (prefer n) c Hb) as [H4 H5].
    rewrite IH; [done|done|done|done|lia].
Qed.

(** ** Lemmas: what a verdict means *)

(** The kernel after a batch was written. *)
Definition committed (k : Kernel) (l : list mappingOp) : option Kernel :=
  match v4ToAdd enableIPv6 l, v6ToAdd enableIPv6 l with
  | [], [] => Some k
  | v4, v6 => match commit k v4 v6 with inl k' => Some k' | inr _ => None end
  end.

Lemma flushBatch_kernel c l :
  let '(c', err) := flushBatchLocked commit add_error enableIPv6 c l in
  match err with
  | None => committed (kernel c) l = Some (kernel c')
  | Some _ => kernel c' = kernel c
  end.
Proof.
  unfold flushBatchLocked, committed. destruct (conn c); [|done]. cbn [negb].
  destruct (v4ToAdd enableIPv6 l) as [|e4 l4], (v6ToAdd enableIPv6 l) as [|e6 l6];
    repeat case_match; simplify_eq; try done; cbn in *; congruence.
Qed.

Lemma flush_kernel dial c verdict :
  batch c ≠ [] →
  results (flush commit add_error enableIPv6 dial c) =
    results c ++ ((λ op, (op_id op, verdict)) <$> batch c) →
  let k' := kernel (flush commit add_error enableIPv6 dial c) in
  match verdict with
  | None => committed (kernel c) (batch c) = Some k' ∨
            (k' = kernel c ∧ ∃ c0 e, (flushBatchLocked commit add_error enableIPv6 c0 (batch c)).2 = Some e ∧
                                     Contains e "file exists" = true)
  | Some _ => k' = kernel c
  end.
Proof.
  intros Hne. unfold flush. destruct (batch c) as [|o b] eqn:Eb; [done|]. clear Hne. set (l := o :: b).
  assert (∀ c1 v, results c1 = results c →
    results (with_queue (batchCh c1) [] (with_results (results c1 ++ ((λ op, (op_id op, v)) <$> l)) c1)) =
      results c ++ ((λ op, (op_id op, verdict)) <$> l) → v = verdict) as Hv.
  { intros c1 v Hc1 H. cbn in H. rewrite Hc1 in H. apply app_inv_head in H. by injection H. }
  pose proof (flushBatch_kernel c l) as K1. pose proof (flushBatch_side c l) as (_ & _ & _ & S1).
  destruct (flushBatchLocked commit add_error enableIPv6 c l) as [c1 [e|]] eqn:E1; cbn [fst] in S1.
  2:{ intros H. apply Hv in H as <-; [|done]. by left. }
  destruct (Contains e "file exists") eqn:Ex.
  { intros H. apply Hv in H as <-; [|done]. right. split; [done|]. exists c, e. by rewrite E1. }
  pose proof (reconnect_side dial c1) as (_ & _ & _ & S2).
  assert (kernel (reconnectLocked dial c1).1 = kernel c1) as K2 by (unfold reconnectLocked; by case_match).
  destruct (reconnectLocked dial c1) as [c2 [e2|]]; cbn [fst] in S2, K2.
  { intros H. apply Hv in H as <-; [|congruence]. cbn. congruence. }
  pose proof (flushBatch_kernel c2 l) as K3. pose proof (flushBatch_side c2 l) as (_ & _ & _ & S3).
  destruct (flushBatchLocked commit add_error enableIPv6 c2 l) as [c3 [e3|]] eqn:E3; cbn [fst] in S3.
  - destruct (Contains e3 "file exists") eqn:Ex3; intros H; apply Hv in H as <-; try congruence; cbn.
    + right. split; [congruence|]. exists c2, e3. by rewrite E3.
    + congruence.
  - intros H. apply Hv in H as <-; [|congruence]. left. cbn. by rewrite <- K1, <- K2.
Qed.
End Worker.

(** ** Lemmas: the elements of a batch *)

Lemma elem_of_v4ToAdd v6 l el :
  el ∈ v4ToAdd v6 l ↔
  ∃ op, op ∈ l ∧ To4 (op_fake op) ≠ [] ∧ To4 (op_real op) ≠ [] ∧
    el = mkElement (To4 (op_fake op)) (To4 (op_real op)) (op_timeout op).
Proof.
  unfold v4ToAdd. rewrite list_elem_of_omap. apply exist_proper. intros op.
  apply and_iff_compat_l. unfold op_element. destruct (is_nil (To4 (op_fake op))) eqn:E.
  - apply is_nil_true in E. cbn [andb]. split; [intros H; repeat case_match; by simplify_eq|by intros [? _]].
  - cbn [andb orb]. rewrite E. cbn [orb]. apply is_nil_false in E.
    destruct (is_nil (To4 (op_real op))) eqn:E2; [apply is_nil_true in E2|apply is_nil_false in E2]; naive_solver.
Qed.

Lemma elem_of_v6ToAdd v6 l el :
  el ∈ v6ToAdd v6 l ↔
  v6 = true ∧ ∃ op, op ∈ l ∧ To4 (op_fake op) = [] ∧ To16 (op_fake op) ≠ [] ∧ To16 (op_real op) ≠ [] ∧
    el = mkElement (To16 (op_fake op)) (To16 (op_real op)) (op_timeout op).
Proof.
  assert (∀ op, match op_element v6 op with Some (true, el) => Some el | _ => None end = Some el ↔
    v6 = true ∧ To4 (op_fake op) = [] ∧ To16 (op_fake op) ≠ [] ∧ To16 (op_real op) ≠ [] ∧
    el = mkElement (To16 (op_fake op)) (To16 (op_real op)) (op_timeout op)) as H.
  { intros op. unfold op_element. destruct (is_nil (To4 (op_fake op))) eqn:E.
    - apply is_nil_true in E. cbn [andb]. destruct v6; cbn [negb]; [|naive_solver].
      destruct (is_nil (To16 (op_fake op))) eqn:E1; [apply is_nil_true in E1; naive_solver|].
      destruct (is_nil (To16 (op_real op))) eqn:E2; [apply is_nil_true in E2; naive_solver|].
      apply is_nil_false in E1, E2. cbn [orb]. naive_solver.
    - apply is_nil_false in E. cbn [andb]. split; [intros H; repeat case_match; by simplify_eq|by intros (_ & ? & _)]. }
  unfold v6ToAdd. rewrite list_elem_of_omap. setoid_rewrite H. naive_solver.
Qed.

(** ** Properties: the worker *)

(** C25: every mapping the client accepts is answered exactly once and in the
    order of acceptance, or is still held by the worker or queued; a batch never
    exceeds 256 mappings nor the queue 8192.  As long as the client is not being
    closed, the worker alone answers everything accepted within two steps per
    queued mapping, whatever the netlink socket does.  A worker that stopped,
    which it does only when the client is being closed, has answered what it
    held; what is still queued then stays unanswered (its callers give up after
    five seconds). *)
Theorem accepted_mappings_are_answered {Kernel} (commit : Kernel → list SetElement → list SetElement → Kernel + string)
    add_error enableIPv6 k c acc :
  rtc (nft_step commit add_error enableIPv6) (NewNFTClient k, []) (c, acc) →
  (results c).*1 ++ ids (batch c) ++ ids (batchCh c) = acc ∧
  (length (batch c) ≤ 256)%nat ∧ Z.of_nat (length (batchCh c)) ≤ 8192 ∧
  (cancelled c = false → ∀ dial prefer n, (2 * length (batchCh c) + 1 ≤ n)%nat →
     (results (run commit add_error enableIPv6 n dial prefer c)).*1 = acc) ∧
  (stopped_worker c = true → cancelled c = true ∧ (results c).*1 ++ ids (batchCh c) = acc).
Proof.
  intros Hs. assert (client_ok (c, acc)) as (H1 & H2 & H3 & H4).
  { apply (nft_steps_ok _ _ _ _ _ Hs).
    split_and!; [done|cbn; unfold batchMaxSize; lia|cbn; unfold batchChanSize; lia|done]. }
  cbn [fst snd] in *. split_and!; [exact H1|exact H2|exact H3| |].
  2:{ intros [Hc Hb]%H4. split; [done|]. rewrite <- H1. unfold handled. by rewrite Hb. }
  intros Hc dial prefer n Hn. rewrite <- H1. apply run_drains; [done| |done|].
  - destruct (stopped_worker c); [destruct (H4 eq_refl); congruence|done].
  - unfold work_left. destruct (batch c); lia.
Qed.

(** C26: what an answer says about the kernel.  A batch answered without error
    is in the kernel as one transaction holding exactly the pairs of its
    mappings whose two addresses are of one (enabled) family, except that an
    error saying a file exists also counts as success and leaves the kernel as
    it was; a batch answered with an error changed nothing. *)
Theorem verdict_matches_kernel {Kernel} (commit : Kernel → list SetElement → list SetElement → Kernel + string)
    add_error enableIPv6 dial (c : NFTClient Kernel) verdict :
  batch c ≠ [] →
  results (flush commit add_error enableIPv6 dial c) =
    results c ++ ((λ op, (op_id op, verdict)) <$> batch c) →
  let k' := kernel (flush commit add_error enableIPv6 dial c) in
  match verdict with
  | None => committed commit enableIPv6 (kernel c) (batch c) = Some k' ∨
            (k' = kernel c ∧ ∃ c0 e, (flushBatchLocked commit add_error enableIPv6 c0 (batch c)).2 = Some e ∧
                                     Contains e "file exists" = true)
  | Some _ => k' = kernel c
  end ∧
  (∀ el, el ∈ v4ToAdd enableIPv6 (batch c) ↔
     ∃ op, op ∈ batch c ∧ To4 (op_fake op) ≠ [] ∧ To4 (op_real op) ≠ [] ∧
       el = mkElement (To4 (op_fake op)) (To4 (op_real op)) (op_timeout op)) ∧
  (∀ el, el ∈ v6ToAdd enableIPv6 (batch c) ↔
     enableIPv6 = true ∧ ∃ op, op ∈ batch c ∧ To4 (op_fake op) = [] ∧ To16 (op_fake op) ≠ [] ∧
       To16 (op_real op) ≠ [] ∧ el = mkElement (To16 (op_fake op)) (To16 (op_real op)) (op_timeout op)).
Proof.
  intros Hne Hres. split; [by apply flush_kernel|]. split; intros el; [apply elem_of_v4ToAdd|apply elem_of_v6ToAdd].
Qed.

(** A kernel whose maps are lists of elements and that refuses a key it has. *)
Definition demo_kernel : Type := list SetElement.
Definition demo_commit (k : demo_kernel) (v4 v6 : list SetElement) : demo_kernel + string :=
  if existsb (λ el, existsb (λ el', bool_decide (el_Key el = el_Key el')) k) (v4 ++ v6)
  then inr "file exists" else inl (k ++ v4 ++ v6).

Definition demo_op (i : nat) (fake real : string) : mappingOp := mkOp i (ParseIP fake) (ParseIP real) 7200.

Definition demo_client (k : demo_kernel) : NFTClient demo_kernel :=
  (nft_AddMapping true (nft_AddMapping true (NewNFTClient k) (demo_op 1 "198.18.0.5" "1.1.1.1")).1
     (demo_op 2 "fd00:18::5" "2001:db8::1")).1.

Lemma demo_client_reached k :
  rtc (nft_step demo_commit (λ _, None) true) (NewNFTClient k, []) (demo_client k, [1%nat; 2%nat]).
Proof.
  eapply rtc_l; [eapply (step_accepted _ _ _ _ _ (demo_op 1 "198.18.0.5" "1.1.1.1")); [reflexivity|by left]|].
  eapply rtc_l; [eapply (step_accepted _ _ _ _ _ (demo_op 2 "fd00:18::5" "2001:db8::1")); [reflexivity|by left]|].
  apply rtc_refl.
Qed.

Lemma accepted_mappings_are_answered_witness :
  (results (run demo_commit (λ _, None) true 5 (λ _ _, false) (λ _, true) (demo_client []))).*1 = [1%nat; 2%nat].
Proof.
  apply (proj1 (proj2 (proj2 (proj2 (accepted_mappings_are_answered demo_commit (λ _, None) true [] _ _
    (demo_client_reached [])))))); [reflexivity|vm_compute; lia].
Defined.

Definition demo_batch : NFTClient demo_kernel :=
  with_queue [] [demo_op 1 "198.18.0.5" "1.1.1.1"] (NewNFTClient []).

Lemma verdict_matches_kernel_witness :
  committed demo_commit true [] (batch demo_batch) =
    Some (kernel (flush demo_commit (λ _, None) true (λ _, false) demo_batch)).
Proof.
  destruct (proj1 (verdict_matches_kernel demo_commit (λ _, None) true (λ _, false) demo_batch None
    ltac:(discriminate) ltac:(vm_compute; reflexivity))) as [H|[H _]]; [exact H|].
  vm_compute in H. discriminate H.
Defined.

(** A transaction the kernel refuses because one key exists is reported as
    written, and the other mappings of its batch are lost. *)
Definition clash_client : NFTClient demo_kernel :=
  with_queue [] [demo_op 1 "198.18.0.5" "1.1.1.1"; demo_op 2 "198.18.0.6" "2.2.2.2"]
    (NewNFTClient [mkElement (To4 (ParseIP "198.18.0.5")) (To4 (ParseIP "9.9.9.9")) 7200]).

Theorem clash_loses_batch :
  let c' := flush demo_commit (λ _, None) true (λ _, true) clash_client in
  results c' = [(1%nat, None); (2%nat, None)] ∧ kernel c' = kernel clash_client.
Proof. vm_compute. done. Qed.

(** ** Lemmas: recovery *)

Definition rec_of (el : SetElement) : MappingRecovery := mkRecovery (el_Val el) (el_Timeout el).

Lemma add_recovered_lookup els : ∀ m,
  NoDup ((λ el, IP_String (el_Key el)) <$> els) →
  (∀ el, el ∈ els → m !! IP_String (el_Key el) = None) →
  ∀ s r, add_recovered m els !! s = Some r ↔
    m !! s = Some r ∨ ∃ el, el ∈ els ∧ s = IP_String (el_Key el) ∧ r = rec_of el.
Proof.
  induction els as [|el els IH]; intros m Hnd Hm s r; cbn [add_recovered foldl]; [set_solver|].
  cbn in Hnd. apply NoDup_cons in Hnd as [Hel Hnd]. fold (rec_of el).
  change (foldl _ ?m0 els) with (add_recovered m0 els). rewrite IH; [|done|].
  - rewrite lookup_insert. case_decide as E.
    + subst s. rewrite (Hm el) by left. split.
      * intros [[= <-]|(el' & Hin & Hs & ->)]; [right; exists el; set_solver|]. right. exists el'. set_solver.
      * intros [[=]|(el' & [-> | Hin]%elem_of_cons & Hs & ->)]; [by left|]. right. exists el'. done.
    + split.
      * intros [?|(el' & ? & ? & ?)]; [by left|]. right. exists el'. set_solver.
      * intros [?|(el' & [-> | Hin]%elem_of_cons & Hs & Hr)]; [by left|congruence|]. right. eauto.
  - intros el' Hin. rewrite lookup_insert. case_decide as E; [|apply Hm; by right].
    exfalso. apply Hel. rewrite E. by apply (list_elem_of_fmap_2 (λ el, IP_String (el_Key el))).
Qed.

(** The updates [recover_mappings] applies. *)
Definition recovery_update (now : Z) (x : string * MappingRecovery) : option update :=
  if is_nil (ParseIP x.1) then None
  else Some (mkUpdate (rec_RealIP x.2) (ParseIP x.1) 0 (now + rec_Expires x.2)).

Definition recovery_updates (now : Z) (m : gmap string MappingRecovery) : list update :=
  omap (recovery_update now) (map_to_list m).

Lemma omap_fmap_Some {A B C} (f : B → option C) (g : A → B) (h : A → C) (l : list A) :
  (∀ x, x ∈ l → f (g x) = Some (h x)) → omap f (g <$> l) = h <$> l.
Proof.
  induction l as [|x l IH]; intros H; [done|]. cbn. rewrite (H x) by left. f_equal. apply IH.
  intros y Hy. apply H. by right.
Qed.

Lemma recover_is_updates now p mt m : (recover_mappings now p mt m).1 = apply_updates p mt (recovery_updates now m).
Proof.
  unfold recover_mappings, apply_updates, recovery_updates. f_equal.
  generalize (p, mt). induction (map_to_list m) as [|[s r] l IH]; intros st; [done|].
  cbn [foldl omap list_omap]. unfold recovery_update at 1. cbn [fst snd].
  destruct (is_nil (ParseIP s)); [apply IH|]. cbn [foldl]. rewrite IH. done.
Qed.

Section Recovery.
Context (els : list SetElement) (now : Z).
Context (Hvalid : Forall (λ el, valid_ip (el_Key el) ∧ valid_ip (el_Val el)) els).
Context (Hkeys : NoDup ((λ el, ToIPKey (el_Key el)) <$> els)).

Lemma rec_valid el : el ∈ els → valid_ip (el_Key el) ∧ valid_ip (el_Val el).
Proof. exact (proj1 (Forall_forall _ _) Hvalid el). Qed.

(** A key identifies the element. *)
Lemma rec_key_inj el el' : el ∈ els → el' ∈ els → ToIPKey (el_Key el) = ToIPKey (el_Key el') → el = el'.
Proof.
  intros H1 H2 H. apply list_elem_of_lookup in H1 as [i Hi], H2 as [j Hj].
  assert (i = j) as ->.
  { apply (NoDup_lookup _ i j (ToIPKey (el_Key el)) Hkeys); rewrite list_lookup_fmap; [by rewrite Hi|].
    rewrite Hj. cbn. by rewrite H. }
  congruence.
Qed.

Lemma rec_strings : NoDup ((λ el, IP_String (el_Key el)) <$> els).
Proof.
  apply NoDup_fmap_2_strong; [|apply (NoDup_fmap_1 _ _ Hkeys)].
  intros el el' H1 H2 E. apply (rec_key_inj el el' H1 H2). apply String_inj_key; [by apply rec_valid..|done].
Qed.

Lemma rec_lookup s r :
  add_recovered ∅ els !! s = Some r ↔ ∃ el, el ∈ els ∧ s = IP_String (el_Key el) ∧ r = rec_of el.
Proof.
  rewrite add_recovered_lookup; [|apply rec_strings|by intros; apply lookup_empty].
  rewrite lookup_empty. naive_solver.
Qed.

Definition rec_update (el : SetElement) : update :=
  mkUpdate (el_Val el) (To16 (el_Key el)) 0 (now + el_Timeout el).

(** The updates of a recovery are those of the elements. *)
Lemma recovery_updates_perm : recovery_updates now (add_recovered ∅ els) ≡ₚ rec_update <$> els.
Proof.
  assert (map_to_list (add_recovered ∅ els) ≡ₚ (λ el, (IP_String (el_Key el), rec_of el)) <$> els) as Hm.
  { apply NoDup_Permutation.
    - apply NoDup_map_to_list.
    - apply (NoDup_fmap_1 fst). rewrite <- list_fmap_compose. exact rec_strings.
    - intros [s r]. rewrite elem_of_map_to_list, rec_lookup, list_elem_of_fmap.
      split; intros (el & ?); exists el; naive_solver. }
  unfold recovery_updates. rewrite Hm, (omap_fmap_Some _ _ rec_update); [done|].
  intros el Hel. destruct (rec_valid el Hel) as [Hk _]. unfold recovery_update, rec_update. cbn [fst snd rec_of].
  rewrite ParseIP_String by done. pose proof (To16_length _ Hk) as H16. by destruct (To16 (el_Key el)).
Qed.

Lemma recovered_spec :
  let l := recovery_updates now (add_recovered ∅ els) in
  let a := foldl spec_update ∅ l in
  Forall (λ u, valid_ip (u_real u)) l ∧
  (∀ r en, a !! r = Some en →
    ∃ el, el ∈ els ∧ r = ToIPKey (el_Val el) ∧ en = mkEntry (ToIPKey (el_Key el)) 0 (now + el_Timeout el)) ∧
  (∀ el, el ∈ els → ∃ en, a !! ToIPKey (el_Val el) = Some en ∧
    rank_cmp (rank 0 (ToIPKey (el_Key el))) (rank (e_version en) (e_fake en)) ≠ Gt).
Proof.
  cbn zeta. pose proof recovery_updates_perm as Hp. set (l := recovery_updates _ _) in *. split.
  { rewrite Hp. apply Forall_fmap, Forall_forall. intros el Hel. cbn. by apply rec_valid. }
  assert (NoDup els) as Hnd by apply (NoDup_fmap_1 _ _ Hkeys).
  destruct (spec_updates_best l) as [Hs Hb].
  { rewrite Hp, <- list_fmap_compose. apply NoDup_fmap_2_strong; [|done]. intros el el' H1 H2. cbn.
    rewrite !ToIPKey_To16 by (by apply rec_valid). by apply rec_key_inj. }
  split.
  - intros r en (u & Hu & -> & ->)%Hs. rewrite Hp in Hu. apply list_elem_of_fmap in Hu as (el & -> & Hel).
    exists el. cbn. rewrite ToIPKey_To16 by (by apply rec_valid). done.
  - intros el Hel. destruct (Hb (rec_update el)) as (en & H1 & H2); [rewrite Hp; by apply list_elem_of_fmap_2|].
    exists en. split; [exact H1|]. unfold fake_rank in H2. cbn in H2. by rewrite ToIPKey_To16 in H2 by (by apply rec_valid).
Qed.
End Recovery.

(** ** Properties: recovery *)

(** What one read of a kernel map returns; a map that does not exist counts as
    empty. *)
Definition kept (res : list SetElement + string) : list SetElement :=
  match res with inl els => els | inr _ => [] end.
Definition readable (res : list SetElement + string) : Prop :=
  match res with inl _ => True | inr e => missing_map e = true end.

Lemma read_recovered v6 res4 res6 :
  readable res4 → (v6 = true → readable res6) →
  ReadExistingMappings true v6 res4 res6 = Some (add_recovered ∅ (kept res4 ++ if v6 then kept res6 else [])).
Proof.
  intros H4 H6. unfold ReadExistingMappings. cbn [negb].
  assert (∀ res m, readable res →
    match res with inl els => Some (add_recovered m els) | inr e => if missing_map e then Some m else None end =
    Some (add_recovered m (kept res))) as Hr.
  { intros [els|e] m He; [done|]. cbn in He. by rewrite He. }
  rewrite Hr by done. cbn [mbind option_bind]. destruct v6; [|by rewrite app_nil_r].
  rewrite Hr by auto. unfold add_recovered. by rewrite foldl_app.
Qed.

(** C27: a restart recovers what the kernel kept.  When the maps can be read (a
    missing map counts as empty, the IPv6 map only matters with IPv6 on), their
    addresses have 4 or 16 bytes and no Fake-IP is in them twice, the new pool
    maps every real address of the kernel's elements to the greatest Fake-IP the
    kernel holds for it, and nothing else, with version 0, which any positive
    version of a peer outranks, and with the lifetime that was left.  Of the
    Fake-IPs of one real address the others are not recovered. *)
Theorem restart_recovers_mappings (v6 : bool) res4 res6 now mt base4 base6 cfg :
  let els := kept res4 ++ if v6 then kept res6 else [] in
  readable res4 → (v6 = true → readable res6) →
  Forall (λ el, valid_ip (el_Key el) ∧ valid_ip (el_Val el)) els →
  NoDup ((λ el, ToIPKey (el_Key el)) <$> els) →
  ∃ m, ReadExistingMappings true v6 res4 res6 = Some m ∧
    let q := (recover_mappings now (NewIPPoolWithConfig base4 base6 cfg) mt m).1 in
    pool_wf q ∧
    (∀ r f, rtf q r = Some f ↔ ∃ el, el ∈ els ∧ r = ToIPKey (el_Val el) ∧ f = ToIPKey (el_Key el) ∧
       ∀ el', el' ∈ els → ToIPKey (el_Val el') = r → bytes_compare (To16 (el_Key el')) (To16 (el_Key el)) ≠ Gt) ∧
    (∀ el, el ∈ els → rtf q (ToIPKey (el_Val el)) = Some (ToIPKey (el_Key el)) →
       globalVersions q !! ToIPKey (el_Key el) = Some 0 ∧
       expiry_of q (ToIPKey (el_Val el)) = Some (now + el_Timeout el)).
Proof.
  intros els H4 H6 Hv Hk. exists (add_recovered ∅ els). split; [by apply read_recovered|].
  cbn zeta. rewrite recover_is_updates. destruct (recovered_spec els now Hv Hk) as (Hvu & Hs & Hb).
  set (l := recovery_updates now _) in *. set (a := foldl spec_update ∅ l) in *. set (q := apply_updates _ mt l).
  assert (models a q) as Hq by (apply apply_updates_spec; [apply models_NewIPPool|done]).
  assert (∀ x y, x ∈ els → y ∈ els → rank_cmp (rank 0 (ToIPKey (el_Key x))) (rank 0 (ToIPKey (el_Key y))) =
    bytes_compare (To16 (el_Key x)) (To16 (el_Key y))) as Hcmp.
  { intros x y Hx Hy. unfold rank, rank_cmp, pair_cmp. cbn [fst snd]. rewrite Z.compare_refl.
    apply (rec_valid els Hv) in Hx as [Hx _], Hy as [Hy _]. by rewrite !ToIP_ToIPKey by done. }
  split_and!; [apply Hq| |].
  - intros r f. rewrite (models_rtf _ _ Hq r), fmap_Some. split.
    + intros (en & Hen & ->). destruct (Hs r en Hen) as (el & Hel & -> & ->). exists el. split_and!; [done..|].
      intros el' Hel' Hr. destruct (Hb el' Hel') as (en & E & Hle). rewrite Hr, Hen in E. simplify_eq.
      cbn [e_version e_fake] in Hle. by rewrite Hcmp in Hle.
    + intros (el & Hel & -> & -> & Hmax). destruct (Hb el Hel) as (en & E & Hle). exists en. split; [done|].
      destruct (Hs _ en E) as (el' & Hel' & Hr & ->). cbn [e_version e_fake] in *. rewrite Hcmp in Hle by done.
      specialize (Hmax el' Hel' (eq_sym Hr)).
      rewrite <- (ToIPKey_To16 (el_Key el)), <- (ToIPKey_To16 (el_Key el')) by (by apply (rec_valid els Hv)).
      by rewrite (cmp_le_antisym bytes_compare _ _ Hle Hmax).
  - intros el Hel Hr. rewrite (models_rtf _ _ Hq), fmap_Some in Hr. destruct Hr as (en & He & Hf).
    destruct (Hs _ en He) as (el' & Hel' & Hr & ->). cbn [e_fake] in Hf.
    rewrite (rec_key_inj els Hk el el' Hel Hel' Hf) in *. rewrite (proj2 Hq), entry_of_Some in He by apply Hq.
    naive_solver.
Qed.

(** Two Fake-IPs for 1.1.1.1. *)
Definition kept4 : list SetElement :=
  [mkElement (To4 (ParseIP "198.18.0.5")) (To4 (ParseIP "1.1.1.1")) 60;
   mkElement (To4 (ParseIP "198.18.0.4")) (To4 (ParseIP "1.1.1.1")) 70].
Definition kept6 : list SetElement := [mkElement (ParseIP "fd00:18::5") (ParseIP "2001:db8::1") 90].

Lemma restart_recovers_mappings_witness :
  ∃ m, ReadExistingMappings true true (inl kept4) (inl kept6) = Some m ∧
    rtf (recover_mappings 7 demo_pool metrics_zero m).1 (ToIPKey (ParseIP "1.1.1.1")) =
      Some (ToIPKey (ParseIP "198.18.0.5")).
Proof.
  destruct (restart_recovers_mappings true (inl kept4) (inl kept6) 7 metrics_zero "198.18" "fd00:18::"
    (mkIPPoolConfig DefaultPoolSizeV4 DefaultPoolSizeV6)) as (m & Hm & _ & Hr & _).
  - exact I.
  - intros _. exact I.
  - repeat apply Forall_cons_2; [split; left; reflexivity..|split; right; reflexivity|apply Forall_nil_2].
  - apply (bool_decide_unpack _). vm_compute. exact I.
  - exists m. split; [exact Hm|]. apply Hr. eexists. split; [left|]. split; [vm_compute; reflexivity|].
    split; [vm_compute; reflexivity|].
    intros el' [-> |[-> |[-> |[]%elem_of_nil]%elem_of_cons]%elem_of_cons]%elem_of_cons H; vm_compute in H |- *;
      (discriminate || (intros E; discriminate E)).
Defined.
