(* ===== verification/Config.v ===== *)
(** * Configuration ([cmd/nextpath-engine/main.go], [cmd/nextpath-compiler/main.go])

    How the two programs read the environment and what they make of it: the pool
    they start, the compiler's settings, the updater's schedule.  The environment
    is a function from names to values; [uni] is [strings.ToLower] on strings that
    are not ASCII; [ParseDuration] is [time.ParseDuration], in nanoseconds. *)

From Stdlib Require Import Ascii.
From Stdlib Require String.
From stdpp Require Import prelude gmap strings.
From S2P Require Import Prelude GoStrings GoText GoNet GoNetFacts GoHostPort Metrics IPPool PoolInv PoolOps.
From S2P Require Import PoolReach PoolRange Domains Nft.

#[local] Arguments String.append : simpl nomatch.

Definition Env : Type := string → option string.

Definition quotes : string := String (char 34) (String (char 39) EmptyString).

Definition getEnv (env : Env) (key defaultVal : string) : string :=
  match env key with
  | Some value =>
      let val := Trim (TrimSpace value) quotes in
      if bool_decide (val = EmptyString) then defaultVal else val
  | None => defaultVal
  end.

Definition yes (v : string) : bool :=
  bool_decide (v = "true") || bool_decide (v = "1") || bool_decide (v = "y") || bool_decide (v = "yes").

Section Settings.
Context (uni : string → string) (env : Env).

Definition getEnvBool (key : string) (defaultVal : bool) : bool :=
  let val := ToLower uni (TrimSpace (getEnv env key EmptyString)) in
  if bool_decide (val = EmptyString) then defaultVal else yes val.

(** [getEnvBool] of the command-line compiler, which does not trim again. *)
Definition cli_getEnvBool (key : string) (defaultVal : bool) : bool :=
  let val := ToLower uni (getEnv env key EmptyString) in
  if bool_decide (val = EmptyString) then defaultVal else yes val.

Definition settings (getBool : string → bool → bool) (resultDir : string) (limit : Z) : CompileConfig :=
  mkCompileConfig (getEnv env "SOURCES_DIR" "/app/nextpath/lists/sources")
    (getEnv env "MANUAL_DIR" "/app/nextpath/lists/manual") resultDir
    (getEnv env "DOWNLOAD_DIR" "/app/nextpath/download")
    (getBool "ROUTE_ALL" false) (getBool "FILTER_CASINO" true) (getBool "BLOCK_ADS" true)
    (getBool "ENABLE_IPV6" true) limit.

Definition getCompileConfig (resultDir : string) : CompileConfig :=
  settings getEnvBool resultDir (default 500 (atoi (getEnv env "AGGREGATE_COUNT" "500"))).

(** The configuration [main] of the command-line compiler builds. *)
Definition cli_config : CompileConfig :=
  let limitStr := getEnv env "AGGREGATE_COUNT" EmptyString in
  let limit := if bool_decide (limitStr = EmptyString) then 500 else default 500 (atoi limitStr) in
  settings cli_getEnvBool (getEnv env "RESULT_DIR" "/app/nextpath/result") limit.

(** ** The pool *)

Definition pool_size_v4 (poolV4Str : string) : Z :=
  if bool_decide (poolV4Str = EmptyString) then 0
  else match parse_uint 32 (TrimPrefix poolV4Str "/") with
       | Some val => if (0 <? val) && (val <=? 32) then Z.shiftl 1 (32 - val) else Z.shiftl 1 24
       | None => 0
       end.

Definition pool_size_v6 (poolV6Str : string) : Z :=
  if bool_decide (poolV6Str = EmptyString) then 0
  else match parse_uint 32 (TrimPrefix poolV6Str "/") with
       | Some val =>
           if (0 <? val) && (val <=? 128)
           then if 31 <? 128 - val then Z.shiftl 1 31 else Z.shiftl 1 (128 - val)
           else Z.shiftl 1 24
       | None => 0
       end.

Definition getIPPoolConfig : IPPoolConfig :=
  mkIPPoolConfig (pool_size_v4 (getEnv env "POOL_SIZE_V4" (getEnv env "POOL_SIZE" EmptyString)))
    (pool_size_v6 (getEnv env "POOL_SIZE_V6" EmptyString)).

(** The pool [main] starts. *)
Definition engine_pool : IPPool :=
  NewIPPoolWithConfig (getEnv env "FAKE_IP" "198.18") (getEnv env "FAKE_IP6" "fd00:18::") getIPPoolConfig.

(** ** Other settings of [main] *)

Definition max_ttl : Z := default 300 (parse_uint 32 (getEnv env "MAX_FAKE_IP_TTL" "300")).

Definition proxy_addr : string := JoinHostPort (getEnv env "PROXY_ADDR" "127.0.0.3") (getEnv env "PROXY_PORT" "53").
Definition upstream_addr : string := JoinHostPort (getEnv env "DNS_ADDR_2" "127.0.0.2") "53".

(** The address of the metrics server, [None] when it is off. *)
Definition metrics_server : option (string * string) :=
  let enable := getEnv env "METRICS_ENABLE" "false" in
  if bool_decide (ToLower uni enable = "true") || bool_decide (enable = "1") || bool_decide (enable = "y") then
    let addr := getEnv env "METRICS_ADDR" "127.0.0.1" in
    let addr := if is_nil (ParseIP addr) then "127.0.0.1" else addr in
    let port := getEnv env "METRICS_PORT" "9090" in
    let port := match atoi port with
                | Some p => if (p <? 1) || (65535 <? p) then "9090" else port
                | None => "9090"
                end in
    Some (addr, port)
  else None.
End Settings.

(** ** What [main] runs *)

Inductive Mode := HealthCheck | CompileOnce | FetchOnce | UpdateLoop | RunEngine.

Definition compileLocal (uni : string → string) (env : Env) : bool :=
  getEnvBool uni env "COMPILE_LOCAL" (bool_decide (getEnv env "LIST_SOURCE" EmptyString = EmptyString)).

(** The part of the program the arguments (the program's name first) and the
    environment select. *)
Definition run_mode (uni : string → string) (env : Env) (args : list string) : Mode :=
  if match args with _ :: a :: _ => bool_decide (a = "health") | _ => false end then HealthCheck
  else
    let runUpdaterOnly := getEnvBool uni env "RUN_UPDATER" false || existsb (λ a, bool_decide (a = "--updater")) args in
    if runUpdaterOnly then
      if getEnvBool uni env "COMPILE_ONLY" false
      then if compileLocal uni env then CompileOnce else FetchOnce
      else UpdateLoop
    else RunEngine.

(** ** The schedule of the updater *)

Definition hour : Z := 3600 * 10 ^ 9.

(** The time between polls. *)
Definition poll_interval (ParseDuration : string → option Z) (uni : string → string) (env : Env) : Z :=
  if compileLocal uni env then default (24 * hour) (ParseDuration (getEnv env "COMPILE_INTERVAL" "24h"))
  else default (2 * hour) (ParseDuration (getEnv env "LIST_POLL_INTERVAL" "2h")).

(** [Time.Truncate], the time counted from the zero time. *)
Definition Truncate (t d : Z) : Z := if d <=? 0 then t else t - t mod d.

Definition nextTick (now interval : Z) : Z := Truncate now interval + interval.

(** The times of the first polls of [startUpdaterLoop] started at [now]: at
    once, at the next tick, and [n] more; a ticker that does not advance
    panics. *)
Definition poll_times (now interval : Z) (n : nat) : option (list Z) :=
  if interval <=? 0 then None
  else Some (now :: nextTick now interval :: ((λ k, nextTick now interval + Z.of_nat k * interval) <$> seq 1 n)).

(** ** The watcher of the engine *)

(** The modification times of the two hash files, the zero time when a file is
    missing. *)
Definition getLastMod (domains ips : option Z) : Z * Z := (default 0 domains, default 0 ips).

(** A tick of [startFileWatcher]: the times remembered, and whether the caches,
    the deny sets and the result hash are reloaded. *)
Definition watch_tick (last : Z * Z) (domains ips : option Z) : (Z * Z) * bool :=
  let m := getLastMod domains ips in
  if negb (m.1 =? last.1) || negb (m.2 =? last.2) then (m, true) else (last, false).
