(* ===== verification/ConfigFacts.v ===== *)
(** * Configuration: the masks reach the pool, the two readers of flags *)

From Stdlib Require Import Ascii.
From Stdlib Require String.
From stdpp Require Import prelude gmap strings.
From S2P Require Import Prelude GoStrings GoText GoNet GoNetFacts GoHostPort Metrics IPPool PoolInv PoolOps.
From S2P Require Import PoolReach PoolRange Domains Nft Config.

#[local] Arguments String.append : simpl nomatch.

(** ** Lemmas: reading a variable *)

Lemma drop_set_none cut l : match l with c :: _ => in_set cut c = false | [] => True end → drop_set cut l = l.
Proof. destruct l as [|c l]; [done|]. cbn. by intros ->. Qed.

(** A value without a quote at its ends is not trimmed. *)
Definition unquoted (s : string) : Prop := str_forallb (λ c, negb (in_set quotes c)) s = true.

Lemma Trim_none cut s : str_forallb (λ c, negb (in_set cut c)) s = true → Trim s cut = s.
Proof.
  rewrite str_forallb_chars. intros H. unfold Trim. rewrite (drop_set_none cut (chars s)).
  - rewrite drop_set_none; [by rewrite rev_involutive, of_chars_chars|].
    assert (forallb (λ c, negb (in_set cut c)) (rev (chars s)) = true) as H'.
    { rewrite forallb_forall in *. intros c Hc%in_rev. auto. }
    destruct (rev (chars s)); [done|]. cbn in H'. apply andb_true_iff in H' as [?%negb_true_iff _]. done.
  - destruct (chars s); [done|]. cbn in H. apply andb_true_iff in H as [?%negb_true_iff _]. done.
Qed.

Lemma getEnv_plain env key d v :
  env key = Some v → trimmed v = true → unquoted v → v ≠ EmptyString → getEnv env key d = v.
Proof.
  intros He Ht Hq Hne. unfold getEnv. rewrite He, TrimSpace_trimmed, Trim_none by done. by rewrite bool_decide_false.
Qed.

Lemma digit_unquoted c : is_digit c = true → negb (in_set quotes c) = true.
Proof.
  intros H.
  unfold in_set, contains_char, quotes. cbn [str_existsb]. by rewrite !(digit_not c).
Qed.

Lemma digits_plain s : str_forallb is_digit s = true → trimmed s = true ∧ unquoted s.
Proof.
  intros Hd. split; [by apply digits_trimmed|]. unfold unquoted. eapply str_forallb_impl; [|exact Hd].
  intros c Hc. by apply digit_unquoted.
Qed.

(** A mask in an environment variable, with or without its slash. *)
Definition mask_text (n : Z) (v : string) : Prop := v = itoa n ∨ v = "/" +:+ itoa n.

Lemma mask_text_plain n v :
  0 ≤ n → mask_text n v → trimmed v = true ∧ unquoted v ∧ v ≠ EmptyString ∧ TrimPrefix v "/" = itoa n.
Proof.
  intros Hn Hv. unfold mask_text in Hv. unfold itoa in *. destruct (Z.ltb_spec n 0); [lia|].
  pose proof (dec_nonneg_digits n) as Hd. pose proof (dec_nonneg_nonempty n) as Hne.
  destruct (digits_plain _ Hd) as [Ht Hq]. destruct Hv as [-> | ->].
  - split_and!; [done..|]. unfold TrimPrefix. destruct (dec_nonneg n) as [|c s]; [done|].
    cbn [has_prefix]. cbn [str_forallb] in Hd. apply andb_true_iff in Hd as [Hc _].
    rewrite Ascii.eqb_sym, (digit_not c "/") by done. done.
  - split_and!; [|done|done|].
    + apply (trimmed_app "/" _ ltac:(done) Hne eq_refl Ht EmptyString).
    + unfold TrimPrefix. cbn. by rewrite drop_0, of_chars_chars.
Qed.

(** ** Lemmas: pool sizes *)

Lemma pool_size_v4_mask n v : 1 ≤ n ≤ 32 → mask_text n v → pool_size_v4 v = 2 ^ (32 - n).
Proof.
  intros Hn Hv. destruct (mask_text_plain n v ltac:(lia) Hv) as (_ & _ & Hne & Ht). unfold pool_size_v4.
  rewrite bool_decide_false, Ht, parse_uint_itoa by (done || lia).
  destruct (Z.ltb_spec 0 n), (Z.leb_spec n 32); try lia. cbn [andb]. apply Z.shiftl_1_l.
Qed.

Lemma pool_size_v6_mask n v : 1 ≤ n ≤ 128 → mask_text n v → pool_size_v6 v = 2 ^ (128 - Z.max n 97).
Proof.
  intros Hn Hv. destruct (mask_text_plain n v ltac:(lia) Hv) as (_ & _ & Hne & Ht). unfold pool_size_v6.
  rewrite bool_decide_false, Ht, parse_uint_itoa by (done || lia).
  destruct (Z.ltb_spec 0 n), (Z.leb_spec n 128); try lia. cbn [andb].
  destruct (Z.ltb_spec 31 (128 - n)); rewrite Z.shiftl_1_l; f_equal; lia.
Qed.

(** Whatever the variable holds. *)
Lemma pool_size_v4_range v : 0 ≤ pool_size_v4 v ≤ 2 ^ 31.
Proof.
  unfold pool_size_v4. repeat case_match; rewrite ?Z.shiftl_1_l; try lia.
  assert (0 < 2 ^ (32 - z) ≤ 2 ^ 31) by (split; [apply Z.pow_pos_nonneg|apply Z.pow_le_mono_r]; lia). lia.
Qed.

Lemma pool_size_v6_range v : 0 ≤ pool_size_v6 v ≤ 2 ^ 31.
Proof.
  unfold pool_size_v6. repeat case_match; rewrite ?Z.shiftl_1_l; try lia.
  assert (0 < 2 ^ (128 - z) ≤ 2 ^ 31) by (split; [apply Z.pow_pos_nonneg|apply Z.pow_le_mono_r]; lia). lia.
Qed.

Lemma engine_sizes env : 1 ≤ poolSize (engine_pool env) < 2 ^ 32 ∧ 1 ≤ poolSize6 (engine_pool env) < 2 ^ 32.
Proof.
  unfold engine_pool, NewIPPoolWithConfig, getIPPoolConfig. cbn [poolSize poolSize6 PoolSizeV4 PoolSizeV6].
  pose proof (pool_size_v4_range (getEnv env "POOL_SIZE_V4" (getEnv env "POOL_SIZE" EmptyString))).
  pose proof (pool_size_v6_range (getEnv env "POOL_SIZE_V6" EmptyString)).
  unfold DefaultPoolSizeV4, DefaultPoolSizeV6. repeat case_match; lia.
Qed.

(** ** Properties *)

Section Configured.
Context (env : Env).

(** C10: every Fake-IP the engine hands out for a real address of 4 or 16 bytes
    lies in the network of its family that it reports, and that the packet
    filter and the peers use (and no IPv4 one ends in 0 or 255), whatever the
    environment holds, provided the IPv4 pool has more than one address, an
    invalid FAKE_IP is not combined with a pool larger than its substitute, and
    FAKE_IP6 is no IPv4-mapped address.  A mask given in the environment is the
    mask of the reported network, except that an IPv6 mask shorter than 97 is
    replaced by 97. *)
Theorem configured_fakes_in_net p now nano realIP is6 c v :
  let p0 := engine_pool env in
  poolSize p0 ≠ 1 → poolStart p0 ≠ fallback_start ∨ poolSize p0 ≤ 131072 → To4 (poolStart6 p0) = [] →
  rtc (pool_step valid_ip) p0 p → valid_ip realIP → (alloc_locked p now nano realIP is6).1 = AllocNew c v →
  in_net (if is6 then GetPoolNet6 p else GetPoolNet p) c ∧ (is6 = false → usable c) ∧
  (∀ n t, env "POOL_SIZE_V4" = Some t → mask_text n t → 1 ≤ n ≤ 32 → cidrMask p0 = n) ∧
  (∀ n t, env "POOL_SIZE_V6" = Some t → mask_text n t → 1 ≤ n ≤ 128 → cidrMask6 p0 = Z.max n 97).
Proof.
  intros p0 H1 Hst H6 Hs Hv Ha.
  destruct (engine_sizes env) as [Hsz4 Hsz6]. fold p0 in Hsz4, Hsz6.
  apply Logic.and_assoc. split; [|split].
  - destruct is6.
    + split; [|done]. by apply (allocated_in_subnet6 _ _ _ p now nano realIP c v Hsz6 H6).
    + assert (2 ≤ poolSize p0 < 2 ^ 32) as Hsz by lia.
      destruct (allocated_in_subnet4 _ _ _ p now nano realIP c v Hsz Hst Hs Hv Ha) as [? ?]. auto.
  - intros n t He Ht Hn. destruct (mask_text_plain n t ltac:(lia) Ht) as (T1 & T2 & T3 & _).
    unfold p0, engine_pool, NewIPPoolWithConfig, getIPPoolConfig. cbn [cidrMask PoolSizeV4].
    rewrite (getEnv_plain env _ _ t He T1 T2 T3), (pool_size_v4_mask n t Hn Ht).
    destruct (Z.eqb_spec (2 ^ (32 - n)) 0) as [E|_].
    { assert (0 < 2 ^ (32 - n)) by (apply Z.pow_pos_nonneg; lia). lia. }
    rewrite Z.log2_up_pow2; lia.
  - intros n t He Ht Hn. destruct (mask_text_plain n t ltac:(lia) Ht) as (T1 & T2 & T3 & _).
    unfold p0, engine_pool, NewIPPoolWithConfig, getIPPoolConfig. cbn [cidrMask6 PoolSizeV6].
    rewrite (getEnv_plain env _ _ t He T1 T2 T3), (pool_size_v6_mask n t Hn Ht).
    destruct (Z.eqb_spec (2 ^ (128 - Z.max n 97)) 0) as [E|_].
    { assert (0 < 2 ^ (128 - Z.max n 97)) by (apply Z.pow_pos_nonneg; lia). lia. }
    rewrite Z.log2_up_pow2; lia.
Qed.
End Configured.

Definition demo_env : Env :=
  λ key, if bool_decide (key = "POOL_SIZE_V4") then Some "/15"
         else if bool_decide (key = "ENABLE_IPV6") then Some (String (char 34) ("true" +:+ String (char 34) EmptyString))
         else None.

Lemma configured_fakes_in_net_witness :
  in_net "198.18.0.0/15" (ParseIP "198.18.239.71") ∧ cidrMask (engine_pool demo_env) = 15.
Proof.
  destruct (configured_fakes_in_net demo_env (engine_pool demo_env) 3 1001 (ParseIP "2.2.2.2") false
    (ParseIP "198.18.239.71") 1001) as (H & _ & Hm & _).
  - vm_compute. discriminate.
  - right. vm_compute. discriminate.
  - vm_compute. reflexivity.
  - apply rtc_refl.
  - right. reflexivity.
  - vm_compute. reflexivity.
  - split; [exact H|]. apply (Hm 15 "/15"); [reflexivity|right; reflexivity|split; discriminate].
Defined.

(** The engine and the packet filter read ENABLE_IPV6 with different functions:
    a quoted value enables IPv6 for one and disables it for the other. *)
Theorem quoted_flag_disagrees :
  getEnvBool id demo_env "ENABLE_IPV6" true = true ∧
  parseBoolEnv id (default EmptyString (demo_env "ENABLE_IPV6")) true = false.
Proof. vm_compute. done. Qed.

(** The updater's schedule: after the first poll the polls fall on the multiples
    of the interval, the next one at most an interval away. *)
Lemma poll_times_aligned now interval n l :
  poll_times now interval n = Some l →
  0 < nextTick now interval - now ≤ interval ∧ Forall (λ t, t mod interval = 0) (drop 1 l).
Proof.
  unfold poll_times. destruct (Z.leb_spec interval 0) as [|Hi]; [done|]. intros [= <-].
  assert (nextTick now interval mod interval = 0) as Ht.
  { unfold nextTick, Truncate. destruct (Z.leb_spec interval 0); [lia|].
    rewrite Z.add_mod, Z.mod_same, Z.add_0_r, Z.mod_mod by lia. rewrite Zminus_mod_idemp_r, Z.sub_diag. apply Z.mod_0_l. lia. }
  split.
  - unfold nextTick, Truncate. destruct (Z.leb_spec interval 0); [lia|].
    pose proof (Z.mod_pos_bound now interval Hi). lia.
  - cbn [drop]. apply Forall_cons_2; [done|]. apply Forall_fmap, List.Forall_forall. intros k _. cbn.
    rewrite Z.mod_add by lia. done.
Qed.

(** An interval of zero, which [time.ParseDuration] accepts, ends the updater
    with a panic. *)
Theorem zero_interval_panics now n : poll_times now 0 n = None.
Proof. done. Qed.
