(* ===== verification/Updater.v ===== *)
(** * The list updater ([cmd/nextpath-engine/main.go])

    Polling a remote archive of compiled lists and unpacking it into the result
    directory.  The network is a parameter: [get] answers a request with its
    conditional headers.  The disk is the contents and times of its files
    and the directories asked for; every intermediate state of an extraction is kept, so
    that a crash at any point can be described.  An operation of the operating
    system that fails is an argument. *)

From Stdlib Require Import Ascii.
From Stdlib Require String.
From stdpp Require Import prelude gmap strings.
From S2P Require Import Prelude GoStrings GoText GoPath GoNet.

#[local] Arguments String.append : simpl nomatch.

(** ** Disk *)

(** A file: its content and its modification time. *)
Record File := mkFile { content : string; mtime : Z }.

Abbreviation Store := (gmap string File).

Record Disk := mkDisk { files : Store; made : list string }.

Definition put (t : Z) (path text : string) (d : Disk) : Disk := mkDisk (<[path := mkFile text t]> (files d)) (made d).
Definition remove (path : string) (d : Disk) : Disk := mkDisk (delete path (files d)) (made d).
Definition mkdir (path : string) (d : Disk) : Disk := mkDisk (files d) (made d ++ [path]).
Definition rename (from to : string) (d : Disk) : Disk :=
  match files d !! from with
  | Some f => mkDisk (<[to := f]> (delete from (files d))) (made d)
  | None => d
  end.

(** ** The archive *)

Inductive TypeFlag := TypeDir | TypeReg | TypeOther.

(** A member: [hdr_data] is what can be read of its body, [hdr_whole] whether
    reading it succeeds. *)
Record TarHeader := mkTarHeader {
  hdr_Name : string;
  hdr_Type : TypeFlag;
  hdr_Size : Z;
  hdr_data : string;
  hdr_whole : bool;
}.

(** [arc_end] tells whether the members end cleanly. *)
Record Archive := mkArchive { arc_members : list TarHeader; arc_end : bool }.

(** The first operation on a member that fails; [Copying n] after [n] bytes. *)
Inductive Fault := Opening | Copying (n : nat) | Syncing | Closing | Renaming.

Definition max_member : Z := 500 * 1024 * 1024.

Definition tmpPath (targetPath : string) : string := targetPath +:+ ".tmp".

(** The extraction of one regular file: the states of the disk, oldest first,
    and the error.  [removed] is whether the temporary file could be removed, [t]
    the time it is written at, which renaming keeps. *)
Definition extract_regular (fault : option Fault) (removed : bool) (t : Z) (targetPath : string) (h : TarHeader) (d : Disk)
    : list Disk * option string :=
  let tmp := tmpPath targetPath in
  let cleanup (d : Disk) := if removed then remove tmp d else d in
  let d1 := mkdir (Dir targetPath) d in
  match fault with
  | Some Opening => ([d1], Some ("failed to create temp file " +:+ tmp))
  | _ =>
      let d2 := put t tmp EmptyString d1 in
      if max_member <? hdr_Size h then ([d1; d2; cleanup d2], Some ("file " +:+ hdr_Name h +:+ " is too large"))
      else
        let copied :=
          match fault with
          | Some (Copying n) => of_chars (take n (chars (hdr_data h)))
          | _ => hdr_data h
          end in
        let d3 := put t tmp copied d2 in
        let failed (msg : string) := ([d1; d2; d3; cleanup d3], Some msg) in
        if negb (hdr_whole h) then failed "unexpected EOF"
        else match fault with
             | Some (Copying _) => failed "copy"
             | Some Syncing => failed "sync"
             | Some Closing => failed "close"
             | Some Renaming => failed "rename"
             | _ => ([d1; d2; d3; rename tmp targetPath d3], None)
             end
  end.

(** The path of a member; [None] when it is skipped. *)
Definition member_path (targetDir : string) (h : TarHeader) : option string :=
  let targetPath := Join targetDir (Clean (hdr_Name h)) in
  if has_prefix targetPath (Clean targetDir +:+ slash) then Some targetPath else None.

(** The disk after the states, [d] before them. *)
Definition final (d : Disk) (states : list Disk) : Disk := foldl (λ _ d', d') d states.

Definition extract_member (fault : option Fault) (removed : bool) (t : Z) (targetDir : string) (h : TarHeader) (d : Disk)
    : list Disk * option string :=
  match member_path targetDir h with
  | None => ([], None)
  | Some targetPath =>
      match hdr_Type h with
      | TypeDir => ([mkdir targetPath d], None)
      | TypeReg => extract_regular fault removed t targetPath h d
      | TypeOther => ([], None)
      end
  end.

(** The loop over the members; the faults and the times are given per member. *)
Fixpoint extract (faults : nat → option Fault) (removed : nat → bool) (clock : nat → Z) (targetDir : string)
    (members : list TarHeader) (clean_end : bool) (i : nat) (d : Disk) : list Disk * option string :=
  match members with
  | [] => ([], if clean_end then None else Some "failed to read tar header")
  | h :: rest =>
      let '(states, err) := extract_member (faults i) (removed i) (clock i) targetDir h d in
      match err with
      | Some _ => (states, err)
      | None =>
          let '(states', err') := extract faults removed clock targetDir rest clean_end (S i) (final d states) in
          (states ++ states', err')
      end
  end.

(** ** The request *)

(** [resp_archive] is [None] when the body is no gzip stream. *)
Record Response := mkResponse {
  StatusCode : Z;
  resp_ETag : string;
  resp_LastModified : string;
  resp_archive : option Archive;
}.

Definition archive_url (sourceURL : string) : string :=
  if has_suffix sourceURL ".tar.gz" then sourceURL
  else if has_suffix sourceURL "/" then sourceURL +:+ "result.tar.gz" else sourceURL +:+ "/result.tar.gz".

Section Update.
(** A request: its URL and, when they are set, the two conditional headers. *)
Context (get : string → option string → option string → Response + string).
Context (faults : nat → option Fault) (removed : nat → bool) (clock : nat → Z).
(** What fails of the write of the validators, whose error is ignored. *)
Context (meta_fault : option Fault).

Definition header_opt (s : string) : option string := if bool_decide (s = EmptyString) then None else Some s.

(** [downloadRemoteFiles]: the states of the disk and the new validators;
    [now] is the clock in nanoseconds. *)
Definition downloadRemoteFiles (now : Z) (sourceURL targetDir lastETag lastModified : string) (d : Disk)
    : list Disk * ((string * string) + string) :=
  match get (archive_url sourceURL) (header_opt lastETag) (header_opt lastModified) with
  | inr e => ([], inr ("failed to fetch archive: " +:+ e))
  | inl resp =>
      if StatusCode resp =? 304 then ([], inl (lastETag, lastModified))
      else if negb (StatusCode resp =? 200) then ([], inr ("status code " +:+ itoa (StatusCode resp)))
      else
        let newLastMod := resp_LastModified resp in
        let newETag :=
          if bool_decide (resp_ETag resp = EmptyString) && bool_decide (newLastMod = EmptyString)
          then "no-cache-" +:+ itoa now else resp_ETag resp in
        match resp_archive resp with
        | None => ([], inr "failed to initialize gzip reader")
        | Some arc =>
            let d0 := mkdir targetDir d in
            let '(states, err) := extract faults removed clock targetDir (arc_members arc) (arc_end arc) 0 d0 in
            (d0 :: states, match err with Some e => inr e | None => inl (newETag, newLastMod) end)
        end
  end.

Definition etag_file (resultDir : string) : string := Join resultDir ".etag".

(** [os.WriteFile]: the file is truncated before it is written, and a failing
    write leaves the bytes before the failure. *)
Definition WriteFile (fault : option Fault) (t : Z) (path text : string) (d : Disk) : list Disk :=
  match fault with
  | Some Opening => []
  | _ =>
      let d1 := put t path EmptyString d in
      [d1; put t path (match fault with Some (Copying n) => of_chars (take n (chars text)) | _ => text end) d1]
  end.

Definition newline_char : ascii := char 10.

(** The validators kept in the file, and how they are read back. *)
Definition save_meta (etag lastMod : string) : string := etag +:+ String newline_char lastMod.

Definition parse_meta (text : string) : string * string :=
  let meta := TrimSpace text in
  match cut_char newline_char meta with
  | Some (a, b) => (TrimSpace a, TrimSpace b)
  | None => (meta, EmptyString)
  end.

Definition read_meta (resultDir : string) (d : Disk) : string * string :=
  parse_meta (default EmptyString (content <$> files d !! etag_file resultDir)).

Definition is_http (source : string) : bool := has_prefix source "http://" || has_prefix source "https://".

(** [runReload] of the updater for a remote source. *)
Definition runReload (now : Z) (source resultDir : string) (d : Disk) : list Disk :=
  if negb (is_http source) then []
  else
    let '(lastETag, lastLastMod) := read_meta resultDir d in
    let '(states, res) := downloadRemoteFiles now source resultDir lastETag lastLastMod d in
    match res with
    | inr _ => states
    | inl (newETag, newLastMod) =>
        if bool_decide (newETag ≠ lastETag) || bool_decide (newLastMod ≠ lastLastMod)
        then states ++ WriteFile meta_fault now (etag_file resultDir) (save_meta newETag newLastMod) (final d states)
        else states
    end.

(** The single download of [main] in COMPILE_ONLY mode; [true] when it exits
    without error. *)
Definition fetch_once (now : Z) (source resultDir : string) (d : Disk) : list Disk * bool :=
  if negb (is_http source) then ([], true)
  else
    let '(lastETag, lastLastMod) := read_meta resultDir d in
    let '(states, res) := downloadRemoteFiles now source resultDir lastETag lastLastMod d in
    match res with
    | inr _ => (states, false)
    | inl (newETag, newLastMod) =>
        (states ++ WriteFile meta_fault now (etag_file resultDir) (save_meta newETag newLastMod) (final d states), true)
    end.
End Update.
