(* ===== verification/UpdaterFacts.v ===== *)
(** * The list updater: confinement, atomic replacement, remembered validators *)

From Stdlib Require Import Ascii.
From Stdlib Require String.
From stdpp Require Import prelude gmap strings.
From S2P Require Import Prelude GoStrings GoText GoPath GoNet GoNetFacts Updater.

#[local] Arguments String.append : simpl nomatch.

Create HintDb disk.

(** ** Lemmas: what an extraction can do to the disk *)

Section Extraction.
Context (targetDir : string) (Habs : IsAbs targetDir = true).

Definition in_dir (p : string) : Prop := ∃ l, under targetDir l p.

Lemma member_inside h p : member_path targetDir h = Some p → in_dir p.
Proof. unfold member_path. case_match eqn:E; [|done]. intros [= <-]. by apply Join_under. Qed.

Lemma tmp_inside p : in_dir p → in_dir (tmpPath p).
Proof. intros [l Hl]. apply (under_suffix _ l p ".tmp" Hl); [done|cbn; lia]. Qed.

Lemma tmp_suffix p : has_suffix (tmpPath p) ".tmp" = true.
Proof. apply has_suffix_iff. by exists p. Qed.

(** A member whose complete content may stand at [p]. *)
Definition delivers (members : list TarHeader) (p text : string) : Prop :=
  ∃ h, h ∈ members ∧ hdr_Type h = TypeReg ∧ hdr_whole h = true ∧ member_path targetDir h = Some p ∧ text = hdr_data h.

(** A directory the extraction may create. *)
Definition dir_ok (q : string) : Prop := q = targetDir ∨ q = Clean targetDir ∨ in_dir q.

(** How a state of an extraction of [members] relates to the disk [d0] before. *)
Record disk_ok (members : list TarHeader) (d0 d : Disk) : Prop := {
  ok_inside p : files d !! p ≠ files d0 !! p → in_dir p;
  ok_made q : q ∈ made d → q ∈ made d0 ∨ dir_ok q;
  ok_whole p : has_suffix p ".tmp" = false →
    files d !! p = files d0 !! p ∨ ∃ f, files d !! p = Some f ∧ delivers members p (content f);
}.

Lemma disk_ok_refl members d : disk_ok members d d.
Proof. split; [done|auto|auto]. Qed.

Lemma disk_ok_mono ms ms' d0 d : ms ⊆ ms' → disk_ok ms d0 d → disk_ok ms' d0 d.
Proof.
  intros Hs [H1 H2 H3]. split; [done|done|]. intros p Hp. destruct (H3 p Hp) as [?|(c & ? & h & ? & ?)]; [auto|].
  right. exists c. split; [done|]. exists h. auto.
Qed.

Lemma disk_ok_mkdir ms d0 d q : disk_ok ms d0 d → dir_ok q → disk_ok ms d0 (mkdir q d).
Proof. intros [H1 H2 H3] Hq. split; [done| |done]. cbn. intros q' [?| ->%list_elem_of_singleton]%elem_of_app; auto. Qed.

(** Any change of the temporary file. *)
Lemma disk_ok_tmp ms d0 d d' p :
  in_dir p → made d' = made d → (∀ q, q ≠ tmpPath p → files d' !! q = files d !! q) → disk_ok ms d0 d →
  disk_ok ms d0 d'.
Proof.
  intros Hp Hm Hf [H1 H2 H3]. split.
  - intros q Hq. destruct (decide (q = tmpPath p)) as [-> | Hne]; [by apply tmp_inside|]. rewrite (Hf q Hne) in Hq. auto.
  - rewrite Hm. exact H2.
  - intros q Hq. rewrite Hf; [auto|]. intros ->. by rewrite tmp_suffix in Hq.
Qed.

Lemma disk_ok_put_tmp ms d0 d p c t : in_dir p → disk_ok ms d0 d → disk_ok ms d0 (put t (tmpPath p) c d).
Proof. intros Hp. apply disk_ok_tmp with p; [done|done|]. intros q Hq. cbn. by rewrite lookup_insert_ne. Qed.

Lemma disk_ok_remove_tmp ms d0 d p : in_dir p → disk_ok ms d0 d → disk_ok ms d0 (remove (tmpPath p) d).
Proof. intros Hp. apply disk_ok_tmp with p; [done|done|]. intros q Hq. cbn. by rewrite lookup_delete_ne. Qed.

Lemma disk_ok_put ms d0 d p c t : in_dir p → delivers ms p c → disk_ok ms d0 d → disk_ok ms d0 (put t p c d).
Proof.
  intros Hp Hc [H1 H2 H3]. split.
  - intros q. cbn. rewrite lookup_insert. case_decide; subst; [done|auto].
  - exact H2.
  - intros q Hq. cbn. rewrite lookup_insert. case_decide; subst; [eauto|auto].
Qed.

Lemma rename_put a b c d t : rename a b (put t a c d) = put t b c (remove a (put t a c d)).
Proof. unfold rename, put at 1. cbn [files]. by rewrite lookup_insert_eq. Qed.

Lemma Dir_ok p : in_dir p → dir_ok (Dir p).
Proof. intros [l Hl]. destruct (Dir_under _ _ _ Habs Hl) as [->|?]; [right; by left|right; by right]. Qed.

#[local] Hint Resolve disk_ok_mkdir disk_ok_put_tmp disk_ok_remove_tmp Dir_ok : disk.

Lemma extract_regular_ok ms d0 fault removed t h p d :
  h ∈ ms → hdr_Type h = TypeReg → member_path targetDir h = Some p → disk_ok ms d0 d →
  Forall (disk_ok ms d0) (extract_regular fault removed t p h d).1.
Proof.
  intros Hin Ht Hp Hd. pose proof (member_inside h p Hp) as Hi. unfold extract_regular.
  set (d1 := mkdir (Dir p) d). assert (disk_ok ms d0 d1) as H1 by (unfold d1; auto with disk).
  assert (∀ c, disk_ok ms d0 (put t (tmpPath p) c (put t (tmpPath p) EmptyString d1))) as H3 by auto with disk.
  assert (disk_ok ms d0 (put t (tmpPath p) EmptyString d1)) as H2 by auto with disk.
  assert (∀ x, disk_ok ms d0 x → disk_ok ms d0 (if removed then remove (tmpPath p) x else x)) as Hc
    by (intros x Hx; destruct removed; auto with disk).
  destruct (hdr_whole h) eqn:Ew, (max_member <? hdr_Size h), fault as [[|n| | |]|]; cbn [negb fst];
    repeat apply Forall_cons_2; auto; try apply Forall_nil_2.
  rewrite rename_put. apply disk_ok_put; [done| |auto with disk]. exists h. auto.
Qed.

Lemma final_app d a b : final d (a ++ b) = final (final d a) b.
Proof. apply foldl_app. Qed.

Lemma final_ok (P : Disk → Prop) d l : P d → Forall P l → P (final d l).
Proof. intros Hd Hl. revert d Hd. induction Hl; intros d Hd; cbn; auto. Qed.

Lemma extract_member_ok ms d0 fault removed t h d :
  h ∈ ms → disk_ok ms d0 d → Forall (disk_ok ms d0) (extract_member fault removed t targetDir h d).1.
Proof.
  intros Hin Hd. unfold extract_member. destruct (member_path targetDir h) as [p|] eqn:Ep; [|apply Forall_nil_2].
  destruct (hdr_Type h) eqn:Et; cbn [fst].
  - apply Forall_singleton, disk_ok_mkdir; [done|]. right. right. by apply (member_inside h).
  - by apply extract_regular_ok.
  - apply Forall_nil_2.
Qed.

Lemma extract_ok ms d0 faults removed clock clean_end members : ∀ i d,
  members ⊆ ms → disk_ok ms d0 d →
  Forall (disk_ok ms d0) (extract faults removed clock targetDir members clean_end i d).1.
Proof.
  induction members as [|h members IH]; intros i d Hs Hd; cbn [extract]; [apply Forall_nil_2|].
  pose proof (extract_member_ok ms d0 (faults i) (removed i) (clock i) h d ltac:(set_solver) Hd) as Hm.
  destruct (extract_member (faults i) (removed i) (clock i) targetDir h d) as [states [e|]]; [done|].
  specialize (IH (S i) (final d states) ltac:(set_solver) (final_ok _ _ _ Hd Hm)).
  destruct (extract faults removed clock targetDir members clean_end (S i) (final d states)) as [states' err'].
  cbn [fst] in *. by apply Forall_app.
Qed.

(** ** Lemmas: a complete extraction *)

(** What the members leave on the disk, the first one written at [clock i]: the
    last one at a path wins. *)
Fixpoint unpacked (clock : nat → Z) (i : nat) (members : list TarHeader) (m : Store) : Store :=
  match members with
  | [] => m
  | h :: members' =>
      unpacked clock (S i) members'
        match hdr_Type h, member_path targetDir h with
        | TypeReg, Some p => <[p := mkFile (hdr_data h) (clock i)]> m
        | _, _ => m
        end
  end.

Definition same_files (m m' : Store) : Prop :=
  ∀ p, has_suffix p ".tmp" = false → m !! p = m' !! p.

Lemma unpacked_same clock ms : ∀ i m m', same_files m m' → same_files (unpacked clock i ms m) (unpacked clock i ms m').
Proof.
  induction ms as [|h ms IH]; intros i m m' H; [done|]. cbn. apply IH.
  destruct (hdr_Type h); [done| |done]. destruct (member_path targetDir h) as [p|]; [|done].
  intros q Hq. rewrite !lookup_insert. case_decide; auto.
Qed.

(** Paths of no member stay as they are. *)
Lemma unpacked_other clock ms p : Forall (λ h, member_path targetDir h ≠ Some p) ms → ∀ i m,
  unpacked clock i ms m !! p = m !! p.
Proof.
  induction 1 as [|h ms Hh Hms IH]; intros i m; [done|]. cbn [unpacked].
  rewrite IH. destruct (hdr_Type h); [done| |done].
  destruct (member_path targetDir h) as [q|]; [|done]. apply lookup_insert_ne. congruence.
Qed.

Lemma extract_regular_installs fault removed t h p d states :
  extract_regular fault removed t p h d = (states, None) →
  same_files (files (final d states)) (<[p := mkFile (hdr_data h) t]> (files d)).
Proof.
  unfold extract_regular. destruct (hdr_whole h), (max_member <? hdr_Size h), fault as [[|n| | |]|];
    cbn [negb]; intros [= <-]. cbn [final foldl]. rewrite rename_put.
  intros q Hq. cbn [files put remove mkdir]. rewrite !lookup_insert. case_decide; [done|].
  assert (q ≠ tmpPath p) by (intros ->; by rewrite tmp_suffix in Hq).
  by rewrite lookup_delete_ne, !lookup_insert_ne.
Qed.

Lemma extract_member_installs fault removed clock i h d states :
  extract_member fault removed (clock i) targetDir h d = (states, None) →
  same_files (files (final d states)) (unpacked clock i [h] (files d)).
Proof.
  unfold extract_member. cbn [unpacked].
  destruct (member_path targetDir h) as [p|]; [|intros [= <-]; by destruct (hdr_Type h)].
  destruct (hdr_Type h); [by intros [= <-]| |by intros [= <-]]. apply extract_regular_installs.
Qed.

Lemma extract_installs faults removed clock clean_end members : ∀ i d states,
  extract faults removed clock targetDir members clean_end i d = (states, None) →
  same_files (files (final d states)) (unpacked clock i members (files d)).
Proof.
  induction members as [|h members IH]; intros i d states; cbn [extract]; [by intros [= <-]|].
  destruct (extract_member (faults i) (removed i) (clock i) targetDir h d) as [states1 [e|]] eqn:Em; [done|].
  destruct (extract faults removed clock targetDir members clean_end (S i) (final d states1)) as [states2 err] eqn:Ee.
  intros [= <- ->]. rewrite final_app. specialize (IH _ _ _ Ee). intros p Hp. rewrite (IH p Hp).
  apply (unpacked_same clock members (S i) _ (unpacked clock i [h] (files d))); [|done]. by eapply extract_member_installs.
Qed.
End Extraction.

(** ** Lemmas: the validators *)

Lemma etag_not_tmp resultDir : has_suffix (etag_file resultDir) ".tmp" = false.
Proof.
  destruct (has_suffix (etag_file resultDir) ".tmp") eqn:E; [|done]. exfalso.
  destruct (Join_name resultDir) as [t Ht].
  unfold etag_file in E. rewrite Ht in E by (by split_and!). apply has_suffix_iff in E as [u E].
  apply (f_equal (λ s, rev (chars s))) in E. rewrite !chars_app, !rev_app_distr in E. discriminate E.
Qed.

(** A validator as a header carries it: no spaces at its ends, one line. *)
Definition validator (s : string) : Prop := trimmed s = true ∧ contains_char s newline_char = false.

Lemma meta_roundtrip etag lastMod :
  validator etag → validator lastMod → etag ≠ EmptyString → parse_meta (save_meta etag lastMod) = (etag, lastMod).
Proof.
  intros [He He'] [Hl Hl'] Hne. unfold parse_meta, save_meta.
  destruct (decide (lastMod = EmptyString)) as [-> | Hne2].
  - change (etag +:+ String newline_char EmptyString) with (EmptyString +:+ etag +:+ String newline_char EmptyString).
    rewrite TrimSpace_over by done.
    destruct (cut_char newline_char etag) as [[a b]|] eqn:E; [|done].
    apply cut_char_some in E. subst etag. rewrite contains_char_app in He'. unfold contains_char in He'.
    cbn [str_existsb] in He'. rewrite Ascii.eqb_refl, orb_true_r in He'. done.
  - assert (TrimSpace (etag +:+ String newline_char lastMod) = etag +:+ String newline_char lastMod) as ->.
    { apply TrimSpace_trimmed. by apply (trimmed_app etag lastMod Hne Hne2 He Hl (String newline_char EmptyString)). }
    rewrite cut_char_first by done. by rewrite !TrimSpace_trimmed.
Qed.

(** Every state of a write in place: the file holds a beginning of the text. *)
Lemma WriteFile_states fault t path text d :
  Forall (λ d', made d' = made d ∧ (∀ p, p ≠ path → files d' !! p = files d !! p) ∧
            ∃ n, files d' !! path = Some (mkFile (of_chars (take n (chars text))) t)) (WriteFile fault t path text d).
Proof.
  assert (∀ d0 c, made d0 = made d → (∀ p, p ≠ path → files d0 !! p = files d !! p) →
    (∃ n, c = of_chars (take n (chars text))) →
    made (put t path c d0) = made d ∧ (∀ p, p ≠ path → files (put t path c d0) !! p = files d !! p) ∧
    ∃ n, files (put t path c d0) !! path = Some (mkFile (of_chars (take n (chars text))) t)) as Hp.
  { intros d0 c Hm Hf [n ->]. cbn. split_and!; [done| |exists n; by rewrite lookup_insert_eq].
    intros p Hne. rewrite lookup_insert_ne by done. auto. }
  unfold WriteFile. assert (∃ n, EmptyString = of_chars (take n (chars text))) as H0 by (by exists 0%nat).
  assert (∃ n, text = of_chars (take n (chars text))) as H1.
  { exists (length (chars text)). rewrite take_ge by done. by rewrite of_chars_chars. }
  assert (∀ c, (∃ n, c = of_chars (take n (chars text))) →
    Forall (λ d', made d' = made d ∧ (∀ p, p ≠ path → files d' !! p = files d !! p) ∧
      ∃ n, files d' !! path = Some (mkFile (of_chars (take n (chars text))) t))
      [put t path EmptyString d; put t path c (put t path EmptyString d)]) as H2.
  { intros c Hc. repeat apply Forall_cons_2; [by apply Hp| |apply Forall_nil_2].
    apply Hp; [done| |done]. intros p Hne. cbn. by rewrite lookup_insert_ne. }
  destruct fault as [[]|]; try (by apply H2); [done|]. apply H2. eauto.
Qed.

Lemma WriteFile_other fault t path text d p :
  p ≠ path → files (final d (WriteFile fault t path text d)) !! p = files d !! p.
Proof.
  intros Hne. pose proof (WriteFile_states fault t path text d) as H. revert H.
  destruct (WriteFile fault t path text d) as [|x l _] using rev_ind; [done|].
  rewrite final_app. cbn. intros [_ H]%Forall_app. apply Forall_singleton in H as (_ & H & _). auto.
Qed.

Section Poll.
Context (get : string → option string → option string → Response + string).
Context (faults : nat → option Fault) (removed : nat → bool) (clock : nat → Z) (meta_fault : option Fault).
Context (now : Z) (source resultDir : string).

Abbreviation download d :=
  (downloadRemoteFiles get faults removed clock now source resultDir (read_meta resultDir d).1 (read_meta resultDir d).2 d).
Abbreviation poll d := (runReload get faults removed clock meta_fault now source resultDir d).

Lemma download_states lastETag lastMod d :
  IsAbs resultDir = true →
  let '(states, res) := downloadRemoteFiles get faults removed clock now source resultDir lastETag lastMod d in
  Forall (λ d', ∃ resp arc, get (archive_url source) (header_opt lastETag) (header_opt lastMod) = inl resp ∧
            resp_archive resp = Some arc ∧ disk_ok resultDir (arc_members arc) d d') states.
Proof.
  intros Ha. unfold downloadRemoteFiles.
  destruct (get (archive_url source) (header_opt lastETag) (header_opt lastMod)) as [resp|e]; [|done].
  destruct (StatusCode resp =? 304); [done|]. destruct (negb (StatusCode resp =? 200)); [done|].
  destruct (resp_archive resp) as [arc|] eqn:Earc; [|done].
  set (d0 := mkdir resultDir d).
  assert (disk_ok resultDir (arc_members arc) d d0) as H0.
  { apply disk_ok_mkdir; [apply disk_ok_refl|by left]. }
  pose proof (extract_ok resultDir Ha (arc_members arc) d faults removed clock (arc_end arc) (arc_members arc) 0 d0
    ltac:(done) H0) as H.
  destruct (extract faults removed clock resultDir (arc_members arc) (arc_end arc) 0 d0) as [states err].
  apply Forall_cons_2; [eauto 10|]. eapply Forall_impl; [exact H|]. eauto 10.
Qed.

(** ** Properties *)

(** C30: a poll of the remote lists never touches anything outside the result
    directory (an absolute path), whatever names the archive uses, and replaces
    the lists whole: in every intermediate state, whatever operation fails, a
    file that is neither temporary nor the file of validators either has its old
    content or the complete content of a member of the archive.  The file of
    validators, which is written in place, may also hold a beginning of the new
    validators of a complete download. *)
Theorem update_confined_and_atomic d d' :
  IsAbs resultDir = true → d' ∈ poll d →
  (∀ p, files d' !! p ≠ files d !! p → in_dir resultDir p ∨ p = etag_file resultDir) ∧
  (∀ q, q ∈ made d' → q ∈ made d ∨ dir_ok resultDir q) ∧
  (∀ p, has_suffix p ".tmp" = false →
     files d' !! p = files d !! p ∨
     (∃ resp arc f, get (archive_url source) (header_opt (read_meta resultDir d).1)
                       (header_opt (read_meta resultDir d).2) = inl resp ∧
       resp_archive resp = Some arc ∧ files d' !! p = Some f ∧ delivers resultDir (arc_members arc) p (content f)) ∨
     (p = etag_file resultDir ∧ ∃ etag lastMod n, (download d).2 = inl (etag, lastMod) ∧
       files d' !! p = Some (mkFile (of_chars (take n (chars (save_meta etag lastMod)))) now))).
Proof.
  intros Ha. unfold runReload. destruct (is_http source); [|by intros ?%elem_of_nil]. cbn [negb].
  destruct (read_meta resultDir d) as [e0 l0] eqn:Em. pose proof (download_states e0 l0 d Ha) as Hd.
  cbn [fst snd]. destruct (downloadRemoteFiles get faults removed clock now source resultDir e0 l0 d) as [states res].
  cbn [snd].
  assert (∀ x, x = d ∨ x ∈ states →
    (∀ p, files x !! p ≠ files d !! p → in_dir resultDir p ∨ p = etag_file resultDir) ∧
    (∀ q, q ∈ made x → q ∈ made d ∨ dir_ok resultDir q) ∧
    (∀ p, has_suffix p ".tmp" = false →
       files x !! p = files d !! p ∨
       ∃ resp arc f, get (archive_url source) (header_opt e0) (header_opt l0) = inl resp ∧
         resp_archive resp = Some arc ∧ files x !! p = Some f ∧ delivers resultDir (arc_members arc) p (content f))) as Hs.
  { intros x [-> |Hx]; [split_and!; auto; done|].
    destruct (proj1 (Forall_forall _ _) Hd x Hx) as (resp & arc & H1 & H2 & [H3 H4 H5]).
    split_and!; [auto|auto|]. intros p Hp. destruct (H5 p Hp) as [?|(c & ? & ?)]; eauto 10. }
  assert (∀ x, x ∈ states → _) as Hst by (intros x Hx; exact (Hs x (or_intror Hx))).
  destruct res as [[e l]|]; [|naive_solver].
  destruct (bool_decide (e ≠ e0) || bool_decide (l ≠ l0)); [|naive_solver].
  intros [?|Hw]%elem_of_app; [naive_solver|].
  pose proof (WriteFile_states meta_fault now (etag_file resultDir) (save_meta e l) (final d states)) as HW.
  destruct (proj1 (Forall_forall _ _) HW d' Hw) as (W1 & W2 & n & W3).
  assert (final d states = d ∨ final d states ∈ states) as Hf.
  { clear. destruct states as [|x l] using rev_ind; [by left|]. right. rewrite final_app. cbn. set_solver. }
  destruct (Hs _ Hf) as (H1 & H2 & H3). rewrite W1. split_and!; [|done|].
  - intros p. destruct (decide (p = etag_file resultDir)) as [-> |Hne]; [auto|]. rewrite W2 by done. auto.
  - intros p Hp. destruct (decide (p = etag_file resultDir)) as [-> |Hne]; [eauto 10|].
    rewrite W2 by done. destruct (H3 p Hp); auto.
Qed.

(** C31: a poll that downloads an archive without error leaves the archive's
    regular members (the last one at a path wins) on top of the files that were
    there.  When the server sent an ETag, the validators have no line breaks or
    surrounding spaces, the archive has no member .etag and the validators could
    be written, it remembers them: the next poll sends them, and when the server then answers
    that nothing changed, nothing does. *)
Theorem update_installs_and_remembers d resp arc e l states :
  is_http source = true →
  get (archive_url source) (header_opt (read_meta resultDir d).1) (header_opt (read_meta resultDir d).2) = inl resp →
  StatusCode resp = 200 → resp_archive resp = Some arc →
  download d = (states, inl (e, l)) →
  let d' := final d (poll d) in
  (∀ p, has_suffix p ".tmp" = false → p ≠ etag_file resultDir →
     files d' !! p = unpacked resultDir clock 0 (arc_members arc) (files d) !! p) ∧
  (meta_fault = None → validator (resp_ETag resp) → resp_ETag resp ≠ EmptyString → validator (resp_LastModified resp) →
   Forall (λ h, member_path resultDir h ≠ Some (etag_file resultDir)) (arc_members arc) →
     read_meta resultDir d' = (resp_ETag resp, resp_LastModified resp) ∧
     ∀ get' resp' faults' removed' clock' meta_fault' now',
       get' (archive_url source) (Some (resp_ETag resp)) (header_opt (resp_LastModified resp)) = inl resp' →
       StatusCode resp' = 304 → runReload get' faults' removed' clock' meta_fault' now' source resultDir d' = []).
Proof.
  intros Hh Hg Hs Harc Hd. cbn zeta. pose proof Hd as Hd'. unfold runReload. rewrite Hh. cbn [negb].
  destruct (read_meta resultDir d) as [e0 l0] eqn:Em. cbn [fst snd] in *. rewrite Hd.
  unfold downloadRemoteFiles in Hd'. rewrite Hg, Hs, Harc in Hd'. cbn [Z.eqb negb] in Hd'.
  change (200 =? 304) with false in Hd'. change (200 =? 200) with true in Hd'. cbn [negb] in Hd'.
  destruct (extract faults removed clock resultDir (arc_members arc) (arc_end arc) 0 (mkdir resultDir d))
    as [sts err] eqn:Ee. destruct err as [?|]; [by simplify_eq|].
  injection Hd' as <- He Hl. apply extract_installs in Ee. cbn [files mkdir] in Ee.
  set (dd := final (mkdir resultDir d) sts) in *.
  set (changed := bool_decide (e ≠ e0) || bool_decide (l ≠ l0)).
  set (written := WriteFile meta_fault now (etag_file resultDir) (save_meta e l) dd).
  set (last := if changed then final dd written else dd).
  assert (final d (if changed then (mkdir resultDir d :: sts) ++ WriteFile meta_fault now (etag_file resultDir) (save_meta e l)
      (final d (mkdir resultDir d :: sts)) else mkdir resultDir d :: sts) = last) as ->.
  { unfold last. destruct changed; [|done]. by rewrite final_app. }
  split.
  - intros p Hp Hne. rewrite <- (Ee p Hp). unfold last. destruct changed; [|done].
    by apply WriteFile_other.
  - intros -> Hv Hne Hvl Hno. rewrite bool_decide_false in He by done. cbn [andb] in He. subst e l.
    assert (read_meta resultDir last = (resp_ETag resp, resp_LastModified resp)) as Hm.
    { unfold last. destruct changed eqn:Ec.
      - unfold read_meta, written. cbn. rewrite lookup_insert_eq. cbn. by apply meta_roundtrip.
      - unfold changed in Ec. apply orb_false_iff in Ec as [E1 E2].
        apply bool_decide_eq_false, dec_stable in E1, E2. rewrite E1, E2, <- Em. unfold read_meta.
        rewrite (Ee _ (etag_not_tmp resultDir)). by rewrite unpacked_other. }
    split; [done|]. intros get' resp' faults' removed' clock' meta_fault' now' Hg' Hs'. rewrite Hm.
    unfold downloadRemoteFiles. unfold header_opt at 1. rewrite bool_decide_false, Hg', Hs' by done.
    change (304 =? 304) with true. cbn iota. rewrite !bool_decide_false by auto. done.
Qed.
End Poll.

(** ** Witnesses *)

Definition demo_archive : Archive :=
  mkArchive [mkTarHeader "./" TypeDir 0 EmptyString true; mkTarHeader "./proxy.rpz" TypeReg 4 "zone" true;
             mkTarHeader "../../../etc/passwd" TypeReg 4 "root" true] true.

Definition demo_get (etag lastMod : string) (url : string) (inm ims : option string) : Response + string :=
  if bool_decide (inm = Some etag) || (bool_decide (ims = Some lastMod) && bool_decide (inm = None))
  then inl (mkResponse 304 EmptyString EmptyString None)
  else inl (mkResponse 200 etag lastMod (Some demo_archive)).

Definition demo_dir : string := "/app/nextpath/result".
Definition demo_url : string := "https://example.org/lists".
Definition demo_poll (etag lastMod : string) (d : Disk) : list Disk :=
  runReload (demo_get etag lastMod) (λ _, None) (λ _, true) Z.of_nat None 7 demo_url demo_dir d.
Definition demo_disk : Disk := mkDisk ∅ [].
Definition demo_date : string := "Mon, 02 Jan 2006 15:04:05 GMT".

Lemma update_confined_and_atomic_witness :
  files (final demo_disk (demo_poll "e1" demo_date demo_disk)) !! "/app/nextpath/result/proxy.rpz" = Some (mkFile "zone" 1) ∧
  (in_dir demo_dir "/app/nextpath/result/proxy.rpz" ∨ "/app/nextpath/result/proxy.rpz" = etag_file demo_dir).
Proof.
  split; [vm_compute; reflexivity|].
  apply (update_confined_and_atomic (demo_get "e1" demo_date) (λ _, None) (λ _, true) Z.of_nat None 7 demo_url demo_dir demo_disk
    (final demo_disk (demo_poll "e1" demo_date demo_disk))); [reflexivity| |vm_compute; discriminate].
  apply list_elem_of_In. vm_compute. do 6 right. left. reflexivity.
Defined.

Lemma update_installs_and_remembers_witness :
  demo_poll "e1" demo_date (final demo_disk (demo_poll "e1" demo_date demo_disk)) = [].
Proof.
  refine (proj2 (proj2 (update_installs_and_remembers (demo_get "e1" demo_date) (λ _, None) (λ _, true) Z.of_nat None 7 demo_url
    demo_dir demo_disk (mkResponse 200 "e1" demo_date (Some demo_archive)) demo_archive "e1" demo_date _
    eq_refl eq_refl eq_refl eq_refl eq_refl) _ _ _ _ _)
    (demo_get "e1" demo_date) (mkResponse 304 EmptyString EmptyString None) (λ _, None) (λ _, true) Z.of_nat None 7 _ _);
    [reflexivity|split; reflexivity|discriminate|split; reflexivity| |reflexivity|reflexivity].
  repeat apply Forall_cons_2; [..|apply Forall_nil_2]; vm_compute; discriminate.
Defined.

(** A server that sends no ETag is asked with its date as an ETag and without a
    date, so the lists are downloaded again on every poll. *)
Theorem date_only_is_forgotten :
  let d1 := final demo_disk (demo_poll EmptyString demo_date demo_disk) in
  read_meta demo_dir d1 = (demo_date, EmptyString) ∧
  demo_poll EmptyString demo_date d1 ≠ [].
Proof. vm_compute. done. Qed.
