(* ===== verification/Compile.v ===== *)
(** * Compiling the lists ([internal/parser/compiler.go]): sources, cache, fingerprints

    [CompileLists] as a whole: the remote sources are downloaded into a cache,
    the inputs are fingerprinted, and the lists whose fingerprint changed are
    loaded, compiled and written.  The store maps the clean path of a file to its
    content and modification time.  Parameters: the two hash functions in
    hexadecimal, [gunzip], which gives the readable part of a compressed file, and
    those of the domain and prefix components.  Concurrent downloads and loads
    touch different files; they are modelled one after the other. *)

From Stdlib Require Import Ascii.
From Stdlib Require String.
From stdpp Require Import prelude gmap strings sorting.
From S2P Require Import Prelude GoStrings GoText GoPath Filter GoNet Domains IPNets Updater.

#[local] Arguments String.append : simpl nomatch.

(** ** The store *)

(** [fileExists]: an empty file counts as missing. *)
Definition fileExists (fs : Store) (path : string) : bool :=
  match fs !! path with Some f => negb (bool_decide (content f = EmptyString)) | None => false end.

Definition read (fs : Store) (path : string) : string :=
  match fs !! path with Some f => content f | None => EmptyString end.

Definition under_dir (dir path : string) : bool :=
  has_prefix path (if bool_decide (Clean dir = slash) then slash else Clean dir +:+ slash).

Definition string_cmp (a b : string) : comparison := lex_cmp Z.compare (code <$> chars a) (code <$> chars b).

(** [filepath.Walk]: the files below a directory, each directory in the order of
    its names. *)
Definition Walk (dir : string) (fs : Store) : list string :=
  merge_sort (λ a b, Is_true (match lex_cmp string_cmp (split_char "/" a) (split_char "/" b) with Gt => false | _ => true end))
    (filter (λ p, Is_true (under_dir dir p)) (elements (dom fs))).

(** The files the walks of the compiler keep; the name of a file is the last
    element of its path. *)
Definition txt_files (dir : string) (fs : Store) : list string :=
  filter (λ p, Is_true (has_suffix (last_elem p) ".txt")) (Walk dir fs).

Definition TrimSuffix (s p : string) : string :=
  if has_suffix s p then of_chars (take (String.length s - String.length p) (chars s)) else s.

(** [readUrls]; a file that cannot be read has none. *)
Definition readUrls (fs : Store) (path : string) : list string :=
  filter (λ l, Is_true (negb (bool_decide (l = EmptyString)) && negb (has_prefix l "#")))
    (TrimSpace <$> split_char newline_char (read fs path)).

(** [bufio.ScanLines] with the given limit: reading stops at a line that is too
    long, and a final carriage return is dropped. *)
Definition scan_lines (limit : Z) (text : string) : list string :=
  let raw := split_char newline_char text in
  let raw := match List.last raw EmptyString with EmptyString => removelast raw | _ => raw end in
  let fix go (l : list string) : list string :=
    match l with
    | [] => []
    | w :: ws => if str_len w <? limit
                 then TrimSuffix w (String (char 13) EmptyString) :: go ws else []
    end in
  go raw.

(** The lines of an IP list. *)
Definition ip_lines (fs : Store) (path : string) : list string := scan_lines (64 * 1024) (read fs path).

Definition downloadDir (cfg : CompileConfig) : string :=
  if bool_decide (DownloadDir cfg = EmptyString) then "/app/nextpath/download" else DownloadDir cfg.

(** ** The world of one run *)

Record HttpReply := mkReply {
  rp_Status : Z;
  rp_ETag : string;
  rp_LastModified : string;
  rp_Body : string;
  rp_whole : bool;
}.

(** The network, the files that cannot be written and the clock in
    nanoseconds. *)
Record World := mkWorld {
  fetch : string → option string → option string → HttpReply + string;
  fault : string → bool;
  now : Z;
}.

Section Compiler.
Context (sha256_hex md5_hex : string → string) (gunzip : string → option string).
Context (uni_lower : string → string) (idna_ToASCII : string → option string).
Context `{IPSetLib}.

(** The lines of a domain list, which may be compressed. *)
Definition domain_lines (fs : Store) (path : string) : list string :=
  let text := read fs path in
  let text :=
    match text with
    | String a (String b _) =>
        if (code a =? 0x1f) && (code b =? 0x8b) then default text (gunzip text) else text
    | _ => text
    end in
  scan_lines (10 * 1024 * 1024) text.

(** ** The cache *)

Definition getCachedFilepath (dir url stem : string) : string :=
  Join dir (stem +:+ slash +:+ of_chars (take 8 (chars (md5_hex url))) +:+ ".txt").

Definition meta_path (cachedFile : string) : string := cachedFile +:+ ".meta".

(** The validators of a cached file. *)
Definition cached_validators (fs : Store) (cachedFile : string) : option string * option string :=
  if fileExists fs cachedFile then
    match fs !! meta_path cachedFile with
    | Some f =>
        match cut_char newline_char (content f) with
        | Some (etag, lastMod) => (header_opt (TrimSpace etag), header_opt (TrimSpace lastMod))
        | None => (None, None)
        end
    | None => (None, None)
    end
  else (None, None).

Definition downloadOrGetCached (w : World) (dir url stem : string) (fs : Store) : Store * option string :=
  let cachedFile := getCachedFilepath dir url stem in
  let '(inm, ims) := cached_validators fs cachedFile in
  match fetch w url inm ims with
  | inr e => (fs, Some e)
  | inl resp =>
      if rp_Status resp =? 304 then (fs, None)
      else if negb (rp_Status resp =? 200) then (fs, Some ("HTTP " +:+ itoa (rp_Status resp)))
      else if fault w cachedFile || negb (rp_whole resp) then (fs, Some "cache write failed")
      else if bool_decide (rp_Body resp = EmptyString) then (fs, None)
      else
        let fs := <[cachedFile := mkFile (rp_Body resp) (now w)]> fs in
        if negb (bool_decide (rp_ETag resp = EmptyString)) || negb (bool_decide (rp_LastModified resp = EmptyString))
        then (<[meta_path cachedFile := mkFile (save_meta (rp_ETag resp) (rp_LastModified resp)) (now w)]> fs, None)
        else (delete (meta_path cachedFile) fs, None)
  end.

(** The downloads [downloadSources] asks for: URL and stem. *)
Definition source_jobs (cfg : CompileConfig) (fs : Store) : list (string * string) :=
  concat ((λ f, (λ url, (url, TrimSuffix (Base f) ".txt")) <$> readUrls fs f) <$> txt_files (SourcesDir cfg) fs).

(** One download, skipped when its file was seen before. *)
Definition source_job (w : World) (dir : string) (st : Store * gset string) (job : string * string)
    : Store * gset string :=
  let cachedPath := getCachedFilepath dir job.1 job.2 in
  if bool_decide (cachedPath ∈ st.2) then st
  else ((downloadOrGetCached w dir job.1 job.2 st.1).1, {[cachedPath]} ∪ st.2).

(** The removal of cached files no source asks for. *)
Definition drop_stale (active : gset string) (fs : Store) (path : string) : Store :=
  if bool_decide (path ∈ active) then fs else delete (meta_path path) (delete path fs).

Definition downloadSources (w : World) (cfg : CompileConfig) (fs : Store) : Store :=
  let dir := downloadDir cfg in
  let '(fs, active) := foldl (source_job w dir) (fs, ∅) (source_jobs cfg fs) in
  foldl (drop_stale active) fs (txt_files dir fs).

(** ** Fingerprints *)

Inductive FileType := IPs | Domains_.

Definition is_ips_path (path : string) : bool :=
  Contains (last_elem path) "-ips.txt" || Contains path "/include-ips/" || Contains path "/exclude-ips/".

Definition of_type (t : FileType) (path : string) : bool :=
  match t with IPs => is_ips_path path | Domains_ => negb (is_ips_path path) end.

Definition show_bool (b : bool) : string := if b then "true" else "false".

Definition stamp (fs : Store) (path : string) : string :=
  Base path +:+ match fs !! path with
                | Some f => itoa (str_len (content f)) +:+ ":" +:+ itoa (mtime f)
                | None => EmptyString
                end.

(** The text [getStateHash] hashes; [env] is [os.Getenv]. *)
Definition state_text (env : string → string) (cfg : CompileConfig) (fs : Store) (t : FileType) : string :=
  let files := sort_strings (filter (λ p, Is_true (of_type t p))
    (concat ((λ d, txt_files d fs) <$> [SourcesDir cfg; ManualDir cfg; downloadDir cfg]))) in
  foldr (λ p acc, stamp fs p +:+ acc) EmptyString files
  +:+ "ROUTE_ALL=" +:+ show_bool (RouteAll cfg) +:+ "FILTER_CASINO=" +:+ show_bool (FilterCasino cfg)
  +:+ "LIMIT=" +:+ itoa (Limit cfg) +:+ "BLOCK_ADS=" +:+ show_bool (BlockAds cfg)
  +:+ "ENABLE_IPV6=" +:+ show_bool (EnableIPv6 cfg)
  +:+ "IPV6_PROXY_ONLY=" +:+ env "IPV6_PROXY_ONLY" +:+ "NEXTPATH_DNS_IP=" +:+ env "NEXTPATH_DNS_IP"
  +:+ "FAKE_IP=" +:+ env "FAKE_IP" +:+ "FAKE_IP6=" +:+ env "FAKE_IP6".

Definition getStateHash (env : string → string) (cfg : CompileConfig) (fs : Store) (t : FileType) : string :=
  sha256_hex (state_text env cfg fs t).

(** ** Loading *)

Definition sources_file (cfg : CompileConfig) (name : string) : string :=
  if Contains name "rpz" && negb (Contains name "rpz2") then Join (SourcesDir cfg) "rpz.txt"
  else if Contains name "rpz2" then Join (SourcesDir cfg) "rpz2.txt"
  else Join (SourcesDir cfg) (name +:+ ".txt").

Definition list_urls (cfg : CompileConfig) (fs : Store) (name : string) : list string :=
  readUrls fs (sources_file cfg name).

Definition cached_of (cfg : CompileConfig) (name url : string) : string :=
  getCachedFilepath (downloadDir cfg) url name.

Definition manual_file (cfg : CompileConfig) (name : string) : string := Join (ManualDir cfg) (name +:+ ".txt").

(** A source without a cached file is downloaded once more before it is read. *)
Definition ensure_cached (w : World) (cfg : CompileConfig) (name : string) (fs : Store) (url : string) : Store :=
  match fs !! cached_of cfg name url with
  | Some _ => fs
  | None => (downloadOrGetCached w (downloadDir cfg) url name fs).1
  end.

Definition ensure_list (w : World) (cfg : CompileConfig) (fs : Store) (name : string) : Store :=
  foldl (ensure_cached w cfg name) fs (list_urls cfg fs name).

Definition load_domains (cfg : CompileConfig) (fs : Store) (name : string) (filterCasino : bool) : FileResult :=
  loadDomainsWithRules uni_lower idna_ToASCII name filterCasino
    ((λ u, domain_lines fs (cached_of cfg name u)) <$> list_urls cfg fs name)
    (domain_lines fs (manual_file cfg name)).

Definition load_ips (cfg : CompileConfig) (fs : Store) (name : string) : list Prefix :=
  loadIPs (ip_lines fs (manual_file cfg name))
    ((λ u, ip_lines fs (cached_of cfg name u)) <$> list_urls cfg fs name).

(** ** The written lists *)

Definition ip_lists : list string := ["include-ips"; "exclude-ips"; "deny-ips"].

Definition domain_lists (cfg : CompileConfig) : list string :=
  ["include-hosts"] ++ (if BlockAds cfg then ["include-adblock-hosts"; "exclude-adblock-hosts"] else [])
  ++ ["rpz"; "rpz2"; "exclude-hosts"; "remove-hosts"].

(** Names and contents of the IP lists; [None] when the fuel of the aggregation
    does not suffice, which the laws of the prefix sets exclude. *)
Definition ip_outputs (cfg : CompileConfig) (fs : Store) : option (list (string * string)) :=
  '((d4, r4, _), (d6, r6, _)) ←
    compileIPs (Limit cfg) (load_ips cfg fs "include-ips") (load_ips cfg fs "exclude-ips") (load_ips cfg fs "deny-ips");
  Some [("deny-ips-v4.txt", writeIPFile d4); ("route-ips-v4.txt", writeIPFile r4);
        ("deny-ips-v6.txt", writeIPFile d6); ("route-ips-v6.txt", writeIPFile r6)].

Definition raw_of (r : FileResult) : list string := uniqueSliceFromMap (set_of (fr_raw r)).

(** Names and contents of the zones written at time [unix]. *)
Definition domain_outputs (cfg : CompileConfig) (fs : Store) (unix : Z) : list (string * string) :=
  let ads (name : string) := if BlockAds cfg then load_domains cfg fs name false else fr_empty in
  let hpr := load_domains cfg fs "include-hosts" (FilterCasino cfg) in
  let har := ads "include-adblock-hosts" in
  let hae := ads "exclude-adblock-hosts" in
  let hmr := load_domains cfg fs "rpz" false in
  let hd2r := load_domains cfg fs "rpz2" false in
  let exPOnly := fr_rules (load_domains cfg fs "exclude-hosts" false) in
  let exG := fr_rules (load_domains cfg fs "remove-hosts" false) in
  let '(pDoms, pExc) := compile_proxy uni_lower (fr_rules hpr) exPOnly exG in
  let '(adFinal, adExcl) := compile_adblock (fr_rules har) (fr_rules hae) exG in
  let '(mFinal, mExc) := buildSimpleRPZ (fr_rules hmr) in
  let '(d2Final, d2Exc) := buildSimpleRPZ (fr_rules hd2r) in
  let file (name : string) := Join (ResultDir cfg) name in
  [("proxy.rpz", writeRPZFile unix (file "proxy.rpz") pDoms pExc (raw_of hpr) (RouteAll cfg));
   ("adblock.rpz", writeRPZFile unix (file "adblock.rpz") adFinal adExcl (raw_of har) false);
   ("deny.rpz", writeRPZFile unix (file "deny.rpz") mFinal mExc (raw_of hmr) false);
   ("deny2.rpz", writeRPZFile unix (file "deny2.rpz") d2Final d2Exc (raw_of hd2r) false)].

Definition result_path (cfg : CompileConfig) (name : string) : string := Join (ResultDir cfg) name.

(** A file that cannot be written keeps its old content. *)
Definition write_result (w : World) (cfg : CompileConfig) (fs : Store) (out : string * string) : Store :=
  let path := result_path cfg out.1 in
  if fault w path then fs else <[path := mkFile out.2 (now w)]> fs.

(** ** [CompileLists] *)

Definition with_limit (cfg : CompileConfig) : CompileConfig :=
  mkCompileConfig (SourcesDir cfg) (ManualDir cfg) (ResultDir cfg) (DownloadDir cfg) (RouteAll cfg)
    (FilterCasino cfg) (BlockAds cfg) (EnableIPv6 cfg) (if Limit cfg <=? 0 then 500 else Limit cfg).

Definition hash_name (t : FileType) : string := match t with IPs => ".hash_ips" | Domains_ => ".hash_domains" end.

Definition stored_hash (cfg : CompileConfig) (fs : Store) (t : FileType) : string :=
  TrimSpace (read fs (result_path cfg (hash_name t))).

(** The files whose absence forces a compilation. *)
Definition required (t : FileType) : list string :=
  match t with
  | IPs => ["route-ips-v4.txt"; "route-ips-v6.txt"]
  | Domains_ => ["proxy.rpz"; "adblock.rpz"; "deny.rpz"; "deny2.rpz"]
  end.

Definition needed (cfg : CompileConfig) (fs : Store) (hash : string) (t : FileType) : bool :=
  let cached := stored_hash cfg fs t in
  bool_decide (cached = EmptyString) || negb (bool_decide (cached = hash))
  || existsb (λ name, negb (fileExists fs (result_path cfg name))) (required t).

Definition compile_ips (w : World) (cfg : CompileConfig) (fs : Store) : option Store :=
  let fs := foldl (ensure_list w cfg) fs ip_lists in
  outs ← ip_outputs cfg fs;
  Some (foldl (write_result w cfg) fs outs).

Definition compile_domains (w : World) (cfg : CompileConfig) (fs : Store) : Store :=
  let fs := foldl (ensure_list w cfg) fs (domain_lists cfg) in
  foldl (write_result w cfg) fs (domain_outputs cfg fs (now w / 10 ^ 9)).

(** A run whose directories could be created. *)
Definition CompileLists (w : World) (env : string → string) (cfg : CompileConfig) (fs : Store) : option Store :=
  let cfg := with_limit cfg in
  let fs := downloadSources w cfg fs in
  let currentIPsHash := getStateHash env cfg fs IPs in
  let currentDomainsHash := getStateHash env cfg fs Domains_ in
  let compileIPsNeeded := needed cfg fs currentIPsHash IPs in
  let compileDomainsNeeded := needed cfg fs currentDomainsHash Domains_ in
  fs ← (if compileIPsNeeded then compile_ips w cfg fs else Some fs);
  let fs := if compileDomainsNeeded then compile_domains w cfg fs else fs in
  let fs := if compileIPsNeeded then write_result w cfg fs (hash_name IPs, currentIPsHash) else fs in
  let fs := if compileDomainsNeeded then write_result w cfg fs (hash_name Domains_, currentDomainsHash) else fs in
  Some fs.
End Compiler.
