(* ===== verification/CompileFacts.v ===== *)
(** * Compiling the lists: the written zones belong to the stored fingerprint

    A run recompiles the zones when the fingerprint of their inputs differs from
    the stored one; here, that the zones of the result directory always come from
    inputs with the stored fingerprint ([Fingerprints] adds the IP lists), and
    where the fingerprint or the recompilation misses something. *)

From Stdlib Require Import Ascii.
From Stdlib Require String.
From stdpp Require Import prelude gmap strings sorting.
From S2P Require Import Prelude GoStrings GoText GoPath Filter GoNet Domains IPNets IPTrie Updater Compile.

#[local] Arguments String.append : simpl nomatch.

(** ** Lemmas: paths of the cache and of the results *)

Lemma has_suffix_app t s p : has_suffix s p = true → has_suffix (t +:+ s) p = true.
Proof.
  intros [u ->]%has_suffix_iff. apply has_suffix_iff. exists (t +:+ u). by rewrite str_app_assoc.
Qed.

(** Suffixes whose last characters differ exclude each other. *)
Lemma has_suffix_last t s p :
  p ≠ EmptyString → hd_error (rev (chars p)) ≠ hd_error (rev (chars s)) → s ≠ EmptyString →
  has_suffix (t +:+ s) p = false.
Proof.
  intros Hp Hl Hs. destruct (has_suffix (t +:+ s) p) eqn:E; [|done]. exfalso. apply has_suffix_iff in E as [u E].
  apply (f_equal (λ x, rev (chars x))) in E. rewrite !chars_app, !rev_app_distr in E.
  assert (∀ x, x ≠ EmptyString → rev (chars x) ≠ []) as Hne.
  { intros x Hx E0. apply Hx, chars_inj. by rewrite <- (rev_involutive (chars x)), E0. }
  specialize (Hne p Hp) as H1. specialize (Hne s Hs) as H2.
  destruct (rev (chars p)), (rev (chars s)); cbn in *; congruence.
Qed.

(** Neither a list nor the validators of one. *)
Definition not_cache (path : string) : Prop := has_suffix path ".txt" = false ∧ has_suffix path ".meta" = false.

(** Only cached lists, compiled lists and validators differ. *)
Definition same_rest (fs fs' : Store) : Prop := ∀ p, not_cache p → fs' !! p = fs !! p.

Lemma same_rest_trans a b c : same_rest a b → same_rest b c → same_rest a c.
Proof. intros H1 H2 p Hp. by rewrite H2, H1. Qed.

Lemma same_rest_insert fs p f : has_suffix p ".txt" = true ∨ has_suffix p ".meta" = true → same_rest fs (<[p := f]> fs).
Proof. intros Hp q [H1 H2]. apply lookup_insert_ne. intros ->. destruct Hp; congruence. Qed.

Lemma same_rest_delete fs p : has_suffix p ".txt" = true ∨ has_suffix p ".meta" = true → same_rest fs (delete p fs).
Proof. intros Hp q [H1 H2]. apply lookup_delete_ne. intros ->. destruct Hp; congruence. Qed.

Lemma same_rest_foldl {A} (f : Store → A → Store) l fs : (∀ s x, x ∈ l → same_rest s (f s x)) → same_rest fs (foldl f fs l).
Proof.
  revert fs. induction l as [|x l IH]; intros fs Hf; [done|]. cbn.
  eapply same_rest_trans; [apply Hf; by left|]. apply IH. intros s y Hy. apply Hf. by right.
Qed.

Section Facts.
Context (sha256_hex md5_hex : string → string) (gunzip : string → option string).
Context (uni_lower : string → string) (idna_ToASCII : string → option string).
Context `{IPSetLib}.
(** The hash functions return hexadecimal digits. *)
Context (md5_ok : ∀ s, contains_char (md5_hex s) "/" = false).
Context (sha_ok : ∀ s, trimmed (sha256_hex s) = true ∧ sha256_hex s ≠ EmptyString).

Lemma meta_suffix p : has_suffix (meta_path p) ".meta" = true.
Proof. apply has_suffix_iff. by exists p. Qed.

Lemma cached_name_proper url : proper (of_chars (take 8 (chars (md5_hex url))) +:+ ".txt").
Proof.
  set (h := of_chars (take 8 (chars (md5_hex url)))).
  assert (contains_char h "/" = false) as Hh.
  { specialize (md5_ok url). unfold contains_char in *. rewrite str_existsb_chars in *. unfold h.
    rewrite chars_of_chars. apply not_true_is_false. intros (c & Hin & Hc)%existsb_exists.
    apply not_true_iff_false in md5_ok. apply md5_ok, existsb_exists. exists c. split; [|done].
    by apply list_elem_of_In, elem_of_take in Hin as (i & Hi & _); apply list_elem_of_In, list_elem_of_lookup; eauto. }
  assert (String.length (h +:+ ".txt") = (String.length h + 4)%nat) as El.
  { clear. induction h as [|c h IH]; [done|]. cbn. by rewrite IH. }
  repeat split; try (intros E; apply (f_equal String.length) in E; rewrite El in E; cbn in E; lia).
  by rewrite contains_char_app, Hh.
Qed.

Lemma cached_suffix dir url stem : has_suffix (getCachedFilepath md5_hex dir url stem) ".txt" = true.
Proof.
  unfold getCachedFilepath. destruct (Join_last dir stem _ (cached_name_proper url)) as [t ->].
  apply has_suffix_app, has_suffix_iff. by eexists.
Qed.

(** ** Lemmas: downloading *)

(** What a download does: nothing, or the cached file and its validators. *)
Lemma download_cases w dir url stem fs :
  let c := getCachedFilepath md5_hex dir url stem in
  let fs' := (downloadOrGetCached md5_hex w dir url stem fs).1 in
  fs' = fs ∨ ∃ f, (∃ m, fs' = <[meta_path c := m]> (<[c := f]> fs)) ∨ fs' = delete (meta_path c) (<[c := f]> fs).
Proof.
  cbn zeta. unfold downloadOrGetCached.
  destruct (cached_validators fs (getCachedFilepath md5_hex dir url stem)) as [inm ims].
  destruct (fetch w url inm ims) as [resp|e]; [|by left].
  repeat (case_match; [by left|]). right. eexists. case_match; [left; by eexists|by right].
Qed.

Lemma download_rest w dir url stem fs : same_rest fs (downloadOrGetCached md5_hex w dir url stem fs).1.
Proof.
  pose proof (cached_suffix dir url stem) as Hc.
  destruct (download_cases w dir url stem fs) as [-> | (f & [(m & ->) | ->])]; [done|..];
    (eapply same_rest_trans; [apply same_rest_insert; left; exact Hc|]).
  - apply same_rest_insert. right. apply meta_suffix.
  - apply same_rest_delete. right. apply meta_suffix.
Qed.

Lemma txt_files_suffix dir fs p : p ∈ txt_files dir fs → has_suffix p ".txt" = true.
Proof.
  unfold txt_files. rewrite list_elem_of_filter. intros [Hb%Is_true_true _].
  destruct (last_elem_end p) as [t ->]. by apply has_suffix_app.
Qed.

Lemma source_jobs_rest w dir l : ∀ st, same_rest st.1 (foldl (source_job md5_hex w dir) st l).1.
Proof.
  induction l as [|job l IH]; intros st; [done|]. cbn. eapply same_rest_trans; [|apply IH].
  unfold source_job. case_bool_decide; [done|]. apply download_rest.
Qed.

Lemma downloadSources_rest w cfg fs : same_rest fs (downloadSources md5_hex w cfg fs).
Proof.
  unfold downloadSources.
  pose proof (source_jobs_rest w (downloadDir cfg) (source_jobs cfg fs) (fs, ∅)) as H1.
  destruct (foldl _ (fs, ∅) _) as [fs1 active]. eapply same_rest_trans; [exact H1|].
  apply same_rest_foldl. intros s p Hp%txt_files_suffix. unfold drop_stale. case_bool_decide; [done|].
  eapply same_rest_trans; apply same_rest_delete; [by left|right; apply meta_suffix].
Qed.

(** Loading downloads what is missing and leaves the rest alone. *)
Definition retried (fs fs' : Store) : Prop :=
  same_rest fs fs' ∧ ∀ p f, has_suffix p ".meta" = false → fs !! p = Some f → fs' !! p = Some f.

Lemma retried_refl fs : retried fs fs.
Proof. by split. Qed.

Lemma retried_trans a b c : retried a b → retried b c → retried a c.
Proof. intros [H1 H2] [H3 H4]. split; [by eapply same_rest_trans|eauto]. Qed.

Lemma retried_foldl {A} (f : Store → A → Store) l fs : (∀ s x, retried s (f s x)) → retried fs (foldl f fs l).
Proof.
  intros Hf. revert fs. induction l as [|x l IH]; intros fs; [apply retried_refl|]. cbn. by eapply retried_trans.
Qed.

Lemma ensure_retried w cfg names fs : retried fs (foldl (ensure_list md5_hex w cfg) fs names).
Proof.
  apply retried_foldl. intros s name. apply retried_foldl. intros s' url. unfold ensure_cached.
  destruct (s' !! cached_of md5_hex cfg name url) eqn:E; [apply retried_refl|]. unfold cached_of in E.
  split; [apply download_rest|]. intros p f Hp Hf.
  assert (p ≠ getCachedFilepath md5_hex (downloadDir cfg) url name) as Hc by congruence.
  assert (p ≠ meta_path (getCachedFilepath md5_hex (downloadDir cfg) url name)) as Hm.
  { intros ->. by rewrite meta_suffix in Hp. }
  destruct (download_cases w (downloadDir cfg) url name s') as [-> | (g & [(m & ->) | ->])]; [done|..];
    [rewrite lookup_insert_ne by done|rewrite lookup_delete_ne by done]; by rewrite lookup_insert_ne by done.
Qed.

(** ** Lemmas: writing *)

Definition proper_name (n : string) : bool :=
  negb (bool_decide (n = EmptyString)) && negb (bool_decide (n = ".")) && negb (bool_decide (n = ".."))
  && negb (contains_char n "/").

Lemma proper_name_ok n : proper_name n = true → proper n.
Proof.
  unfold proper_name. rewrite !andb_true_iff, !negb_true_iff, !bool_decide_eq_false. unfold proper.
  clear. tauto.
Qed.

Lemma result_path_inj cfg a b :
  proper_name a = true → proper_name b = true → result_path cfg a = result_path cfg b → a = b.
Proof. intros Ha%proper_name_ok Hb%proper_name_ok. by apply Join_inj. Qed.

Lemma result_not_cache cfg n :
  proper_name n = true → hd_error (rev (chars n)) ≠ Some "t"%char → hd_error (rev (chars n)) ≠ Some "a"%char →
  not_cache (result_path cfg n).
Proof.
  intros Hn%proper_name_ok H1 H2. unfold not_cache, result_path. destruct (Join_name (ResultDir cfg)) as [t Ht].
  rewrite Ht by done. split; apply has_suffix_last; try done; try apply Hn; cbn; congruence.
Qed.

Lemma write_result_read w cfg fs name text :
  fault w (result_path cfg name) = false → read (write_result w cfg fs (name, text)) (result_path cfg name) = text.
Proof. intros Hf. unfold write_result, read. cbn. by rewrite Hf, lookup_insert_eq. Qed.

Lemma write_result_other w cfg fs out p : p ≠ result_path cfg out.1 → read (write_result w cfg fs out) p = read fs p.
Proof.
  intros Hp. unfold write_result, read. destruct (fault w (result_path cfg out.1)); [done|]. by rewrite lookup_insert_ne.
Qed.

(** Writing distinct names without a fault leaves each with its text. *)
Lemma write_all_read w cfg outs : ∀ fs,
  NoDup outs.*1 → forallb proper_name outs.*1 = true → (∀ n, fault w (result_path cfg n) = false) →
  ∀ name text, (name, text) ∈ outs → read (foldl (write_result w cfg) fs outs) (result_path cfg name) = text.
Proof.
  clear.
  induction outs as [|[n x] outs IH]; intros fs Hnd Hp Hf name text Hin; [by apply elem_of_nil in Hin|].
  cbn in Hnd, Hp. apply NoDup_cons in Hnd as [Hn Hnd]. apply andb_true_iff in Hp as [Hpn Hp]. cbn [foldl].
  apply elem_of_cons in Hin as [[= -> ->]|Hin]; [|by apply IH].
  assert (∀ s, read (foldl (write_result w cfg) s outs) (result_path cfg n) = read s (result_path cfg n)) as Hkeep.
  { clear IH. rewrite forallb_forall in Hp. induction outs as [|[m y] outs IHo]; intros s; [done|]. cbn.
    rewrite IHo; [|set_solver|by apply NoDup_cons in Hnd as [_ ?]|intros z Hz; apply Hp; by right].
    apply write_result_other. cbn. intros E. apply result_path_inj in E; [set_solver|done|].
    apply Hp. by left. }
  rewrite Hkeep. by apply write_result_read.
Qed.

(** ** Lemmas: the two compilations *)

Definition ip_files : list string := ["deny-ips-v4.txt"; "route-ips-v4.txt"; "deny-ips-v6.txt"; "route-ips-v6.txt"].

Lemma ip_outputs_names cfg fs outs : ip_outputs md5_hex cfg fs = Some outs → outs.*1 = ip_files.
Proof.
  unfold ip_outputs. destruct (compileIPs _ _ _ _) as [[[[d4 r4] ?] [[d6 r6] ?]]|]; [|done]. by intros [= <-].
Qed.

Lemma domain_outputs_names cfg fs unix :
  (domain_outputs md5_hex gunzip uni_lower idna_ToASCII cfg fs unix).*1 = required Domains_.
Proof. unfold domain_outputs. by repeat case_match. Qed.

(** The inputs of a compilation that existed when they were fingerprinted are
    still there; the compiled IP lists may have been replaced. *)
Definition inputs_kept (cfg : CompileConfig) (fs fs' : Store) : Prop :=
  same_rest fs fs' ∧
  ∀ p f, has_suffix p ".meta" = false → p ∉ result_path cfg <$> ip_files → fs !! p = Some f → fs' !! p = Some f.

Lemma write_result_kept w cfg fs out : out.1 ∈ ip_files → inputs_kept cfg fs (write_result w cfg fs out).
Proof.
  intros Ho. unfold write_result. destruct (fault w (result_path cfg out.1)); [by split|]. split.
  - apply same_rest_insert. left. unfold result_path. destruct (Join_name (ResultDir cfg)) as [t Ht].
    assert (proper_name out.1 = true ∧ has_suffix out.1 ".txt" = true) as [H1 H2].
    { unfold ip_files in Ho. set_unfold in Ho. destruct_or!; try done; rewrite Ho; done. }
    rewrite Ht by (by apply proper_name_ok). by apply has_suffix_app.
  - intros p f _ Hp Hf. rewrite lookup_insert_ne; [done|]. intros <-. apply Hp. by apply list_elem_of_fmap_2.
Qed.

Lemma inputs_kept_trans cfg a b c : inputs_kept cfg a b → inputs_kept cfg b c → inputs_kept cfg a c.
Proof. intros [H1 H2] [H3 H4]. split; [by eapply same_rest_trans|eauto]. Qed.

Lemma retried_kept cfg a b : retried a b → inputs_kept cfg a b.
Proof. intros [H1 H2]. split; [done|eauto]. Qed.

Lemma compile_ips_kept w cfg fs fs' : compile_ips md5_hex w cfg fs = Some fs' → inputs_kept cfg fs fs'.
Proof.
  unfold compile_ips. cbv zeta. set (fs1 := foldl _ fs ip_lists).
  assert (inputs_kept cfg fs fs1) as H1 by apply retried_kept, ensure_retried.
  destruct (ip_outputs md5_hex cfg fs1) as [outs|] eqn:Eo; [|done]. cbn [mbind option_bind]. intros [= <-].
  apply ip_outputs_names in Eo. eapply inputs_kept_trans; [exact H1|].
  assert (∀ out, out ∈ outs → out.1 ∈ ip_files) as Hin.
  { intros out Ho. rewrite <- Eo. by apply list_elem_of_fmap_2. }
  clear Eo H1. generalize fs1. clear fs1. induction outs as [|out outs IH]; intros fs1; cbn; [by split|].
  eapply inputs_kept_trans; [apply write_result_kept, Hin; by left|]. apply IH. intros o Ho. apply Hin. by right.
Qed.

(** ** Zones and their fingerprint *)

(** The zones of the result directory were compiled, with some configuration and
    at some time, from a store [fs1] that keeps every input of a store [fs0] with
    the fingerprint [h]. *)
Definition fingerprinted (dir h : string) (fs : Store) : Prop :=
  ∃ env cfg fs0 fs1 unix, ResultDir cfg = dir ∧ getStateHash sha256_hex env cfg fs0 Domains_ = h ∧
    inputs_kept cfg fs0 fs1 ∧
    ∀ name text, (name, text) ∈ domain_outputs md5_hex gunzip uni_lower idna_ToASCII cfg fs1 unix →
      read fs (result_path cfg name) = text.

(** The zones and their stored fingerprint. *)
Definition zone_files : list string := hash_name Domains_ :: required Domains_.

Definition same_zones (cfg : CompileConfig) (fs fs' : Store) : Prop :=
  ∀ n, n ∈ zone_files → read fs' (result_path cfg n) = read fs (result_path cfg n).

Lemma zone_files_ok cfg n : n ∈ zone_files → proper_name n = true ∧ not_cache (result_path cfg n).
Proof.
  intros Hn. assert (proper_name n = true ∧ hd_error (rev (chars n)) ≠ Some "t"%char ∧
    hd_error (rev (chars n)) ≠ Some "a"%char) as (H1 & H2 & H3).
  { unfold zone_files, required in Hn. cbn in Hn. set_unfold in Hn. destruct_or!; try done; rewrite Hn; done. }
  split; [done|]. by apply result_not_cache.
Qed.

Lemma same_rest_zones cfg fs fs' : same_rest fs fs' → same_zones cfg fs fs'.
Proof. intros Hr n Hn. unfold read. rewrite Hr; [done|]. by apply zone_files_ok. Qed.

Lemma fingerprinted_same cfg h fs fs' : same_zones cfg fs fs' → fingerprinted (ResultDir cfg) h fs → fingerprinted (ResultDir cfg) h fs'.
Proof.
  intros Hs (env & cfg0 & fs0 & fs1 & unix & H1 & H2 & H3 & H4). exists env, cfg0, fs0, fs1, unix.
  split; [done|]. split; [done|]. split; [done|]. intros name text Hin. rewrite <- (H4 name text Hin).
  assert (result_path cfg0 name = result_path cfg name) as E by (unfold result_path; by rewrite H1).
  rewrite E. apply Hs. unfold zone_files. right. rewrite <- (domain_outputs_names cfg0 fs1 unix).
  by apply (list_elem_of_fmap_2 fst _ (name, text)).
Qed.

(** A compilation of the zones without faults. *)
Lemma compile_domains_zones w cfg fs :
  (∀ n, fault w (result_path cfg n) = false) →
  ∃ fs1, retried fs fs1 ∧
    ∀ name text, (name, text) ∈ domain_outputs md5_hex gunzip uni_lower idna_ToASCII cfg fs1 (now w / 10 ^ 9) →
      read (compile_domains md5_hex gunzip uni_lower idna_ToASCII w cfg fs) (result_path cfg name) = text.
Proof.
  intros Hf. exists (foldl (ensure_list md5_hex w cfg) fs (domain_lists cfg)). split; [apply ensure_retried|].
  apply write_all_read; [..|done]; rewrite domain_outputs_names; [|done].
  apply (bool_decide_unpack _). vm_compute. done.
Qed.

(** Writing the fingerprints leaves the zones alone. *)
Lemma write_hash_zones w cfg fs t h n :
  n ∈ required Domains_ → read (write_result w cfg fs (hash_name t, h)) (result_path cfg n) = read fs (result_path cfg n).
Proof.
  intros Hn. apply write_result_other. cbn. intros E. apply result_path_inj in E.
  - subst n. unfold required in Hn. set_unfold in Hn. by destruct t; destruct_or!.
  - apply (zone_files_ok cfg). by right.
  - by destruct t.
Qed.

Lemma write_ips_hash_other w cfg fs h n :
  n ∈ zone_files → read (write_result w cfg fs (hash_name IPs, h)) (result_path cfg n) = read fs (result_path cfg n).
Proof.
  intros [-> | Hn]%elem_of_cons; [|by apply write_hash_zones].
  apply write_result_other. cbn. intros E. by apply result_path_inj in E.
Qed.

(** One run. *)
Lemma CompileLists_zones w env cfg fs fs' :
  CompileLists sha256_hex md5_hex gunzip uni_lower idna_ToASCII w env cfg fs = Some fs' →
  (∀ n, fault w (result_path cfg n) = false) →
  (stored_hash cfg fs Domains_ ≠ EmptyString → fingerprinted (ResultDir cfg) (stored_hash cfg fs Domains_) fs) →
  stored_hash cfg fs' Domains_ =
    getStateHash sha256_hex env (with_limit cfg) (downloadSources md5_hex w (with_limit cfg) fs) Domains_ ∧
  fingerprinted (ResultDir cfg) (stored_hash cfg fs' Domains_) fs'.
Proof.
  intros Hc Hf Hold. unfold CompileLists in Hc. set (cfg' := with_limit cfg) in *.
  set (fs1 := downloadSources md5_hex w cfg' fs) in *.
  set (hi := getStateHash sha256_hex env cfg' fs1 IPs) in *.
  set (hd := getStateHash sha256_hex env cfg' fs1 Domains_) in *.
  assert (same_zones cfg fs fs1) as Hz1 by (apply same_rest_zones, downloadSources_rest).
  destruct (if needed cfg' fs1 hi IPs then _ else _) as [fs2|] eqn:E2; [|done].
  cbn [mbind option_bind] in Hc. apply (inj Some) in Hc as <-.
  assert (inputs_kept cfg' fs1 fs2) as Hk.
  { destruct (needed cfg' fs1 hi IPs); [by eapply compile_ips_kept|]. injection E2 as <-. by split. }
  assert (same_zones cfg fs1 fs2) as Hz2 by (apply same_rest_zones, Hk).
  destruct (needed cfg' fs1 hd Domains_) eqn:En.
  - destruct (compile_domains_zones w cfg' fs2 Hf) as (fs3 & Hr & Hout).
    set (fs4 := compile_domains md5_hex gunzip uni_lower idna_ToASCII w cfg' fs2) in *.
    set (fs5 := if needed cfg' fs1 hi IPs then _ else _).
    assert (stored_hash cfg (write_result w cfg' fs5 (hash_name Domains_, hd)) Domains_ = hd) as ->.
    { unfold stored_hash. change (result_path cfg) with (result_path cfg'). rewrite write_result_read by apply Hf.
      apply TrimSpace_trimmed, sha_ok. }
    split; [done|]. exists env, cfg', fs1, fs3, (now w / 10 ^ 9). split; [done|]. split; [done|].
    split; [eapply inputs_kept_trans; [exact Hk|by apply retried_kept]|].
    intros name text Hin. rewrite <- (Hout name text Hin).
    assert (name ∈ required Domains_) as Hn.
    { rewrite <- (domain_outputs_names cfg' fs3 (now w / 10 ^ 9)). by apply (list_elem_of_fmap_2 fst _ (name, text)). }
    rewrite (write_hash_zones w cfg' fs5 Domains_ hd name Hn). unfold fs5.
    destruct (needed cfg' fs1 hi IPs); [exact (write_hash_zones w cfg' fs4 IPs hi name Hn)|reflexivity].
  - set (fs5 := if needed cfg' fs1 hi IPs then _ else _).
    assert (same_zones cfg fs fs5) as Hz.
    { intros n Hn. transitivity (read fs2 (result_path cfg n)); [|by rewrite Hz2, Hz1].
      unfold fs5. destruct (needed cfg' fs1 hi IPs); [exact (write_ips_hash_other w cfg' fs2 hi n Hn)|reflexivity]. }
    assert (∀ x, same_zones cfg fs x → stored_hash cfg x Domains_ = stored_hash cfg fs Domains_) as Hsh.
    { intros x Hx. unfold stored_hash. f_equal. apply Hx. by left. }
    unfold needed in En. apply orb_false_iff in En as [En _]. apply orb_false_iff in En as [En1 En2].
    apply bool_decide_eq_false in En1. apply negb_false_iff, bool_decide_eq_true in En2.
    change (stored_hash cfg' fs1 Domains_) with (stored_hash cfg fs1 Domains_) in En1, En2.
    rewrite (Hsh fs1 Hz1) in En1, En2. rewrite (Hsh fs5 Hz). split; [done|].
    eapply fingerprinted_same; [exact Hz|]. by apply Hold.
Qed.

(** The life of a result directory: runs without write faults, and any change of
    the files by others that leaves the zones and their fingerprint alone. *)
Inductive list_step (dir : string) : Store → Store → Prop :=
  | step_run w env cfg fs fs' :
      ResultDir cfg = dir → (∀ n, fault w (result_path cfg n) = false) →
      CompileLists sha256_hex md5_hex gunzip uni_lower idna_ToASCII w env cfg fs = Some fs' → list_step dir fs fs'
  | step_edit cfg fs fs' : ResultDir cfg = dir → same_zones cfg fs fs' → list_step dir fs fs'.

Lemma list_steps_fingerprinted cfg fs fs' :
  rtc (list_step (ResultDir cfg)) fs fs' →
  (stored_hash cfg fs Domains_ ≠ EmptyString → fingerprinted (ResultDir cfg) (stored_hash cfg fs Domains_) fs) →
  stored_hash cfg fs' Domains_ ≠ EmptyString → fingerprinted (ResultDir cfg) (stored_hash cfg fs' Domains_) fs'.
Proof.
  assert (∀ c x, ResultDir c = ResultDir cfg → stored_hash c x Domains_ = stored_hash cfg x Domains_) as Hs.
  { intros c x Hc. unfold stored_hash, result_path. by rewrite Hc. }
  induction 1 as [|fs fs1 fs' Hstep _ IH]; [done|]. intros Hold. apply IH. intros Hne.
  destruct Hstep as [w env c fs fs1 Hd Hf Hrun|c fs fs1 Hd Hz].
  - rewrite <- Hd, <- (Hs c) by done. eapply CompileLists_zones; [done|done|]. rewrite Hd, Hs by done. done.
  - assert (stored_hash cfg fs1 Domains_ = stored_hash cfg fs Domains_) as E.
    { rewrite <- !(Hs c) by done. unfold stored_hash. f_equal. apply Hz. by left. }
    rewrite E in *. rewrite <- Hd in *. eapply fingerprinted_same; [done|]. auto.
Qed.

End Facts.

(** ** Witnesses and findings *)

Definition demo_sha (s : string) : string := "x" +:+ itoa (str_len s).
Definition demo_md5 (s : string) : string := itoa (10000000 + str_len s).

Lemma demo_md5_ok s : contains_char (demo_md5 s) "/" = false.
Proof.
  destruct (itoa_digits (10000000 + str_len s)) as [Hd _]; [unfold str_len; lia|]. unfold demo_md5, contains_char.
  rewrite str_existsb_chars. rewrite str_forallb_chars, forallb_forall in Hd.
  apply not_true_is_false. intros (c & Hin & Hc)%existsb_exists. apply Ascii.eqb_eq in Hc as <-.
  by specialize (Hd _ Hin).
Qed.

Lemma demo_sha_ok s : trimmed (demo_sha s) = true ∧ demo_sha s ≠ EmptyString.
Proof.
  destruct (itoa_digits (str_len s)) as [Hd Hne]; [unfold str_len; lia|]. split; [|done].
  apply (trimmed_app "x" _ ltac:(done) Hne eq_refl (digits_trimmed _ Hd) EmptyString).
Qed.

Definition demo_cfg : CompileConfig := mkCompileConfig "/s" "/m" "/r" "/d" false false true true 500.

Definition demo_run (w : World) (fs : Store) : option Store :=
  CompileLists demo_sha demo_md5 (λ _, None) id Some w (λ _, EmptyString) demo_cfg fs.

(** A server of one body, reached at time [t]. *)
Definition demo_world (body : string) (bad : option string) (t : Z) : World :=
  mkWorld (λ _ _ _, inl (mkReply 200 EmptyString EmptyString body true)) (λ p, bool_decide (Some p = bad)) t.

Definition lines_of (l : list string) : string := foldr (λ x acc, x +:+ nl +:+ acc) EmptyString l.

Definition demo_store (routes : list string) : Store :=
  list_to_map [("/s/deny-ips.txt", mkFile (lines_of ["http://deny.example/list"]) 1);
               ("/m/include-ips.txt", mkFile (lines_of routes) 1);
               ("/m/include-hosts.txt", mkFile (lines_of ["example.com"; "www.example.org"]) 1)].

Definition both_families : list string := ["8.8.8.0/24"; "2001:db8::/32"].

Definition run_or (w : World) (fs : Store) : Store := default ∅ (demo_run w fs).

Definition is_Some_b {A} (x : option A) : bool := match x with Some _ => true | None => false end.

Lemma some_default {A} (x : option A) (d : A) : is_Some_b x = true → x = Some (default d x).
Proof. by destruct x. Qed.

Definition first_run : Store := run_or (demo_world (lines_of ["1.2.3.0/24"]) None 1000000000) (demo_store both_families).

(** A remote deny list is cached below a directory whose name the fingerprint of
    the IP lists does not look for: when it changes, the IP lists are not
    compiled again and the old networks stay denied. *)
Theorem deny_update_missed :
  let second_run := run_or (demo_world (lines_of ["5.6.7.0/24"]) None 2000000000) first_run in
  read first_run "/r/deny-ips-v4.txt" = lines_of ["1.2.3.0/24"] ∧
  read second_run (cached_of demo_md5 demo_cfg "deny-ips" "http://deny.example/list") = lines_of ["5.6.7.0/24"] ∧
  read second_run "/r/deny-ips-v4.txt" = lines_of ["1.2.3.0/24"].
Proof. vm_compute. done. Qed.

(** Without routes of one family the empty list counts as missing, so the IP
    lists are compiled again in every run although nothing changed. *)
Theorem empty_list_recompiles :
  let w := demo_world (lines_of ["1.2.3.0/24"]) None 1000000000 in
  let fs := run_or w (demo_store ["8.8.8.0/24"]) in
  stored_hash demo_cfg fs IPs = getStateHash demo_sha (λ _, EmptyString) demo_cfg fs IPs ∧
  needed demo_cfg fs (getStateHash demo_sha (λ _, EmptyString) demo_cfg fs IPs) IPs = true.
Proof. vm_compute. done. Qed.

(** The fingerprint is stored even when a zone could not be written: the next
    run finds nothing to do and the old zone stays. *)
Definition changed_store : Store :=
  <["/m/include-hosts.txt" := mkFile (lines_of ["example.net"]) 5]> first_run.

Theorem failed_write_forgotten :
  let failed := run_or (demo_world (lines_of ["1.2.3.0/24"]) (Some "/r/proxy.rpz") 3000000000) changed_store in
  let next := run_or (demo_world (lines_of ["1.2.3.0/24"]) None 3000000000) failed in
  read next "/r/proxy.rpz" = read first_run "/r/proxy.rpz" ∧
  Contains (read next "/r/proxy.rpz") "example.net" = false.
Proof. vm_compute. done. Qed.
