(* ===== verification/CompileFrame.v ===== *)
(** * What a compilation does not touch

    The names of the result files are told apart from those of the cache: a cached
    list has at most eight digits before its extension, and the validators have
    an extension of their own.  So neither the downloads nor the second chance a
    missing source gets change a result, provided the result directory lies
    outside the cache, from which unused lists are removed. *)

From Stdlib Require Import Ascii.
From Stdlib Require String.
From stdpp Require Import prelude gmap strings sorting.
From S2P Require Import Prelude GoStrings GoText GoPath Filter GoNet Domains IPNets Updater Compile CompileFacts.

#[local] Arguments String.append : simpl nomatch.

(** The files of a directory that are the same in both stores. *)
Definition unseen (dir : string) (names : list string) (fs fs' : Store) : Prop :=
  ∀ n, n ∈ names → fs' !! Join dir n = fs !! Join dir n.

(** The results of a run. *)
Definition result_files : list string := [hash_name IPs; hash_name Domains_] ++ ip_files ++ required Domains_.

Lemma result_proper n : n ∈ result_files → proper_name n = true.
Proof. intros Hn. unfold result_files, ip_files, required in Hn. set_unfold in Hn. destruct_or!; by subst. Qed.

Section Frame.
Context (md5_hex : string → string).
Context (md5_ok : ∀ s, contains_char (md5_hex s) "/" = false).
Context (dir : string).

Abbreviation kept := (unseen dir result_files).

Lemma unseen_refl names fs : unseen dir names fs fs.
Proof. done. Qed.

Lemma unseen_trans names a b c : unseen dir names a b → unseen dir names b c → unseen dir names a c.
Proof. intros H1 H2 n Hn. by rewrite H2, H1. Qed.

Lemma unseen_between names fs x y : unseen dir names fs x → unseen dir names fs y → unseen dir names x y.
Proof. intros H1 H2 n Hn. by rewrite H2, H1. Qed.

Lemma unseen_sub names names' fs fs' : names ⊆ names' → unseen dir names' fs fs' → unseen dir names fs fs'.
Proof. intros Hs Hu n Hn. by apply Hu, Hs. Qed.

Lemma unseen_foldl {A} names (f : Store → A → Store) l : (∀ s x, x ∈ l → unseen dir names s (f s x)) → ∀ fs,
  unseen dir names fs (foldl f fs l).
Proof.
  induction l as [|x l IH]; intros Hf fs; cbn [foldl]; [done|].
  eapply unseen_trans; [apply Hf; by left|]. apply IH. intros s y Hy. apply Hf. by right.
Qed.

(** Writing one result leaves the others alone. *)
Lemma write_unseen w cfg names fs out :
  ResultDir cfg = dir → out.1 ∈ result_files → out.1 ∉ names → names ⊆ result_files →
  unseen dir names fs (write_result w cfg fs out).
Proof.
  intros Hd Ho Hno Hs n Hn. unfold write_result. destruct (fault w _); [done|]. apply lookup_insert_ne.
  unfold result_path. rewrite Hd. intros E. apply Join_inj in E; [by rewrite E in Hno|apply proper_name_ok, result_proper..]; auto.
Qed.

Lemma cached_not_result d url stem n : n ∈ result_files → getCachedFilepath md5_hex d url stem ≠ Join dir n.
Proof.
  intros Hn E. pose proof (proper_name_ok n (result_proper n Hn)) as Hp.
  apply (f_equal last_elem) in E. rewrite Join_last_elem in E by done. unfold getCachedFilepath in E.
  rewrite Join_last_elem2 in E by (by apply cached_name_proper).
  apply (f_equal chars) in E. rewrite chars_app, chars_of_chars in E.
  assert (length (take 8 (chars (md5_hex url))) ≤ 8)%nat as Hl by (rewrite length_take; lia).
  set (h := take 8 _) in *. clearbody h. pose proof (f_equal length E) as El. rewrite length_app in El.
  pose proof (f_equal (λ l, head (rev l)) E) as Er. cbn beta in Er. rewrite rev_app_distr in Er. clear E Hp.
  unfold result_files, ip_files, required in Hn. set_unfold in Hn. destruct_or!; subst n; cbn in El, Er; (lia || done).
Qed.

Lemma meta_not_result p n : n ∈ result_files → meta_path p ≠ Join dir n.
Proof.
  intros Hn E. pose proof (meta_suffix p) as Hs. rewrite E in Hs. destruct (Join_name dir) as [t Ht].
  rewrite Ht in Hs by (by apply proper_name_ok, result_proper). rewrite has_suffix_last in Hs; [done|done|..];
  unfold result_files, ip_files, required in Hn; set_unfold in Hn; destruct_or!; by subst.
Qed.

Lemma download_unseen w d url stem fs : kept fs (downloadOrGetCached md5_hex w d url stem fs).1.
Proof.
  intros n Hn. pose proof (cached_not_result d url stem n Hn) as H1.
  pose proof (meta_not_result (getCachedFilepath md5_hex d url stem) n Hn) as H2.
  destruct (download_cases md5_hex w d url stem fs) as [-> | (f & [(m & ->) | ->])]; [done|..].
  - by rewrite !lookup_insert_ne.
  - by rewrite lookup_delete_ne, lookup_insert_ne.
Qed.

Lemma ensure_unseen w cfg names fs : kept fs (foldl (ensure_list md5_hex w cfg) fs names).
Proof.
  apply unseen_foldl. intros s name _. apply unseen_foldl. intros s' url _. unfold ensure_cached.
  case_match; [done|]. apply download_unseen.
Qed.

Lemma source_jobs_unseen w d l : ∀ st, kept st.1 (foldl (source_job md5_hex w d) st l).1.
Proof.
  induction l as [|job l IH]; intros st; cbn [foldl]; [done|]. eapply unseen_trans; [|apply IH].
  unfold source_job. case_bool_decide; [done|]. apply download_unseen.
Qed.

(** The result directory lies apart from the cache. *)
Definition apart (cfg : CompileConfig) : Prop :=
  ∀ n, n ∈ result_files → under_dir (downloadDir cfg) (Join dir n) = false.

Lemma downloadSources_unseen w cfg fs : apart cfg → kept fs (downloadSources md5_hex w cfg fs).
Proof.
  intros Ha. unfold downloadSources.
  pose proof (source_jobs_unseen w (downloadDir cfg) (source_jobs cfg fs) (fs, ∅)) as H1.
  destruct (foldl _ (fs, ∅) _) as [fs1 active]. eapply unseen_trans; [exact H1|]. apply unseen_foldl.
  intros s path Hp n Hn. unfold drop_stale. case_bool_decide; [done|]. rewrite lookup_delete_ne by (by apply meta_not_result).
  apply lookup_delete_ne. intros ->. unfold txt_files, Walk in Hp. apply list_elem_of_filter in Hp as [_ Hp].
  rewrite merge_sort_Permutation in Hp. apply list_elem_of_filter in Hp as [Hu _]. rewrite (Ha n Hn) in Hu. done.
Qed.
End Frame.
