(* ===== verification/Fingerprints.v ===== *)
(** * Compiled lists and their fingerprints

    A run skips the compilation of the IP lists or of the zones when the stored
    fingerprint is that of the present inputs.  [CompileFacts] shows for the zones
    what makes this sound, this file for the IP lists, and both together for the
    life of a result directory. *)

From Stdlib Require Import Ascii.
From Stdlib Require String.
From stdpp Require Import prelude gmap strings sorting relations.
From S2P Require Import Prelude GoStrings GoText GoPath Filter GoNet Domains IPNets IPTrie Updater Compile CompileFacts CompileFrame.

#[local] Arguments String.append : simpl nomatch.

Section Facts.
Context (sha256_hex md5_hex : string → string) (gunzip : string → option string).
Context (uni_lower : string → string) (idna_ToASCII : string → option string).
Context `{IPSetLib}.
Context (md5_ok : ∀ s, contains_char (md5_hex s) "/" = false).
Context (sha_ok : ∀ s, trimmed (sha256_hex s) = true ∧ sha256_hex s ≠ EmptyString).

Abbreviation run := (CompileLists sha256_hex md5_hex gunzip uni_lower idna_ToASCII).
Abbreviation hash := (getStateHash sha256_hex).

(** The IP lists of the result directory were compiled, with some configuration,
    from a store [fs1] that keeps every input of a store [fs0] with the
    fingerprint [h]. *)
Definition ips_fingerprinted (dir h : string) (fs : Store) : Prop :=
  ∃ env cfg fs0 fs1 outs, ResultDir cfg = dir ∧ hash env cfg fs0 IPs = h ∧ retried fs0 fs1 ∧
    ip_outputs md5_hex cfg fs1 = Some outs ∧
    ∀ name text, (name, text) ∈ outs → read fs (result_path cfg name) = text.

Definition ips_results : list string := hash_name IPs :: ip_files.

Lemma ips_results_sub : ips_results ⊆ result_files.
Proof. unfold ips_results, result_files, ip_files. set_solver. Qed.

Lemma unseen_read dir names fs fs' n : unseen dir names fs fs' → n ∈ names → read fs' (Join dir n) = read fs (Join dir n).
Proof. intros Hu Hn. unfold read. by rewrite Hu. Qed.

Lemma unseen_stored cfg fs fs' : unseen (ResultDir cfg) ips_results fs fs' → stored_hash cfg fs' IPs = stored_hash cfg fs IPs.
Proof. intros Hu. unfold stored_hash, result_path. f_equal. eapply unseen_read; [exact Hu|by left]. Qed.

Lemma ips_fingerprinted_same dir h fs fs' :
  unseen dir ip_files fs fs' → ips_fingerprinted dir h fs → ips_fingerprinted dir h fs'.
Proof.
  intros Hu (env & cfg & fs0 & fs1 & outs & H1 & H2 & H3 & H4 & H5). exists env, cfg, fs0, fs1, outs.
  repeat (split; [done|]). intros name text Hin. rewrite <- (H5 name text Hin). unfold result_path. rewrite H1.
  eapply unseen_read; [exact Hu|]. rewrite <- (ip_outputs_names _ _ _ _ H4). by apply (list_elem_of_fmap_2 fst _ (name, text)).
Qed.

(** The compilation of the IP lists without faults. *)
Lemma compile_ips_lists w env cfg fs fs' :
  (∀ n, fault w (result_path cfg n) = false) → compile_ips md5_hex w cfg fs = Some fs' →
  ips_fingerprinted (ResultDir cfg) (hash env cfg fs IPs) fs'.
Proof.
  intros Hf. unfold compile_ips. cbv zeta. pose proof (ensure_retried md5_hex md5_ok w cfg ip_lists fs) as Hr.
  set (fs1 := foldl _ fs ip_lists) in *. destruct (ip_outputs md5_hex cfg fs1) as [outs|] eqn:Eo; [|done].
  cbn [mbind option_bind]. intros Es. apply (inj Some) in Es. subst fs'. exists env, cfg, fs, fs1, outs. repeat (split; [done|]).
  apply write_all_read; [..|done]; rewrite (ip_outputs_names _ _ _ _ Eo); [|done].
  apply (bool_decide_unpack _). by vm_compute.
Qed.

(** The compilation of the zones leaves the IP lists alone. *)
Lemma compile_domains_unseen w cfg fs :
  unseen (ResultDir cfg) ips_results fs (compile_domains md5_hex gunzip uni_lower idna_ToASCII w cfg fs).
Proof.
  unfold compile_domains. cbv zeta. eapply unseen_trans;
    [exact (unseen_sub _ _ _ _ _ ips_results_sub (ensure_unseen md5_hex md5_ok _ w cfg (domain_lists cfg) fs))|].
  apply unseen_foldl. intros s out Ho. apply (list_elem_of_fmap_2 fst) in Ho.
  rewrite domain_outputs_names in Ho. apply write_unseen; [done| | |apply ips_results_sub].
  - unfold result_files. set_solver.
  - unfold required in Ho. set_unfold in Ho.
    destruct_or!; rewrite Ho; apply (bool_decide_unpack _); by vm_compute.
Qed.

Lemma domains_hash_unseen w cfg fs h : unseen (ResultDir cfg) ips_results fs (write_result w cfg fs (hash_name Domains_, h)).
Proof.
  apply write_unseen; [done|unfold result_files; set_solver| |apply ips_results_sub].
  apply (bool_decide_unpack _). by vm_compute.
Qed.

Lemma ips_hash_unseen w cfg fs h : unseen (ResultDir cfg) ip_files fs (write_result w cfg fs (hash_name IPs, h)).
Proof.
  apply write_unseen; [done|unfold result_files; set_solver| |unfold result_files; set_solver].
  apply (bool_decide_unpack _). by vm_compute.
Qed.

(** One run. *)
Lemma CompileLists_ips w env cfg fs fs' :
  run w env cfg fs = Some fs' → (∀ n, fault w (result_path cfg n) = false) → apart (ResultDir cfg) cfg →
  (stored_hash cfg fs IPs ≠ EmptyString → ips_fingerprinted (ResultDir cfg) (stored_hash cfg fs IPs) fs) →
  stored_hash cfg fs' IPs = hash env (with_limit cfg) (downloadSources md5_hex w (with_limit cfg) fs) IPs ∧
  ips_fingerprinted (ResultDir cfg) (stored_hash cfg fs' IPs) fs'.
Proof.
  intros Hc Hf Ha Hold. unfold CompileLists in Hc. set (cfg' := with_limit cfg) in *.
  assert (apart (ResultDir cfg') cfg') as Ha' by done.
  pose proof (unseen_sub _ _ _ _ _ ips_results_sub (downloadSources_unseen md5_hex md5_ok (ResultDir cfg') w cfg' fs Ha')) as H1.
  set (fs1 := downloadSources md5_hex w cfg' fs) in *. set (hi := hash env cfg' fs1 IPs) in *. set (hd := hash env cfg' fs1 Domains_) in *.
  set (nI := needed cfg' fs1 hi IPs) in *. set (nD := needed cfg' fs1 hd Domains_) in *.
  assert (nI = false → stored_hash cfg fs1 IPs ≠ EmptyString ∧ stored_hash cfg fs1 IPs = hi) as Hneed.
  { intros En. unfold nI, needed in En. apply orb_false_iff in En as [En _]. apply orb_false_iff in En as [En1 En2].
    by apply bool_decide_eq_false in En1; apply negb_false_iff, bool_decide_eq_true in En2. }
  assert (∀ x, compile_ips md5_hex w cfg' fs1 = Some x → ips_fingerprinted (ResultDir cfg') hi x) as Hips
    by (intros x; by apply compile_ips_lists).
  assert (trimmed hi = true) as Htr by apply sha_ok.
  clearbody nI nD hi hd fs1. destruct (if nI then _ else _) as [fs2|] eqn:E2; [|done]. cbn [mbind option_bind] in Hc.
  apply (inj Some) in Hc as <-. assert (ip_files ⊆ ips_results) as Hsub by (unfold ips_results; set_solver).
  assert (∀ x, unseen (ResultDir cfg') ips_results x (if nD then write_result w cfg' x (hash_name Domains_, hd) else x)) as H5
    by (intros x; destruct nD; [apply domains_hash_unseen|done]).
  assert (unseen (ResultDir cfg') ips_results fs2
    (if nD then compile_domains md5_hex gunzip uni_lower idna_ToASCII w cfg' fs2 else fs2)) as H3
    by (destruct nD; [apply compile_domains_unseen|done]).
  generalize dependent (if nD then compile_domains md5_hex gunzip uni_lower idna_ToASCII w cfg' fs2 else fs2). intros fs3 H3.
  rewrite (unseen_stored cfg _ _ (H5 _)). destruct nI.
  - assert (stored_hash cfg (write_result w cfg' fs3 (hash_name IPs, hi)) IPs = hi) as ->.
    { unfold stored_hash. change (result_path cfg) with (result_path cfg'). rewrite write_result_read by apply Hf.
      by apply TrimSpace_trimmed. }
    split; [done|]. eapply ips_fingerprinted_same; [exact (unseen_sub _ _ _ _ _ Hsub (H5 _))|].
    eapply ips_fingerprinted_same; [apply (ips_hash_unseen w cfg')|].
    eapply ips_fingerprinted_same; [exact (unseen_sub _ _ _ _ _ Hsub H3)|]. by apply Hips.
  - apply (inj Some) in E2. subst fs2. destruct (Hneed eq_refl) as [Hne Heq].
    rewrite (unseen_stored cfg fs1 fs3 H3), (unseen_stored cfg fs fs1 H1) in *. split; [done|].
    eapply ips_fingerprinted_same; [exact (unseen_sub _ _ _ _ _ Hsub (H5 _))|].
    eapply ips_fingerprinted_same; [exact (unseen_sub _ _ _ _ _ Hsub H3)|].
    eapply ips_fingerprinted_same; [exact (unseen_sub _ _ _ _ _ Hsub H1)|]. by apply Hold.
Qed.

(** The life of a result directory that lies apart from the cache: runs without
    write faults, and changes of other files. *)
Inductive result_step (dir : string) : Store → Store → Prop :=
  | result_run w env cfg fs fs' :
      ResultDir cfg = dir → apart dir cfg → (∀ n, fault w (result_path cfg n) = false) →
      run w env cfg fs = Some fs' → result_step dir fs fs'
  | result_edit fs fs' : unseen dir result_files fs fs' → result_step dir fs fs'.

Lemma result_list_step cfg fs fs' :
  result_step (ResultDir cfg) fs fs' →
  list_step sha256_hex md5_hex gunzip uni_lower idna_ToASCII (ResultDir cfg) fs fs'.
Proof.
  intros [w env cfg' fs1 fs2 Hd _ Hf Hr|fs1 fs2 Hu]; [by eapply step_run|]. apply (step_edit _ _ _ _ _ _ cfg); [done|].
  intros n Hn. eapply unseen_read; [exact Hu|]. unfold zone_files in Hn. unfold result_files. set_solver.
Qed.

Lemma stored_dir c c' fs t : ResultDir c = ResultDir c' → stored_hash c fs t = stored_hash c' fs t.
Proof. intros Hd. unfold stored_hash, result_path. by rewrite Hd. Qed.

Lemma result_steps_fingerprinted cfg fs fs' :
  rtc (result_step (ResultDir cfg)) fs fs' →
  (stored_hash cfg fs IPs ≠ EmptyString → ips_fingerprinted (ResultDir cfg) (stored_hash cfg fs IPs) fs) →
  stored_hash cfg fs' IPs ≠ EmptyString → ips_fingerprinted (ResultDir cfg) (stored_hash cfg fs' IPs) fs'.
Proof.
  induction 1 as [|fs fs1 fs' Hstep _ IH]; [done|]. intros Hold. apply IH. intros Hne.
  destruct Hstep as [w env c fs fs1 Hd Ha Hf Hrun|fs fs1 Hu].
  - rewrite <- Hd, <- (stored_dir c) by done. rewrite <- Hd in Ha. eapply CompileLists_ips; [done..|].
    by rewrite Hd, (stored_dir c cfg).
  - assert (unseen (ResultDir cfg) ips_results fs fs1) as Hi by (eapply unseen_sub; [apply ips_results_sub|done]).
    rewrite (unseen_stored cfg fs fs1 Hi) in *. eapply ips_fingerprinted_same; [|by apply Hold].
    eapply unseen_sub; [|exact Hi]. unfold ips_results. set_solver.
Qed.

(** ** Properties *)

(** C32: after a run of the compiler that could write its files, in a result
    directory whose files only the compiler writes and which lies outside the
    cache, both stored fingerprints are those of the present inputs, and zones and
    IP lists were compiled from inputs with that fingerprint, which were all read
    as they were when it was taken; so skipping a compilation never leaves lists
    of other inputs, as far as the fingerprint tells them apart. *)
Theorem lists_match_fingerprints cfg0 fs0 fs w env cfg fs' :
  (∀ t, stored_hash cfg0 fs0 t = EmptyString) → rtc (result_step (ResultDir cfg0)) fs0 fs →
  ResultDir cfg = ResultDir cfg0 → apart (ResultDir cfg) cfg → (∀ n, fault w (result_path cfg n) = false) →
  run w env cfg fs = Some fs' →
  (∀ t, stored_hash cfg fs' t = hash env (with_limit cfg) (downloadSources md5_hex w (with_limit cfg) fs) t) ∧
  fingerprinted sha256_hex md5_hex gunzip uni_lower idna_ToASCII (ResultDir cfg) (stored_hash cfg fs' Domains_) fs' ∧
  ips_fingerprinted (ResultDir cfg) (stored_hash cfg fs' IPs) fs'.
Proof.
  intros Hno Hs Hd Ha Hf Hrun.
  destruct (CompileLists_zones sha256_hex md5_hex gunzip uni_lower idna_ToASCII md5_ok sha_ok w env cfg fs fs' Hrun Hf) as [Z1 Z2].
  { rewrite (stored_dir cfg cfg0), Hd by done. apply (list_steps_fingerprinted _ _ _ _ _ md5_ok sha_ok cfg0 fs0 fs); [|by rewrite Hno].
    eapply rtc_subrel; [|exact Hs]. intros x y. apply result_list_step. }
  destruct (CompileLists_ips w env cfg fs fs' Hrun Hf Ha) as [I1 I2].
  { rewrite (stored_dir cfg cfg0), Hd by done. apply (result_steps_fingerprinted cfg0 fs0 fs Hs). by rewrite Hno. }
  split; [by intros [|]|by split].
Qed.
End Facts.

(** A directory after its first and its second run. *)
Definition second_world : World := demo_world (lines_of ["5.6.7.0/24"]) None 2000000000.
Definition second_store : Store := run_or second_world first_run.

Lemma second_run_eq : demo_run second_world first_run = Some second_store.
Proof. apply some_default. vm_compute. reflexivity. Qed.

Lemma demo_apart : apart "/r" demo_cfg.
Proof.
  intros n Hn. unfold result_files, ip_files, required in Hn. cbn [app] in Hn.
  repeat (apply elem_of_cons in Hn as [-> | Hn]; [vm_compute; reflexivity|]). by apply elem_of_nil in Hn.
Qed.

Lemma first_run_step : result_step demo_sha demo_md5 (λ _, None) id Some "/r" (demo_store both_families) first_run.
Proof.
  apply (result_run _ _ _ _ _ "/r" (demo_world (lines_of ["1.2.3.0/24"]) None 1000000000) (λ _, EmptyString) demo_cfg).
  - reflexivity.
  - exact demo_apart.
  - intros n. reflexivity.
  - apply some_default. vm_compute. reflexivity.
Qed.

Lemma lists_match_fingerprints_witness :
  stored_hash demo_cfg second_store IPs = stored_hash demo_cfg first_run IPs ∧
  stored_hash demo_cfg second_store IPs ≠ EmptyString ∧
  ips_fingerprinted demo_sha demo_md5 "/r" (stored_hash demo_cfg second_store IPs) second_store.
Proof.
  split; [vm_compute; reflexivity|]. split; [vm_compute; discriminate|].
  refine (proj2 (proj2 (lists_match_fingerprints demo_sha demo_md5 (λ _, None) id Some demo_md5_ok demo_sha_ok demo_cfg
    (demo_store both_families) first_run second_world (λ _, EmptyString) demo_cfg second_store _
    (rtc_once _ _ first_run_step) eq_refl demo_apart (λ _, eq_refl) second_run_eq))).
  intros [|]; vm_compute; reflexivity.
Defined.
