(* ===== verification/Replace.v ===== *)
(** * Compiling the lists: how a file is replaced ([writeIPFile], [writeRPZFile])

    Both functions write to a temporary file beside the target and rename it.
    Here their steps, with the store after each, so that a reader (the packet
    filter, the resolver, the watcher) or a crash may come in between; [Compile]
    uses their outcome only, [write_result]. *)

From Stdlib Require Import Ascii.
From Stdlib Require String.
From stdpp Require Import prelude gmap strings.
From S2P Require Import Prelude GoStrings GoText GoPath Filter GoNet Domains IPNets Updater Compile CompileFacts.

#[local] Arguments String.append : simpl nomatch.

(** The call that fails: creating the temporary file, writing it (after [n]
    bytes; the buffered writer reports this at the latest when it is flushed),
    syncing it, renaming it. *)
Inductive WriteFault := OnCreate | OnWrite (n : nat) | OnSync | OnRename.

#[export] Instance WriteFault_eq_dec : EqDecision WriteFault.
Proof. solve_decision. Defined.

Definition tmp_of (path : string) : string := path +:+ ".tmp".

Definition cut (n : nat) (s : string) : string := of_chars (take n (chars s)).

(** The stores after each step.  [synced]: the zones are synced before the
    rename, the IP lists are not; [parts] are the lengths written when the buffer
    is emptied on the way; [removed] tells whether removing the temporary file
    after a failure succeeds. *)
Definition replace_file (synced : bool) (fault : option WriteFault) (parts : list nat) (removed : bool) (t : Z)
    (path text : string) (fs : Store) : list Store :=
  let tmp := tmp_of path in
  let put (x : string) := <[tmp := mkFile x t]> fs in
  let failed (x : string) := [put x; if removed then delete tmp (put x) else put x] in
  let started := put EmptyString :: ((λ n, put (cut n text)) <$> parts) in
  match fault with
  | Some OnCreate => []
  | Some (OnWrite n) => started ++ failed (cut n text)
  | Some OnSync => if synced then started ++ failed text
                   else started ++ [put text; delete tmp (<[path := mkFile text t]> (put text))]
  | Some OnRename => started ++ failed text
  | None => started ++ [put text; delete tmp (<[path := mkFile text t]> (put text))]
  end.

(** The two functions. *)
Definition writeIPFile_steps := replace_file false.
Definition writeRPZFile_steps := replace_file true.

(** Whether the failure concerns this kind of file. *)
Definition hits (synced : bool) (fault : option WriteFault) : bool :=
  match fault with None => false | Some OnSync => synced | Some _ => true end.

Definition after (fs : Store) (states : list Store) : Store := default fs (last states).

(** Writing several lists one after the other. *)
Fixpoint write_lists (synced : bool) (fault : string → option WriteFault) (parts : string → list nat)
    (removed : string → bool) (t : Z) (cfg : CompileConfig) (outs : list (string * string)) (fs : Store) : list Store :=
  match outs with
  | [] => []
  | (name, text) :: outs' =>
      let path := result_path cfg name in
      let states := (if synced then writeRPZFile_steps else writeIPFile_steps) (fault path) (parts path) (removed path) t path text fs in
      states ++ write_lists synced fault parts removed t cfg outs' (after fs states)
  end.

(** ** Lemmas *)

Lemma steps_eq (synced : bool) : (if synced then writeRPZFile_steps else writeIPFile_steps) = replace_file synced.
Proof. by destruct synced. Qed.

Lemma tmp_of_suffix p : has_suffix (tmp_of p) ".tmp" = true.
Proof. apply has_suffix_iff. by exists p. Qed.

Definition lasting (p : string) : Prop := has_suffix p ".tmp" = false.

Lemma lasting_tmp p q : lasting p → p ≠ tmp_of q.
Proof. intros Hp ->. unfold lasting in Hp. by rewrite tmp_of_suffix in Hp. Qed.

Lemma after_app fs l k : after fs (l ++ k) = after (after fs l) k.
Proof. unfold after. rewrite last_app. by destruct (last k). Qed.

Lemma after_two fs l a b : after fs (l ++ [a; b]) = b.
Proof. unfold after. by rewrite last_app. Qed.

(** The states on the way differ from the first in the temporary file only. *)
Definition only_tmp (path : string) (fs x : Store) : Prop := ∀ p, p ≠ tmp_of path → x !! p = fs !! p.

Lemma only_tmp_put path fs f : only_tmp path fs (<[tmp_of path := f]> fs).
Proof. intros p Hp. by rewrite lookup_insert_ne. Qed.

Lemma only_tmp_drop path fs f : only_tmp path fs (delete (tmp_of path) (<[tmp_of path := f]> fs)).
Proof. intros p Hp. by rewrite lookup_delete_ne, lookup_insert_ne. Qed.

Lemma replace_started path fs t parts text :
  Forall (only_tmp path fs)
    (<[tmp_of path := mkFile EmptyString t]> fs :: ((λ n, <[tmp_of path := mkFile (cut n text) t]> fs) <$> parts)).
Proof. constructor; [apply only_tmp_put|]. apply Forall_fmap, Forall_forall. intros n _. apply only_tmp_put. Qed.

Lemma replace_file_states synced fault parts removed t path text fs :
  lasting path →
  let states := replace_file synced fault parts removed t path text fs in
  Forall (λ x, only_tmp path fs x ∨ (hits synced fault = false ∧ only_tmp path (<[path := mkFile text t]> fs) x)) states ∧
  only_tmp path (if hits synced fault then fs else <[path := mkFile text t]> fs) (after fs states).
Proof.
  intros Hp. cbn zeta. unfold replace_file. pose proof (replace_started path fs t parts text) as Hst.
  set (started := _ :: _) in *.
  assert (∀ x, only_tmp path fs (if removed then delete (tmp_of path) (<[tmp_of path := x]> fs) else <[tmp_of path := x]> fs))
    as Hdrop by (intros x; destruct removed; [apply only_tmp_drop|apply only_tmp_put]).
  assert (only_tmp path (<[path := mkFile text t]> fs)
    (delete (tmp_of path) (<[path := mkFile text t]> (<[tmp_of path := mkFile text t]> fs)))) as Hren.
  { intros p Hpt. rewrite lookup_delete_ne by done. destruct (decide (p = path)) as [-> | Hne]; [by rewrite !lookup_insert_eq|].
    by rewrite !lookup_insert_ne by done. }
  assert (∀ x b, Forall (λ y, only_tmp path fs y ∨ (b = false ∧ only_tmp path (<[path := mkFile text t]> fs) y))
    (started ++ [<[tmp_of path := x]> fs; if removed then delete (tmp_of path) (<[tmp_of path := x]> fs) else <[tmp_of path := x]> fs]))
    as Hbad.
  { intros x b. apply Forall_app. split; [eapply Forall_impl; [exact Hst|]; by left|].
    apply Forall_cons_2; [left; apply only_tmp_put|]. apply Forall_cons_2; [left; apply Hdrop|apply Forall_nil_2]. }
  assert (Forall (λ y, only_tmp path fs y ∨ (false = false ∧ only_tmp path (<[path := mkFile text t]> fs) y))
    (started ++ [<[tmp_of path := mkFile text t]> fs;
       delete (tmp_of path) (<[path := mkFile text t]> (<[tmp_of path := mkFile text t]> fs))])) as Hgood.
  { apply Forall_app. split; [eapply Forall_impl; [exact Hst|]; by left|].
    constructor; [left; apply only_tmp_put|]. constructor; [by right|constructor]. }
  destruct fault as [[|n| |]|]; cbn [hits].
  - split; [constructor|]. by intros p.
  - rewrite after_two. split; [apply Hbad|apply Hdrop].
  - destruct synced; rewrite after_two; [split; [apply Hbad|apply Hdrop]|split; [exact Hgood|exact Hren]].
  - rewrite after_two. split; [apply Hbad|apply Hdrop].
  - rewrite after_two. split; [exact Hgood|exact Hren].
Qed.

(** Writing some lists leaves the other files alone. *)
Lemma write_lists_other synced fault parts removed t cfg outs p : ∀ fs,
  Forall (λ out, lasting (result_path cfg out.1)) outs → lasting p → p ∉ result_path cfg <$> outs.*1 →
  Forall (λ x, x !! p = fs !! p) (write_lists synced fault parts removed t cfg outs fs).
Proof.
  induction outs as [|[n x] outs IH]; intros fs Hl Hp Hn; cbn [write_lists]; [constructor|]. rewrite steps_eq.
  apply Forall_cons in Hl as [Hln Hl]. cbn in Hn, Hln. apply not_elem_of_cons in Hn as [Hne Hn].
  set (path := result_path cfg n) in *.
  destruct (replace_file_states synced (fault path) (parts path) (removed path) t path x fs Hln) as [Hst Hend].
  apply Forall_app. split.
  - eapply Forall_impl; [exact Hst|]. intros y [Hy|[_ Hy]]; rewrite Hy by (by apply lasting_tmp); [done|].
    by rewrite lookup_insert_ne.
  - eapply Forall_impl; [by apply IH|]. intros y ->. rewrite Hend by (by apply lasting_tmp).
    destruct (hits synced (fault path)); [done|]. by rewrite lookup_insert_ne.
Qed.

(** The outcome depends on the files it is about only. *)
Lemma write_results_agree w cfg outs p : ∀ fs fs',
  fs !! p = fs' !! p → foldl (write_result w cfg) fs outs !! p = foldl (write_result w cfg) fs' outs !! p.
Proof.
  induction outs as [|out outs IH]; intros fs fs' E; cbn [foldl]; [done|]. apply IH. unfold write_result.
  destruct (Compile.fault w _); [done|].
  destruct (decide (p = result_path cfg out.1)) as [-> | Hne]; [by rewrite !lookup_insert_eq|].
  by rewrite !lookup_insert_ne by done.
Qed.

(** While lists are written, whatever fails, every
    list is at every moment either as it was before or complete; and when the
    writes are over, the files are those of the outcome the compiler reckons
    with, in which a list that could not be written keeps its old content. *)
Lemma write_lists_whole synced fault parts removed cfg w outs : ∀ fs,
  Forall (λ out, Compile.fault w (result_path cfg out.1) = hits synced (fault (result_path cfg out.1))) outs →
  Forall (λ out, lasting (result_path cfg out.1)) outs → NoDup (result_path cfg <$> outs.*1) →
  let states := write_lists synced fault parts removed (now w) cfg outs fs in
  (∀ x name text, x ∈ states → (name, text) ∈ outs →
     x !! result_path cfg name = fs !! result_path cfg name ∨
     x !! result_path cfg name = Some (mkFile text (now w))) ∧
  (∀ p, lasting p → after fs states !! p = foldl (write_result w cfg) fs outs !! p).
Proof.
  induction outs as [|[n x] outs IH]; intros fs Hw Hl Hnd; cbn zeta; cbn [write_lists foldl].
  { split; [by intros ? ? ? ?%elem_of_nil|done]. }
  rewrite steps_eq.
  apply Forall_cons in Hw as [Hw1 Hw]. apply Forall_cons in Hl as [Hln Hl]. cbn [fst] in Hw1. cbn in Hnd. apply NoDup_cons in Hnd as [Hn Hnd]. cbn [fst] in Hln.
  set (path := result_path cfg n) in *.
  destruct (replace_file_states synced (fault path) (parts path) (removed path) (now w) path x fs Hln) as [Hst Hend].
  set (states := replace_file _ _ _ _ _ path x fs) in *. set (fs1 := after fs states) in *.
  specialize (IH fs1 Hw Hl Hnd). cbn zeta in IH. destruct IH as [IH1 IH2].
  assert (∀ name text, (name, text) ∈ outs → result_path cfg name ≠ path ∧ lasting (result_path cfg name)) as Hoth.
  { intros name text Hin. split; [|exact (proj1 (Forall_forall _ _) Hl (name, text) Hin)].
    intros E. apply Hn. rewrite <- E. apply list_elem_of_fmap_2. by apply (list_elem_of_fmap_2 fst _ (name, text)). }
  assert (fs1 !! path = fs !! path ∨ fs1 !! path = Some (mkFile x (now w))) as H1.
  { rewrite Hend by (by apply lasting_tmp). destruct (hits synced (fault path)); [by left|]. right. by rewrite lookup_insert_eq. }
  split.
  - intros y name text [Hy|Hy]%elem_of_app Hin.
    + pose proof (proj1 (Forall_forall _ _) Hst y Hy) as Hy'. apply elem_of_cons in Hin as [[= -> ->]|Hin].
      * destruct Hy' as [Hy'|[_ Hy']]; rewrite Hy' by (by apply lasting_tmp); [by left|]. right. by rewrite lookup_insert_eq.
      * destruct (Hoth name text Hin) as [Hne Hla]. left.
        destruct Hy' as [Hy'|[_ Hy']]; rewrite Hy' by (by apply lasting_tmp); [done|]. by rewrite lookup_insert_ne.
    + apply elem_of_cons in Hin as [[= -> ->]|Hin].
      * pose proof (write_lists_other synced fault parts removed (now w) cfg outs path fs1 Hl Hln Hn) as Hk.
        fold path. rewrite (proj1 (Forall_forall _ _) Hk y Hy). exact H1.
      * destruct (Hoth name text Hin) as [Hne Hla]. destruct (IH1 y name text Hy Hin) as [->|?]; [|by right]. left.
        rewrite Hend by (by apply lasting_tmp). destruct (hits synced (fault path)); [done|]. by rewrite lookup_insert_ne.
  - intros p Hp. rewrite after_app. fold fs1. rewrite IH2 by done. apply write_results_agree.
    rewrite Hend by (by apply lasting_tmp). unfold write_result. cbn [fst snd]. fold path. by rewrite Hw1; destruct (hits _ _).
Qed.

(** ** Properties *)

(** C35: nobody sees half a list.  While lists are written, whatever fails, every
    list is at every moment either as it was before or complete; and when the
    writes are over, the files are those of the outcome the compiler reckons
    with, in which a list that could not be written keeps its old content. *)
Theorem lists_replaced_whole synced fault parts removed cfg w outs fs :
  Forall (λ out, Compile.fault w (result_path cfg out.1) = hits synced (fault (result_path cfg out.1))) outs →
  Forall (λ out, lasting (result_path cfg out.1)) outs → NoDup (result_path cfg <$> outs.*1) →
  let states := write_lists synced fault parts removed (now w) cfg outs fs in
  (∀ x name text, x ∈ states → (name, text) ∈ outs →
     x !! result_path cfg name = fs !! result_path cfg name ∨
     x !! result_path cfg name = Some (mkFile text (now w))) ∧
  (∀ p, lasting p → after fs states !! p = foldl (write_result w cfg) fs outs !! p).
Proof. apply write_lists_whole. Qed.

(** The zones of a run: the second cannot be synced, the third not be renamed. *)
Definition bad_disk (p : string) : option WriteFault :=
  if bool_decide (p = "/r/adblock.rpz") then Some OnSync else if bool_decide (p = "/r/deny.rpz") then Some OnRename else None.

Definition bad_world : World :=
  mkWorld (λ _ _ _, inr "no network") (λ p, hits true (bad_disk p)) 5.

Definition zone_texts : list (string * string) := [("proxy.rpz", "new"); ("adblock.rpz", "new"); ("deny.rpz", "new")].

Definition old_zones : Store := list_to_map ((λ n, ("/r/" +:+ n, mkFile "old" 1)) <$> zone_texts.*1).

Lemma lists_replaced_whole_witness :
  let states := write_lists true bad_disk (λ _, [1%nat]) (λ _, true) 5 demo_cfg zone_texts old_zones in
  length states = 12%nat ∧
  (∀ x, x ∈ states → x !! "/r/deny.rpz" = Some (mkFile "old" 1) ∨ x !! "/r/deny.rpz" = Some (mkFile "new" 5)) ∧
  after old_zones states !! "/r/proxy.rpz" = Some (mkFile "new" 5) ∧
  after old_zones states !! "/r/adblock.rpz" = Some (mkFile "old" 1).
Proof.
  cbv zeta. split; [vm_compute; reflexivity|].
  destruct (lists_replaced_whole true bad_disk (λ _, [1%nat]) (λ _, true) demo_cfg bad_world zone_texts old_zones) as [H1 H2].
  - repeat (apply Forall_cons_2; [vm_compute; reflexivity|]). apply Forall_nil_2.
  - repeat (apply Forall_cons_2; [vm_compute; reflexivity|]). apply Forall_nil_2.
  - apply (bool_decide_unpack _). vm_compute. exact I.
  - split.
    + intros x Hx. refine (H1 x "deny.rpz" "new" Hx _). right. right. left.
    + split; [refine (eq_trans (H2 "/r/proxy.rpz" eq_refl) _)|refine (eq_trans (H2 "/r/adblock.rpz" eq_refl) _)];
        vm_compute; reflexivity.
Defined.
