(* ===== verification/CompileSteps.v ===== *)
(** * A compilation as the sequence of its writes ([internal/parser/compiler.go])

    [CompileLists] of [Compile] gives the files a run leaves; the programs that
    read them look at any moment in between.  [compile_states] gives the states
    the disk goes through: the cache after the downloads, the single steps of
    every list and zone ([Replace]), and the fingerprints, which are written last
    and in place.  The theorem of this file is that both agree on the outcome. *)

From Stdlib Require Import Ascii.
From Stdlib Require String.
From stdpp Require Import prelude gmap strings sorting.
From S2P Require Import Prelude GoStrings GoText GoPath Filter GoNet Domains IPNets Updater Compile CompileFacts Replace.

#[local] Arguments String.append : simpl nomatch.

(** What the disk does during a run: the call that fails for a path, the buffers
    written on the way, whether a temporary file can be removed, and the time at
    which a fingerprint is truncated. *)
Record Writes := mkWrites {
  wr_fault : string → option WriteFault;
  wr_parts : string → list nat;
  wr_removed : string → bool;
  wr_open : Z;
}.

Section Steps.
Context (sha256_hex md5_hex : string → string) (gunzip : string → option string).
Context (uni_lower : string → string) (idna_ToASCII : string → option string).
Context `{IPSetLib}.

Section Run.
Context (w : World) (r : Writes) (cfg : CompileConfig).

Definition put_lists (synced : bool) (outs : list (string * string)) (fs : Store) : list Store :=
  write_lists synced (wr_fault r) (wr_parts r) (wr_removed r) (now w) cfg outs fs.

(** [os.WriteFile] truncates the file and writes it. *)
Definition hash_states (name h : string) (fs : Store) : list Store :=
  let path := result_path cfg name in
  let put (x : string) (t : Z) := <[path := mkFile x t]> fs in
  match wr_fault r path with
  | Some OnCreate => []
  | Some (OnWrite O) => [put EmptyString (wr_open r)]
  | Some (OnWrite n) => [put EmptyString (wr_open r); put (cut n h) (now w)]
  | _ => [put EmptyString (wr_open r); put h (now w)]
  end.

Definition ips_states (fs : Store) : option (list Store) :=
  let fs := foldl (ensure_list md5_hex w cfg) fs ip_lists in
  outs ← ip_outputs md5_hex cfg fs;
  Some (fs :: put_lists false outs fs).

Definition domains_states (fs : Store) : list Store :=
  let fs := foldl (ensure_list md5_hex w cfg) fs (domain_lists cfg) in
  fs :: put_lists true (domain_outputs md5_hex gunzip uni_lower idna_ToASCII cfg fs (now w / 10 ^ 9)) fs.
End Run.

(** The states of a run, the first one after the downloads. *)
Definition compile_states (w : World) (r : Writes) (env : string → string) (cfg : CompileConfig) (fs : Store)
    : option (list Store) :=
  let cfg := with_limit cfg in
  let fs0 := downloadSources md5_hex w cfg fs in
  let currentIPsHash := getStateHash sha256_hex env cfg fs0 IPs in
  let currentDomainsHash := getStateHash sha256_hex env cfg fs0 Domains_ in
  let compileIPsNeeded := needed cfg fs0 currentIPsHash IPs in
  let compileDomainsNeeded := needed cfg fs0 currentDomainsHash Domains_ in
  l1 ← (if compileIPsNeeded then ips_states w r cfg fs0 else Some []);
  let fs1 := after fs0 l1 in
  let l2 := if compileDomainsNeeded then domains_states w r cfg fs1 else [] in
  let fs2 := after fs1 l2 in
  let l3 := if compileIPsNeeded then hash_states w r cfg (hash_name IPs) currentIPsHash fs2 else [] in
  let fs3 := after fs2 l3 in
  let l4 := if compileDomainsNeeded then hash_states w r cfg (hash_name Domains_) currentDomainsHash fs3 else [] in
  Some (fs0 :: l1 ++ l2 ++ l3 ++ l4).

(** ** Lemmas: stores that differ in temporary files only *)

Definition agree (fs fs' : Store) : Prop := ∀ p, lasting p → fs !! p = fs' !! p.

#[local] Instance agree_equivalence : Equivalence agree.
Proof. split; [by intros ? ? ?|intros ? ? E p Hp; by rewrite E|intros ? ? ? E1 E2 p Hp; by rewrite E1, E2]. Qed.

Context (md5_ok : ∀ s, contains_char (md5_hex s) "/" = false).

Lemma lasting_suffix suf p :
  hd_error (rev (chars suf)) ≠ Some "p"%char → suf ≠ EmptyString → has_suffix p suf = true → lasting p.
Proof. intros Hl Hne [u ->]%has_suffix_iff. apply has_suffix_last; [done|by symmetry|done]. Qed.

Lemma cached_lasting dir url stem : lasting (getCachedFilepath md5_hex dir url stem).
Proof. apply (lasting_suffix ".txt"); [done..|]. by apply cached_suffix. Qed.

Lemma meta_lasting p : lasting (meta_path p).
Proof. apply (lasting_suffix ".meta"); [done..|]. apply meta_suffix. Qed.

Lemma joined_lasting d n :
  proper_name n = true → hd_error (rev (chars n)) ≠ Some "p"%char → lasting (Join d n).
Proof.
  intros Hn%proper_name_ok Hl. destruct (Join_name d) as [t Ht]. apply (lasting_suffix n); [done|apply Hn|].
  rewrite Ht by done. apply has_suffix_iff. by exists t.
Qed.

Lemma agree_insert fs fs' p f : agree fs fs' → agree (<[p := f]> fs) (<[p := f]> fs').
Proof.
  intros E q Hq. destruct (decide (q = p)) as [-> | Hne]; [by rewrite !lookup_insert_eq|].
  rewrite !lookup_insert_ne by done. by apply E.
Qed.

Lemma agree_delete fs fs' p : agree fs fs' → agree (delete p fs) (delete p fs').
Proof.
  intros E q Hq. destruct (decide (q = p)) as [-> | Hne]; [by rewrite !lookup_delete_eq|].
  rewrite !lookup_delete_ne by done. by apply E.
Qed.

Lemma agree_foldl {A} (f : Store → A → Store) l :
  (∀ a s s', agree s s' → agree (f s a) (f s' a)) → ∀ s s', agree s s' → agree (foldl f s l) (foldl f s' l).
Proof. intros Hf. induction l as [|a l IH]; intros s s' E; cbn [foldl]; [done|]. by apply IH, Hf. Qed.

Lemma read_agree fs fs' p : agree fs fs' → lasting p → read fs p = read fs' p.
Proof. intros E Hp. unfold read. by rewrite E. Qed.

Lemma download_agree w dir url stem fs fs' :
  agree fs fs' →
  agree (downloadOrGetCached md5_hex w dir url stem fs).1 (downloadOrGetCached md5_hex w dir url stem fs').1.
Proof.
  intros E. pose proof (cached_lasting dir url stem) as Hc. pose proof (meta_lasting (getCachedFilepath md5_hex dir url stem)) as Hm.
  unfold downloadOrGetCached, cached_validators, fileExists. rewrite (E _ Hc), (E _ Hm).
  set (c := getCachedFilepath _ _ _ _) in *. match goal with |- context [let '(_, _) := ?v in _] => destruct v as [inm ims] end.
  destruct (fetch w url inm ims) as [resp|e]; [|done]. repeat (case_match; [done|]).
  case_match; cbn [fst]; auto using agree_insert, agree_delete.
Qed.

(** The names of the lists have no slash. *)
Definition list_name (name : string) : Prop := contains_char name "/" = false.

Lemma txt_lasting d name : list_name name → lasting (Join d (name +:+ ".txt")).
Proof.
  intros Hn. destruct (Join_name d) as [t Ht]. rewrite Ht.
  - apply (lasting_suffix ".txt"); [done..|]. apply has_suffix_app, has_suffix_iff. by exists name.
  - assert (String.length (name +:+ ".txt") = (String.length name + 4)%nat) as El.
    { clear. induction name as [|c h IH]; [done|]. cbn. by rewrite IH. }
    repeat split; try (intros E; apply (f_equal String.length) in E; rewrite El in E; cbn in E; lia).
    by rewrite contains_char_app, Hn.
Qed.

Lemma source_lasting cfg name : list_name name → lasting (sources_file cfg name).
Proof.
  intros Hn. unfold sources_file. destruct (_ && _); [by apply (txt_lasting _ "rpz")|].
  destruct (Contains _ _); [by apply (txt_lasting _ "rpz2")|by apply txt_lasting].
Qed.

Lemma urls_agree cfg fs fs' name : agree fs fs' → list_name name → list_urls cfg fs name = list_urls cfg fs' name.
Proof. intros E Hn. unfold list_urls, readUrls. by rewrite (read_agree fs fs' _ E (source_lasting cfg name Hn)). Qed.

Lemma ensure_agree w cfg names : Forall list_name names → ∀ fs fs', agree fs fs' →
  agree (foldl (ensure_list md5_hex w cfg) fs names) (foldl (ensure_list md5_hex w cfg) fs' names).
Proof.
  induction 1 as [|n names Hn _ IH]; intros fs fs' E; cbn [foldl]; [done|]. apply IH. unfold ensure_list.
  rewrite (urls_agree cfg fs fs' n E Hn). apply agree_foldl; [|done]. intros url s s' E'. unfold ensure_cached.
  rewrite (E' (cached_of md5_hex cfg n url)) by apply cached_lasting. case_match; [done|]. by apply download_agree.
Qed.

Lemma cached_read_agree cfg fs fs' name u : agree fs fs' → read fs (cached_of md5_hex cfg name u) = read fs' (cached_of md5_hex cfg name u).
Proof. intros E. apply read_agree; [done|]. apply cached_lasting. Qed.

Lemma manual_agree cfg fs fs' name : agree fs fs' → list_name name → read fs (manual_file cfg name) = read fs' (manual_file cfg name).
Proof. intros E Hn. apply read_agree; [done|]. by apply txt_lasting. Qed.

Lemma load_ips_agree cfg fs fs' name : agree fs fs' → list_name name → load_ips md5_hex cfg fs name = load_ips md5_hex cfg fs' name.
Proof.
  intros E Hn. unfold load_ips, ip_lines. rewrite (manual_agree cfg fs fs' name E Hn), (urls_agree cfg fs fs' name E Hn).
  f_equal. apply list_fmap_ext. intros _ u _. by rewrite (cached_read_agree cfg fs fs' name u E).
Qed.

Lemma load_domains_agree cfg fs fs' name casino : agree fs fs' → list_name name →
  load_domains md5_hex gunzip uni_lower idna_ToASCII cfg fs name casino =
  load_domains md5_hex gunzip uni_lower idna_ToASCII cfg fs' name casino.
Proof.
  intros E Hn. unfold load_domains, domain_lines. rewrite (manual_agree cfg fs fs' name E Hn), (urls_agree cfg fs fs' name E Hn).
  f_equal. apply list_fmap_ext. intros _ u _. by rewrite (cached_read_agree cfg fs fs' name u E).
Qed.

Lemma ip_outputs_agree cfg fs fs' : agree fs fs' → ip_outputs md5_hex cfg fs = ip_outputs md5_hex cfg fs'.
Proof. intros E. unfold ip_outputs. by rewrite !(load_ips_agree cfg fs fs' _ E) by done. Qed.

Lemma domain_outputs_agree cfg fs fs' unix : agree fs fs' →
  domain_outputs md5_hex gunzip uni_lower idna_ToASCII cfg fs unix =
  domain_outputs md5_hex gunzip uni_lower idna_ToASCII cfg fs' unix.
Proof. intros E. unfold domain_outputs. by rewrite !(load_domains_agree cfg fs fs' _ _ E) by done. Qed.

Lemma ip_lists_names : Forall list_name ip_lists.
Proof. by repeat constructor. Qed.

Lemma domain_lists_names cfg : Forall list_name (domain_lists cfg).
Proof. unfold domain_lists. destruct (BlockAds cfg); by repeat constructor. Qed.

(** ** Lemmas: the writes and their outcome *)

(** The failures of the steps are those the outcome reckons with; the
    fingerprints can be written. *)
Record faults_match (w : World) (r : Writes) (cfg : CompileConfig) : Prop := {
  match_ips n : n ∈ ip_files → fault w (result_path cfg n) = hits false (wr_fault r (result_path cfg n));
  match_zones n : n ∈ required Domains_ → fault w (result_path cfg n) = hits true (wr_fault r (result_path cfg n));
  match_hash t : wr_fault r (result_path cfg (hash_name t)) = None ∧ fault w (result_path cfg (hash_name t)) = false;
}.

Lemma result_lasting cfg n : n ∈ ip_files ∨ n ∈ required Domains_ → lasting (result_path cfg n).
Proof.
  intros Hn. apply joined_lasting; destruct Hn as [Hn|Hn]; unfold ip_files, required in Hn; set_unfold in Hn; destruct_or!; by subst.
Qed.

Lemma result_paths_nodup cfg names : NoDup names → forallb proper_name names = true → NoDup (result_path cfg <$> names).
Proof.
  intros Hnd Hp. apply NoDup_fmap_2_strong; [|done]. rewrite forallb_forall in Hp.
  intros a b Ha%list_elem_of_In Hb%list_elem_of_In. apply result_path_inj; auto.
Qed.

(** Writing some lists step by step and at once. *)
Lemma put_lists_outcome w r cfg synced outs names fs fs' :
  outs.*1 = names → (∀ n, n ∈ names → fault w (result_path cfg n) = hits synced (wr_fault r (result_path cfg n))) →
  (∀ n, n ∈ names → lasting (result_path cfg n)) → NoDup names → forallb proper_name names = true → agree fs fs' →
  agree (after fs (put_lists w r cfg synced outs fs)) (foldl (write_result w cfg) fs' outs).
Proof.
  intros <- Hf Hl Hnd Hp E p Hpl.
  destruct (write_lists_whole synced (wr_fault r) (wr_parts r) (wr_removed r) cfg w outs fs) as [_ H2].
  - apply Forall_forall. intros out Ho. by apply Hf, list_elem_of_fmap_2.
  - apply Forall_forall. intros out Ho. by apply Hl, list_elem_of_fmap_2.
  - by apply result_paths_nodup.
  - unfold put_lists. rewrite H2 by done. by apply write_results_agree, E.
Qed.

Lemma after_cons fs x l : after fs (x :: l) = after x l.
Proof. unfold after. destruct l as [|y l]; [done|]. rewrite last_cons_cons. by destruct (last (y :: l)) eqn:E; [|by apply last_None in E]. Qed.

Lemma ips_states_outcome w r cfg fs fs0 fs' :
  faults_match w r cfg → agree fs fs0 → compile_ips md5_hex w cfg fs0 = Some fs' →
  ∃ l, ips_states w r cfg fs = Some l ∧ agree (after fs l) fs'.
Proof.
  intros Hm E Hc. pose proof (ensure_agree w cfg _ ip_lists_names fs fs0 E) as E1. unfold compile_ips in Hc. unfold ips_states.
  cbv zeta in *. rewrite (ip_outputs_agree cfg _ _ E1). destruct (ip_outputs _ _ _) as [outs|] eqn:Eo; [|done]. cbn in Hc. simplify_eq.
  eexists. split; [reflexivity|]. rewrite after_cons. apply (put_lists_outcome _ _ _ _ _ ip_files).
  - by eapply ip_outputs_names.
  - apply Hm.
  - intros n Hn. apply result_lasting. by left.
  - apply (bool_decide_unpack _). by vm_compute.
  - done.
  - done.
Qed.

Lemma domains_states_outcome w r cfg fs fs0 :
  faults_match w r cfg → agree fs fs0 →
  agree (after fs (domains_states w r cfg fs)) (compile_domains md5_hex gunzip uni_lower idna_ToASCII w cfg fs0).
Proof.
  intros Hm E. pose proof (ensure_agree w cfg _ (domain_lists_names cfg) fs fs0 E) as E1.
  unfold domains_states, compile_domains. cbv zeta. rewrite after_cons, (domain_outputs_agree cfg _ _ _ E1).
  apply (put_lists_outcome _ _ _ _ _ (required Domains_)).
  - apply domain_outputs_names.
  - apply Hm.
  - intros n Hn. apply result_lasting. by right.
  - apply (bool_decide_unpack _). by vm_compute.
  - done.
  - done.
Qed.

Lemma hash_states_outcome w r cfg t h (b : bool) fs fs' :
  faults_match w r cfg → agree fs fs' →
  agree (after fs (if b then hash_states w r cfg (hash_name t) h fs else []))
    (if b then write_result w cfg fs' (hash_name t, h) else fs').
Proof.
  intros [_ _ Hm] E. destruct b; [|done]. destruct (Hm t) as [Hr Hw]. unfold hash_states, write_result. cbn [fst snd].
  rewrite Hr, Hw. by apply agree_insert.
Qed.

Lemma compile_states_outcome w r env cfg fs fs' :
  faults_match w r cfg → CompileLists sha256_hex md5_hex gunzip uni_lower idna_ToASCII w env cfg fs = Some fs' →
  ∃ states, compile_states w r env cfg fs = Some states ∧ agree (after fs states) fs'.
Proof.
  intros Hm Hc. unfold CompileLists in Hc. unfold compile_states. cbv zeta in *. set (cfg' := with_limit cfg) in *.
  assert (faults_match w r cfg') as Hm' by (destruct Hm; by split). clear Hm.
  set (fs0 := downloadSources _ w cfg' fs) in *. set (nI := needed _ _ _ IPs) in *. set (nD := needed _ _ _ Domains_) in *.
  assert (∃ l1, (if nI then ips_states w r cfg' fs0 else Some []) = Some l1 ∧
    ∀ fs1, (if nI then compile_ips md5_hex w cfg' fs0 else Some fs0) = Some fs1 → agree (after fs0 l1) fs1) as (l1 & -> & H1).
  { destruct nI; [|eexists; split; [done|]; by intros ? [= <-]].
    destruct (compile_ips md5_hex w cfg' fs0) as [fs1|] eqn:Ec; [|done].
    destruct (ips_states_outcome w r cfg' fs0 fs0 fs1 Hm' ltac:(done) Ec) as (l & -> & Hl). exists l. split; [done|]. by intros ? [= <-]. }
  destruct (if nI then compile_ips _ _ _ _ else _) as [fs1|]; [|done]. specialize (H1 fs1 eq_refl).
  cbn [mbind option_bind] in *. apply (inj Some) in Hc. subst fs'. eexists. split; [reflexivity|].
  rewrite after_cons, !after_app. set (l2 := if nD then domains_states _ _ _ _ else []).
  assert (agree (after (after fs0 l1) l2) (if nD then compile_domains md5_hex gunzip uni_lower idna_ToASCII w cfg' fs1 else fs1)) as H2
    by (subst l2; destruct nD; [by apply domains_states_outcome|done]).
  by do 2 apply (hash_states_outcome w r cfg' _ _ _ _ _ Hm').
Qed.
End Steps.
