(* ===== verification/Rules.v ===== *)
(** * The packet filter's rules ([internal/netlink/nftables.go], [InitStructure])

    The ruleset that is piped to the nft command.  The input chain, which decides
    who may talk to the node, is a list of rules with their text; the other
    chains are text.  [env] is [os.Getenv] and [lookup] is [net.LookupIP], which
    gives [None] on an error. *)

From Stdlib Require Import Ascii.
From Stdlib Require String.
From stdpp Require Import prelude gmap strings.
From S2P Require Import Prelude GoStrings GoText GoNet GoHostPort Nft.

#[local] Arguments String.append : simpl nomatch.

(** ** Rules *)

Inductive Cond :=
  | LoopbackIn
  | CtEstablished
  | CtNew
  | Denied (isV6 : bool)
  | SrcOutside (isV6 : bool)
  | SrcIs (isV6 : bool) (ip : string)
  | UdpDport (port : string)
  | TcpDport (port : string)
  | UnderRate (meter : string) (isV6 : bool) (rate : string).

Inductive Verdict := Accept | Drop.

Record Rule := mkNftRule { conds : list Cond; action : Verdict }.

Definition allowedV4 : list string :=
  ["127.0.0.0/8"; "10.0.0.0/8"; "172.16.0.0/12"; "192.168.0.0/16"; "100.64.0.0/10"].
Definition allowedV6 : list string := ["::1/128"; "fe80::/10"; "fd00::/8"].
Definition allowed (isV6 : bool) : list string := if isV6 then allowedV6 else allowedV4.

Definition family (isV6 : bool) : string := if isV6 then "ip6" else "ip".
Definition deny_set (isV6 : bool) : string := if isV6 then "deny_v6" else "deny_v4".
Definition quoted (s : string) : string := String (char 34) (s +:+ String (char 34) EmptyString).

Definition show_cond (c : Cond) : string :=
  match c with
  | LoopbackIn => "iifname " +:+ quoted "lo"
  | CtEstablished => "ct state established,related"
  | CtNew => "ct state new"
  | Denied v6 => family v6 +:+ " saddr @" +:+ deny_set v6
  | SrcOutside v6 => family v6 +:+ " saddr != { " +:+ join_with ", " (allowed v6) +:+ " }"
  | SrcIs v6 ip => family v6 +:+ " saddr " +:+ ip
  | UdpDport port => "udp dport " +:+ port
  | TcpDport port => "tcp dport " +:+ port
  | UnderRate meter v6 rate => "add @" +:+ meter +:+ " { " +:+ family v6 +:+ " saddr limit rate " +:+ rate +:+ "/second }"
  end.

Definition show_verdict (v : Verdict) : string := match v with Accept => "accept" | Drop => "drop" end.

Definition line (s : string) : string := s +:+ newline.

Definition show_rule (r : Rule) : string :=
  line ("        " +:+ join_with " " ((show_cond <$> conds r) ++ [show_verdict (action r)])).

(** ** Settings *)

Record Settings := mkSettings {
  dohEnable : bool;
  dohPort : string;
  publicDNS : bool;
  dnsRateLimit : string;
  enableIPv6 : bool;
  syncPort : string;
  peerV4 : list string;
  peerV6 : list string;
}.

(** A number from the environment, or its default. *)
Definition number_or (v d : string) : string :=
  match atoi v with
  | Some _ => if bool_decide (v = EmptyString) then d else v
  | None => d
  end.

(** The addresses of one entry of PEERS. *)
Definition peer_ips (lookup : string → option (list IP)) (p : string) : list IP :=
  let p := TrimSpace p in
  if bool_decide (p = EmptyString) then []
  else
    let host := match SplitHostPort p with Some (h, _) => h | None => p end in
    let ip := ParseIP host in
    if is_nil ip then default [] (lookup host) else [ip].

Definition read_settings (uni : string → string) (env : string → string) (lookup : string → option (list IP)) : Settings :=
  let flag (key : string) := parseBoolEnv uni (env key) in
  let ips := if bool_decide (env "PEERS" = EmptyString) then []
             else concat (peer_ips lookup <$> split_char "," (env "PEERS")) in
  mkSettings (flag "DOH_ENABLE" false) (number_or (env "DOH_PORT") "443") (flag "PUBLIC_DNS" false)
    (number_or (env "DNS_RATE_LIMIT") "300") (flag "ENABLE_IPV6" true) (number_or (env "SYNC_PORT") "5353")
    (IP_String <$> filter (λ ip, To4 ip ≠ []) ips) (IP_String <$> filter (λ ip, To4 ip = []) ips).

(** DoH on a port of its own. *)
Definition doh_port (s : Settings) : bool := dohEnable s && negb (bool_decide (dohPort s = "443")).

(** ** The input chain *)

Definition when {A} (b : bool) (l : list A) : list A := if b then l else [].

Definition private_rules (s : Settings) (v6 : bool) : list Rule :=
  [mkNftRule [SrcOutside v6; UdpDport "53"] Drop; mkNftRule [SrcOutside v6; TcpDport "53"] Drop]
  ++ when (doh_port s) [mkNftRule [SrcOutside v6; TcpDport (dohPort s)] Drop].

Definition meter (s : Settings) (name : string) (v6 : bool) (cs : list Cond) : Rule :=
  mkNftRule (cs ++ [UnderRate name v6 (dnsRateLimit s)]) Accept.

Definition dns_meters (s : Settings) (v6 : bool) : list Rule :=
  [meter s (if v6 then "dns_udp6_meter" else "dns_udp_meter") v6 [UdpDport "53"];
   meter s (if v6 then "dns_tcp6_new_meter" else "dns_tcp_new_meter") v6 [TcpDport "53"; CtNew];
   meter s (if v6 then "dns_tcp6_meter" else "dns_tcp_meter") v6 [TcpDport "53"]].

Definition doh_meters (s : Settings) (v6 : bool) : list Rule :=
  [meter s (if v6 then "doh_tcp6_new_meter" else "doh_tcp_new_meter") v6 [TcpDport (dohPort s); CtNew];
   meter s (if v6 then "doh_tcp6_meter" else "doh_tcp_meter") v6 [TcpDport (dohPort s)]].

Definition peer_rules (s : Settings) (v6 : bool) (peers : list string) : list Rule :=
  (λ ip, mkNftRule [SrcIs v6 ip; TcpDport (syncPort s)] Accept) <$> peers.

Definition input_rules (s : Settings) : list Rule :=
  [mkNftRule [LoopbackIn] Accept; mkNftRule [CtEstablished] Accept; mkNftRule [Denied false] Drop]
  ++ when (enableIPv6 s) [mkNftRule [Denied true] Drop]
  ++ when (negb (publicDNS s)) (private_rules s false ++ when (enableIPv6 s) (private_rules s true))
  ++ peer_rules s false (peerV4 s)
  ++ when (enableIPv6 s) (peer_rules s true (peerV6 s))
  ++ [mkNftRule [SrcOutside false; TcpDport (syncPort s)] Drop]
  ++ when (enableIPv6 s) [mkNftRule [SrcOutside true; TcpDport (syncPort s)] Drop]
  ++ dns_meters s false
  ++ when (enableIPv6 s) (dns_meters s true)
  ++ when (doh_port s) (doh_meters s false ++ when (enableIPv6 s) (doh_meters s true))
  ++ [mkNftRule [UdpDport "53"] Drop; mkNftRule [TcpDport "53"] Drop]
  ++ when (dohEnable s && negb (publicDNS s) && negb (bool_decide (dohPort s = "443")))
       [mkNftRule [TcpDport (dohPort s)] Drop].

(** ** The text *)

Definition chain (name hook : string) (body : list string) : string :=
  line ("    chain " +:+ name +:+ " {") +:+ line ("        type " +:+ hook +:+ "; policy accept;")
  +:+ foldr String.append EmptyString (line ∘ String.append "        " <$> body) +:+ line "    }".

Definition sets (v6 : bool) : list string :=
  if v6 then ["deny_v6"; "dns_udp6_meter"; "dns_tcp6_new_meter"; "dns_tcp6_meter"; "doh_tcp6_new_meter"; "doh_tcp6_meter"]
  else ["deny_v4"; "dns_udp_meter"; "dns_tcp_new_meter"; "dns_tcp_meter"; "doh_tcp_new_meter"; "doh_tcp_meter"].

Definition show_map (v6 : bool) : string :=
  let t := if v6 then "ipv6_addr" else "ipv4_addr" in
  line ("    map " +:+ (if v6 then "v6_map" else "v4_map") +:+ " { type " +:+ t +:+ " : " +:+ t
        +:+ "; flags dynamic, timeout; timeout 2h; }").

Definition show_sets (v6 : bool) : string :=
  let t := if v6 then "ipv6_addr" else "ipv4_addr" in
  foldr String.append EmptyString (imap (λ i n,
    line ("    set " +:+ n +:+ " { type " +:+ t +:+
          (if Nat.eqb i 0 then "; flags interval; }" else "; flags dynamic; size 65535; }"))) (sets v6)).

Definition str_when (b : bool) (s : string) : string := if b then s else EmptyString.

Definition keep_alive (v6 : bool) (net : string) : string :=
  let f := family v6 in
  "ct original " +:+ f +:+ " daddr " +:+ net +:+ " ct status dnat update @" +:+ (if v6 then "v6_map" else "v4_map")
  +:+ " { ct original " +:+ f +:+ " daddr : " +:+ f +:+ " daddr }".

Definition dnat (v6 : bool) (net : string) : string :=
  let f := family v6 in
  f +:+ " daddr " +:+ net +:+ " dnat " +:+ f +:+ " to " +:+ f +:+ " daddr map @" +:+ (if v6 then "v6_map" else "v4_map").

(** The chains after the input chain. *)
Definition other_chains (v6 : bool) (poolNet poolNet6 : string) : string :=
  chain "forward" "filter hook forward priority 0"
    (["ip saddr @deny_v4 drop"; keep_alive false poolNet]
     ++ when v6 ["ip6 saddr @deny_v6 drop"; keep_alive true poolNet6])
  +:+ chain "output" "filter hook output priority 0" (keep_alive false poolNet :: when v6 [keep_alive true poolNet6])
  +:+ chain "postrouting" "nat hook postrouting priority 100" ["masquerade"]
  +:+ chain "filter_postrouting" "filter hook postrouting priority 300" ["tcp flags syn tcp option maxseg size set rt mtu"]
  +:+ chain "raw_prerouting" "filter hook prerouting priority -300" ["iifname " +:+ quoted "lo" +:+ " notrack"]
  +:+ chain "raw_output" "filter hook output priority -300" ["oifname " +:+ quoted "lo" +:+ " notrack"]
  +:+ chain "nat_prerouting" "nat hook prerouting priority -100" (dnat false poolNet :: when v6 [dnat true poolNet6])
  +:+ chain "nat_output" "nat hook output priority -100" (dnat false poolNet :: when v6 [dnat true poolNet6]).

(** The ruleset for the networks of the pool. *)
Definition ruleset (s : Settings) (poolNet poolNet6 : string) : string :=
  let v6 := enableIPv6 s in
  line ("table inet " +:+ tableName +:+ " {")
  +:+ show_map false +:+ str_when v6 (show_map true) +:+ show_sets false +:+ str_when v6 (show_sets true)
  +:+ line "    chain input {" +:+ line "        type filter hook input priority 0; policy accept;"
  +:+ foldr String.append EmptyString (show_rule <$> input_rules s) +:+ line "    }"
  +:+ other_chains v6 poolNet poolNet6 +:+ line "}".

(** [InitStructure] up to the call of nft. *)
Definition InitStructure (uni : string → string) (env : string → string) (lookup : string → option (list IP))
    (poolNet poolNet6 : string) : string :=
  ruleset (read_settings uni env lookup) poolNet poolNet6.
