(* ===== verification/RulesFacts.v ===== *)
(** * The input chain: who may talk to the node *)

From Stdlib Require Import Ascii.
From Stdlib Require String.
From stdpp Require Import prelude gmap strings.
From S2P Require Import Prelude GoStrings GoText GoNet GoHostPort Nft Rules.

#[local] Arguments String.append : simpl nomatch.

(** ** What nftables promises *)

(** A packet that reaches the input hook over UDP or TCP. *)
Record Packet := mkPacket {
  pk_lo : bool;
  pk_established : bool;
  pk_new : bool;
  pk_v6 : bool;
  pk_src : IP;
  pk_udp : bool;
  pk_dport : Z;
}.

(** The source lies in one of the networks the node trusts. *)
Definition trusted (p : Packet) : bool :=
  existsb (λ n, match ParseCIDR n with Some net => IPNet_Contains net (pk_src p) | None => false end) (allowed (pk_v6 p)).

(** The evaluation of conditions and chains: an [ip] or [ip6] expression matches
    packets of its family only, the first rule all of whose conditions hold
    decides, and a packet no rule decides meets the chain's policy. *)
Class Nftables := {
  holds : Cond → Packet → bool;
  denied : Packet → bool;
  eval : list Rule → Packet → Verdict;
}.

Class NftablesLaws `{Nftables} : Prop := {
  eval_nil p : eval [] p = Accept;
  eval_cons r rs p : eval (r :: rs) p = if forallb (λ c, holds c p) (conds r) then action r else eval rs p;
  holds_lo p : holds LoopbackIn p = pk_lo p;
  holds_established p : holds CtEstablished p = pk_established p;
  holds_denied v6 p : holds (Denied v6) p = Bool.eqb (pk_v6 p) v6 && denied p;
  holds_outside v6 p : holds (SrcOutside v6) p = Bool.eqb (pk_v6 p) v6 && negb (trusted p);
  holds_src v6 ip p : holds (SrcIs v6 ip) p = Bool.eqb (pk_v6 p) v6 && bool_decide (To16 (pk_src p) = ParseIP ip);
  holds_udp port p : holds (UdpDport port) p = pk_udp p && bool_decide (atoi port = Some (pk_dport p));
  holds_tcp port p : holds (TcpDport port) p = negb (pk_udp p) && bool_decide (atoi port = Some (pk_dport p));
  holds_rate name v6 rate p : holds (UnderRate name v6 rate) p = true → pk_v6 p = v6;
}.

Section Chain.
Context `{NftablesLaws}.
Implicit Types p : Packet.

Definition matches (r : Rule) p : bool := forallb (λ c, holds c p) (conds r).

(** The verdict of the first rule that matches. *)
Fixpoint first_match (l : list Rule) p : option Verdict :=
  match l with
  | [] => None
  | r :: rs => if matches r p then Some (action r) else first_match rs p
  end.

Lemma eval_first l k p : eval (l ++ k) p = match first_match l p with Some v => v | None => eval k p end.
Proof.
  induction l as [|r l IH]; [done|]. cbn [app first_match]. rewrite eval_cons. unfold matches.
  by destruct (forallb (λ c, holds c p) (conds r)).
Qed.

Lemma first_when b l p : first_match (when b l) p = if b then first_match l p else None.
Proof. by destruct b. Qed.

Lemma first_none l p : Forall (λ r, matches r p = false) l → first_match l p = None.
Proof. induction 1 as [|r l Hr _ IH]; [done|]. cbn. by rewrite Hr. Qed.

(** A block of drops that has a match. *)
Lemma first_drop l p :
  Forall (λ r, matches r p = true → action r = Drop) l → existsb (λ r, matches r p) l = true → first_match l p = Some Drop.
Proof.
  induction 1 as [|r l Hr _ IH]; [done|]. cbn. destruct (matches r p); [by rewrite Hr|exact IH].
Qed.

(** The first three rules decide about loopback, known connections and, with the
    fourth, denied sources. *)
Lemma eval_prefix s p rest :
  pk_lo p = false → pk_established p = false →
  eval ([mkNftRule [LoopbackIn] Accept; mkNftRule [CtEstablished] Accept; mkNftRule [Denied false] Drop]
        ++ when (enableIPv6 s) [mkNftRule [Denied true] Drop] ++ rest) p =
  if denied p && (negb (pk_v6 p) || enableIPv6 s) then Drop else eval rest p.
Proof.
  intros Hl He. rewrite !eval_first, first_when. cbn [first_match]. unfold matches. cbn [conds forallb action].
  rewrite holds_lo, holds_established, !holds_denied, Hl, He. destruct (denied p), (pk_v6 p), (enableIPv6 s); done.
Qed.

(** A condition that fails. *)
Lemma matches_not r c p : c ∈ conds r → holds c p = false → matches r p = false.
Proof.
  intros Hc Hf. unfold matches. apply not_true_is_false. rewrite forallb_forall. intros Ha.
  apply list_elem_of_In in Hc. by rewrite (Ha c Hc) in Hf.
Qed.

Lemma holds_rate_other name v6 rate p : pk_v6 p ≠ v6 → holds (UnderRate name v6 rate) p = false.
Proof. intros Hne. apply not_true_is_false. by intros ?%holds_rate. Qed.

Lemma first_all_drop l p : Forall (λ r, action r = Drop) l → first_match l p = None ∨ first_match l p = Some Drop.
Proof. induction 1 as [|r l Hr _ IH]; [by left|]. cbn. rewrite Hr. destruct (matches r p); auto. Qed.

Lemma when_Forall {A} (P : A → Prop) b l : Forall P l → Forall P (when b l).
Proof. by destruct b. Qed.

Definition private_block (s : Settings) : list Rule :=
  when (negb (publicDNS s)) (private_rules s false ++ when (enableIPv6 s) (private_rules s true)).

Definition peer_block (s : Settings) : list Rule :=
  peer_rules s false (peerV4 s) ++ when (enableIPv6 s) (peer_rules s true (peerV6 s)).

Definition sync_block (s : Settings) : list Rule :=
  mkNftRule [SrcOutside false; TcpDport (syncPort s)] Drop ::
  when (enableIPv6 s) [mkNftRule [SrcOutside true; TcpDport (syncPort s)] Drop].

Definition meter_block (s : Settings) : list Rule :=
  dns_meters s false ++ when (enableIPv6 s) (dns_meters s true)
  ++ when (doh_port s) (doh_meters s false ++ when (enableIPv6 s) (doh_meters s true)).

Definition last_block (s : Settings) : list Rule :=
  [mkNftRule [UdpDport "53"] Drop; mkNftRule [TcpDport "53"] Drop]
  ++ when (dohEnable s && negb (publicDNS s) && negb (bool_decide (dohPort s = "443")))
       [mkNftRule [TcpDport (dohPort s)] Drop].

(** The family of the packet is handled. *)
Definition family_on (s : Settings) p : bool := negb (pk_v6 p) || enableIPv6 s.

(** The chain after its common prefix. *)
Lemma eval_input s p :
  pk_lo p = false → pk_established p = false →
  eval (input_rules s) p =
  if denied p && family_on s p then Drop
  else match first_match (private_block s) p with
       | Some v => v
       | None => match first_match (peer_block s) p with
                 | Some v => v
                 | None => match first_match (sync_block s) p with
                           | Some v => v
                           | None => match first_match (meter_block s) p with
                                     | Some v => v
                                     | None => match first_match (last_block s) p with Some v => v | None => Accept end
                                     end
                           end
                 end
       end.
Proof.
  intros Hl He.
  assert (input_rules s = [mkNftRule [LoopbackIn] Accept; mkNftRule [CtEstablished] Accept; mkNftRule [Denied false] Drop]
    ++ when (enableIPv6 s) [mkNftRule [Denied true] Drop]
    ++ (private_block s ++ peer_block s ++ sync_block s ++ meter_block s ++ last_block s ++ [])) as ->.
  { unfold input_rules, private_block, peer_block, sync_block, meter_block, last_block.
    rewrite app_nil_r. cbn [app]. by rewrite <- !app_assoc. }
  rewrite eval_prefix by done. unfold family_on. by rewrite !eval_first, eval_nil.
Qed.

Lemma private_all_drop s : Forall (λ r, action r = Drop) (private_block s).
Proof.
  unfold private_block, private_rules. apply when_Forall, Forall_app.
  split; [|apply when_Forall]; repeat apply Forall_cons_2; try done; by apply when_Forall, Forall_singleton.
Qed.

Lemma sync_all_drop s : Forall (λ r, action r = Drop) (sync_block s).
Proof. apply Forall_cons_2; [done|]. by apply when_Forall, Forall_singleton. Qed.

Lemma Forall_or_drop l p v : Forall (λ r, action r = Drop) l → v = Drop → match first_match l p with Some w => w | None => v end = Drop.
Proof. intros Hl ->. by destruct (first_all_drop l p Hl) as [-> | ->]. Qed.

Definition is_dns p : Prop := pk_dport p = 53.

Lemma dport_udp p : is_dns p → holds (UdpDport "53") p = pk_udp p.
Proof. intros Hp. rewrite holds_udp, Hp, bool_decide_true by (vm_compute; done). apply andb_true_r. Qed.

Lemma dport_tcp p : is_dns p → holds (TcpDport "53") p = negb (pk_udp p).
Proof. intros Hp. rewrite holds_tcp, Hp, bool_decide_true by (vm_compute; done). apply andb_true_r. Qed.

Lemma last_drops s p : is_dns p → first_match (last_block s) p = Some Drop.
Proof.
  intros Hp. unfold last_block. cbn [app first_match]. unfold matches. cbn [conds forallb action].
  rewrite dport_udp, dport_tcp by done. by destruct (pk_udp p).
Qed.

(** Whether a meter of the packet's family counts its source below the limit. *)
Definition admits (s : Settings) (name : string) p : bool := holds (UnderRate name (pk_v6 p) (dnsRateLimit s)) p.

(** A DNS packet over the limit: UDP has one meter; TCP has one for all packets
    and one for the first of a connection, and either admits it. *)
Definition over_rate (s : Settings) p : Prop :=
  if pk_udp p then admits s (if pk_v6 p then "dns_udp6_meter" else "dns_udp_meter") p = false
  else admits s (if pk_v6 p then "dns_tcp6_meter" else "dns_tcp_meter") p = false ∧
       (holds CtNew p = true → admits s (if pk_v6 p then "dns_tcp6_new_meter" else "dns_tcp_new_meter") p = false).

Lemma other_family_meter s name v6 cs p : pk_v6 p ≠ v6 → matches (meter s name v6 cs) p = false.
Proof.
  intros Hne. eapply (matches_not _ (UnderRate name v6 (dnsRateLimit s))); [cbn; set_solver|].
  apply not_true_is_false. by intros ?%holds_rate.
Qed.

Lemma dns_meters_skip s v6 p : over_rate s p → Forall (λ r, matches r p = false) (dns_meters s v6).
Proof.
  intros Ho. destruct (decide (pk_v6 p = v6)) as [<-|Hne].
  2:{ unfold dns_meters. repeat apply Forall_cons_2; [by apply other_family_meter..|apply Forall_nil_2]. }
  assert (∀ name cs c, c ∈ cs → holds c p = false → matches (meter s name (pk_v6 p) cs) p = false) as Hc.
  { intros name cs c Hin. apply matches_not. cbn. set_solver. }
  assert (∀ name cs, admits s name p = false → matches (meter s name (pk_v6 p) cs) p = false) as Hr.
  { intros name cs. apply matches_not. cbn. set_solver. }
  unfold over_rate in Ho. unfold dns_meters. destruct (pk_udp p) eqn:Hu.
  - assert (holds (TcpDport "53") p = false) as Ht by (by rewrite holds_tcp, Hu).
    repeat apply Forall_cons_2; [by apply Hr|apply (Hc _ _ (TcpDport "53")); [set_solver|done]..|apply Forall_nil_2].
  - destruct Ho as [Ho1 Ho2]. assert (holds (UdpDport "53") p = false) as Ht by (by rewrite holds_udp, Hu).
    repeat apply Forall_cons_2; [apply (Hc _ _ (UdpDport "53")); [set_solver|done]| |by apply Hr|apply Forall_nil_2].
    destruct (holds CtNew p) eqn:En; [by apply Hr, Ho2|apply (Hc _ _ CtNew); [set_solver|done]].
Qed.

Lemma doh_meters_skip s v6 p :
  is_dns p → atoi (dohPort s) ≠ Some 53 → Forall (λ r, matches r p = false) (doh_meters s v6).
Proof.
  intros Hp Hd. assert (holds (TcpDport (dohPort s)) p = false) as Ht.
  { rewrite holds_tcp, Hp, bool_decide_false by done. apply andb_false_r. }
  unfold doh_meters. repeat apply Forall_cons_2; [..|apply Forall_nil_2];
    (eapply matches_not; [|exact Ht]; cbn; set_solver).
Qed.

Lemma meters_skip s p :
  is_dns p → over_rate s p → (doh_port s = true → atoi (dohPort s) ≠ Some 53) →
  first_match (meter_block s) p = None.
Proof.
  intros Hp Ho Hd. apply first_none. unfold meter_block. repeat (apply Forall_app; split).
  - by apply dns_meters_skip.
  - by apply when_Forall, dns_meters_skip.
  - destruct (doh_port s); [|apply Forall_nil_2]. cbn [when]. apply Forall_app.
    split; [|apply when_Forall]; by apply doh_meters_skip; auto.
Qed.

(** The peers of the packet's family. *)
Definition peers_of (s : Settings) p : list string :=
  if pk_v6 p then when (enableIPv6 s) (peerV6 s) else peerV4 s.

Lemma peers_skip s p :
  (∀ ip, ip ∈ peers_of s p → To16 (pk_src p) ≠ ParseIP ip) ∨
    atoi (syncPort s) ≠ Some (pk_dport p) →
  first_match (peer_block s) p = None.
Proof.
  unfold peers_of. intros Hp. apply first_none. unfold peer_block, peer_rules.
  assert (∀ v6 l, (v6 = pk_v6 p → l ⊆ if pk_v6 p then when (enableIPv6 s) (peerV6 s) else peerV4 s) →
    Forall (λ r, matches r p = false) ((λ ip, mkNftRule [SrcIs v6 ip; TcpDport (syncPort s)] Accept) <$> l)) as Hb.
  { intros v6 l Hl. apply Forall_fmap, Forall_forall. intros ip Hip.
    change (matches (mkNftRule [SrcIs v6 ip; TcpDport (syncPort s)] Accept) p = false). destruct Hp as [Hp|Hp].
    - apply matches_not with (SrcIs v6 ip); [cbn; set_solver|]. rewrite holds_src.
      destruct (Bool.eqb_spec (pk_v6 p) v6) as [E|E]; [|done].
      cbn [andb]. apply bool_decide_eq_false, Hp. by apply (Hl (eq_sym E)).
    - apply matches_not with (TcpDport (syncPort s)); [cbn; set_solver|].
      by rewrite holds_tcp, bool_decide_false, andb_false_r. }
  apply Forall_app. split; [apply Hb; intros <-; done|]. destruct (enableIPv6 s); [|apply Forall_nil_2].
  apply Hb. intros <-. done.
Qed.

Lemma private_dns_drops s p :
  is_dns p → publicDNS s = false → trusted p = false → family_on s p = true → first_match (private_block s) p = Some Drop.
Proof.
  intros Hd Hp Ht Hf. apply first_drop.
  - eapply Forall_impl; [apply private_all_drop|]. auto.
  - apply existsb_exists. exists (mkNftRule [SrcOutside (pk_v6 p); if pk_udp p then UdpDport "53" else TcpDport "53"] Drop).
    split.
    + apply list_elem_of_In. unfold private_block, private_rules. rewrite Hp. cbn [negb when].
      unfold family_on in Hf. destruct (pk_v6 p), (enableIPv6 s), (pk_udp p); cbn [when] in *; set_solver.
    + unfold matches. cbn [conds forallb]. rewrite holds_outside, Ht, eqb_reflx. cbn [negb andb].
      destruct (pk_udp p) eqn:Eu; rewrite ?dport_udp, ?dport_tcp, ?Eu by done; done.
Qed.

Lemma private_other_none s p :
  ¬ is_dns p → (doh_port s = true → atoi (dohPort s) ≠ Some (pk_dport p)) → first_match (private_block s) p = None.
Proof.
  intros Hd Ho. apply first_none. unfold private_block.
  assert (∀ v6, Forall (λ r, matches r p = false) (private_rules s v6)) as Hb.
  { intros v6. unfold private_rules. assert (atoi "53" ≠ Some (pk_dport p)) as Hn.
    { change (atoi "53") with (Some 53). intros [= E]. by apply Hd. }
    repeat apply Forall_cons_2.
    - apply matches_not with (UdpDport "53"); [cbn; set_solver|]. by rewrite holds_udp, bool_decide_false, andb_false_r.
    - apply matches_not with (TcpDport "53"); [cbn; set_solver|]. by rewrite holds_tcp, bool_decide_false, andb_false_r.
    - destruct (doh_port s) eqn:E; [|apply Forall_nil_2]. apply Forall_singleton.
      apply matches_not with (TcpDport (dohPort s)); [cbn; set_solver|].
      rewrite holds_tcp, bool_decide_false by auto. apply andb_false_r. }
  apply when_Forall, Forall_app. split; [apply Hb|apply when_Forall, Hb].
Qed.

Lemma sync_drops s p :
  pk_udp p = false → atoi (syncPort s) = Some (pk_dport p) → trusted p = false → family_on s p = true →
  first_match (sync_block s) p = Some Drop.
Proof.
  intros Hu Hs Ht Hf. unfold sync_block. cbn [first_match]. rewrite first_when. cbn [first_match].
  unfold matches. cbn [conds forallb action]. rewrite !holds_outside, !holds_tcp, Hu, Ht, Hs, bool_decide_true by done.
  unfold family_on in Hf. by destruct (pk_v6 p), (enableIPv6 s).
Qed.

Lemma first_accept l p :
  Forall (λ r, action r = Accept) l → existsb (λ r, matches r p) l = true → first_match l p = Some Accept.
Proof. induction 1 as [|r l Hr _ IH]; [done|]. cbn. destruct (matches r p); [by rewrite Hr|exact IH]. Qed.

Lemma peer_accepted s p ip :
  pk_udp p = false → atoi (syncPort s) = Some (pk_dport p) → ip ∈ peers_of s p → To16 (pk_src p) = ParseIP ip →
  first_match (peer_block s) p = Some Accept.
Proof.
  intros Hu Hs Hip Heq. apply first_accept.
  - unfold peer_block, peer_rules. apply Forall_app. split; [|apply when_Forall]; by apply Forall_fmap, Forall_true.
  - apply existsb_exists. exists (mkNftRule [SrcIs (pk_v6 p) ip; TcpDport (syncPort s)] Accept). split.
    + apply list_elem_of_In. unfold peer_block, peer_rules, peers_of in *. apply elem_of_app.
      destruct (pk_v6 p); [right|left].
      * destruct (enableIPv6 s); [|by apply elem_of_nil in Hip]. cbn [when] in *.
        by apply (list_elem_of_fmap_2 (λ ip, mkNftRule [SrcIs true ip; TcpDport (syncPort s)] Accept)).
      * by apply (list_elem_of_fmap_2 (λ ip, mkNftRule [SrcIs false ip; TcpDport (syncPort s)] Accept)).
    + unfold matches. cbn [conds forallb]. rewrite holds_src, holds_tcp, Hu, eqb_reflx, !bool_decide_true by done. done.
Qed.

(** ** Properties *)

(** C29: the input chain, for packets that are neither local nor part of a known
    connection.  A denied source is dropped.  Without PUBLIC_DNS only trusted
    networks reach port 53.  On port 53 a UDP packet that its meter does not
    admit is dropped, and so is a TCP packet that neither the meter of its
    family nor, when it opens a connection, the meter of new connections admits,
    unless the synchronisation or DoH port is 53 too.  The synchronisation port
    is closed to everyone but the trusted networks and the configured peers, and
    open to peers that are not denied.  The rules about sources judge IPv6
    packets only when IPv6 is enabled; [sync_port_open_over_ipv6] is what happens
    otherwise. *)
Theorem input_chain_policy s p :
  pk_lo p = false → pk_established p = false →
  (denied p = true → family_on s p = true → eval (input_rules s) p = Drop) ∧
  (is_dns p → publicDNS s = false → trusted p = false → family_on s p = true → eval (input_rules s) p = Drop) ∧
  (is_dns p → over_rate s p → atoi (syncPort s) ≠ Some 53 → (doh_port s = true → atoi (dohPort s) ≠ Some 53) →
   eval (input_rules s) p = Drop) ∧
  (pk_udp p = false → atoi (syncPort s) = Some (pk_dport p) → trusted p = false → family_on s p = true →
   (∀ ip, ip ∈ peers_of s p → To16 (pk_src p) ≠ ParseIP ip) → eval (input_rules s) p = Drop) ∧
  (∀ ip, pk_udp p = false → atoi (syncPort s) = Some (pk_dport p) → denied p = false → ¬ is_dns p →
   (doh_port s = true → atoi (dohPort s) ≠ Some (pk_dport p)) →
   ip ∈ peers_of s p → To16 (pk_src p) = ParseIP ip → eval (input_rules s) p = Accept).
Proof.
  intros Hl He. rewrite eval_input by done. split_and!.
  - intros Hd Hf. by rewrite Hd, Hf.
  - intros Hd Hp Ht Hf. rewrite private_dns_drops by done. by case_match.
  - intros Hd Ho Hs Hdoh. case_match; [done|]. apply Forall_or_drop; [apply private_all_drop|].
    rewrite peers_skip by (right; by rewrite Hd). apply Forall_or_drop; [apply sync_all_drop|].
    by rewrite meters_skip, last_drops.
  - intros Hu Hs Ht Hf Hp. case_match; [done|]. apply Forall_or_drop; [apply private_all_drop|].
    rewrite peers_skip by (left; exact Hp). by rewrite sync_drops.
  - intros ip Hu Hs Hd Hn Ho Hip Heq. rewrite Hd, private_other_none by done. cbn [andb].
    by rewrite (peer_accepted s p ip).
Qed.
End Chain.

(** ** A model of the evaluation, witnesses and findings *)

(** The sources in the list are denied; [under] tells whether the meters count a
    packet in. *)
Definition demo_holds (deny : list IP) (under : bool) (c : Cond) (p : Packet) : bool :=
  match c with
  | LoopbackIn => pk_lo p
  | CtEstablished => pk_established p
  | CtNew => pk_new p
  | Denied v6 => Bool.eqb (pk_v6 p) v6 && bool_decide (pk_src p ∈ deny)
  | SrcOutside v6 => Bool.eqb (pk_v6 p) v6 && negb (trusted p)
  | SrcIs v6 ip => Bool.eqb (pk_v6 p) v6 && bool_decide (To16 (pk_src p) = ParseIP ip)
  | UdpDport port => pk_udp p && bool_decide (atoi port = Some (pk_dport p))
  | TcpDport port => negb (pk_udp p) && bool_decide (atoi port = Some (pk_dport p))
  | UnderRate _ v6 _ => Bool.eqb (pk_v6 p) v6 && under
  end.

Fixpoint demo_eval (deny : list IP) (under : bool) (l : list Rule) (p : Packet) : Verdict :=
  match l with
  | [] => Accept
  | r :: rs => if forallb (λ c, demo_holds deny under c p) (conds r) then action r else demo_eval deny under rs p
  end.

Definition demo_nft (deny : list IP) (under : bool) : Nftables :=
  {| holds := demo_holds deny under; denied := λ p, bool_decide (pk_src p ∈ deny); eval := demo_eval deny under |}.

Lemma demo_nft_laws deny under : @NftablesLaws (demo_nft deny under).
Proof.
  split; try done. cbn. intros name v6 rate p [Hv _]%andb_true_iff. by apply eqb_prop.
Qed.

Definition peer_env (key : string) : string := if bool_decide (key = "PEERS") then "203.0.113.7:5353" else EmptyString.
Definition demo_settings : Settings := read_settings id peer_env (λ _, None).

(** A new TCP packet to a port. *)
Definition tcp_packet (v6 : bool) (src : string) (port : Z) : Packet :=
  mkPacket false false true v6 (if v6 then ParseIP src else To4 (ParseIP src)) false port.

Lemma input_chain_policy_witness :
  demo_eval [] true (input_rules demo_settings) (tcp_packet false "203.0.113.7" 5353) = Accept ∧
  demo_eval [] true (input_rules demo_settings) (tcp_packet false "8.8.8.8" 53) = Drop.
Proof.
  split.
  - refine (proj2 (proj2 (proj2 (proj2 (@input_chain_policy (demo_nft [] true) (demo_nft_laws [] true) demo_settings
      (tcp_packet false "203.0.113.7" 5353) eq_refl eq_refl)))) "203.0.113.7" eq_refl _ eq_refl _ _ _ _).
    + vm_compute. reflexivity.
    + discriminate.
    + vm_compute. discriminate.
    + vm_compute. left.
    + vm_compute. reflexivity.
  - refine (proj1 (proj2 (@input_chain_policy (demo_nft [] true) (demo_nft_laws [] true) demo_settings
      (tcp_packet false "8.8.8.8" 53) eq_refl eq_refl)) eq_refl _ _ eq_refl); vm_compute; reflexivity.
Defined.

Definition with_env (l : list (string * string)) (key : string) : string :=
  default EmptyString ((list_to_map l : gmap string string) !! key).

(** With IPv6 disabled no rule closes the synchronisation port to IPv6 sources. *)
Theorem sync_port_open_over_ipv6 :
  let s := read_settings id (with_env [("ENABLE_IPV6", "n")]) (λ _, None) in
  demo_eval [] true (input_rules s) (tcp_packet true "2001:db8::bad" 5353) = Accept ∧
  demo_eval [] true (input_rules s) (tcp_packet false "203.0.113.9" 5353) = Drop.
Proof. vm_compute. done. Qed.

(** With PUBLIC_DNS nothing drops the DoH packets that exceed the rate limit. *)
Theorem public_doh_not_limited :
  let s := read_settings id (with_env [("PUBLIC_DNS", "y"); ("DOH_ENABLE", "y"); ("DOH_PORT", "8443")]) (λ _, None) in
  demo_eval [] false (input_rules s) (tcp_packet false "203.0.113.9" 8443) = Accept ∧
  demo_eval [] false (input_rules s) (tcp_packet false "203.0.113.9" 53) = Drop.
Proof. vm_compute. done. Qed.
