(* ===== verification/DenyFacts.v ===== *)
(** * From the compiled deny list to the packet filter

    The compiler writes prefixes as text; the engine reads the file back and
    passes the lines it can parse to nft.  Here, that no network is lost or
    changed on the way: the addresses of the elements are those of the list. *)

From Stdlib Require Import Ascii.
From Stdlib Require String.
From stdpp Require Import prelude gmap strings.
From S2P Require Import Prelude GoStrings GoText GoPath GoNet GoNetFacts GoNetMask GoHostPort Domains IPNets IPTrie IPNetFacts.
From S2P Require Import Nft.

#[local] Arguments String.append : simpl nomatch.

(** ** Lemmas: bits and bytes *)

Lemma bits_byte_8 a b c d e f g h : byte_bits (bits_byte [a; b; c; d; e; f; g; h]) = [a; b; c; d; e; f; g; h].
Proof. by destruct a, b, c, d, e, f, g, h. Qed.

Lemma byte_bits_inj b c : byte_bits b = byte_bits c → b = c.
Proof.
  intros E. assert (∀ x, bits_byte (byte_bits x) = x) as H by (intros x; destruct x; reflexivity).
  by rewrite <- (H b), E, H.
Qed.

Lemma length_byte_bits b : length (byte_bits b) = 8%nat.
Proof. done. Qed.

Lemma bits_bytes_ok k : ∀ fuel l, length l = (8 * k)%nat → (k ≤ fuel)%nat →
  bytes_bits (bits_bytes fuel l) = l ∧ length (bits_bytes fuel l) = k.
Proof.
  induction k as [|k IH]; intros fuel l Hl Hf.
  - destruct l; [|done]. by destruct fuel.
  - destruct fuel as [|fuel]; [lia|].
    do 8 (destruct l as [|? l]; [cbn in Hl; lia|]).
    destruct (IH fuel l) as [H1 H2]; [cbn in Hl; lia|lia|].
    match goal with |- bytes_bits (bits_bytes _ (?a :: ?b :: ?c :: ?d :: ?e :: ?f :: ?g :: ?h :: l)) = _ ∧ _ =>
      change (bits_bytes (S fuel) (a :: b :: c :: d :: e :: f :: g :: h :: l))
        with (bits_byte [a; b; c; d; e; f; g; h] :: bits_bytes fuel l) end.
    change (bytes_bits (?x :: ?y)) with (byte_bits x ++ bytes_bits y). rewrite bits_byte_8, H1. split; [done|].
    change (length (?x :: ?y)) with (S (length y)). by rewrite H2.
Qed.

(** What a mask leaves of a byte. *)
Lemma byte_and_bits b n :
  0 ≤ n < 8 →
  byte_bits (byte_and b (byte_of_Z (Z.lnot (Z.shiftr 255 n)))) =
    take (Z.to_nat n) (byte_bits b) ++ replicate (8 - Z.to_nat n) false.
Proof.
  intros Hn.
  assert (n = 0 ∨ n = 1 ∨ n = 2 ∨ n = 3 ∨ n = 4 ∨ n = 5 ∨ n = 6 ∨ n = 7) as Hc by lia.
  destruct_or! Hc; subst n; destruct b; reflexivity.
Qed.

Lemma byte_and_take b c n :
  0 ≤ n < 8 →
  byte_and b (byte_of_Z (Z.lnot (Z.shiftr 255 n))) = byte_and c (byte_of_Z (Z.lnot (Z.shiftr 255 n))) ↔
  take (Z.to_nat n) (byte_bits b) = take (Z.to_nat n) (byte_bits c).
Proof.
  intros Hn. split; intros E.
  - apply (f_equal byte_bits) in E. rewrite !byte_and_bits in E by done.
    apply app_inj_2 in E as [E _]; [done|by rewrite !length_replicate].
  - apply byte_bits_inj. by rewrite !byte_and_bits, E.
Qed.

(** Masked bytes agree exactly when the leading bits do. *)
Lemma masked_take l : ∀ k n,
  length l = length k → 0 ≤ n →
  zip_with byte_and l (mask_bytes (length l) n) = zip_with byte_and k (mask_bytes (length k) n) ↔
  take (Z.to_nat n) (bytes_bits l) = take (Z.to_nat n) (bytes_bits k).
Proof.
  induction l as [|b l IH]; intros [|c k] n Hl Hn; try done. injection Hl as Hl.
  unfold bytes_bits. cbn [length mask_bytes fmap list_fmap concat].
  change (concat (byte_bits <$> l)) with (bytes_bits l). change (concat (byte_bits <$> k)) with (bytes_bits k).
  destruct (Z.leb_spec 8 n).
  - cbn [zip_with]. rewrite !byte_and_ff.
    replace (Z.to_nat n) with (8 + Z.to_nat (n - 8))%nat by lia.
    assert (∀ x y, take (8 + Z.to_nat (n - 8)) (byte_bits x ++ y) = byte_bits x ++ take (Z.to_nat (n - 8)) y) as Ht
      by (intros x y; by apply take_app_add').
    rewrite !Ht. rewrite <- Hl. specialize (IH k (n - 8) Hl ltac:(lia)). rewrite <- Hl in IH. split.
    + intros [= -> E]. f_equal. by apply IH.
    + intros [E1 E2]%app_inj_1; [|done]. apply byte_bits_inj in E1 as ->. f_equal. by apply IH.
  - cbn [zip_with]. specialize (IH k 0 Hl ltac:(lia)). rewrite <- Hl in *.
    assert (∀ x y, take (Z.to_nat n) (byte_bits x ++ y) = take (Z.to_nat n) (byte_bits x)) as Ht.
    { intros x y. apply take_app_le. rewrite length_byte_bits. lia. }
    rewrite !Ht. rewrite <- byte_and_take by lia. split; [by intros [= E _]|].
    intros E. f_equal; [done|]. by apply IH.
Qed.

(** ** Lemmas: the text of a prefix *)

Definition net_bytes (p : Prefix) : list Byte.byte := bits_bytes 16 (addr p).

Definition net_mask (p : Prefix) : list Byte.byte := mask_bytes (if Is6 p then 16 else 4) (Z.of_nat (Bits p)).

(** An IPv6 prefix that is not written as an IPv4-mapped address. *)
Definition native (p : Prefix) : Prop :=
  Is6 p = true → To4 (net_bytes p) = [] ∧ To4 (zip_with byte_and (net_bytes p) (net_mask p)) = [].

Lemma net_bytes_ok p :
  prefix_ok p → bytes_bits (net_bytes p) = addr p ∧ length (net_bytes p) = (if Is6 p then 16 else 4)%nat.
Proof.
  intros [Hl _]. unfold net_bytes. apply bits_bytes_ok; [|destruct (Is6 p); lia].
  rewrite Hl. by destruct (Is6 p).
Qed.

Lemma Prefix_String_native p :
  prefix_ok p → native p →
  Prefix_String p = (if Is6 p then IP_String (net_bytes p) else fmt4 (net_bytes p)) +:+ "/" +:+ itoa (Z.of_nat (Bits p)).
Proof.
  intros Hok Hn. destruct (net_bytes_ok p Hok) as [_ Hl]. unfold Prefix_String. fold (net_bytes p).
  destruct (Is6 p) eqn:E6; [|done]. rewrite bool_decide_false; [done|]. intros Ht.
  destruct (Hn E6) as [H4 _]. unfold To4 in H4. rewrite Hl in H4. cbn [Nat.eqb andb] in H4.
  rewrite bool_decide_true in H4 by done. apply (f_equal length) in H4. rewrite length_drop, Hl in H4. done.
Qed.

(** The characters of a prefix. *)
Definition pchar (c : ascii) : bool := is_hex c || Ascii.eqb c ":" || Ascii.eqb c "." || Ascii.eqb c "/".

Lemma digit_is_hex c : is_digit c = true → is_hex c = true.
Proof. intros H. apply bool_decide_eq_true_2. unfold hex_val. unfold is_digit in H. rewrite H. eauto. Qed.

Lemma hex_range c : is_hex c = true → 48 ≤ code c ≤ 102.
Proof. intros [v Hv]%bool_decide_eq_true_1. unfold hex_val in Hv. repeat case_match; try done; lia. Qed.

Lemma Prefix_String_chars p : prefix_ok p → native p → str_forallb pchar (Prefix_String p) = true.
Proof.
  intros Hok Hn. rewrite Prefix_String_native by done. destruct (net_bytes_ok p Hok) as [_ Hl].
  rewrite !str_forallb_app. apply andb_true_iff. split; [|apply andb_true_iff; split; [done|]].
  - destruct (Is6 p) eqn:E6.
    + unfold IP_String. rewrite Hl. cbn [Nat.eqb orb negb]. rewrite (proj1 (Hn E6)). cbn [is_nil].
      eapply str_forallb_impl; [|apply fmt6_chars]. intros c [H|H]%orb_true_iff; unfold pchar; by rewrite H, ?orb_true_r.
    + eapply str_forallb_impl; [|apply fmt4_chars].
      intros c [H%digit_is_hex|H]%orb_true_iff; unfold pchar; by rewrite H, ?orb_true_r.
  - destruct (itoa_digits (Z.of_nat (Bits p))) as [Hd _]; [lia|]. eapply str_forallb_impl; [|exact Hd].
    intros c H%digit_is_hex. unfold pchar. by rewrite H.
Qed.

Lemma pchar_graphic c : pchar c = true → graphic c = true ∧ Ascii.eqb "#" c = false ∧ Ascii.eqb (char 10) c = false.
Proof.
  intros H. assert (graphic c = true ∧ code c ≠ 35) as [Hg H35].
  { unfold pchar in H. rewrite !orb_true_iff in H.
    destruct H as [[[H|H%Ascii.eqb_eq]|H%Ascii.eqb_eq]|H%Ascii.eqb_eq]; [|subst c; done..].
    apply hex_range in H. unfold graphic. lia. }
  split; [done|]. split; apply Ascii.eqb_neq; intros <-; [by apply H35|done].
Qed.

Lemma absent_pchars s c : (∀ d, pchar d = true → Ascii.eqb c d = false) → str_forallb pchar s = true → contains_char s c = false.
Proof.
  intros Hc. unfold contains_char. rewrite str_forallb_chars, str_existsb_chars, forallb_forall. intros Hs.
  apply not_true_is_false. intros (d & Hin & Hd)%existsb_exists. by rewrite (Hc d (Hs d Hin)) in Hd.
Qed.

Lemma pchars_trimmed s : str_forallb pchar s = true → trimmed s = true.
Proof.
  unfold trimmed. rewrite str_forallb_chars, forallb_forall. intros Hs.
  assert (∀ c, In c (chars s) → graphic c = true) as Hg by (intros c Hc; apply pchar_graphic; auto).
  apply andb_true_iff. split.
  - destruct (chars s); [done|]. apply Hg. by left.
  - destruct (rev (chars s)) as [|c l] eqn:E; [done|]. apply Hg, in_rev. rewrite E. by left.
Qed.

Lemma cut_char_absent c s : contains_char s c = false → cut_char c s = None.
Proof.
  unfold contains_char. induction s as [|d s IH]; [done|]. cbn [str_existsb cut_char].
  intros [H1 H2]%orb_false_iff. by rewrite Ascii.eqb_sym, H1, IH.
Qed.

(** The network a written prefix is read back as. *)
Definition read_net (p : Prefix) : IPNet := mkIPNet (zip_with byte_and (net_bytes p) (net_mask p)) (net_mask p).

Lemma ParseCIDR_Prefix p : prefix_ok p → native p → ParseCIDR (Prefix_String p) = Some (read_net p).
Proof.
  intros Hok Hn. rewrite Prefix_String_native by done. destruct (net_bytes_ok p Hok) as [_ Hl].
  destruct Hok as [_ Hb]. unfold read_net, net_mask. destruct (Is6 p) eqn:E6.
  - apply ParseCIDR_String6; [done|by apply Hn|]. cbn in Hb. lia.
  - apply ParseCIDR_fmt4; [done|]. cbn in Hb. lia.
Qed.

Lemma deny_line_Prefix p : prefix_ok p → native p → deny_line (Prefix_String p) = Some (Prefix_String p).
Proof.
  intros Hok Hn. pose proof (Prefix_String_chars p Hok Hn) as Hc. unfold deny_line.
  rewrite cut_char_absent by (apply absent_pchars; [by intros d (_ & H & _)%pchar_graphic|done]).
  rewrite TrimSpace_trimmed by (by apply pchars_trimmed).
  rewrite bool_decide_false by (rewrite Prefix_String_native by done; by apply str_app_nonempty).
  assert (contains_char (Prefix_String p) "/" = true) as ->.
  { rewrite Prefix_String_native by done. rewrite contains_char_app. by rewrite orb_true_r. }
  by rewrite ParseCIDR_Prefix.
Qed.

(** ** Lemmas: the file *)

Lemma split_written l :
  Forall (λ p, prefix_ok p ∧ native p) l →
  split_char (char 10) (writeIPFile l) = (Prefix_String <$> l) ++ [EmptyString].
Proof.
  induction 1 as [|p l [Hok Hn] _ IH]; [done|]. unfold writeIPFile. cbn [foldr].
  fold (writeIPFile l). unfold nl. cbn [String.append]. rewrite split_char_app.
  - by rewrite IH.
  - apply absent_pchars; [by intros d (_ & _ & H)%pchar_graphic|by apply Prefix_String_chars].
Qed.

Lemma written_elements l :
  Forall (λ p, prefix_ok p ∧ native p) l →
  getDenyElements (Some (writeIPFile l)) = join_with ", " (Prefix_String <$> l).
Proof.
  intros Hl. unfold getDenyElements. rewrite split_written by done. f_equal. rewrite omap_app.
  change (omap deny_line [EmptyString]) with (@nil string). rewrite app_nil_r.
  induction Hl as [|p l [Hok Hn] _ IH]; [done|]. cbn [fmap list_fmap omap list_omap].
  by rewrite deny_line_Prefix, IH.
Qed.

(** An address of the family, as it stands in a packet. *)
Definition packet_addr (isV6 : bool) (ip : IP) : Prop :=
  if isV6 then length ip = 16%nat ∧ To4 ip = [] else length ip = 4%nat.

Lemma read_net_contains p ip :
  prefix_ok p → native p → packet_addr (Is6 p) ip → IPNet_Contains (read_net p) ip = true ↔ inside p (bytes_bits ip).
Proof.
  intros Hok Hn Hip. destruct (net_bytes_ok p Hok) as [Hbits Hl]. pose proof Hok as [_ Hb].
  unfold read_net, net_mask, inside in *. unfold native, net_mask in Hn. rewrite <- Hbits. destruct (Is6 p) eqn:E6.
  - destruct Hip as [Hlen H4]. destruct (Hn eq_refl) as [_ Hm].
    rewrite Contains_v6; [|done|cbn in Hb; lia|done|done|done].
    pose proof (masked_eq (net_bytes p) ip (Z.of_nat (Bits p))) as H1.
    pose proof (masked_take (net_bytes p) ip (Z.of_nat (Bits p))) as H2.
    rewrite Hl, Hlen, Nat2Z.id in *. rewrite <- H1 by (done || cbn in Hb; lia). rewrite H2 by (done || lia). done.
  - cbn in Hip.
    assert (To4 ip = ip) as H4 by (by apply To4_v4).
    rewrite Contains_v4; [|done|cbn in Hb; lia|rewrite H4; by destruct ip]. rewrite H4.
    pose proof (masked_eq (net_bytes p) ip (Z.of_nat (Bits p))) as H1.
    pose proof (masked_take (net_bytes p) ip (Z.of_nat (Bits p))) as H2.
    rewrite Hl, Hip, Nat2Z.id in *. rewrite <- H1 by (done || cbn in Hb; lia). rewrite H2 by (done || lia). done.
Qed.

(** ** Properties *)

(** C28: the compiled deny list survives the way from the compiler to the packet
    filter: reading back the file written for a family keeps every network (none
    is skipped as malformed), and an address is denied by one of the elements
    given to nft exactly when the deny lists contain it.  (Networks of IPv4-mapped
    IPv6 addresses apart.) *)
Theorem denied_networks_reach_filter `{IPSetLib, !IPSetLaws} limit inc exc deny isV6 denyOut routes stats :
  compile_family limit inc exc deny isV6 = Some (denyOut, routes, stats) →
  Forall prefix_ok deny → Forall native denyOut →
  ∃ elems, getDenyElements (Some (writeIPFile denyOut)) = join_with ", " elems ∧
    ∀ ip, packet_addr isV6 ip →
      (in_nets deny isV6 (bytes_bits ip) ↔
       ∃ e n, e ∈ elems ∧ ParseCIDR e = Some n ∧ IPNet_Contains n ip = true).
Proof.
  intros Hc Hok Hnat.
  assert (denyOut = collapseIPNets (filterIPNets deny isV6 false) isV6) as Hout.
  { unfold compile_family in Hc. destruct (aggregatePrefixes _ _ _); [|done]. by injection Hc. }
  destruct (collapse_spec isV6 (filterIPNets deny isV6 false)) as (Hf & Hden & _).
  { apply Forall_forall. intros p (Hp & Hv & _)%filterIPNets_in. split; [by eapply Forall_forall in Hp|done]. }
  rewrite <- Hout in Hf, Hden.
  assert (Forall (λ p, prefix_ok p ∧ native p) denyOut) as Hall.
  { apply Forall_and. split; [by apply (family_prefix_ok isV6)|done]. }
  exists (Prefix_String <$> denyOut). split; [by apply written_elements|]. intros ip Hip.
  assert (length (bytes_bits ip) = width isV6) as Hlen.
  { assert (∀ l, length (bytes_bits l) = (8 * length l)%nat) as Hb.
    { induction l as [|b l IH]; [done|]. change (bytes_bits (b :: l)) with (byte_bits b ++ bytes_bits l).
      rewrite length_app, IH, length_byte_bits. cbn. lia. }
    rewrite Hb. destruct isV6; [by destruct Hip as [-> _]|cbn in Hip; by rewrite Hip]. }
  rewrite <- (in_nets_filter deny), <- (Hden _ Hlen). split.
  - intros (p & Hp & H6 & Hi). destruct (proj1 (Forall_forall _ _) Hall p Hp) as [Hp1 Hp2].
    exists (Prefix_String p), (read_net p). split; [by apply list_elem_of_fmap_2|].
    split; [by apply ParseCIDR_Prefix|]. apply read_net_contains; [done|done|by rewrite H6|done].
  - intros (e & n & (p & -> & Hp)%list_elem_of_fmap & Hn & Hcn).
    destruct (proj1 (Forall_forall _ _) Hall p Hp) as [Hp1 Hp2].
    destruct (proj1 (Forall_forall _ _) Hf p Hp) as [_ H6].
    rewrite ParseCIDR_Prefix in Hn by done. injection Hn as <-.
    exists p. split; [done|]. split; [done|]. apply read_net_contains; [done|done|by rewrite H6|done].
Qed.

Definition demo_deny : list Prefix := net <$> ["198.51.100.0/24"; "203.0.113.5/32"; "198.51.101.0/24"].

Lemma denied_networks_reach_filter_witness :
  ∃ e n, ParseCIDR e = Some n ∧ IPNet_Contains n (To4 (ParseIP "198.51.101.7")) = true.
Proof.
  destruct (compile_family 500 [] [] demo_deny false) as [[[denyOut routes] stats]|] eqn:E; [|vm_compute in E; discriminate E].
  destruct (denied_networks_reach_filter 500 [] [] demo_deny false denyOut routes stats E) as (elems & _ & Hx).
  - apply net_ok. vm_compute. reflexivity.
  - vm_compute in E. injection E as <- <- <-. repeat apply Forall_cons_2; [..|apply Forall_nil_2]; intros [=].
  - destruct (proj1 (Hx (To4 (ParseIP "198.51.101.7")) eq_refl)) as (e & n & _ & He & Hn).
    + exists (net "198.51.101.0/24"). split; [vm_compute; do 2 right; left|]. split; vm_compute; reflexivity.
    + exists e, n. split; [exact He|exact Hn].
Defined.
