(* ===== verification/Host.v ===== *)
(** * The engine and its host: health check and resolver cache

    [runHealthCheck] (cmd/nextpath-engine/main.go) asks the proxy for the root
    name; [ClearKnotCache] (internal/parser/compiler.go) tells the resolver's
    processes to forget what they have cached.  The sockets are parameters: an
    address or a path that can be reached. *)

From Stdlib Require Import Ascii.
From Stdlib Require String.
From stdpp Require Import prelude gmap strings.
From S2P Require Import Prelude GoStrings GoText GoNet GoHostPort Metrics IPPool Config ConfigFacts Proxy.

#[local] Arguments String.append : simpl nomatch.

(** ** The health check *)

(** The value [os.Getenv] gives for a variable, empty when it is not set. *)
Definition getenv (env : Env) (key : string) : string := default EmptyString (env key).

Definition or_default (v d : string) : string := if bool_decide (v = EmptyString) then d else v.

Definition health_target (env : Env) : string :=
  JoinHostPort (or_default (getenv env "PROXY_ADDR") "127.0.0.3") (or_default (getenv env "PROXY_PORT") "53").

(** A query for the name servers of the root, recursion desired. *)
Definition health_query : list Byte.byte :=
  [Byte.x12; Byte.x34; Byte.x01; Byte.x00; Byte.x00; Byte.x01; Byte.x00; Byte.x00; Byte.x00; Byte.x00;
   Byte.x00; Byte.x00; Byte.x00; Byte.x00; Byte.x02; Byte.x00; Byte.x01].

(** What it prints, without the text of the error, and its exit code; [ask] is
    what the address answers to the query, [None] when it does not in time. *)
Definition runHealthCheck (dial write : string → bool) (ask : string → list Byte.byte → option (list Byte.byte)) (env : Env)
    : string * Z :=
  let target := health_target env in
  if negb (dial target) then ("Healthcheck failed to connect", 1)
  else if negb (write target) then ("Healthcheck failed to write", 1)
  else match ask target health_query with
       | None => ("Healthcheck failed to read", 1)
       | Some _ => ("Healthcheck OK", 0)
       end.

(** ** The resolver's cache *)

Definition control_dir : string := "/run/knot-resolver/control".

(** The commands sent, by socket; [names] is [None] when the directory cannot be
    read. *)
Definition ClearKnotCache (names : option (list string)) (dial : string → bool) : list (string * string) :=
  match names with
  | None => []
  | Some l =>
      omap (λ name,
        if has_prefix name "1" || has_prefix name "2" then
          let sockPath := control_dir +:+ "/" +:+ name in
          if dial sockPath then Some (sockPath, "cache.clear()" +:+ String (char 10) EmptyString) else None
        else None) l
  end.

(** ** Theorems *)

(** A variable without spaces and quotes around its value, or not set at all. *)
Definition plain_var (env : Env) (key : string) : Prop :=
  ∀ v, env key = Some v → v = EmptyString ∨ (trimmed v = true ∧ unquoted v).

Lemma plain_var_same env key d : plain_var env key → or_default (getenv env key) d = getEnv env key d.
Proof.
  intros Hp. unfold or_default, getenv. destruct (env key) as [v|] eqn:E; cbn [default from_option id].
  - destruct (decide (v = EmptyString)) as [-> | Hne].
    + rewrite bool_decide_eq_true_2 by done. unfold getEnv. by rewrite E.
    + rewrite bool_decide_eq_false_2 by done. destruct (Hp v E) as [?|[H1 H2]]; [done|].
      symmetry. by apply getEnv_plain.
  - rewrite bool_decide_eq_true_2 by done. unfold getEnv. by rewrite E.
Qed.

(** The proxy as the host sees it: it answers at its address, with the reply of
    the handler; [unpack] and [pack] are the DNS library's. *)
Section Health.
Context (unpack : list Byte.byte → option Msg) (pack : Reply → list Byte.byte).

Definition proxy_answers (env : Env) (udp tcp : string → nat → option Msg) (px : DNSProxy) (mt : Metrics) (ck : Clock)
    (addr : string) (query : list Byte.byte) : option (list Byte.byte) :=
  if bool_decide (addr = proxy_addr env)
  then r ← unpack query; Some (pack (handleDNSRequest udp tcp px mt ck r).1.1.1) else None.

(** The health check passes whenever the proxy runs, with or without an upstream,
    and neither changes a mapping nor publishes one; the variables have to be
    plain.  The library reads a question for the root as the name of a dot. *)
Theorem health_check_passes env udp tcp px mt ck q :
  unpack health_query = Some q → Question q = ["."] → plain_var env "PROXY_ADDR" → plain_var env "PROXY_PORT" →
  let reach a := bool_decide (a = proxy_addr env) in
  runHealthCheck reach reach (proxy_answers env udp tcp px mt ck) env = ("Healthcheck OK", 0) ∧
  handleDNSRequest udp tcp px mt ck q = (EmptyReply q, px_pool px, add_dns_query mt, None).
Proof.
  intros Hu Hq Ha Hp reach. assert (health_target env = proxy_addr env) as Ht.
  { unfold health_target, proxy_addr. by rewrite !plain_var_same. }
  assert (handleDNSRequest udp tcp px mt ck q = (EmptyReply q, px_pool px, add_dns_query mt, None)) as Hh.
  { unfold handleDNSRequest. by rewrite Hq. }
  split; [|done]. unfold runHealthCheck, proxy_answers, reach. rewrite Ht, !bool_decide_eq_true_2 by done. cbn [negb].
  by rewrite Hu.
Qed.
End Health.

(** The engine strips quotes from its settings, the health check does not: with a
    quoted address the proxy runs and the health check asks another one. *)
Theorem quoted_address_unhealthy :
  let quote := String (char 34) EmptyString in
  let env : Env := λ key, if bool_decide (key = "PROXY_ADDR") then Some (quote +:+ "10.0.0.5" +:+ quote) else None in
  proxy_addr env = "10.0.0.5:53" ∧
  (runHealthCheck (λ a, bool_decide (a = proxy_addr env)) (λ _, true) (λ _ _, Some []) env).2 = 1.
Proof. vm_compute. done. Qed.
