(* ===== verification/Engine.v ===== *)
(** * The engine ([cmd/nextpath-engine/main.go])

    [main] puts the components together: it makes the pool, gives its networks
    to the packet filter and to the synchronisation, recovers the mappings the
    kernel kept, and starts the proxy and the synchronisation on the one pool.
    What it reads from outside is the record [World]; the pool that proxy and
    synchronisation share is the one of the manager's state.  The goroutine a
    request starts for its publication runs later, in any order: [pending] holds
    the publications that have not been delivered. *)

From Stdlib Require Import Ascii.
From Stdlib Require String.
From stdpp Require Import prelude gmap strings relations.
From S2P Require Import Prelude GoStrings GoText GoNet GoNetFacts Metrics IPPool PoolInv PoolReach Rules Nft Config Host Proxy ProxyFacts Sync SyncInv.

(** What the engine meets when it starts: whether nft accepts a script, whether
    a netlink connection opens and the port can be listened on, the two deny
    lists and the two hash files, the elements of the two kernel maps, the
    certificate, and the clock as a Unix time and as an instant. *)
Record World := mkWorld {
  w_nft : string → bool;
  w_netlink : bool;
  w_deny4 : option string;
  w_deny6 : option string;
  w_maps4 : list SetElement + string;
  w_maps6 : list SetElement + string;
  w_domains_hash : string;
  w_ips_hash : string;
  w_tls : option (option (list Byte.byte));
  w_listen : bool;
  w_nano : Z;
  w_now : Z;
}.

(** A running engine: the script it gave to nft, the last one for the deny sets,
    the synchronisation (and with it the pool, the counters and what the packet
    filter was told), the proxy's settings, the
    address of the metrics exporter, the commands sent to the resolver, and the
    publications under way. *)
Record Engine := mkEngine {
  e_rules : string;
  e_deny : string;
  e_sync : SyncManager;
  e_proxy : DNSProxy;
  e_exporter : option (string * string);
  e_cleared : list (string * string);
  pending : list Publication;
}.

Definition with_sync (s : SyncManager) (e : Engine) : Engine :=
  mkEngine (e_rules e) (e_deny e) s (e_proxy e) (e_exporter e) (e_cleared e) (pending e).

(** ** Starting *)

(** The wait for the compiled lists: [stat i] tells which of the two files exist
    at the i-th look; the look at which the engine goes on, if it is one of the
    next [n]. *)
Fixpoint wait_for_lists (stat : nat → bool * bool) (n i : nat) : option nat :=
  match n with
  | O => None
  | S n' => if (stat i).1 && (stat i).2 then Some i else wait_for_lists stat n' (S i)
  end.

Section Start.
Context (uni : string → string) (lookup : string → option (list IP)) (env : Env) (w : World).

(** The flag as the packet filter reads it. *)
Definition nft_v6 : bool := parseBoolEnv uni (getenv env "ENABLE_IPV6") true.

(** The pool with what was recovered from the kernel. *)
Definition recovered_pool : IPPool * Metrics :=
  let p := engine_pool env in
  match ReadExistingMappings true nft_v6 (w_maps4 w) (w_maps6 w) with
  | Some existing => recover_mappings (w_now w) p metrics_zero existing
  | None => (p, metrics_zero)
  end.

Definition engine_sync : SyncManager :=
  let '(p, mt) := recovered_pool in
  let s := NewSyncManager (getEnv env "PEERS" EmptyString) (getEnv env "SYNC_PORT" "5353")
             (GetPoolNet (engine_pool env)) (GetPoolNet6 (engine_pool env)) (Some p)
             (getenv env "NEXTPATH_SYNC_TOKEN") (getenv env "NEXTPATH_SYNC_CERT_FINGERPRINT")
             (RefreshResultHash (w_domains_hash w) (w_ips_hash w)) (w_nano w) in
  set_pool (pool s) mt (nftLog s) s.

Definition engine_proxy : DNSProxy :=
  NewDNSProxy (upstream_addr env) recovered_pool.1 true true (max_ttl env) (getEnvBool uni env "ENABLE_IPV6" true).

(** [main] up to the signal loop; [None] is an exit with an error. *)
Definition start_engine : option Engine :=
  let rules := InitStructure uni (getenv env) lookup (GetPoolNet (engine_pool env)) (GetPoolNet6 (engine_pool env)) in
  if negb (w_nft w rules) then None
  else if negb (w_netlink w) then None
  else
    let deny := ReloadDenySets nft_v6 (w_deny4 w) (w_deny6 w) in
    match StartServer uni (getenv env "NEXTPATH_SYNC_STRICT_TLS") (getenv env "NEXTPATH_SYNC_CERT_FINGERPRINT")
            (w_tls w) engine_sync with
    | None => Some (mkEngine rules deny engine_sync engine_proxy (metrics_server uni env) [] [])
    | Some s => if w_listen w then Some (mkEngine rules deny s engine_proxy (metrics_server uni env) [] []) else None
    end.
End Start.

(** ** Running *)

Definition set_px_pool (p : IPPool) (px : DNSProxy) : DNSProxy :=
  mkProxy p (hasNft px) (hasSync px) (upstreams px) (maxTTL px) (enableIPv6 px).

(** A request of a client; [p] is the pool the proxy and the manager share. *)
Definition engine_request (udp tcp : string → nat → option Msg) (ck : Clock) (r : Msg) (p : IPPool) (e : Engine)
    : Reply * Engine :=
  let s := e_sync e in
  let '(reply, p, mt, pub) := handleDNSRequest udp tcp (set_px_pool p (e_proxy e)) (metrics s) ck r in
  (reply, mkEngine (e_rules e) (e_deny e) (set_pool (Some p) mt (nftLog s) s) (e_proxy e) (e_exporter e) (e_cleared e)
            (pending e ++ option_list pub)).

(** The goroutine of a request: first the packet filter, then the peers. *)
Definition engine_publish (pub : Publication) (rest : list Publication) (e : Engine) : Engine :=
  let s := e_sync e in
  let s := set_pool (pool s) (metrics s) (nftLog s ++ pub_nft pub) s in
  mkEngine (e_rules e) (e_deny e) (BroadcastMappings (pub_sync pub) s) (e_proxy e) (e_exporter e) (e_cleared e) rest.

Definition set_hash (h : string) (s : SyncManager) : SyncManager :=
  mkSync (peers s) (syncPort s) (nodeUUID s) (poolNet s) (poolNet6 s) (authToken s) (syncPortNum s)
    (certFingerprints s) h (conns s) (activeDials s) (done s) (heap s) (pool s) (metrics s) (nftLog s).

(** What the file watcher does when the lists have changed; [names] and [dial]
    are the resolver's control sockets. *)
Definition engine_reload (v6 : bool) (names : option (list string)) (dial : string → bool) (deny4 deny6 : option string)
    (domains ips : string) (e : Engine) : Engine :=
  mkEngine (e_rules e) (ReloadDenySets v6 deny4 deny6) (set_hash (RefreshResultHash domains ips) (e_sync e))
    (e_proxy e) (e_exporter e) (e_cleared e ++ ClearKnotCache names dial) (pending e).

(** The steps of a running engine apart from the watcher.  A mapping that arrives
    carries an address of one of the two families, or none; [step_connection] are
    the steps of the synchronisation that do not touch the pool, those of its
    shutdown included. *)
Inductive traffic_step (e : Engine) : Engine → Prop :=
  | step_request udp tcp ck r p :
      pool (e_sync e) = Some p →
      (∀ resp, resolveUpstream udp tcp (upstreams (e_proxy e)) = Some resp → msg_valid resp) →
      traffic_step e (engine_request udp tcp ck r p e).2
  | step_publish l1 pub l2 :
      pending e = l1 ++ pub :: l2 → traffic_step e (engine_publish pub (l1 ++ l2) e)
  | step_receive clock now ips msg :
      Forall (λ m, RealIP m = [] ∨ valid_ip (RealIP m)) (Mappings msg) →
      traffic_step e (with_sync (handle_message clock now ips (e_sync e) msg).1.1 e)
  | step_connection s :
      sync_step (e_sync e) s → pool s = pool (e_sync e) → traffic_step e (with_sync s e)
  | step_expire now i pairs p :
      pool (e_sync e) = Some p →
      traffic_step e (with_sync (set_pool (Some (foldl (prune_pair now i) p pairs)) (metrics (e_sync e))
                                  (nftLog (e_sync e)) (e_sync e)) e).

Inductive engine_step (e : Engine) : Engine → Prop :=
  | step_traffic e' : traffic_step e e' → engine_step e e'
  | step_reload v6 names dial deny4 deny6 domains ips :
      engine_step e (engine_reload v6 names dial deny4 deny6 domains ips e).
