(* ===== verification/EngineFacts.v ===== *)
(** * Theorems about the engine

    A running engine keeps its pool among the states the pool's operations
    reach, keeps the networks it gave to the packet filter and to its peers, and
    announces only Fake-IPs of these networks; a peer that has accepted its
    handshake therefore takes over what it announces. *)

From Stdlib Require Import Ascii.
From Stdlib Require String.
From stdpp Require Import prelude gmap strings relations.
From S2P Require Import Prelude GoStrings GoText GoHostPort GoNet GoNetFacts GoNetMask Metrics IPPool PoolInv PoolOps PoolReach PoolRange PoolSpec PoolAlloc.
From S2P Require Import Rules Nft Config ConfigFacts Host Proxy ProxyFacts Sync SyncFacts SyncData SyncInv Engine.

#[local] Arguments String.append : simpl nomatch.

(** ** Lemmas: the allocation loop as steps of the pool *)

(** [P] holds of what [alloc_locked] hands out in the states after [p0]; it
    holds then of everything a call hands out. *)
Section Loop.
Context (p0 : IPPool) (isV6 : bool) (P : IP → Z → Prop) (Q : IP → Prop).
Context (HQ : ∀ x, Q x → valid_ip x) (Hp0 : pool_wf p0).
Context (HP : ∀ p now nano realIP c v, rtc (pool_step valid_ip) p0 p → valid_ip realIP →
  (alloc_locked p now nano realIP isV6).1 = AllocNew c v → P c v).

Definition new_ok (n : gmap string MappingInfo) : Prop :=
  ∀ s info, n !! s = Some info → ∃ x, Q x ∧ s = IP_String x ∧ P (mi_IP info) (mi_Version info).

Lemma rollback_reach n p : rtc (pool_step valid_ip) p0 p → new_ok n → rtc (pool_step valid_ip) p0 (rollback p n).
Proof.
  intros Hp Hn. unfold rollback.
  assert (Forall (λ x, valid_ip (ParseIP x.1)) (map_to_list n)) as Hall.
  { apply Forall_forall. intros [s info] Hin%elem_of_map_to_list. destruct (Hn s info Hin) as (x & Hx & -> & _).
    cbn. rewrite ParseIP_String by auto. apply valid_To16. auto. }
  revert p Hp. induction Hall as [|[s info] l Hx _ IH]; intros p Hp; cbn [foldl]; [done|].
  apply IH. eapply rtc_r; [exact Hp|]. by apply step_remove.
Qed.

Lemma fake_loop_reach now nano reals : ∀ p mt i result n,
  rtc (pool_step valid_ip) p0 p → Forall Q reals → new_ok n →
  let '(res, p', _) := fake_loop p mt now nano i reals isV6 result n in
  rtc (pool_step valid_ip) p0 p' ∧ ∀ result' n', res = Some (result', n') → new_ok n'.
Proof.
  induction reals as [|x reals IH]; intros p mt i result n Hp HR Hn; cbn [fake_loop].
  { split; [done|]. by intros ? ? [= _ <-]. }
  apply Forall_cons in HR as [Hx HR]. pose proof (pool_steps_wf p0 p Hp0 Hp) as Hwf.
  rewrite (alloc_one_eq p Hwf) by auto.
  pose proof (step_alloc valid_ip p now (nano i) x isV6 (HQ x Hx)) as Hst.
  pose proof (λ c v, HP p now (nano i) x c v Hp (HQ x Hx)) as Hnew.
  destruct (alloc_locked p now (nano i) x isV6) as [res p'] eqn:E. cbn [fst snd] in Hst, Hnew.
  assert (rtc (pool_step valid_ip) p0 p') as Hp' by (eapply rtc_r; eauto).
  destruct res as [f|f v|]; [by apply IH| |].
  - apply IH; [done|done|]. intros s info. destruct (decide (s = IP_String x)) as [-> | Hne].
    + rewrite lookup_insert_eq. intros [= <-]. exists x. cbn. auto.
    + rewrite lookup_insert_ne by done. apply Hn.
  - split; [by apply rollback_reach|done].
Qed.

Lemma allocate_reach p mt now nano reals :
  rtc (pool_step valid_ip) p0 p → Forall Q reals →
  let '(res, p', _) := allocate p mt now nano reals isV6 in
  rtc (pool_step valid_ip) p0 p' ∧ ∀ result n, res = Some (result, n) → new_ok n.
Proof.
  intros Hp HR. unfold allocate. destruct reals as [|r0 rs].
  { split; [done|]. intros ? ? [= _ <-] s info. by rewrite lookup_empty. }
  apply fake_loop_reach; [done| |intros s info; by rewrite lookup_empty].
  by rewrite sort_reals_perm.
Qed.

Lemma announced_new conv n m :
  (∀ x, Q x → valid_ip (conv (To16 x))) → new_ok n → m ∈ sync_mappings conv n →
  valid_ip (RealIP m) ∧ P (FakeIP m) (Version m).
Proof.
  intros Hc Hn ([s info] & Hin%elem_of_map_to_list & E)%list_elem_of_omap.
  destruct (Hn s info Hin) as (x & Hx & -> & HPx). cbn beta iota zeta in E. case_match; simplify_eq/=.
  rewrite ParseIP_String by auto. auto.
Qed.
End Loop.

(** ** Lemmas: a request as steps of the pool *)

Section Request.
Context (p0 : IPPool) (P : IP → Z → Prop) (Hp0 : pool_wf p0).
Context (HP : ∀ isV6 p now nano realIP c v, rtc (pool_step valid_ip) p0 p → valid_ip realIP →
  (alloc_locked p now nano realIP isV6).1 = AllocNew c v → P c v).

Definition announces_ok (pub : Publication) : Prop :=
  ∀ m, m ∈ pub_sync pub → valid_ip (RealIP m) ∧ P (FakeIP m) (Version m).

Lemma process_reach px mt ck r resp :
  msg_valid resp → rtc (pool_step valid_ip) p0 (px_pool px) →
  let '(_, p', _, pub) := process px mt ck r resp in
  rtc (pool_step valid_ip) p0 p' ∧ ∀ pb, pub = Some pb → announces_ok pb.
Proof.
  intros Hmsg Hp. unfold process. rewrite collect_eq.
  set (l4 := foldl addV4 _ _). set (l6 := foldl (addV6 _) _ _).
  assert (Forall (λ x, length x = 4%nat) l4) as H4 by (by destruct (addV4_fold (addrs4 resp) [])).
  assert (Forall valid_ip l6) as H6 by apply (reals6_spec px resp Hmsg).
  assert (∀ x : IP, length x = 4%nat → valid_ip x) as HQ by (by left).
  pose proof (allocate_reach p0 false P _ HQ Hp0 (HP false) (px_pool px) mt (now4 ck) (nano4 ck) l4 Hp H4) as A4.
  destruct (allocate (px_pool px) mt _ _ l4 false) as [[[[m4 n4]|] p4] mt4]; [|naive_solver].
  destruct A4 as [Hp4 Hn4]. specialize (Hn4 _ _ eq_refl).
  pose proof (allocate_reach p0 true P _ (λ _ H, H) Hp0 (HP true) p4 mt4 (now6 ck) (nano6 ck) l6 Hp4 H6) as A6.
  destruct (allocate p4 mt4 _ _ l6 true) as [[[[m6 n6]|] p6] mt6]; destruct A6 as [Hp6 Hn6].
  - split; [done|]. intros pb [= <-] m. unfold publish. cbn [pub_sync]. destruct (hasSync px); [|by intros ?%elem_of_nil].
    intros [Hm|Hm]%elem_of_app; [refine (announced_new P _ HQ To4 n4 m _ Hn4 Hm)|].
    + intros x Hx. rewrite To4_To16 by auto. rewrite To4_v4 by done. auto.
    + refine (announced_new P _ (λ _ H, H) To16 n6 m _ (Hn6 _ _ eq_refl) Hm). intros x Hx. by do 2 apply valid_To16.
  - split; [|done]. by apply (rollback_reach p0 P _ HQ).
Qed.

Lemma request_reach udp tcp px mt ck r :
  (∀ resp, resolveUpstream udp tcp (upstreams px) = Some resp → msg_valid resp) → rtc (pool_step valid_ip) p0 (px_pool px) →
  let '(_, p', _, pub) := handleDNSRequest udp tcp px mt ck r in
  rtc (pool_step valid_ip) p0 p' ∧ ∀ pb, pub = Some pb → announces_ok pb.
Proof.
  intros Hup Hp. unfold handleDNSRequest. match goal with |- context [if ?b then _ else _] => destruct b end; [by split|].
  destruct (resolveUpstream udp tcp (upstreams px)) as [resp|]; [|by split]. apply process_reach; auto.
Qed.
End Request.

(** ** Lemmas: the pool and the networks under the other steps *)

(** What [f] reads is not changed by a fold whose steps do not change it. *)
Lemma foldl_keeps {A B C} (f : A → C) (g : A → B → A) l : (∀ a b, f (g a b) = f a) → ∀ a, f (foldl g a l) = f a.
Proof. intros H. induction l as [|b l IH]; intros a; cbn [foldl]; [done|]. by rewrite IH. Qed.

(** What the manager keeps from its construction on. *)
Definition networks (s : SyncManager) : string * string := (poolNet s, poolNet6 s).
Definition fixed_part (s : SyncManager) : string * string * string := (poolNet s, poolNet6 s, resultHash s).

Lemma broadcast_keeps l s : fixed_part (BroadcastMappings l s) = fixed_part s ∧ pool (BroadcastMappings l s) = pool s.
Proof.
  unfold BroadcastMappings. destruct l; [done|].
  split; [apply (foldl_keeps fixed_part)|apply (foldl_keeps pool)]; by intros ? [].
Qed.

Lemma close_fixed s : fixed_part (close_conns s) = fixed_part s.
Proof. unfold close_conns. rewrite (foldl_keeps fixed_part); [done|]. by intros ? []. Qed.

Lemma tryConnect_keeps now s a ips :
  fixed_part (tryConnect now s a ips).1 = fixed_part s ∧ pool (tryConnect now s a ips).1 = pool s.
Proof. unfold tryConnect. repeat case_match; done. Qed.

Lemma greet_fixed sleep s c a ips : fixed_part (greet sleep s c a ips) = fixed_part s.
Proof.
  unfold greet. rewrite (foldl_keeps fixed_part) by done. rewrite (foldl_keeps fixed_part).
  - by case_match.
  - intros. by repeat case_match.
Qed.

Lemma recv_fixed nano now s m : fixed_part (recv_mapping nano now s m) = fixed_part s.
Proof. unfold recv_mapping. by repeat case_match. Qed.

Lemma message_fixed clock now ips s m : fixed_part (handle_message clock now ips s m).1.1 = fixed_part s.
Proof.
  unfold handle_message. destruct (Type_ m =? MsgTypePEX).
  { destruct (_ || _); [done|]. destruct (50 <=? _); [done|].
    pose proof (tryConnect_keeps now s (JoinHostPort (IP_String (PEXIP m)) (itoa (PEXPort m))) ips) as [H _].
    by destruct (tryConnect _ _ _ _). }
  destruct (Type_ m =? MsgTypePing); [done|]. destruct (Type_ m =? MsgTypeMappings); [|done]. cbn.
  rewrite (foldl_keeps fixed_part); [done|]. intros ? []. apply recv_fixed.
Qed.

Lemma register_fixed s c outgoing a s' : register s c outgoing a = Some s' → fixed_part s' = fixed_part s.
Proof.
  unfold register. destruct (done s); [done|].
  match goal with |- context [mbind _ ?k] => destruct k as [s1|] eqn:E end; [|done].
  assert (fixed_part s1 = fixed_part s) as H1 by (by repeat case_match; simplify_eq). cbn. intros [= <-].
  by destruct outgoing.
Qed.

Lemma open_fixed s c outgoing remote msg : fixed_part (open_connection s c outgoing remote msg).1 = fixed_part s.
Proof.
  unfold open_connection. destruct (check_handshake s outgoing remote msg) as [[uuid a]|]; [|done].
  match goal with |- context [match (if outgoing then _ else ?k) with _ => _ end] => set (answered := k) end.
  assert (∀ s1, answered = Some s1 → fixed_part s1 = fixed_part s) as Ha.
  { subst answered. destruct (heap s !! c) as [sc|]; [|done]. cbn. destruct (try_send _ sc); [|done]. by intros ? [= <-]. }
  assert (∀ s1, (if outgoing then Some s else answered) = Some s1 → fixed_part s1 = fixed_part s) as Hb
    by (destruct outgoing; [by intros ? [= <-]|done]).
  destruct (if outgoing then Some s else answered) as [s1|]; [|done].
  destruct (register _ c outgoing a) as [s2|] eqn:E; cbn [fst].
  - apply register_fixed in E. rewrite E. exact (Hb s1 eq_refl).
  - exact (Hb s1 eq_refl).
Qed.

Lemma sync_step_fixed s s' : sync_step s s' → fixed_part s' = fixed_part s.
Proof.
  destruct 1; try done.
  - apply tryConnect_keeps.
  - unfold finish_dial. by repeat case_match.
  - apply open_fixed.
  - apply greet_fixed.
  - apply message_fixed.
  - apply broadcast_keeps.
  - unfold cleanup. by case_match.
  - apply close_fixed.
Qed.

Lemma networks_fixed s s' : fixed_part s' = fixed_part s → networks s' = networks s.
Proof. unfold fixed_part, networks. by intros [= -> ->]. Qed.

Lemma sync_step_networks s s' : sync_step s s' → networks s' = networks s.
Proof. intros Hs. by apply networks_fixed, sync_step_fixed. Qed.

Lemma message_networks clock now ips s m : networks (handle_message clock now ips s m).1.1 = networks s.
Proof. apply networks_fixed, message_fixed. Qed.

(** A mapping that arrives takes the pool through its own steps. *)
Lemma recv_reach nano now s m p :
  pool s = Some p → RealIP m = [] ∨ valid_ip (RealIP m) →
  ∃ p', pool (recv_mapping nano now s m) = Some p' ∧ rtc (pool_step valid_ip) p p'.
Proof.
  intros Hp Hm. unfold recv_mapping. destruct Hm as [->|Hv].
  { cbn [is_nil]. rewrite orb_true_r. exists p. by split. }
  destruct (_ || _); [exists p; by split|]. destruct (negb _); [exists p; by split|]. rewrite Hp.
  destruct (Version m <? _); [exists p; by split|].
  pose proof (step_add valid_ip (ObserveVersion nano (Version m) p) (metrics s) (RealIP m) (FakeIP m) (Version m)
    (now + MappingTTL) Hv) as Hst.
  destruct (AddMapping _ _ _ _ _ _) as [[ok p2] mt]. cbn [fst snd] in Hst. exists p2. split; [by destruct ok|].
  eapply rtc_l; [apply step_observe|]. by apply rtc_once.
Qed.

Lemma message_reach clock now ips s msg p :
  pool s = Some p → Forall (λ m, RealIP m = [] ∨ valid_ip (RealIP m)) (Mappings msg) →
  ∃ p', pool (handle_message clock now ips s msg).1.1 = Some p' ∧ rtc (pool_step valid_ip) p p'.
Proof.
  intros Hp Hall. unfold handle_message.
  assert (∃ p', pool s = Some p' ∧ rtc (pool_step valid_ip) p p') as Hsame by (exists p; by split).
  destruct (Type_ msg =? MsgTypePEX).
  { destruct (_ || _); [done|]. destruct (50 <=? _); [done|].
    pose proof (tryConnect_keeps now s (JoinHostPort (IP_String (PEXIP msg)) (itoa (PEXPort msg))) ips) as [_ H].
    destruct (tryConnect _ _ _ _). cbn in *. by rewrite H. }
  destruct (Type_ msg =? MsgTypePing); [done|]. destruct (Type_ msg =? MsgTypeMappings); [|done]. cbn [fst].
  assert (Forall (λ x, RealIP x.2 = [] ∨ valid_ip (RealIP x.2)) (imap (λ i m, (i, m)) (Mappings msg))) as Hl.
  { apply (proj1 (Forall_fmap snd (λ m, RealIP m = [] ∨ valid_ip (RealIP m)) _)). by rewrite imap_pairs_snd. }
  set (s1 := set_pool _ _ _ s). assert (∃ q, pool s1 = Some q ∧ rtc (pool_step valid_ip) p q) as Hs1 by done. clearbody s1.
  revert s1 Hs1. induction Hl as [|[i m] l Hm _ IH]; intros s1 (q & Hq & Hr); cbn [foldl]; [eauto|].
  apply IH. destruct (recv_reach (clock i).1 (clock i).2 s1 m q Hq Hm) as (q' & ? & ?).
  exists q'. split; [done|]. by etrans.
Qed.

Lemma recovered_reach now mt p existing :
  map_Forall (λ _ rec, valid_ip (rec_RealIP rec)) existing →
  rtc (pool_step valid_ip) p (recover_mappings now p mt existing).1.
Proof.
  intros Hall%map_Forall_to_list. unfold recover_mappings.
  change p with (p, mt).1 at 1. generalize (p, mt) as st. clear p mt.
  induction Hall as [|[k rec] l Hv _ IH]; intros st; cbn [foldl]; [done|].
  etrans; [|apply IH]. destruct (is_nil _); [done|].
  pose proof (step_add valid_ip st.1 st.2 (rec_RealIP rec) (ParseIP k) 0 (now + rec_Expires rec) Hv) as Hst.
  destruct (AddMapping _ _ _ _ _ _) as [[ok q] mt]. by apply rtc_once.
Qed.

(** ** Lemmas: the Fake-IPs of a well configured engine *)

(** The settings under which the allocator stays in the networks it reports. *)
Definition good_pool (p : IPPool) : Prop :=
  poolSize p ≠ 1 ∧ (poolStart p ≠ fallback_start ∨ poolSize p ≤ 131072) ∧ To4 (poolStart6 p) = [].

(** An address of the family's network. *)
Definition pool_fake (p : IPPool) (c : IP) : Prop :=
  c ≠ [] ∧ in_net (if is_nil (To4 c) then GetPoolNet6 p else GetPoolNet p) c.

Lemma choose_fake_shape q realIP (isV6 : bool) c :
  choose_fake q realIP isV6 = Some c →
  if isV6 then ∃ x, c = take 12 (take 16 (poolStart6 q ++ replicate 16 Byte.x00)) ++ be_bytes32 x
  else ∃ x, c = IPv4_of_u32 x.
Proof.
  unfold choose_fake. destruct isV6; cbn [negb]; (destruct (occupied q _); cbn [negb]; [|intros [= <-]; eexists; done]);
    intros [_ (k & _ & Hc)]%probe_Some.
  - unfold candidate6 in Hc. simplify_eq. eauto.
  - unfold candidate4 in Hc. case_match; simplify_eq. eauto.
Qed.

Lemma engine_alloc env p now nano realIP isV6 c v :
  rtc (pool_step valid_ip) (engine_pool env) p → valid_ip realIP → (alloc_locked p now nano realIP isV6).1 = AllocNew c v →
  is_u64 v ∧ (good_pool (engine_pool env) → pool_fake (engine_pool env) c).
Proof.
  set (p0 := engine_pool env). intros Hs Hv Ha.
  assert (pool_wf p0) as Hwf0 by apply NewIPPoolWithConfig_wf. pose proof (pool_steps_wf p0 p Hwf0 Hs) as Hwf.
  pose proof (pool_steps_params p0 p Hwf0 Hs) as Hpar. pose proof (params_evict (ToIPKey realIP) p) as Hev.
  rewrite Hpar in Hev. destruct (alloc_new p Hwf now nano realIP isV6 c v Hv Ha) as (q & -> & Hc). split.
  { destruct (decide (live p now (ToIPKey realIP))) as [Hl|Hl].
    - destruct (alloc_locked_live p now nano realIP isV6 Hv Hl) as (? & ? & _ & E & _). by rewrite E in Ha.
    - rewrite alloc_locked_not_live, Hc in Ha by done. cbn [fst] in Ha. injection Ha as <-. unfold GetNextVersion.
      cbn [fst]. destruct (_ <? _); apply w64_range. }
  intros (H1 & H2 & H3). destruct (engine_sizes env) as [Hz4 Hz6]. fold p0 in Hz4, Hz6.
  set (q := evict_real (ToIPKey realIP) p) in *.
  assert (poolStart q = poolStart p0 ∧ poolSize q = poolSize p0 ∧ cidrMask q = cidrMask p0 ∧
          poolStart6 q = poolStart6 p0 ∧ poolSize6 q = poolSize6 p0) as (E1 & E2 & E3 & E4 & E5)
    by (unfold params in Hev; split_and!; congruence).
  pose proof (choose_fake_shape q realIP isV6 c Hc) as Hsh. destruct isV6; destruct Hsh as [x Hx].
  - assert (net6_ok p0) as Hok by (apply NewIPPool_net6; done).
    pose proof (choose_fake_in_net6 p0 Hok q realIP c E4 E5 Hc) as Hin.
    destruct (start6_split p0 Hok) as (_ & Hl & Hne). rewrite E4, (padded6 p0 Hok) in Hx.
    assert (length c = 16%nat) as Hlc by (subst c; rewrite length_app, Hl; done).
    assert (To4 c = []) as H4.
    { unfold To4. rewrite Hlc. cbn [Nat.eqb andb]. subst c. rewrite take_app_le, take_ge by lia.
      by rewrite bool_decide_eq_false_2. }
    split; [by intros -> | by rewrite H4].
  - assert (net4_ok p0) as Hok by (apply NewIPPool_net4; [change (2 ≤ poolSize p0 < 2 ^ 32); lia|done]).
    destruct (choose_fake_in_net4 p0 Hok q realIP c E1 E2 E3 Hc) as [Hin _]. subst c.
    split; [done|]. by rewrite IPv4_of_u32_To4.
Qed.

(** ** The invariant of a running engine *)

(** [p0] is the empty pool of the engine's settings. *)
Record engine_ok (p0 : IPPool) (e : Engine) : Prop := {
  eo_pool : ∃ p, pool (e_sync e) = Some p ∧ rtc (pool_step valid_ip) p0 p;
  eo_nets : networks (e_sync e) = (GetPoolNet p0, GetPoolNet6 p0);
  eo_announced : ∀ pub, pub ∈ pending e →
    announces_ok (λ c v, is_u64 v ∧ (good_pool p0 → pool_fake p0 c)) pub;
}.

(** The kernel's maps hold addresses of their family. *)
Definition kernel_ok (w : World) : Prop :=
  ∀ els, w_maps4 w = inl els ∨ w_maps6 w = inl els → Forall (λ el, valid_ip (el_Val el)) els.

Lemma recovered_valid els : ∀ m,
  Forall (λ el, valid_ip (el_Val el)) els → map_Forall (λ _ rec, valid_ip (rec_RealIP rec)) m →
  map_Forall (λ _ rec, valid_ip (rec_RealIP rec)) (add_recovered m els).
Proof.
  induction els as [|el els IH]; intros m Hl Hm; [done|]. apply Forall_cons in Hl as [Hel Hl].
  change (add_recovered m (el :: els)) with
    (add_recovered (<[IP_String (el_Key el) := mkRecovery (el_Val el) (el_Timeout el)]> m) els).
  apply IH; [done|]. by apply map_Forall_insert_2.
Qed.

Lemma read_valid w v6 m :
  kernel_ok w → ReadExistingMappings true v6 (w_maps4 w) (w_maps6 w) = Some m →
  map_Forall (λ _ rec, valid_ip (rec_RealIP rec)) m.
Proof.
  intros Hk. unfold ReadExistingMappings. cbn [negb].
  assert (∀ m0 res m1, (∀ els, res = inl els → Forall (λ el, valid_ip (el_Val el)) els) →
    map_Forall (λ _ rec, valid_ip (rec_RealIP rec)) m0 →
    match res with inl els => Some (add_recovered m0 els) | inr e => if missing_map e then Some m0 else None end = Some m1 →
    map_Forall (λ _ rec, valid_ip (rec_RealIP rec)) m1) as Hread.
  { intros m0 [els|e] m1 He Hm0; [intros [= <-]; apply recovered_valid; auto|]. by destruct (missing_map e); intros [= <-]. }
  destruct (match w_maps4 w with inl _ => _ | inr _ => _ end) as [m0|] eqn:E; [|done]. cbn [mbind option_bind].
  assert (map_Forall (λ _ rec, valid_ip (rec_RealIP rec)) m0) as H0.
  { eapply (Hread ∅ (w_maps4 w)); [intros els ?; apply Hk; by left|apply map_Forall_empty|exact E]. }
  destruct v6; [|by intros [= <-]]. apply (Hread m0 (w_maps6 w)); [|done]. intros els ?. apply Hk. by right.
Qed.

Lemma start_ok uni lookup env w e :
  kernel_ok w → start_engine uni lookup env w = Some e → engine_ok (engine_pool env) e.
Proof.
  intros Hk. unfold start_engine. destruct (negb _); [done|]. destruct (negb _); [done|].
  assert (rtc (pool_step valid_ip) (engine_pool env) (recovered_pool uni env w).1) as Hr.
  { unfold recovered_pool. destruct (ReadExistingMappings _ _ _ _) as [m|] eqn:E; [|done].
    apply recovered_reach. by eapply read_valid. }
  assert (pool (engine_sync uni env w) = Some (recovered_pool uni env w).1 ∧
          networks (engine_sync uni env w) = (GetPoolNet (engine_pool env), GetPoolNet6 (engine_pool env))) as [Hp Hn].
  { unfold engine_sync. by destruct (recovered_pool uni env w). }
  assert (∀ rules deny s px ex kn, pool s = pool (engine_sync uni env w) → networks s = networks (engine_sync uni env w) →
    engine_ok (engine_pool env) (mkEngine rules deny s px ex kn [])) as Hgo.
  { intros rules deny s px ex kn H1 H2. split; cbn [e_sync pending]; [rewrite H1, Hp; eauto|by rewrite H2|].
    by intros ? ?%elem_of_nil. }
  destruct (StartServer _ _ _ _ _) as [s|] eqn:Es; [|intros [= <-]; by apply Hgo].
  destruct (w_listen w); [|done]. intros [= <-].
  assert (pool s = pool (engine_sync uni env w) ∧ networks s = networks (engine_sync uni env w)) as [? ?].
  { unfold StartServer in Es. repeat case_match; by simplify_eq. }
  by apply Hgo.
Qed.

Lemma traffic_step_ok env e e' : let p0 := engine_pool env in engine_ok p0 e → traffic_step e e' → engine_ok p0 e'.
Proof.
  intros p0 [(p & Hp & Hr) Hn Ha] Hst. assert (pool_wf p0) as Hwf by apply NewIPPoolWithConfig_wf.
  destruct Hst as [udp tcp ck r q Hq Hup|l1 pub l2 Hl|clock now ips msg Hall|s Hs Hps|now i pairs q Hq].
  - assert (q = p) as -> by congruence. unfold engine_request.
    pose proof (request_reach p0 (λ c v, is_u64 v ∧ (good_pool p0 → pool_fake p0 c)) Hwf
      (λ is6 q' n1 n2 x c v, engine_alloc env q' n1 n2 x is6 c v) udp tcp (set_px_pool p (e_proxy e))
      (metrics (e_sync e)) ck r Hup Hr) as Hq'.
    destruct (handleDNSRequest _ _ _ _ _ _) as [[[reply p'] mt] pub]. destruct Hq' as [Hr' Hpub].
    split; cbn [e_sync pending snd]; [eauto|done|]. intros pb [Hin|Hin]%elem_of_app; [by apply Ha|].
    apply Hpub. by destruct pub; [apply list_elem_of_singleton in Hin as ->|apply elem_of_nil in Hin].
  - unfold engine_publish. set (s := set_pool _ _ _ _). destruct (broadcast_keeps (pub_sync pub) s) as [H1 H2].
    split; cbn [e_sync pending]; [rewrite H2; eauto|by rewrite (networks_fixed _ _ H1)|].
    intros pb Hin. apply Ha. rewrite Hl. set_solver.
  - destruct (message_reach clock now ips (e_sync e) msg p Hp Hall) as (p' & Hp' & Hr').
    split; cbn [e_sync pending with_sync]; [|by rewrite message_networks|done]. exists p'. split; [done|]. by etrans.
  - split; cbn [e_sync pending with_sync]; [rewrite Hps; eauto|by rewrite (sync_step_networks _ _ Hs)|done].
  - assert (q = p) as -> by congruence. split; cbn [e_sync pending with_sync]; [|done|done].
    eexists. split; [done|]. eapply rtc_r; [done|]. apply step_prune.
Qed.

Lemma engine_step_ok env e e' : engine_ok (engine_pool env) e → engine_step e e' → engine_ok (engine_pool env) e'.
Proof.
  intros He [e1 Hst|]; [by eapply traffic_step_ok|]. destruct He as [H1 H2 H3].
  by split; cbn [e_sync pending engine_reload].
Qed.

(** Traffic leaves the deny script and the fingerprint of the lists alone. *)
Lemma traffic_keeps_lists e e' :
  traffic_step e e' → e_deny e' = e_deny e ∧ resultHash (e_sync e') = resultHash (e_sync e).
Proof.
  assert (∀ s s', fixed_part s' = fixed_part s → resultHash s' = resultHash s) as Hh
    by (unfold fixed_part; by intros s s' [= _ _ ->]).
  destruct 1 as [udp tcp ck r q Hq Hup|l1 pub l2 Hl|clock now ips msg Hall|s Hs Hps|now i pairs q Hq].
  - unfold engine_request. by destruct (handleDNSRequest _ _ _ _ _ _) as [[[reply p'] mt] pub].
  - split; [done|]. apply Hh. cbn [engine_publish e_sync]. by rewrite (proj1 (broadcast_keeps _ _)).
  - split; [done|]. apply Hh, message_fixed.
  - split; [done|]. by apply Hh, sync_step_fixed.
  - done.
Qed.

Lemma running_ok uni lookup env w e0 e :
  kernel_ok w → start_engine uni lookup env w = Some e0 → rtc engine_step e0 e → engine_ok (engine_pool env) e.
Proof.
  intros Hk H0%start_ok Hs; [|done]. induction Hs as [|? ? ? Hst _ IH]; [done|]. apply IH. by eapply engine_step_ok.
Qed.

(** A mapping neither of whose addresses is known is taken over. *)
Lemma unknown_taken nano now s q m :
  pool s = Some q → pool_wf q → admissible s m →
  rtf q (ToIPKey (RealIP m)) = None → globalFakeToReal q !! ToIPKey (FakeIP m) = None →
  let s' := recv_mapping nano now s m in
  ∃ q', pool s' = Some q' ∧ rtf q' (ToIPKey (RealIP m)) = Some (ToIPKey (FakeIP m)) ∧
    nftLog s' = nftLog s ++ [(FakeIP m, RealIP m, MappingTTL)].
Proof.
  intros Hq Hwf (Hv & Hu & Hin) Hr Hf. destruct (models_exists q Hwf) as [a Hm]. cbn zeta.
  destruct (recv_mapping_spec nano now s m q a Hq Hm Hv Hu) as [(q' & Hq' & Hm') Hlog].
  unfold spec_recv in *. rewrite Hin in *.
  assert (spec_rejects a (ToIPKey (RealIP m)) (ToIPKey (FakeIP m)) (Version m) = false) as Hrej.
  { apply bool_decide_eq_false. intros (r0 & en & Hen & Hb). unfold blocks in Hb.
    destruct Hb as [[Hb _]|[Hb _]].
    - assert (globalFakeToReal q !! ToIPKey (FakeIP m) = Some r0) by (apply (models_owner a q Hm); eauto). congruence.
    - subst r0. rewrite (models_rtf a q Hm), Hen in Hr. done. }
  unfold spec_add in *. rewrite Hrej in *. cbn [fst snd] in *. exists q'. split_and!; [done| |done].
  rewrite (models_rtf _ _ Hm'), lookup_insert_eq. done.
Qed.

(** The handshake a node sends. *)
Definition hello_of (s : SyncManager) : SyncMessage := mkMessage MsgTypeHandshake (Some (own_handshake s)) [] 0 [].

(** Accepting a connection compares the networks. *)
Lemma accepted_networks s t remote r :
  check_handshake s false remote (Some (hello_of t)) = Some r → networks t = networks s.
Proof.
  unfold check_handshake. cbn [readHandshake hello_of mbind option_bind Type_ Handshake]. cbn.
  destruct (negb (checkAuthToken _ _)); [done|]. destruct (_ =? _); [done|]. destruct remote; [|done]. cbn.
  unfold networks. destruct (bool_decide_reflect (poolNet t = poolNet s)) as [->|]; [|done].
  by destruct (bool_decide_reflect (poolNet6 t = poolNet6 s)) as [->|].
Qed.

Lemma pool_fake_in_subnet p s c : networks s = (GetPoolNet p, GetPoolNet6 p) → pool_fake p c → isInSubnet s c = true.
Proof.
  intros [= H4 H6] [Hc (n & Hn & Hin)]. unfold isInSubnet. apply is_nil_false in Hc as ->.
  destruct (is_nil (To4 c)); cbn [negb]; rewrite ?H4, ?H6, Hn; done.
Qed.

(** The engine goes on at the first look that finds both files, so it starts as
    soon as they exist. *)
Lemma wait_for_lists_first stat n : ∀ i k,
  (i ≤ k < i + n)%nat → stat k = (true, true) →
  ∃ j, wait_for_lists stat n i = Some j ∧ (i ≤ j ≤ k)%nat ∧ stat j = (true, true) ∧
    ∀ l, (i ≤ l < j)%nat → stat l ≠ (true, true).
Proof.
  induction n as [|n IH]; intros i k Hk Hs; [lia|]. cbn [wait_for_lists].
  destruct (decide (stat i = (true, true))) as [E|E].
  { rewrite E. exists i. split_and!; [done|lia|lia|done|lia]. }
  assert ((stat i).1 && (stat i).2 = false) as -> by (destruct (stat i) as [[] []]; done).
  assert (i ≠ k) by congruence. destruct (IH (S i) k ltac:(lia) Hs) as (j & H1 & H2 & H3 & H4).
  exists j. split_and!; [done|lia|lia|done|]. intros l Hl.
  destruct (decide (l = i)) as [-> | Hne]; [done|apply H4; lia].
Qed.

(** ** Properties *)

(** Two engines, each started in its own surroundings. *)
Section Cluster.
Context (uni uni' : string → string) (lookup lookup' : string → option (list IP)) (env env' : Env) (w w' : World).
Context (a0 b0 : Engine).
Context (Ha0 : start_engine uni lookup env w = Some a0) (Hb0 : start_engine uni' lookup' env' w' = Some b0).
Context (Hkw : kernel_ok w) (Hkw' : kernel_ok w').

(** C14: once one of two running engines has accepted the other's handshake, every
    mapping the one announces for an answer of its DNS proxy, then or later, is
    for a Fake-IP of the other's own networks; and when the other uses neither
    of the two addresses yet, receiving the mapping makes it exchange the
    address for the same Fake-IP and program its packet filter, whatever it has
    recovered, answered and received before.  The announcing engine's IPv4
    pool has more than one address, is no larger than the substitute of an
    invalid FAKE_IP when that is in use, and its FAKE_IP6 is no IPv4-mapped
    address ([good_pool]); the addresses both engines
    recovered from the kernel have 4 or 16 bytes, as have the real addresses of
    the answers and of the mappings they received. *)
Theorem announced_fakes_taken_over a1 b1 a b remote r pub m :
  good_pool (engine_pool env) →
  rtc engine_step a0 a1 → rtc engine_step a1 a → rtc engine_step b0 b1 → rtc engine_step b1 b →
  check_handshake (e_sync b1) false remote (Some (hello_of (e_sync a1))) = Some r ∨
  check_handshake (e_sync a1) false remote (Some (hello_of (e_sync b1))) = Some r →
  pub ∈ pending a → m ∈ pub_sync pub →
  isInSubnet (e_sync b) (FakeIP m) = true ∧
  ∃ q, pool (e_sync b) = Some q ∧
    (rtf q (ToIPKey (RealIP m)) = None → globalFakeToReal q !! ToIPKey (FakeIP m) = None →
     ∀ nano now, let s' := recv_mapping nano now (e_sync b) m in
       ∃ q', pool s' = Some q' ∧ rtf q' (ToIPKey (RealIP m)) = Some (ToIPKey (FakeIP m)) ∧
         nftLog s' = nftLog (e_sync b) ++ [(FakeIP m, RealIP m, MappingTTL)]).
Proof.
  intros Hgood Ha1 Ha Hb1 Hb Hs Hpub Hm.
  pose proof (running_ok _ _ _ _ _ _ Hkw Ha0 Ha1) as Ka1. pose proof (running_ok _ _ _ _ _ _ Hkw' Hb0 Hb1) as Kb1.
  assert (rtc engine_step a0 a) as Ha2 by (by etrans). assert (rtc engine_step b0 b) as Hb2 by (by etrans).
  destruct (running_ok _ _ _ _ _ _ Hkw Ha0 Ha2) as [_ _ Hann].
  destruct (running_ok _ _ _ _ _ _ Hkw' Hb0 Hb2) as [(q & Hq & Hr) Hnb _].
  assert (networks (e_sync b) = (GetPoolNet (engine_pool env), GetPoolNet6 (engine_pool env))) as Hnet.
  { rewrite <- (eo_nets _ _ Ka1), Hnb, <- (eo_nets _ _ Kb1). by destruct Hs as [Hs%accepted_networks|Hs%accepted_networks]. }
  destruct (Hann pub Hpub m Hm) as (Hv & Hu & Hfake).
  assert (isInSubnet (e_sync b) (FakeIP m) = true) as Hin by (eapply pool_fake_in_subnet; eauto).
  split; [done|]. exists q. split; [done|]. intros H1 H2 nano now. apply unknown_taken with q; [done| |done|done|done].
  eapply pool_steps_wf; [|exact Hr]. apply NewIPPoolWithConfig_wf.
Qed.
End Cluster.

Definition kept_one : list SetElement := [mkElement (To4 (ParseIP "198.18.0.5")) (To4 (ParseIP "1.1.1.1")) 60].

Definition node_env : Env := λ key, if bool_decide (key = "NEXTPATH_SYNC_TOKEN") then Some "s3cret" else None.

(** A host whose kernel still holds one mapping and whose clock shows [nano]. *)
Definition host (nano : Z) : World :=
  mkWorld (λ _, true) true None None (inl kept_one) (inr "no such file or directory") "a" "b"
    (Some (Some [Byte.x01])) true nano 5.

Definition node (nano : Z) : Engine :=
  default (mkEngine EmptyString EmptyString fresh_node (demo_proxy demo_pool) None [] [])
    (start_engine id (λ _, None) node_env (host nano)).

Lemma node_started nano : start_engine id (λ _, None) node_env (host nano) = Some (node nano).
Proof. reflexivity. Qed.

Lemma host_kernel nano : kernel_ok (host nano).
Proof. intros els [[= <-]|[=]]. apply Forall_singleton. left. vm_compute. reflexivity. Qed.

(** The first node after it has answered a query. *)
Definition node_pool : IPPool := default demo_pool (pool (e_sync (node 7))).
Definition answering : Engine := (engine_request demo_udp demo_tcp demo_clock demo_query node_pool (node 7)).2.
Definition announced : list Mapping := mjoin (pub_sync <$> pending answering).

Lemma announced_fakes_taken_over_witness :
  length announced = 2%nat ∧
  Forall (λ m, isInSubnet (e_sync (node 8)) (FakeIP m) = true ∧
    ∃ q, pool (recv_mapping 1 2 (e_sync (node 8)) m) = Some q ∧
      rtf q (ToIPKey (RealIP m)) = Some (ToIPKey (FakeIP m))) announced.
Proof.
  split; [vm_compute; reflexivity|]. apply Forall_forall. intros m Hm.
  assert (∃ pub, pub ∈ pending answering ∧ m ∈ pub_sync pub) as (pub & Hpub & Hin).
  { apply list_elem_of_join in Hm as (l & Hl & (pub & -> & Hpub)%list_elem_of_fmap). exists pub. split; assumption. }
  destruct (announced_fakes_taken_over id id (λ _, None) (λ _, None) node_env node_env (host 7) (host 8)
    (node 7) (node 8) (node_started 7) (node_started 8) (host_kernel 7) (host_kernel 8)
    (node 7) (node 8) answering (node 8) (Some (ParseIP "10.0.0.7")) (7, "10.0.0.7:5353") pub m)
    as (Hs & q & Hq & Htaken).
  - split; [vm_compute; discriminate|]. split; [right; vm_compute; discriminate|vm_compute; reflexivity].
  - apply rtc_refl.
  - apply rtc_once, step_traffic, step_request; [reflexivity|]. intros resp Hr. apply (demo_valid demo_pool). exact Hr.
  - apply rtc_refl.
  - apply rtc_refl.
  - left. vm_compute. reflexivity.
  - exact Hpub.
  - exact Hin.
  - split; [exact Hs|].
    assert (Forall (λ m, rtf (default demo_pool (pool (e_sync (node 8)))) (ToIPKey (RealIP m)) = None ∧
      globalFakeToReal (default demo_pool (pool (e_sync (node 8)))) !! ToIPKey (FakeIP m) = None) announced) as Hfree
      by (apply (bool_decide_unpack _); vm_compute; exact I).
    rewrite Hq in Hfree. cbn [default from_option id] in Hfree.
    destruct (proj1 (Forall_forall _ _) Hfree m Hm) as [F1 F2].
    destruct (Htaken F1 F2 1 2) as (q' & Hq' & Hr & _). exists q'. split; assumption.
Defined.
