(* ===== verification/UpdaterLoop.v ===== *)
(** * The updater's loop ([startUpdaterLoop] of [cmd/nextpath-engine/main.go])

    The updater runs beside the engine: at once, at the next tick and then at
    every interval it either compiles the local lists or fetches the archive of a
    remote source, both into the result directory.  What a poll meets (the
    network, the disk, the clock) is the record [Poll]; the loop is the sequence of
    states its polls take the disk through, so a signal ends it after any of
    them. *)

From Stdlib Require Import Ascii.
From Stdlib Require String.
From stdpp Require Import prelude gmap strings sorting.
From S2P Require Import Prelude GoStrings GoText GoPath GoNet Config Host.
From S2P Require Import Filter Domains IPNets Updater Compile Replace CompileSteps.

#[local] Arguments String.append : simpl nomatch.

(** For a compilation its world and the behaviour of the disk, for a fetch the
    server, the failing operations, the times members are written at, the failure
    of writing the validators and the clock. *)
Record Poll := mkPoll {
  pl_world : World;
  pl_writes : Writes;
  pl_get : string → option string → option string → Response + string;
  pl_faults : nat → option Fault;
  pl_removed : nat → bool;
  pl_clock : nat → Z;
  pl_meta : option Fault;
  pl_now : Z;
}.

Section Loop.
Context (sha256_hex md5_hex : string → string) (gunzip : string → option string).
Context (uni_lower : string → string) (idna_ToASCII : string → option string).
Context `{IPSetLib}.
Context (uni : string → string) (env : Env).

Definition resultDir : string := getEnv env "RESULT_DIR" "/app/nextpath/result".
Definition remoteSource : string := getEnv env "LIST_SOURCE" EmptyString.

(** The compilation of a poll, with the configuration read anew. *)
Definition recompile (p : Poll) (fs : Store) : list Store :=
  default [] (compile_states sha256_hex md5_hex gunzip uni_lower idna_ToASCII (pl_world p) (pl_writes p) (getenv env)
    (getCompileConfig uni env resultDir) fs).

Definition refetch (p : Poll) (fs : Store) : list Store :=
  files <$> runReload (pl_get p) (pl_faults p) (pl_removed p) (pl_clock p) (pl_meta p) (pl_now p) remoteSource resultDir (mkDisk fs []).

Definition poll_states (p : Poll) (fs : Store) : list Store :=
  if compileLocal uni env then recompile p fs else refetch p fs.

Fixpoint updater_states (polls : list Poll) (fs : Store) : list Store :=
  match polls with
  | [] => []
  | p :: polls' => let l := poll_states p fs in l ++ updater_states polls' (after fs l)
  end.

(** The loop started at [start], for its first polls and [n] more; [poll] gives
    what a poll at a time meets.  [None] is the panic of a ticker that does not
    advance. *)
Definition startUpdaterLoop (ParseDuration : string → option Z) (start : Z) (n : nat) (poll : Z → Poll) (fs : Store)
    : option (list Store) :=
  times ← poll_times start (poll_interval ParseDuration uni env) n;
  Some (updater_states (poll <$> times) fs).
End Loop.
