(* ===== verification/Watch.v ===== *)
(** * Watching the compiled lists ([startFileWatcher] of [cmd/nextpath-engine/main.go])

    The updater and the engine are two programs that meet in the result
    directory.  The watcher of the engine looks every five seconds at the times of
    the two fingerprints; when one has changed it clears the resolver's cache,
    reads the deny lists, hands them to the packet filter and reads the
    fingerprints.  It is modelled with a program counter, one file read per step,
    so that writes of the updater ([CompileSteps]) and the traffic of the engine
    come in between anywhere. *)

From Stdlib Require Import Ascii.
From Stdlib Require String.
From stdpp Require Import prelude gmap strings sorting.
From S2P Require Import Prelude GoStrings GoText GoPath GoNet Metrics IPPool Rules Nft Config Host Proxy Sync SyncInv Engine.
From S2P Require Import Filter Domains IPNets Updater Compile CompileFrame Replace CompileSteps.

#[local] Arguments String.append : simpl nomatch.

(** Where the watcher stands, with what it has read. *)
Inductive WatchPC :=
  | Waiting
  | ReadV4
  | ReadV6 (v4 : option string)
  | Apply (v4 v6 : option string)
  | ReadDomains
  | ReadIPs (domains : string).

(** The disk, the times last seen, the watcher, the engine, and the deny script
    the packet filter has accepted last. *)
Record Watched := mkWatched {
  wt_fs : Store;
  wt_last : Z * Z;
  wt_pc : WatchPC;
  wt_engine : Engine;
  wt_kernel : string;
}.

Definition set_store (fs : Store) (x : Watched) : Watched :=
  mkWatched fs (wt_last x) (wt_pc x) (wt_engine x) (wt_kernel x).
Definition set_engine (e : Engine) (x : Watched) : Watched :=
  mkWatched (wt_fs x) (wt_last x) (wt_pc x) e (wt_kernel x).

Definition with_cleared (l : list (string * string)) (e : Engine) : Engine :=
  mkEngine (e_rules e) (e_deny e) (e_sync e) (e_proxy e) (e_exporter e) (e_cleared e ++ l) (pending e).
Definition with_deny (script : string) (e : Engine) : Engine :=
  mkEngine (e_rules e) script (e_sync e) (e_proxy e) (e_exporter e) (e_cleared e) (pending e).

Section Watcher.
(** [v6]: the packet filter's IPv6 flag; [dir]: the result directory. *)
Context (v6 : bool) (dir : string).

Definition list_file (fs : Store) (name : string) : option string := content <$> fs !! Join dir name.
Definition list_time (fs : Store) (name : string) : option Z := mtime <$> fs !! Join dir name.

Definition mods (fs : Store) : Z * Z := getLastMod (list_time fs ".hash_domains") (list_time fs ".hash_ips").

(** [kernel]: the script the packet filter has accepted last. *)
Definition startFileWatcher (fs : Store) (e : Engine) (kernel : string) : Watched :=
  mkWatched fs (mods fs) Waiting e kernel.

(** One step: a look at the times, the reading of one file, or the call of nft,
    whose outcome is [accepted]. *)
Definition watch_step (names : option (list string)) (dial : string → bool) (accepted : bool) (x : Watched) : Watched :=
  let fs := wt_fs x in
  let e := wt_engine x in
  match wt_pc x with
  | Waiting =>
      let '(last, changed) := watch_tick (wt_last x) (list_time fs ".hash_domains") (list_time fs ".hash_ips") in
      if changed
      then mkWatched fs last ReadV4 (with_cleared (ClearKnotCache names dial) e) (wt_kernel x)
      else mkWatched fs last Waiting e (wt_kernel x)
  | ReadV4 => mkWatched fs (wt_last x) (ReadV6 (list_file fs "deny-ips-v4.txt")) e (wt_kernel x)
  | ReadV6 v4 => mkWatched fs (wt_last x) (Apply v4 (list_file fs "deny-ips-v6.txt")) e (wt_kernel x)
  | Apply l4 l6 =>
      let script := ReloadDenySets v6 l4 l6 in
      mkWatched fs (wt_last x) ReadDomains (with_deny script e) (if accepted then script else wt_kernel x)
  | ReadDomains => mkWatched fs (wt_last x) (ReadIPs (read fs (Join dir ".hash_domains"))) e (wt_kernel x)
  | ReadIPs d =>
      mkWatched fs (wt_last x) Waiting
        (with_sync (set_hash (RefreshResultHash d (read fs (Join dir ".hash_ips"))) (e_sync e)) e) (wt_kernel x)
  end.

(** The writes [l] interleaved with steps of the watcher and with the traffic of
    the engine; the packet filter may refuse a script unless [ok]. *)
Inductive watched_run (ok : bool) : list Store → Watched → Watched → Prop :=
  | run_end x : watched_run ok [] x x
  | run_write fs l x y : watched_run ok l (set_store fs x) y → watched_run ok (fs :: l) x y
  | run_watch names dial accepted l x y :
      (ok = true → accepted = true) → watched_run ok l (watch_step names dial accepted x) y → watched_run ok l x y
  | run_traffic e l x y : traffic_step (wt_engine x) e → watched_run ok l (set_engine e x) y → watched_run ok l x y.

(** ** What the watcher is for *)

Definition deny_script (fs : Store) : string :=
  ReloadDenySets v6 (list_file fs "deny-ips-v4.txt") (list_file fs "deny-ips-v6.txt").
Definition lists_hash (fs : Store) : string :=
  RefreshResultHash (read fs (Join dir ".hash_domains")) (read fs (Join dir ".hash_ips")).

(** The handshakes the engine sends carry the fingerprint of the lists on the
    disk and, when [denying], the packet filter denies what those lists deny. *)
Definition in_force (denying : bool) (x : Watched) : Prop :=
  (denying = true → wt_kernel x = deny_script (wt_fs x)) ∧
  ResultHash (own_handshake (e_sync (wt_engine x))) = lists_hash (wt_fs x).

(** ** The discipline of a writer *)

Definition le2 (a b : Z * Z) : Prop := a.1 ≤ b.1 ∧ a.2 ≤ b.2.

(** A write that leaves the four files alone, one that leaves the fingerprints
    alone, and one that announces: it moves a fingerprint's time forward and
    leaves the deny lists alone. *)
Definition watched_files : list string := ["deny-ips-v4.txt"; "deny-ips-v6.txt"; ".hash_domains"; ".hash_ips"].
Definition announces (fs fs' : Store) : Prop :=
  unseen dir ["deny-ips-v4.txt"; "deny-ips-v6.txt"] fs fs' ∧ le2 (mods fs) (mods fs') ∧ mods fs' ≠ mods fs.

(** A sequence of writes: [stale] tells whether an announcement is due before it,
    the last argument whether one may be due after it. *)
Inductive published : bool → Store → list Store → bool → Prop :=
  | pub_end stale fs due : implb stale due = true → published stale fs [] due
  | pub_unseen stale fs fs' l due :
      unseen dir watched_files fs fs' → published stale fs' l due → published stale fs (fs' :: l) due
  | pub_quiet stale fs fs' l due :
      unseen dir [".hash_domains"; ".hash_ips"] fs fs' → published true fs' l due → published stale fs (fs' :: l) due
  | pub_announce stale fs fs' l due :
      announces fs fs' → published false fs' l due → published stale fs (fs' :: l) due.
End Watcher.
