(* ===== verification/WatchFacts.v ===== *)
(** * Theorems about the watcher

    Whoever writes the lists first and a fingerprint afterwards is understood by
    the watcher, at whatever moments it reads; the compiler does so, hence what a
    run of it leaves comes into force. *)

From Stdlib Require Import Ascii.
From Stdlib Require String.
From stdpp Require Import prelude gmap strings sorting.
From S2P Require Import Prelude GoStrings GoText GoPath GoNet Metrics IPPool Rules Nft Config Host Proxy Sync SyncInv Engine EngineFacts.
From S2P Require Import Filter Domains IPNets IPTrie Updater Compile CompileFacts CompileFrame Replace CompileSteps Watch.

#[local] Arguments String.append : simpl nomatch.

Section Facts.
Context (v6 : bool) (dir : string).

Abbreviation mods := (Watch.mods dir).
Abbreviation step := (watch_step v6 dir).

(** ** Lemmas: the watcher alone *)

(** What the watcher has read agrees with the disk, and so does the packet filter
    when [denying]. *)
Definition good (denying : bool) (x : Watched) : Prop :=
  let fs := wt_fs x in
  match wt_pc x with
  | Waiting => in_force v6 dir denying x
  | ReadV4 => True
  | ReadV6 a => a = list_file dir fs "deny-ips-v4.txt"
  | Apply a b => a = list_file dir fs "deny-ips-v4.txt" ∧ b = list_file dir fs "deny-ips-v6.txt"
  | ReadDomains => denying = true → wt_kernel x = deny_script v6 dir fs
  | ReadIPs d => (denying = true → wt_kernel x = deny_script v6 dir fs) ∧ d = read fs (Join dir ".hash_domains")
  end.

(** Unless an announcement is due, a watcher that has seen the latest times has
    read the present lists; [trust] tells for which times the packet filter has
    accepted them. *)
Record ready (trust : Z * Z → bool) (stale : bool) (x : Watched) : Prop := {
  ready_le : le2 (wt_last x) (mods (wt_fs x));
  ready_good : stale = false → wt_last x = mods (wt_fs x) → good (trust (mods (wt_fs x))) x;
}.

Lemma watch_tick_spec last fs :
  watch_tick last (list_time dir fs ".hash_domains") (list_time dir fs ".hash_ips") =
  (mods fs, negb (bool_decide (last = mods fs))).
Proof.
  unfold watch_tick. fold (mods fs). destruct last as [a b], (mods fs) as [c d]. cbn [fst snd].
  case_bool_decide as E; [simplify_eq; by rewrite !Z.eqb_refl|].
  destruct (Z.eqb_spec c a) as [->|]; [|done]. destruct (Z.eqb_spec d b) as [->|]; [done|]. done.
Qed.

Lemma le2_refl a : le2 a a.
Proof. by split. Qed.

Lemma step_store names dial acc x : wt_fs (step names dial acc x) = wt_fs x.
Proof.
  unfold watch_step. destruct (wt_pc x); [|done..]. rewrite watch_tick_spec. by case_bool_decide.
Qed.

Lemma ready_step trust stale names dial acc x :
  (trust (mods (wt_fs x)) = true → acc = true) → ready trust stale x → ready trust stale (step names dial acc x).
Proof.
  intros Hacc [Hle Hg]. split; rewrite step_store; [|set (trusted := trust _) in *; clearbody trusted]; unfold watch_step.
  - destruct (wt_pc x); [|done..]. rewrite watch_tick_spec. case_bool_decide; apply le2_refl.
  - intros Hs. specialize (Hg Hs). unfold good in *. destruct (wt_pc x) as [| |a|a b| |d]; cbn [wt_last wt_pc wt_fs wt_kernel].
    + rewrite watch_tick_spec. case_bool_decide as E; cbn [negb wt_pc]; [|done]. intros _. by apply Hg.
    + done.
    + intros E. split; [by apply Hg|done].
    + intros E Hb. rewrite (Hacc Hb). by destruct (Hg E) as [-> ->].
    + intros E. split; [by apply Hg|done].
    + intros E. destruct (Hg E) as [Hk ->]. by split.
Qed.

(** The steps left until a waiting watcher has seen the disk as it is. *)
Definition rest (pc : WatchPC) : nat :=
  match pc with Waiting => 0 | ReadV4 => 5 | ReadV6 _ => 4 | Apply _ _ => 3 | ReadDomains => 2 | ReadIPs _ => 1 end.

Definition to_do (x : Watched) : nat :=
  (rest (wt_pc x) + if bool_decide (wt_last x = mods (wt_fs x)) then 0 else 6)%nat.

Lemma to_do_step names dial acc x : to_do (step names dial acc x) = (to_do x - 1)%nat.
Proof.
  unfold to_do. rewrite step_store. unfold watch_step.
  destruct (wt_pc x) as [| |a|a b| |d]; cbn [wt_last wt_pc rest]; [|case_bool_decide; lia..].
  rewrite watch_tick_spec. case_bool_decide as E; cbn [negb wt_last wt_pc rest]; rewrite (bool_decide_eq_true_2 (mods _ = _)) by done; lia.
Qed.

Lemma watcher_settles trust names dial k x :
  ready trust false x → (11 ≤ k)%nat →
  let z := Nat.iter k (step names dial true) x in wt_fs z = wt_fs x ∧ in_force v6 dir (trust (mods (wt_fs x))) z.
Proof.
  intros Hr Hk z.
  assert (ready trust false z ∧ to_do z = (to_do x - k)%nat ∧ wt_fs z = wt_fs x) as (Hz & Ht & Hf).
  { subst z. clear Hk. induction k as [|k (IH1 & IH2 & IH3)]; [split; [done|]; split; [cbn; lia|done]|]. rewrite Nat.iter_succ.
    rewrite to_do_step, step_store. split; [by apply ready_step|]. split; [lia|done]. }
  split; [done|]. assert (to_do z = 0%nat) as H0.
  { rewrite Ht. assert (to_do x ≤ 11)%nat; [|lia]. unfold to_do. destruct (wt_pc x); cbn [rest]; case_bool_decide; lia. }
  unfold to_do in H0. case_bool_decide as E; [|lia]. pose proof (ready_good _ _ _ Hz eq_refl E) as Hg.
  rewrite Hf in Hg. unfold good in Hg.
  destruct (wt_pc z); cbn [rest] in H0; [done|lia..].
Qed.

(** The steps of a round, nothing in between, are the reload of [Engine]. *)
Lemma round_is_reload names dial fs last e k :
  last ≠ mods fs →
  wt_engine (Nat.iter 6 (step names dial true) (mkWatched fs last Waiting e k)) =
  engine_reload v6 names dial (list_file dir fs "deny-ips-v4.txt") (list_file dir fs "deny-ips-v6.txt")
    (read fs (Join dir ".hash_domains")) (read fs (Join dir ".hash_ips")) e.
Proof.
  intros Hne. rewrite !Nat.iter_succ. cbn [Nat.iter nat_rect]. unfold watch_step at 6. cbn [wt_pc wt_fs wt_last]. rewrite watch_tick_spec.
  by rewrite bool_decide_eq_false_2.
Qed.

(** ** Lemmas: the watcher and a writer *)

Lemma unseen_mods fs fs' : unseen dir [".hash_domains"; ".hash_ips"] fs fs' → mods fs' = mods fs.
Proof. intros H. unfold Watch.mods, list_time. by rewrite !H by set_solver. Qed.

Lemma unseen_good b fs x : unseen dir watched_files (wt_fs x) fs → good b x → good b (set_store fs x).
Proof.
  intros H. assert (∀ n, n ∈ watched_files → list_file dir fs n = list_file dir (wt_fs x) n ∧ read fs (Join dir n) = read (wt_fs x) (Join dir n)) as Hn.
  { intros n Hn. unfold list_file, read. by rewrite H. }
  assert (deny_script v6 dir fs = deny_script v6 dir (wt_fs x) ∧ lists_hash dir fs = lists_hash dir (wt_fs x)) as [H1 H2].
  { unfold deny_script, lists_hash. destruct (Hn "deny-ips-v4.txt") as [-> _]; [set_solver|].
    destruct (Hn "deny-ips-v6.txt") as [-> _]; [set_solver|]. destruct (Hn ".hash_domains") as [_ ->]; [set_solver|].
    destruct (Hn ".hash_ips") as [_ ->]; [set_solver|done]. }
  unfold good, in_force. cbn [wt_pc set_store wt_fs wt_kernel wt_engine]. rewrite H1, H2.
  destruct (Hn "deny-ips-v4.txt") as [-> _]; [set_solver|]. destruct (Hn "deny-ips-v6.txt") as [-> _]; [set_solver|].
  destruct (Hn ".hash_domains") as [_ ->]; [set_solver|done].
Qed.

Lemma ready_traffic trust stale e x :
  traffic_step (wt_engine x) e → ready trust stale x → ready trust stale (set_engine e x).
Proof.
  intros [_ Hh]%traffic_keeps_lists [Hle Hg]. split; [done|]. intros Hs Hl. specialize (Hg Hs Hl).
  unfold good, in_force in *. cbn [wt_pc set_engine wt_fs wt_kernel wt_engine own_handshake ResultHash] in *. by rewrite Hh.
Qed.

Lemma watched_run_ready ok trust l x y stale due :
  (∀ m, trust m = true → ok = true) →
  watched_run v6 dir ok l x y → published dir stale (wt_fs x) l due → ready trust stale x →
  ready trust due y ∧ wt_fs y = after (wt_fs x) l.
Proof.
  intros Hok Hr. revert stale.
  induction Hr as [x|fs l x y Hr IH|names dial acc l x y Hacc Hr IH|e l x y He Hr IH]; intros stale Hp Hx.
  - inversion Hp as [? ? ? Hd| | |]; subst. split; [|done]. destruct Hx as [Hle Hg]. split; [done|]. intros ->.
    by destruct stale; [|apply Hg].
  - rewrite after_cons. destruct Hx as [Hle Hg]. inversion Hp as [|? ? ? ? ? Hu Hl|? ? ? ? ? Hu Hl|? ? ? ? ? (Hu & Hm & Hne) Hl]; subst.
    + apply (IH stale Hl). assert (mods fs = mods (wt_fs x)) as Em by (apply unseen_mods; intros n Hn; apply Hu; set_solver).
      split; cbn [wt_last set_store wt_fs]; rewrite Em; [done|]. intros Hs E. by apply unseen_good, Hg.
    + apply (IH true Hl). split; [|done]. cbn [wt_last set_store wt_fs]. by rewrite (unseen_mods _ _ Hu).
    + apply (IH false Hl). destruct Hle as [? ?], Hm as [? ?]. split; cbn [wt_last set_store wt_fs]; [split; lia|].
      intros _ E. destruct Hne. rewrite E in *. destruct (mods fs), (mods (wt_fs x)); cbn in *. f_equal; lia.
  - rewrite <- (step_store names dial acc x). apply (IH stale); [by rewrite step_store|]. apply ready_step; [|done]. eauto.
  - apply (IH stale); [done|by apply ready_traffic].
Qed.
End Facts.

(** ** Lemmas: published sequences *)

Section Sequences.
Context (dir : string).

Lemma watched_results : watched_files ⊆ result_files.
Proof. unfold watched_files, result_files, ip_files. set_solver. Qed.

Lemma watched_proper n : n ∈ watched_files → proper_name n = true.
Proof. intros Hn. by apply result_proper, watched_results. Qed.

#[local] Abbreviation hash_files := [".hash_domains"; ".hash_ips"].

Lemma published_weaken a b fs l c : implb a b = true → published dir b fs l c → published dir a fs l c.
Proof.
  intros Hab Hp. revert a Hab. induction Hp; intros a Hab;
    [apply pub_end; by destruct a, stale|apply pub_unseen|by apply pub_quiet|by apply pub_announce]; auto.
Qed.

Lemma published_app a b c fs l k :
  published dir a fs l b → published dir b (after fs l) k c → published dir a fs (l ++ k) c.
Proof.
  induction 1; intros Hk; cbn [app]; [by eapply published_weaken|rewrite after_cons in Hk..];
    [apply pub_unseen|apply pub_quiet|apply pub_announce]; auto.
Qed.

Lemma published_unseen b l : ∀ fs, Forall (unseen dir watched_files fs) l → published dir b fs l b.
Proof.
  induction l as [|x l IH]; intros fs Hl; [by apply pub_end; destruct b|]. apply Forall_cons in Hl as [Hx Hl].
  apply pub_unseen; [done|]. apply IH. eapply Forall_impl; [exact Hl|]. intros y. by apply unseen_between.
Qed.

Lemma published_quiet b l : ∀ fs, Forall (unseen dir hash_files fs) l → published dir b fs l true.
Proof.
  revert b. induction l as [|x l IH]; intros b fs Hl; [by apply pub_end; destruct b|]. apply Forall_cons in Hl as [Hx Hl].
  apply pub_quiet; [done|]. apply IH. eapply Forall_impl; [exact Hl|]. intros y. by apply unseen_between.
Qed.

(** The component of the times a fingerprint stands for. *)
Definition time_of (t : FileType) (m : Z * Z) : Z := match t with IPs => m.2 | Domains_ => m.1 end.

Lemma mods_insert t x now fs :
  mods dir (<[Join dir (hash_name t) := mkFile x now]> fs) =
  match t with IPs => ((mods dir fs).1, now) | Domains_ => (now, (mods dir fs).2) end.
Proof.
  assert (Join dir ".hash_domains" ≠ Join dir ".hash_ips") as Hne
    by (intros E; apply Join_inj in E; [done|by apply proper_name_ok..]).
  unfold mods, list_time. by destruct t; cbn [hash_name]; rewrite lookup_insert_eq, lookup_insert_ne.
Qed.

Lemma hash_announces t x now fs :
  time_of t (mods dir fs) < now → announces dir fs (<[Join dir (hash_name t) := mkFile x now]> fs).
Proof.
  intros Ht. split.
  - intros n Hn. apply lookup_insert_ne. intros E. apply Join_inj in E; [|by destruct t; apply proper_name_ok|].
    + subst n. set_unfold in Hn. destruct t; cbn in Hn; by destruct_or!.
    + apply proper_name_ok, watched_proper. unfold watched_files. set_solver.
  - rewrite mods_insert. destruct (mods dir fs) as [d i]. unfold le2.
    destruct t; cbn in *; (split; [split; lia|]); intros [=]; lia.
Qed.

Lemma watched_lasting n : n ∈ watched_files → lasting (Join dir n).
Proof.
  intros Hn. apply joined_lasting; [by apply watched_proper|].
  unfold watched_files in Hn. set_unfold in Hn. destruct_or!; by subst.
Qed.

Lemma unseen_after names fs l : Forall (unseen dir names fs) l → unseen dir names fs (after fs l).
Proof. intros Hl. unfold after. destruct (last l) as [x|] eqn:E; [|done]. apply (proj1 (Forall_forall _ _) Hl). by apply last_Some_elem_of. Qed.

Lemma unseen_cons names fs x l :
  unseen dir names fs x → Forall (unseen dir names x) l → Forall (unseen dir names fs) (x :: l).
Proof. intros Hx Hl. constructor; [done|]. eapply Forall_impl; [exact Hl|]. intros y. by eapply unseen_trans. Qed.

End Sequences.

(** ** Lemmas: the last run of a history *)

Lemma start_ready v6 dir ok fs e kernel :
  in_force v6 dir ok (startFileWatcher dir fs e kernel) →
  ready v6 dir (λ _, ok) false (startFileWatcher dir fs e kernel).
Proof. intros Hf. by split. Qed.

(** An engine that starts on the lists of the disk has them in force, if the
    packet filter accepts its first script. *)
Lemma started_in_force uni lookup env w dir fs e :
  start_engine uni lookup env w = Some e →
  w_deny4 w = list_file dir fs "deny-ips-v4.txt" → w_deny6 w = list_file dir fs "deny-ips-v6.txt" →
  w_domains_hash w = read fs (Join dir ".hash_domains") → w_ips_hash w = read fs (Join dir ".hash_ips") →
  in_force (nft_v6 uni env) dir true (startFileWatcher dir fs e (e_deny e)).
Proof.
  unfold start_engine. destruct (negb _); [done|]. destruct (negb _); [done|]. intros Hs H4 H6 Hd Hi.
  assert (resultHash (engine_sync uni env w) = lists_hash dir fs) as Hh.
  { unfold engine_sync. destruct (recovered_pool uni env w). cbn. by rewrite Hd, Hi. }
  assert (∀ s, StartServer uni (getenv env "NEXTPATH_SYNC_STRICT_TLS") (getenv env "NEXTPATH_SYNC_CERT_FINGERPRINT")
    (w_tls w) (engine_sync uni env w) = Some s → resultHash s = lists_hash dir fs) as Hk.
  { intros s. unfold StartServer. repeat case_match; intros [= <-]; exact Hh. }
  destruct (StartServer _ _ _ _ _) as [s|] eqn:Es; [destruct (w_listen w); [|done]|]; injection Hs as <-;
    (split; [intros _; cbn; by rewrite H4, H6|cbn; eauto]).
Qed.

(** A run whose scripts are accepted, after a history in which they may not have
    been: the packet filter can be trusted for the times the run brings. *)
Lemma last_run_settles v6 dir ok stale l x y names dial k :
  ready v6 dir (λ _, ok) stale x → published dir stale (wt_fs x) l false →
  watched_run v6 dir true l x y → (11 ≤ k)%nat →
  let z := Nat.iter k (watch_step v6 dir names dial true) y in
  wt_fs z = after (wt_fs x) l ∧
  ResultHash (own_handshake (e_sync (wt_engine z))) = lists_hash dir (wt_fs z) ∧
  (ok = true ∨ mods dir (wt_fs z) ≠ mods dir (wt_fs x) → wt_kernel z = deny_script v6 dir (wt_fs z)).
Proof.
  intros Hx Hp Hr Hk z. set (trust := λ m, ok || bool_decide (m ≠ mods dir (wt_fs x))).
  assert (ready v6 dir trust stale x) as Hx'.
  { destruct Hx as [H1 H2]. split; [done|]. unfold trust. by rewrite bool_decide_false, orb_false_r by auto. }
  destruct (watched_run_ready v6 dir true trust l x y stale false (λ _ _, eq_refl) Hr Hp Hx') as [Hy Ey].
  destruct (watcher_settles v6 dir trust names dial k y Hy Hk) as [Ez [Hz1 Hz2]]. fold z in Ez, Hz1, Hz2.
  split; [by rewrite Ez, Ey|]. split; [done|]. intros Ht. apply Hz1. unfold trust. rewrite <- Ez.
  destruct Ht as [-> | Ht]; [done|]. rewrite bool_decide_true by done. apply orb_true_r.
Qed.

(** ** Lemmas: the compiler as a writer *)

Section Compiler.
Context (sha256_hex md5_hex : string → string) (gunzip : string → option string).
Context (uni_lower : string → string) (idna_ToASCII : string → option string).
Context `{IPSetLib}.
Context (md5_ok : ∀ s, contains_char (md5_hex s) "/" = false).
Context (dir : string).

#[local] Abbreviation hash_files := [".hash_domains"; ".hash_ips"].

(** The two states of a fingerprint that is written. *)
Lemma hash_published w r cfg t h b fs :
  ResultDir cfg = dir → time_of t (mods dir fs) < wr_open r → wr_open r < now w →
  (b = true → wr_fault r (Join dir (hash_name t)) ≠ Some OnCreate) →
  published dir b fs (hash_states w r cfg (hash_name t) h fs) false.
Proof.
  intros Hd H1 H2 Hf. unfold hash_states, result_path. rewrite Hd.
  assert (∀ x, announces dir (<[Join dir (hash_name t) := mkFile EmptyString (wr_open r)]> fs)
    (<[Join dir (hash_name t) := mkFile x (now w)]> fs)) as Ha.
  { intros x. rewrite <- (insert_insert_eq fs (Join dir (hash_name t)) (mkFile x (now w)) (mkFile EmptyString (wr_open r))).
    apply hash_announces. rewrite mods_insert. by destruct t. }
  pose proof (hash_announces dir t EmptyString (wr_open r) fs H1) as H0.
  destruct (wr_fault r _) as [[|[|n]| |]|];
    try (apply pub_announce; [done|]; first [by apply pub_end|apply pub_announce; [done|by apply pub_end]]).
  destruct b; [by destruct (Hf eq_refl)|by apply pub_end].
Qed.

(** What a run needs: the result directory is the watched one and apart from the
    cache, the clock has moved on, and the fingerprint of the IP lists can be
    opened. *)
Record run_ok (w : World) (r : Writes) (cfg : CompileConfig) (fs : Store) : Prop := {
  ro_dir : ResultDir cfg = dir;
  ro_apart : apart dir cfg;
  ro_clock t : time_of t (mods dir fs) < wr_open r;
  ro_now : wr_open r < now w;
  ro_hash : wr_fault r (Join dir ".hash_ips") ≠ Some OnCreate;
}.

(** Writing lists under other names is not seen. *)
Lemma put_lists_unseen w r cfg synced outs names fs :
  ResultDir cfg = dir → (∀ n, n ∈ outs.*1 → lasting (result_path cfg n) ∧ proper_name n = true) →
  (∀ n, n ∈ names → n ∈ watched_files ∧ n ∉ outs.*1) →
  Forall (unseen dir names fs) (put_lists w r cfg synced outs fs).
Proof.
  intros Hd Ho Hn. apply Forall_forall. intros x Hx n Hin. destruct (Hn n Hin) as [Hw Hno].
  refine (proj1 (Forall_forall _ _) (write_lists_other synced (wr_fault r) (wr_parts r) (wr_removed r) (now w) cfg outs
    (Join dir n) fs _ _ _) x Hx).
  - apply Forall_forall. intros out Hout. apply Ho. by apply list_elem_of_fmap_2.
  - by apply watched_lasting.
  - intros (m & E & Hm)%list_elem_of_fmap. unfold result_path in E. rewrite Hd in E. apply Join_inj in E;
      [by subst m|by apply proper_name_ok, watched_proper|apply proper_name_ok, Ho, Hm].
Qed.

Lemma ips_unseen w r cfg fs l :
  ResultDir cfg = dir → ips_states md5_hex w r cfg fs = Some l → Forall (unseen dir hash_files fs) l.
Proof.
  intros Hd. unfold ips_states. cbv zeta. pose proof (unseen_sub dir _ _ _ _ watched_results (ensure_unseen md5_hex md5_ok dir w cfg ip_lists fs)) as He. set (fs1 := foldl _ fs _) in *.
  destruct (ip_outputs md5_hex cfg fs1) as [outs|] eqn:Eo; [|done]. cbn. intros [= <-]. apply ip_outputs_names in Eo.
  apply unseen_cons; [intros n Hn; apply He; unfold watched_files; set_solver|]. apply put_lists_unseen; [done|..]; rewrite Eo.
  - intros n Hn. split; [apply result_lasting; by left|]. unfold ip_files in Hn. set_unfold in Hn. destruct_or!; by subst.
  - intros n Hn. split; [unfold watched_files; set_solver|]. unfold ip_files. set_unfold in Hn. destruct_or!; subst n; apply (bool_decide_unpack _); by vm_compute.
Qed.

Lemma domains_unseen w r cfg fs :
  ResultDir cfg = dir →
  Forall (unseen dir watched_files fs) (domains_states md5_hex gunzip uni_lower idna_ToASCII w r cfg fs).
Proof.
  intros Hd. unfold domains_states. cbv zeta. apply unseen_cons; [by eapply unseen_sub, ensure_unseen; [apply watched_results|]|].
  set (fs1 := foldl _ fs _). apply put_lists_unseen; [done|..]; rewrite domain_outputs_names.
  - intros n Hn. split; [apply result_lasting; by right|]. unfold required in Hn. set_unfold in Hn. destruct_or!; by subst.
  - intros n Hn. split; [done|]. unfold watched_files in Hn. set_unfold in Hn.
    destruct_or!; subst n; apply (bool_decide_unpack _); by vm_compute.
Qed.

Lemma compile_published w r env cfg fs states :
  run_ok w r cfg fs → compile_states sha256_hex md5_hex gunzip uni_lower idna_ToASCII w r env cfg fs = Some states →
  published dir false fs states false.
Proof.
  intros [Hd Ha Hc Hn Hh]. unfold compile_states. cbv zeta.
  assert (ResultDir (with_limit cfg) = dir ∧ apart dir (with_limit cfg)) as [Hd' Ha'] by (by split).
  set (cfg' := with_limit cfg) in *. clearbody cfg'. clear Hd Ha.
  pose proof (unseen_sub dir _ _ _ _ watched_results (downloadSources_unseen md5_hex md5_ok dir w cfg' fs Ha')) as H0. set (fs0 := downloadSources _ w cfg' fs) in *.
  set (hI := getStateHash _ _ _ _ IPs). set (hD := getStateHash _ _ _ _ Domains_).
  set (nI := needed _ _ _ IPs). set (nD := needed _ _ _ Domains_). clearbody nI nD hI hD fs0.
  destruct (if nI then _ else _) as [l1|] eqn:El1; [|done]. cbn [mbind option_bind]. intros [= <-].
  assert (Forall (unseen dir hash_files fs0) l1) as H1 by (destruct nI; [by eapply ips_unseen|by simplify_eq]).
  set (fs1 := after fs0 l1). set (l2 := if nD then domains_states _ _ _ _ _ _ _ fs1 else []).
  assert (Forall (unseen dir watched_files fs1) l2) as H2 by (subst l2; destruct nD; [by apply domains_unseen|done]).
  set (fs2 := after fs1 l2).
  assert (mods dir fs2 = mods dir fs) as Em.
  { apply unseen_mods. apply (unseen_trans dir _ _ fs0); [intros n Hin; apply H0; unfold watched_files; set_solver|].
    apply (unseen_trans dir _ _ fs1); [by apply unseen_after|].
    intros n Hin. apply (unseen_after dir _ _ _ H2). unfold watched_files. set_solver. }
  apply pub_unseen; [done|]. set (l4 := λ fs3, if nD then hash_states w r cfg' (hash_name Domains_) hD fs3 else []).
  assert (∀ fs3, (mods dir fs3).1 = (mods dir fs).1 → published dir false fs3 (l4 fs3) false) as H4.
  { intros fs3 E3. subst l4. destruct nD; [|by constructor]. apply hash_published; [done| |done|done]. cbn [time_of]. rewrite E3. apply (Hc Domains_). }
  destruct nI.
  - eapply published_app; [by apply published_quiet|]. eapply published_app; [by apply published_unseen|]. fold fs1 fs2.
    eapply published_app; [apply (hash_published w r cfg' IPs hI true fs2); [done| |done|done]|].
    + rewrite Em. apply Hc.
    + apply H4. unfold hash_states, result_path. rewrite Hd'.
      pose proof (λ x t, mods_insert dir IPs x t fs2) as Hm. cbn [hash_name] in *.
      by repeat case_match; unfold after; cbn [last default from_option id]; rewrite ?Hm, Em.
  - apply (inj Some) in El1. subst l1. cbn [app].
    eapply published_app; [by apply published_unseen|]. apply H4.
    exact (f_equal fst Em).
Qed.

(** ** Properties *)

(** What happens to the result directory: nothing the watcher looks at, edits of
    other files, and runs of the compiler, each interleaved with the watcher and
    the traffic of the engine. *)
Inductive watched_reach (v6 ok : bool) (x0 : Watched) : Watched → Prop :=
  | reach_start : watched_reach v6 ok x0 x0
  | reach_idle x y : watched_reach v6 ok x0 x → watched_run v6 dir ok [] x y → watched_reach v6 ok x0 y
  | reach_edit fs x :
      watched_reach v6 ok x0 x → unseen dir watched_files (wt_fs x) fs → watched_reach v6 ok x0 (set_store fs x)
  | reach_compile w r env cfg states x y :
      watched_reach v6 ok x0 x → run_ok w r cfg (wt_fs x) →
      compile_states sha256_hex md5_hex gunzip uni_lower idna_ToASCII w r env cfg (wt_fs x) = Some states →
      watched_run v6 dir ok states x y → watched_reach v6 ok x0 y.

Lemma watched_reach_ready v6 ok x0 x :
  ready v6 dir (λ _, ok) false x0 → watched_reach v6 ok x0 x → ready v6 dir (λ _, ok) false x.
Proof.
  intros H0. induction 1 as [|x y _ IH Hr|fs x _ IH Hu|w r env cfg states x y _ IH Hok Hs Hr]; [done|..].
  - eapply watched_run_ready; [|exact Hr| |exact IH]; [done|]. by apply pub_end.
  - eapply (watched_run_ready v6 dir ok _ [fs] x); [|by do 2 constructor| |exact IH]; [done|].
    apply pub_unseen; [done|by apply pub_end].
  - eapply watched_run_ready; [|exact Hr|by eapply compile_published|done]. done.
Qed.

(** C33: compiled lists come into force.  The lists are in force when the watcher
    starts; then come any edits, runs and reloads, in which the packet filter may
    refuse scripts unless [ok]; runs have clocks that move forward, a result
    directory outside the cache and a .hash_ips that can be opened ([run_ok]).  When the compiler has run once more, its writes
    interleaved with the reads of the watcher and the traffic of the engine in any
    way and the scripts of the watcher being accepted from then on, the files are
    those of the outcome [CompileLists] describes; eleven steps of the watcher
    later at most (two rounds) every handshake the engine sends carries the new
    fingerprint, and, if that run moved a fingerprint's time or no script was
    refused before it, the packet filter denies what the new deny lists say. *)
Theorem compiled_lists_come_into_force v6 ok fs0 e0 kernel0 x w r env cfg fs' :
  in_force v6 dir ok (startFileWatcher dir fs0 e0 kernel0) →
  watched_reach v6 ok (startFileWatcher dir fs0 e0 kernel0) x →
  run_ok w r cfg (wt_fs x) → faults_match w r cfg →
  CompileLists sha256_hex md5_hex gunzip uni_lower idna_ToASCII w env cfg (wt_fs x) = Some fs' →
  ∃ states, compile_states sha256_hex md5_hex gunzip uni_lower idna_ToASCII w r env cfg (wt_fs x) = Some states ∧
    ∀ y names dial k, watched_run v6 dir true states x y → (11 ≤ k)%nat →
      let z := Nat.iter k (watch_step v6 dir names dial true) y in
      (∀ p, lasting p → wt_fs z !! p = fs' !! p) ∧
      ResultHash (own_handshake (e_sync (wt_engine z))) = lists_hash dir fs' ∧
      (ok = true ∨ mods dir fs' ≠ mods dir (wt_fs x) → wt_kernel z = deny_script v6 dir fs').
Proof.
  intros Hf Hx Hok Hm Hc. apply start_ready in Hf. apply (watched_reach_ready _ _ _ _ Hf) in Hx.
  destruct (compile_states_outcome sha256_hex md5_hex gunzip uni_lower idna_ToASCII md5_ok w r env cfg (wt_fs x) fs' Hm Hc)
    as (states & Hs & Ha). exists states. split; [done|]. intros y names dial k Hr Hk z.
  destruct (last_run_settles v6 dir ok false states x y names dial k Hx (compile_published _ _ _ _ _ _ Hok Hs) Hr Hk)
    as (Ez & Hz1 & Hz2). fold z in Ez, Hz1, Hz2.
  assert (∀ p, lasting p → wt_fs z !! p = fs' !! p) as Hp by (intros p Hl; rewrite Ez; by apply Ha).
  assert (∀ n, n ∈ watched_files → wt_fs z !! Join dir n = fs' !! Join dir n) as Hn
    by (intros n Hn; by apply Hp, watched_lasting).
  assert (mods dir (wt_fs z) = mods dir fs') as Em.
  { unfold mods, list_time. by rewrite !Hn by (unfold watched_files; set_solver). }
  assert (deny_script v6 dir (wt_fs z) = deny_script v6 dir fs' ∧ lists_hash dir (wt_fs z) = lists_hash dir fs') as [E1 E2].
  { unfold deny_script, lists_hash, list_file, read. by rewrite !Hn by (unfold watched_files; set_solver). }
  rewrite E1, E2, Em in *. done.
Qed.
End Compiler.

(** Writes each followed by a step of the watcher. *)
Definition busy (v6 : bool) (dir : string) (x : Watched) (fs : Store) : Watched :=
  watch_step v6 dir None (λ _, true) true (set_store fs x).

Lemma interleaved_run v6 dir ok l : ∀ x, watched_run v6 dir ok l x (foldl (busy v6 dir) x l).
Proof.
  induction l as [|fs l IH]; intros x; cbn [foldl]; [constructor|].
  apply run_write, (run_watch _ _ _ None (λ _, true) true); [done|]. apply IH.
Qed.

(** An engine that started before there were lists, and the first run. *)
Definition no_lists : Store := demo_store both_families.

Definition early : Engine :=
  with_sync (set_hash (lists_hash "/r" no_lists) (e_sync (EngineFacts.node 7))) (with_deny (deny_script true "/r" no_lists) (EngineFacts.node 7)).

Definition first_writes : Writes := mkWrites (λ _, None) (λ _, []) (λ _, true) 999999999.
Definition first_world : World := demo_world (lines_of ["1.2.3.0/24"]) None 1000000000.

Lemma first_run_eq : demo_run first_world no_lists = Some first_run.
Proof. apply some_default. vm_compute. reflexivity. Qed.

Lemma compiled_lists_come_into_force_witness :
  ∃ states, (20 < length states)%nat ∧
    let z := Nat.iter 11 (watch_step true "/r" None (λ _, true) true)
               (foldl (busy true "/r") (startFileWatcher "/r" no_lists early EmptyString) states) in
    wt_kernel z = ReloadDenySets true (Some (lines_of ["1.2.3.0/24"])) (Some EmptyString).
Proof.
  destruct (compiled_lists_come_into_force demo_sha demo_md5 (λ _, None) id Some demo_md5_ok "/r" true false no_lists early EmptyString
    (startFileWatcher "/r" no_lists early EmptyString) first_world first_writes (λ _, EmptyString) demo_cfg first_run)
    as (states & Hs & Hall).
  - split; [discriminate|reflexivity].
  - apply reach_start.
  - split.
    + reflexivity.
    + intros n Hn. repeat (apply elem_of_cons in Hn as [-> | Hn]; [vm_compute; reflexivity|]). apply elem_of_nil in Hn. destruct Hn.
    + intros [|]; vm_compute; reflexivity.
    + reflexivity.
    + discriminate.
  - split; [reflexivity..|]. intros t. split; reflexivity.
  - exact first_run_eq.
  - exists states. split.
    + assert (∀ n, length <$> compile_states demo_sha demo_md5 (λ _, None) id Some first_world first_writes (λ _, EmptyString)
        demo_cfg no_lists = Some n → (20 < n)%nat) as Hn.
      { intros n Hn. vm_compute in Hn. injection Hn as <-. lia. }
      apply Hn. exact (f_equal (fmap length) Hs).
    + cbv zeta. destruct (Hall _ None (λ _, true) 11%nat (interleaved_run true "/r" true states _) (le_n 11)) as (_ & _ & Hk).
      refine (eq_trans (Hk _) _); [right; vm_compute; discriminate|vm_compute; reflexivity].
Defined.

(** ** Where the watcher does something else than it means to *)

(** A reload the packet filter refuses is not tried again: the watcher remembers
    the times before it reads, so the old deny sets stay until the next change of
    the lists. *)
Theorem failed_reload_not_retried v6 dir names dial fs last e old k :
  last ≠ mods dir fs →
  wt_kernel (Nat.iter k (watch_step v6 dir names dial true)
    (Nat.iter 6 (watch_step v6 dir names dial false) (mkWatched fs last Waiting e old))) = old.
Proof.
  intros Hne. set (y := Nat.iter 6 _ _).
  assert (∃ e', y = mkWatched fs (mods dir fs) Waiting e' old) as [e' ->].
  { subst y. rewrite !Nat.iter_succ. cbn [Nat.iter nat_rect]. unfold watch_step at 6. cbn [wt_pc wt_fs wt_last].
    rewrite watch_tick_spec, bool_decide_eq_false_2 by done. by eexists. }
  assert (watch_step v6 dir names dial true (mkWatched fs (mods dir fs) Waiting e' old) =
    mkWatched fs (mods dir fs) Waiting e' old) as Hs.
  { unfold watch_step. cbn [wt_pc wt_fs wt_last]. by rewrite watch_tick_spec, bool_decide_eq_true_2. }
  assert (∀ z, watch_step v6 dir names dial true z = z → Nat.iter k (watch_step v6 dir names dial true) z = z) as Hfix.
  { intros z Hz. induction k as [|k IH]; [done|]. by rewrite Nat.iter_succ, IH. }
  by rewrite (Hfix _ Hs).
Qed.
