(* ===== verification/UpdaterLoopFacts.v ===== *)
(** * The updater and the watcher together

    A fetched archive is unpacked member by member; the watcher understands it
    when the fingerprints come last, as the archives of the project are packed.  A
    poll that fails half way leaves lists nobody has announced, and the next one
    that succeeds makes good for it. *)

From Stdlib Require Import Ascii.
From Stdlib Require String.
From stdpp Require Import prelude gmap strings sorting.
From S2P Require Import Prelude GoStrings GoText GoPath GoNet Metrics IPPool Rules Nft Config Host Proxy Sync SyncInv Engine EngineFacts.
From S2P Require Import Filter Domains IPNets IPTrie Updater UpdaterFacts Compile CompileFacts CompileFrame Replace CompileSteps Watch WatchFacts UpdaterLoop.

#[local] Arguments String.append : simpl nomatch.

Section Fetch.
Context (dir : string).

Abbreviation hash_files := [".hash_domains"; ".hash_ips"].

(** What a member is to the watcher: a deny list, a fingerprint, or nothing. *)
Inductive Kind := DenyList | Fingerprint (t : FileType) | Unwatched.

Definition path_kind (p : string) : Kind :=
  if bool_decide (p = Join dir "deny-ips-v4.txt") || bool_decide (p = Join dir "deny-ips-v6.txt") then DenyList
  else if bool_decide (p = Join dir ".hash_domains") then Fingerprint Domains_
  else if bool_decide (p = Join dir ".hash_ips") then Fingerprint IPs
  else Unwatched.

Definition member_kind (h : TarHeader) : Kind :=
  match hdr_Type h, member_path dir h with TypeReg, Some p => path_kind p | _, _ => Unwatched end.

(** Whether an announcement is due after a member, and after all members. *)
Definition due (stale : bool) (k : Kind) : bool :=
  match k with DenyList => true | Fingerprint _ => false | Unwatched => stale end.

Definition due_after (stale : bool) (members : list TarHeader) : bool := foldl due stale (member_kind <$> members).

(** ** Lemmas: one member *)

Lemma published_due a fs l b c : implb b c = true → published dir a fs l b → published dir a fs l c.
Proof.
  intros Hbc. induction 1 as [a fs b Hab|a fs fs' l b Hu _ IH|a fs fs' l b Hu _ IH|a fs fs' l b Hu _ IH];
    [apply pub_end; by destruct a, b|apply pub_unseen|apply pub_quiet|apply pub_announce]; auto.
Qed.

(** What ends announced has moved a time forward. *)
Lemma published_moves stale fs l :
  published dir stale fs l false → stale = true → mods dir (after fs l) ≠ mods dir fs.
Proof.
  assert (∀ a fs l b, published dir a fs l b → le2 (mods dir fs) (mods dir (after fs l))) as Hle.
  { clear. induction 1 as [a fs b Hab|a fs fs' l b Hu _ IH|a fs fs' l b Hu _ IH|a fs fs' l b (_ & Hm & _) _ IH];
      [apply le2_refl|..]; rewrite after_cons.
    - rewrite <- (unseen_mods dir fs fs'); [done|]. intros n Hn. apply Hu. unfold watched_files. set_solver.
    - by rewrite <- (unseen_mods dir fs fs').
    - destruct Hm, IH. split; lia. }
  remember false as due eqn:Ed. intros Hp. revert Ed.
  induction Hp as [a fs b Hab|a fs fs' l b Hu Hp IH|a fs fs' l b Hu Hp IH|a fs fs' l b (_ & Hm & Hne) Hp IH]; intros -> ->.
  - done.
  - rewrite after_cons. rewrite <- (unseen_mods dir fs fs'); [by apply IH|]. intros n Hn. apply Hu. unfold watched_files. set_solver.
  - rewrite after_cons. rewrite <- (unseen_mods dir fs fs'); [by apply IH|done].
  - rewrite after_cons. intros E. apply Hne. pose proof (Hle _ _ _ _ Hp) as H. rewrite E in H.
    destruct Hm, H. destruct (mods dir fs), (mods dir fs'). cbn in *. f_equal; lia.
Qed.

Lemma after_final d l : after (files d) (files <$> l) = files (final d l).
Proof.
  revert d. induction l as [|x l IH]; intros d; [done|]. cbn [fmap list_fmap]. rewrite after_cons. apply IH.
Qed.

Lemma tmp_not_watched p n : n ∈ watched_files → Join dir n ≠ tmpPath p.
Proof. intros Hn. apply lasting_tmp. by apply watched_lasting. Qed.

Lemma tmp_put_unseen t p x d : unseen dir watched_files (files d) (files (put t (tmpPath p) x d)).
Proof. intros n Hn. cbn. rewrite lookup_insert_ne; [done|]. by apply not_eq_sym, tmp_not_watched. Qed.

Lemma tmp_remove_unseen p d : unseen dir watched_files (files d) (files (remove (tmpPath p) d)).
Proof. intros n Hn. cbn. rewrite lookup_delete_ne; [done|]. by apply not_eq_sym, tmp_not_watched. Qed.

Lemma announces_after_unseen a b c : unseen dir watched_files a b → announces dir b c → announces dir a c.
Proof.
  intros Hu (H1 & H2 & H3). assert (mods dir b = mods dir a) as Em.
  { apply unseen_mods. intros n Hn. apply Hu. unfold watched_files. set_solver. }
  rewrite Em in *. split; [|done]. intros n Hn. rewrite (H1 n Hn). apply Hu. unfold watched_files. set_solver.
Qed.

(** Putting a file in place, by the kind of its path. *)
Lemma install_published stale p x t fs :
  (∀ ft, time_of ft (mods dir fs) < t) →
  published dir stale fs [<[p := mkFile x t]> fs] (due stale (path_kind p)) ∧
  (∀ ft, time_of ft (mods dir (<[p := mkFile x t]> fs)) ≤ t).
Proof.
  intros Ht.
  assert (∀ names, (∀ n, n ∈ names → p ≠ Join dir n) → unseen dir names fs (<[p := mkFile x t]> fs)) as Hun.
  { intros names Hn n Hin. rewrite lookup_insert_ne; [done|]. by apply Hn. }
  assert (∀ ft, p = Join dir (hash_name ft) → published dir stale fs [<[p := mkFile x t]> fs] false ∧
    (∀ ft', time_of ft' (mods dir (<[p := mkFile x t]> fs)) ≤ t)) as Hhash.
  { intros ft ->. split; [apply pub_announce; [by apply hash_announces|by apply pub_end]|].
    intros ft'. rewrite mods_insert. pose proof (Ht IPs). pose proof (Ht Domains_). destruct ft, ft'; cbn in *; lia. }
  assert (unseen dir hash_files fs (<[p := mkFile x t]> fs) → ∀ ft, time_of ft (mods dir (<[p := mkFile x t]> fs)) ≤ t) as Hm.
  { intros Hu ft. rewrite (unseen_mods _ _ _ Hu). specialize (Ht ft). lia. }
  unfold path_kind. destruct (bool_decide (p = Join dir "deny-ips-v4.txt") || bool_decide (p = Join dir "deny-ips-v6.txt")) eqn:Ed.
  - assert (unseen dir hash_files fs (<[p := mkFile x t]> fs)) as Hu.
    { apply Hun. intros n Hn ->. apply orb_true_iff in Ed as [Ed%bool_decide_eq_true|Ed%bool_decide_eq_true];
        apply Join_inj in Ed; (by apply proper_name_ok, watched_proper; unfold watched_files; set_solver) || set_solver. }
    split; [|by apply Hm]. apply pub_quiet; [done|by apply pub_end].
  - apply orb_false_iff in Ed as [Ed1%bool_decide_eq_false Ed2%bool_decide_eq_false].
    case_bool_decide as E1; [by apply (Hhash Domains_)|]. case_bool_decide as E2; [by apply (Hhash IPs)|].
    assert (∀ n, n ∈ watched_files → p ≠ Join dir n) as Hn
      by (intros n Hn; unfold watched_files in Hn; set_unfold in Hn; destruct_or!; by subst).
    split; [|apply Hm, Hun; intros n Hin; apply Hn; unfold watched_files; set_solver].
    apply pub_unseen; [by apply Hun|]. apply pub_end. by destruct stale.
Qed.

Lemma unseen_mods_all fs fs' : unseen dir watched_files fs fs' → mods dir fs' = mods dir fs.
Proof. intros Hu. apply unseen_mods. intros n Hn. apply Hu. unfold watched_files. set_solver. Qed.

(** The states of a member that is a regular file. *)
Lemma regular_published stale fault removed t p h d states err :
  extract_regular fault removed t p h d = (states, err) → (∀ ft, time_of ft (mods dir (files d)) < t) →
  published dir stale (files d) (files <$> states) (match err with None => due stale (path_kind p) | Some _ => stale end) ∧
  (∀ ft, time_of ft (mods dir (files (final d states))) ≤ t).
Proof.
  intros Hx Ht. unfold extract_regular in Hx. set (tmp := tmpPath p) in *. set (d1 := mkdir (Dir p) d) in *.
  set (d2 := put t tmp EmptyString d1) in *.
  assert (∀ x, unseen dir watched_files (files d) (files (put t tmp x d2))) as H3.
  { intros x. eapply unseen_trans; [exact (tmp_put_unseen t p EmptyString d1)|apply tmp_put_unseen]. }
  assert (unseen dir watched_files (files d) (files d2)) as H2 by exact (tmp_put_unseen t p EmptyString d1).
  assert (∀ x, unseen dir watched_files (files d) (files x) →
    unseen dir watched_files (files d) (files (if removed then remove tmp x else x))) as Hc.
  { intros x Hu. destruct removed; [|done]. eapply unseen_trans; [exact Hu|apply tmp_remove_unseen]. }
  assert (∀ l, Forall (λ x, unseen dir watched_files (files d) (files x)) l →
    published dir stale (files d) (files <$> l) stale ∧ ∀ ft, time_of ft (mods dir (files (final d l))) ≤ t) as Hquiet.
  { intros l Hl. split; [apply published_unseen, Forall_fmap; exact Hl|]. intros ft.
    assert (unseen dir watched_files (files d) (files (final d l))) as Hu
      by (apply (final_ok (λ x, unseen dir watched_files (files d) (files x))); done).
    rewrite (unseen_mods_all _ _ Hu). specialize (Ht ft). lia. }
  assert (∀ text, let ren := rename tmp p (put t tmp text d2) in
    published dir stale (files d) (files <$> [d1; d2; put t tmp text d2; ren]) (due stale (path_kind p)) ∧
    ∀ ft, time_of ft (mods dir (files ren)) ≤ t) as Hgood.
  { intros text ren. assert (files ren = <[p := mkFile text t]> (delete tmp (files (put t tmp text d2)))) as Er
      by (unfold ren; by rewrite rename_put).
    assert (unseen dir watched_files (files d) (delete tmp (files (put t tmp text d2)))) as Hu
      by (eapply unseen_trans; [apply H3|apply (tmp_remove_unseen p)]).
    destruct (install_published stale p text t (delete tmp (files (put t tmp text d2)))) as [I1 I2].
    { intros ft. rewrite (unseen_mods_all _ _ Hu). apply Ht. }
    rewrite Er. split; [|done]. change (files <$> [d1; d2; put t tmp text d2; ren]) with
      ((files <$> [d1; d2; put t tmp text d2]) ++ [files ren]). rewrite Er.
    eapply published_app; [apply published_unseen; repeat constructor; auto|].
    rewrite after_final. cbn [final foldl]. inversion I1 as [|? ? ? ? ? Hv Hl|? ? ? ? ? Hv Hl|? ? ? ? ? Hv Hl]; subst.
    - apply pub_unseen; [|done]. eapply unseen_trans; [apply (tmp_remove_unseen p)|done].
    - apply pub_quiet; [|done]. eapply unseen_trans; [|done].
      intros n Hn. apply (tmp_remove_unseen p). unfold watched_files. set_solver.
    - apply pub_announce; [|done]. eapply announces_after_unseen; [apply (tmp_remove_unseen p)|done]. }
  destruct (hdr_whole h), (max_member <? hdr_Size h), fault as [[|n| | |]|]; cbn [negb] in Hx; injection Hx as <- <-;
    try (apply Hquiet; repeat (apply Forall_cons_2; [by auto|]); by apply Forall_nil_2).
  apply Hgood.
Qed.

Lemma member_published stale fault removed t h d states err :
  extract_member fault removed t dir h d = (states, err) → (∀ ft, time_of ft (mods dir (files d)) < t) →
  published dir stale (files d) (files <$> states) (match err with None => due stale (member_kind h) | Some _ => stale end) ∧
  (∀ ft, time_of ft (mods dir (files (final d states))) ≤ t).
Proof.
  intros Hx Ht. assert (∀ ft, time_of ft (mods dir (files d)) ≤ t) as Hle by (intros ft; specialize (Ht ft); lia).
  assert (implb stale stale = true) as Hs by (by destruct stale).
  unfold extract_member, member_kind in *. destruct (member_path dir h) as [p|].
  - destruct (hdr_Type h); [|by eapply regular_published|]; injection Hx as <- <-.
    + split; [|done]. apply pub_unseen; [done|by apply pub_end].
    + split; [by apply pub_end|done].
  - injection Hx as <- <-. destruct (hdr_Type h); (split; [by apply pub_end|done]).
Qed.

(** ** Lemmas: the archive and the poll *)

Definition ticking (clock : nat → Z) : Prop := ∀ i, clock i < clock (S i).

Lemma extract_published faults removed clock clean_end members : ticking clock → ∀ stale i d states err,
  extract faults removed clock dir members clean_end i d = (states, err) →
  (∀ ft, time_of ft (mods dir (files d)) < clock i) →
  published dir stale (files d) (files <$> states) (match err with None => due_after stale members | Some _ => true end).
Proof.
  intros Hk. induction members as [|h members IH]; intros stale i d states err; cbn [extract].
  { intros [= <- <-] _. destruct clean_end; apply pub_end; by destruct stale. }
  intros Hx Ht. destruct (extract_member (faults i) (removed i) (clock i) dir h d) as [l1 e1] eqn:Em.
  destruct (member_published stale _ _ _ _ _ _ _ Em Ht) as [P1 P2]. destruct e1 as [e|].
  { injection Hx as <- <-. eapply published_due; [|exact P1]. by destruct stale. }
  destruct (extract faults removed clock dir members clean_end (S i) (final d l1)) as [l2 e2] eqn:Ee.
  injection Hx as <- <-. rewrite fmap_app. eapply published_app; [exact P1|]. rewrite after_final.
  apply (IH _ (S i) _ _ _ Ee). intros ft. specialize (P2 ft). specialize (Hk i). lia.
Qed.

Lemma etag_not_watched n : n ∈ watched_files → etag_file dir ≠ Join dir n.
Proof.
  intros Hn E. apply Join_inj in E; [|by split_and!|by apply proper_name_ok, watched_proper].
  subst n. unfold watched_files in Hn. set_unfold in Hn. by destruct_or!.
Qed.

Lemma etag_unseen fault t x d :
  Forall (λ d', unseen dir watched_files (files d) (files d')) (WriteFile fault t (etag_file dir) x d).
Proof.
  eapply Forall_impl; [apply WriteFile_states|]. intros d' (_ & H & _) n Hn. apply H.
  by apply not_eq_sym, etag_not_watched.
Qed.

Section Poll.
Context (get : string → option string → option string → Response + string).
Context (faults : nat → option Fault) (removed : nat → bool) (clock : nat → Z) (meta_fault : option Fault).
Context (now : Z) (source : string) (d : Disk).
Context (Hk : ticking clock) (Ht : ∀ ft, time_of ft (mods dir (files d)) < clock 0).

Abbreviation download := (downloadRemoteFiles get faults removed clock now source dir (read_meta dir d).1 (read_meta dir d).2 d).

(** A fetch that unpacked an archive whose last watched member is a
    fingerprint. *)
Definition fetched : Prop :=
  is_http source = true ∧
  ∃ resp arc, get (archive_url source) (header_opt (read_meta dir d).1) (header_opt (read_meta dir d).2) = inl resp ∧
    StatusCode resp = 200 ∧ resp_archive resp = Some arc ∧ due_after true (arc_members arc) = false ∧
    ∃ v, download.2 = inl v.

(** Any fetch may leave lists nobody has announced; a complete one does not. *)
Lemma download_published stale :
  published dir stale (files d) (files <$> download.1) true ∧ (fetched → published dir stale (files d) (files <$> download.1) false).
Proof.
  assert (implb stale true = true) as Hst by (by destruct stale).
  unfold fetched, downloadRemoteFiles.
  destruct (get _ _ _) as [resp|e]; [|split; [by apply pub_end|naive_solver]].
  destruct (Z.eqb_spec (StatusCode resp) 304) as [E304|_]; [split; [by apply pub_end|]; intros (_ & ? & ? & [= <-] & ? & _); lia|].
  destruct (negb (StatusCode resp =? 200)); [split; [by apply pub_end|]; intros (_ & ? & ? & _ & _ & _ & _ & ? & [=])|].
  destruct (resp_archive resp) as [arc|] eqn:Ea; [|split; [by apply pub_end|]; intros (_ & ? & ? & _ & _ & _ & _ & ? & [=])].
  destruct (extract faults removed clock dir (arc_members arc) (arc_end arc) 0 (mkdir dir d)) as [l err] eqn:Ee.
  cbn [fst snd fmap list_fmap].
  assert (∀ b, published dir b (files d) (files (mkdir dir d) :: (files <$> l))
    (match err with None => due_after b (arc_members arc) | Some _ => true end)) as Hp.
  { intros b. apply pub_unseen; [done|]. exact (extract_published _ _ _ _ _ Hk b 0 _ _ _ Ee Ht). }
  split.
  - eapply published_due; [|apply (Hp stale)]. by destruct err; [|destruct (due_after stale (arc_members arc))].
  - intros (_ & ? & arc' & [= <-] & _ & E & Hdue & v & Hv). simplify_eq. destruct err; [done|].
    specialize (Hp true). rewrite Hdue in Hp. eapply published_weaken; [|exact Hp]. by destruct stale.
Qed.

Lemma reload_published stale :
  let l := files <$> runReload get faults removed clock meta_fault now source dir d in
  published dir stale (files d) l true ∧ (fetched → published dir stale (files d) l false).
Proof.
  cbv zeta. unfold runReload. destruct (is_http source) eqn:Eh; cbn [negb].
  2: { split; [apply pub_end; by destruct stale|]. intros [E _]. congruence. }
  destruct (download_published stale) as [H1 H2]. destruct (read_meta dir d) as [e0 l0]. cbn [fst snd] in *.
  destruct (downloadRemoteFiles _ _ _ _ _ _ _ _ _ _) as [states res]. cbn [fst snd] in *.
  destruct res as [[e l]|]; [|done]. destruct (_ || _); [|done]. rewrite fmap_app.
  assert (∀ b, published dir b (after (files d) (files <$> states))
    (files <$> WriteFile meta_fault now (etag_file dir) (save_meta e l) (final d states)) b) as He.
  { intros b. rewrite after_final. apply published_unseen. apply Forall_fmap, etag_unseen. }
  split; [eapply published_app; [exact H1|apply He]|]. intros Hf. eapply published_app; [by apply H2|apply He].
Qed.
End Poll.
End Fetch.

(** ** Lemmas: the loop *)

Section Loop.
Context (sha256_hex md5_hex : string → string) (gunzip : string → option string).
Context (uni_lower : string → string) (idna_ToASCII : string → option string).
Context `{IPSetLib}.
Context (md5_ok : ∀ s, contains_char (md5_hex s) "/" = false).
Context (uni : string → string) (env : Env).

Abbreviation dir := (resultDir env).
Abbreviation local := (compileLocal uni env).
Abbreviation states_of := (poll_states sha256_hex md5_hex gunzip uni_lower idna_ToASCII uni env).
Abbreviation all_states := (updater_states sha256_hex md5_hex gunzip uni_lower idna_ToASCII uni env).

(** What a poll needs: the clock has moved on, and a compilation has a result
    directory of its own and can open the fingerprint of the IP lists. *)
Definition poll_ok (p : Poll) (fs : Store) : Prop :=
  if local then run_ok dir (pl_world p) (pl_writes p) (getCompileConfig uni env dir) fs
  else ticking (pl_clock p) ∧ ∀ ft, time_of ft (mods dir fs) < pl_clock p 0.

Fixpoint polls_ok (polls : list Poll) (fs : Store) : Prop :=
  match polls with
  | [] => True
  | p :: polls' => poll_ok p fs ∧ polls_ok polls' (after fs (states_of p fs))
  end.

(** A compilation always delivers, a fetch when it is complete. *)
Definition poll_delivers (p : Poll) (fs : Store) : Prop :=
  local = true ∨
  fetched dir (pl_get p) (pl_faults p) (pl_removed p) (pl_clock p) (pl_now p) (remoteSource env) (mkDisk fs []).

Lemma poll_published p fs :
  poll_ok p fs →
  published dir (negb local) fs (states_of p fs) (negb local) ∧
  (poll_delivers p fs → published dir (negb local) fs (states_of p fs) false).
Proof.
  unfold poll_ok, poll_delivers, poll_states. destruct local; cbn [negb].
  - intros Hok. assert (published dir false fs (recompile sha256_hex md5_hex gunzip uni_lower idna_ToASCII uni env p fs) false)
      as Hp; [|by split]. unfold recompile. destruct (compile_states _ _ _ _ _ _ _ _ _ _) as [l|] eqn:El; [|by apply pub_end].
    by eapply compile_published.
  - intros [Hk Ht]. destruct (reload_published dir (pl_get p) (pl_faults p) (pl_removed p) (pl_clock p) (pl_meta p) (pl_now p)
      (remoteSource env) (mkDisk fs []) Hk Ht true) as [H1 H2]. split; [exact H1|]. intros [?|Hf]; [done|by apply H2].
Qed.

Lemma all_states_app a b fs : all_states (a ++ b) fs = all_states a fs ++ all_states b (after fs (all_states a fs)).
Proof.
  revert fs. induction a as [|p a IH]; intros fs; [done|]. cbn [app updater_states]. by rewrite IH, after_app, app_assoc.
Qed.

Lemma polls_published polls : ∀ fs, polls_ok polls fs → published dir (negb local) fs (all_states polls fs) (negb local).
Proof.
  induction polls as [|p polls IH]; intros fs; cbn [polls_ok updater_states]; [intros _; apply pub_end; by destruct local|].
  intros [Hp Hps]. eapply published_app; [exact (proj1 (poll_published p fs Hp))|by apply IH].
Qed.

Lemma polls_ok_app a b fs : polls_ok (a ++ b) fs → polls_ok a fs ∧ polls_ok b (after fs (all_states a fs)).
Proof.
  revert fs. induction a as [|p a IH]; intros fs; cbn [app polls_ok updater_states]; [done|].
  intros [Hp [H1 H2]%IH]. rewrite after_app. done.
Qed.

(** ** Properties *)

(** C34: the updater keeps the engine current.  The lists are in force when the
    watcher starts.  Let the updater poll as often as it will, compiling or
    fetching, with clocks that move forward and, for compilations, a result
    directory outside the cache and a .hash_ips that can be opened, each of its writes interleaved with the
    reads of the engine's watcher and with traffic in any way; whatever became of
    the earlier polls (servers that do not answer, archives that break off, disks
    that are full) and of the scripts of the watcher, which the packet filter may
    have refused unless [ok].  When the last poll has compiled the lists, or has
    unpacked an archive in which the fingerprints come after the deny lists, and
    the scripts since its start are accepted, then eleven steps of the watcher
    later at most every handshake the engine sends carries the fingerprint of the
    lists on the disk, and the packet filter denies what they say, unless the last
    poll was a compilation that left the fingerprints' times alone and a script had
    been refused before it. *)
Theorem updater_keeps_lists_in_force v6 ok fs0 e0 kernel0 ParseDuration start n poll times t states x y names dial k :
  in_force v6 dir ok (startFileWatcher dir fs0 e0 kernel0) →
  poll_times start (poll_interval ParseDuration uni env) n = Some (times ++ [t]) →
  startUpdaterLoop sha256_hex md5_hex gunzip uni_lower idna_ToASCII uni env ParseDuration start n poll fs0 = Some states →
  polls_ok (poll <$> times ++ [t]) fs0 → poll_delivers (poll t) (after fs0 (all_states (poll <$> times) fs0)) →
  let before := all_states (poll <$> times) fs0 in
  watched_run v6 dir ok before (startFileWatcher dir fs0 e0 kernel0) x →
  watched_run v6 dir true (drop (length before) states) x y → (11 ≤ k)%nat →
  let z := Nat.iter k (watch_step v6 dir names dial true) y in
  wt_fs z = after fs0 states ∧
  ResultHash (own_handshake (e_sync (wt_engine z))) = lists_hash dir (wt_fs z) ∧
  (ok = true ∨ local = false ∨ mods dir (wt_fs z) ≠ mods dir (wt_fs x) → wt_kernel z = deny_script v6 dir (wt_fs z)).
Proof.
  intros Hf Htimes Hloop Hok Hdel before Hrun1 Hrun2 Hk z. unfold startUpdaterLoop in Hloop. rewrite Htimes in Hloop. cbn in Hloop.
  apply (inj Some) in Hloop. subst states. rewrite fmap_app in Hok, Hrun2 |- *. apply polls_ok_app in Hok as [Hok1 [Hok2 _]].
  rewrite all_states_app in Hrun2 |- *. fold before in Hrun2 |- *. rewrite drop_app_length in Hrun2.
  cbn [fmap list_fmap updater_states] in Hrun2 |- *. rewrite app_nil_r in Hrun2 |- *.
  assert (published dir false fs0 before (negb local)) as Hp1.
  { eapply published_weaken; [|by apply polls_published]. by destruct local. }
  destruct (watched_run_ready v6 dir ok (λ _, ok) _ _ x false (negb local) ltac:(done) Hrun1 Hp1) as [Hx Ex];
    [by apply start_ready|]. cbn [wt_fs startFileWatcher] in Ex.
  pose proof (proj2 (poll_published _ _ Hok2) Hdel) as Hp2. fold before in Hp2. rewrite <- Ex in Hp2, Hrun2 |- *.
  destruct (last_run_settles v6 dir ok (negb local) _ x y names dial k Hx Hp2 Hrun2 Hk) as (Ez & Hz1 & Hz2).
  fold z in Ez, Hz1, Hz2. rewrite after_app, <- Ex. split; [exact Ez|]. split; [exact Hz1|].
  intros [?|[Hl|?]]; [auto| |auto]. apply Hz2. right. rewrite Ez. apply (published_moves dir true); [|done].
  by rewrite Hl in Hp2.
Qed.
End Loop.

(** ** Witnesses *)

Definition remote_env : Env := λ key,
  if bool_decide (key = "LIST_SOURCE") then Some "https://example.org/lists"
  else if bool_decide (key = "RESULT_DIR") then Some "/r" else None.

Definition two_hours (s : string) : option Z := if bool_decide (s = "2h") then Some (2 * hour) else None.

Definition regular (name text : string) : TarHeader := mkTarHeader name TypeReg (str_len text) text true.

(** The members in the order in which the project packs them. *)
Definition packed (denied : string) : list TarHeader :=
  [regular "proxy.rpz" "zone"; regular "deny-ips-v4.txt" denied; regular "deny-ips-v6.txt" EmptyString;
   regular ".hash_domains" "d"; regular ".hash_ips" "i"].

(** The first archive breaks off before the fingerprints. *)
Definition two_polls (t : Z) : Poll :=
  let arc := if t =? 7 then mkArchive (take 3 (packed (lines_of ["1.2.3.0/24"]))) false
             else mkArchive (packed (lines_of ["5.6.7.0/24"])) true in
  mkPoll first_world first_writes (λ _ _ _, inl (mkResponse 200 "e" EmptyString (Some arc)))
    (λ _, None) (λ _, true) (λ i, t + Z.of_nat i) None t.

Definition fresh_engine : Engine :=
  with_sync (set_hash (lists_hash "/r" ∅) (e_sync (EngineFacts.node 7))) (with_deny (deny_script true "/r" ∅) (EngineFacts.node 7)).

Lemma remote_dir : resultDir remote_env = "/r".
Proof. reflexivity. Qed.

Lemma fresh_in_force :
  in_force true (resultDir remote_env) false (startFileWatcher (resultDir remote_env) ∅ fresh_engine EmptyString).
Proof. rewrite remote_dir. split; [discriminate|reflexivity]. Qed.

Definition two_poll_states : list Store :=
  default [] (startUpdaterLoop demo_sha demo_md5 (λ _, None) id Some id remote_env two_hours 7 0 two_polls ∅).

Lemma two_polls_run :
  startUpdaterLoop demo_sha demo_md5 (λ _, None) id Some id remote_env two_hours 7 0 two_polls ∅ = Some two_poll_states.
Proof. apply some_default. vm_compute. reflexivity. Qed.

Lemma two_polls_ok :
  polls_ok demo_sha demo_md5 (λ _, None) id Some id remote_env (two_polls <$> [7; 2 * hour]) ∅.
Proof.
  cbn [fmap list_fmap polls_ok]. unfold poll_ok. change (compileLocal id remote_env) with false. cbn iota.
  split; [|split; [|done]].
  - split; [intros i; cbn; lia|]. intros [|]; vm_compute; reflexivity.
  - split; [intros i; cbn; lia|]. intros [|]; vm_compute; reflexivity.
Qed.

Definition one_poll_states : list Store :=
  updater_states demo_sha demo_md5 (λ _, None) id Some id remote_env (two_polls <$> [7]) ∅.

(** The packet filter refuses a script between the two polls. *)
Definition refused_once : Watched :=
  Nat.iter 6 (watch_step true "/r" None (λ _, true) false)
    (foldl (busy true "/r") (startFileWatcher "/r" ∅ fresh_engine EmptyString) one_poll_states).

Lemma refused_run n x y dir' : 
  watched_run true dir' false [] (Nat.iter n (watch_step true dir' None (λ _, true) false) x) y →
  watched_run true dir' false [] x y.
Proof.
  revert x. induction n as [|n IH]; intros x Hr; [done|]. rewrite Nat.iter_succ_r in Hr.
  apply (run_watch _ _ _ None (λ _, true) false); [done|]. by apply IH.
Qed.

Lemma watched_run_app v6 dir ok l1 l2 x y z :
  watched_run v6 dir ok l1 x y → watched_run v6 dir ok l2 y z → watched_run v6 dir ok (l1 ++ l2) x z.
Proof. induction 1; intros Hl2; cbn [app]; eauto using watched_run. Qed.

Lemma busy_then_refused dir n l x :
  watched_run true dir false l x
    (Nat.iter n (watch_step true dir None (λ _, true) false) (foldl (busy true dir) x l)).
Proof.
  rewrite <- (app_nil_r l) at 1. eapply watched_run_app; [apply interleaved_run|].
  apply (refused_run n), run_end.
Qed.

Lemma refused_once_run :
  watched_run true "/r" false one_poll_states (startFileWatcher "/r" ∅ fresh_engine EmptyString) refused_once.
Proof. unfold refused_once. apply busy_then_refused. Qed.

Lemma updater_keeps_lists_in_force_witness :
  let z := Nat.iter 11 (watch_step true "/r" None (λ _, true) true)
             (foldl (busy true "/r") refused_once (drop (length one_poll_states) two_poll_states)) in
  wt_kernel z = ReloadDenySets true (Some (lines_of ["5.6.7.0/24"])) (Some EmptyString).
Proof.
  destruct (updater_keeps_lists_in_force demo_sha demo_md5 (λ _, None) id Some demo_md5_ok id remote_env true false ∅ fresh_engine
    EmptyString two_hours 7 0%nat two_polls [7] (2 * hour) two_poll_states refused_once
    (foldl (busy true "/r") refused_once (drop (length one_poll_states) two_poll_states)) None (λ _, true) 11%nat fresh_in_force eq_refl
    two_polls_run two_polls_ok) as (Ez & _ & Hk).
  - right. split; [reflexivity|]. eexists _, _. split; [reflexivity|]. split; [reflexivity|]. split; [reflexivity|].
    split; [vm_compute; reflexivity|]. eexists. vm_compute. reflexivity.
  - rewrite remote_dir. exact refused_once_run.
  - rewrite remote_dir. apply interleaved_run.
  - apply le_n.
  - refine (eq_trans (Hk (or_intror (or_introl eq_refl))) _). rewrite Ez. vm_compute. reflexivity.
Defined.

(** An archive packed the other way round is not understood: a watcher that looks
    between the fingerprint and the deny list reads the old list and never looks
    again. *)
Theorem fingerprint_first_missed :
  let arc := mkArchive [regular ".hash_ips" "i"; regular "deny-ips-v4.txt" (lines_of ["5.6.7.0/24"])] true in
  let states := files <$> (extract (λ _, None) (λ _, true) (λ i, 5 + Z.of_nat i) "/r" (arc_members arc) true 0 (mkDisk ∅ [])).1 in
  let seen := foldl (λ x fs, set_store fs x) (startFileWatcher "/r" ∅ fresh_engine (deny_script true "/r" ∅)) (take 4 states) in
  let reloaded := Nat.iter 6 (watch_step true "/r" None (λ _, true) true) seen in
  let later := foldl (λ x fs, set_store fs x) reloaded (drop 4 states) in
  list_file "/r" (wt_fs later) "deny-ips-v4.txt" = Some (lines_of ["5.6.7.0/24"]) ∧
  wt_kernel (Nat.iter 20 (watch_step true "/r" None (λ _, true) true) later) = ReloadDenySets true None None.
Proof. vm_compute. done. Qed.
