(* ===== verification/Export.v ===== *)
(** * The metrics exporter ([internal/dnsengine/metrics.go], [StartMetricsServer])

    The page as text, read back by a reader of the exposition format: comments
    are skipped, a sample is a name, a space and a value.  The uptime is a
    parameter, as its text. *)

From Stdlib Require Import Ascii.
From Stdlib Require String.
From stdpp Require Import prelude gmap strings.
From S2P Require Import Prelude GoStrings GoText GoNet GoNetFacts GoHostPort Metrics IPPool PoolAlloc Config.

#[local] Arguments String.append : simpl nomatch.

Definition GetPoolSize (p : IPPool) : Z := poolSize p.

Definition nl : string := String (char 10) EmptyString.

(** The three lines of a metric. *)
Definition metric (name help kind value : string) : string :=
  "# HELP " +:+ name +:+ " " +:+ help +:+ nl +:+
  "# TYPE " +:+ name +:+ " " +:+ kind +:+ nl +:+
  name +:+ " " +:+ value +:+ nl.

(** The response to a request for the metrics. *)
Definition metrics_page (uptime : string) (p : option IPPool) (m : Metrics) : string :=
  let capacity := match p with Some p => GetPoolSize p | None => 0 end in
  let active := match p with Some p => GetActiveCount p | None => 0 end in
  metric "nextpath_uptime_seconds" "Node uptime in seconds" "gauge" uptime +:+
  metric "nextpath_pool_capacity" "Total size of the Fake-IP pool" "gauge" (itoa capacity) +:+
  metric "nextpath_pool_active" "Number of currently active Fake-IP allocations" "gauge" (itoa active) +:+
  metric "nextpath_allocations_total" "Total number of IP allocations performed" "counter" (itoa (MetricsAllocations m)) +:+
  metric "nextpath_p2p_collisions_total" "Total number of P2P mapping collisions detected" "counter"
    (itoa (MetricsCollisions m)) +:+
  metric "nextpath_p2p_syncs_total" "Total number of P2P sync events processed" "counter" (itoa (MetricsSyncs m)) +:+
  metric "nextpath_dns_queries_total" "Total number of DNS queries processed" "counter" (itoa (MetricsDNSQueries m)) +:+
  metric "nextpath_dns_errors_total" "Total number of DNS queries that resulted in errors" "counter"
    (itoa (MetricsDNSErrors m)) +:+
  metric "nextpath_pool_exhaustions_total" "Total number of times the IP pool was fully exhausted" "counter"
    (itoa (MetricsExhaustions m)).

(** The address and the port with their defaults, and the text that is bound. *)
Definition exporter_defaults (addr port : string) : string * string :=
  (if bool_decide (addr = EmptyString) then "0.0.0.0" else addr,
   if bool_decide (port = EmptyString) then "9090" else port).
Definition bindAddr (addr port : string) : string :=
  let '(addr, port) := exporter_defaults addr port in addr +:+ ":" +:+ port.

(** ** Reading a page *)

Definition sample (line : string) : option (string * string) :=
  if has_prefix line "#" then None else cut_char " " line.

Definition scrape (page : string) : list (string * string) := omap sample (split_char (char 10) page).

(** ** Lemmas *)

Definition one_line (s : string) : Prop := contains_char s (char 10) = false.

Lemma scrape_line w s :
  one_line w → scrape (w +:+ nl +:+ s) = match sample w with Some x => x :: scrape s | None => scrape s end.
Proof.
  intros Hw. unfold scrape, nl. cbn [String.append]. rewrite (split_char_app (char 10) w s) by done.
  cbn. by destruct (sample w).
Qed.

(** A name: one word on one line that does not start a comment. *)
Definition name_ok (s : string) : Prop :=
  one_line s ∧ contains_char s " " = false ∧ s ≠ EmptyString ∧ has_prefix s "#" = false.

Lemma has_prefix_hash s t : s ≠ EmptyString → has_prefix (s +:+ t) "#" = has_prefix s "#".
Proof. by destruct s. Qed.

Lemma scrape_metric name help kind value s :
  name_ok name → one_line help → one_line kind → one_line value →
  scrape (metric name help kind value +:+ s) = (name, value) :: scrape s.
Proof.
  intros (Hn & Hsp & Hne & Hh) H1 H2 H3. unfold metric. rewrite !str_app_assoc.
  assert (∀ a b c, one_line a → one_line b → one_line c → one_line (a +:+ b +:+ c)) as Hone
    by (intros a b c; unfold one_line; rewrite !contains_char_app; by intros -> -> ->).
  assert (∀ a b c d, one_line a → one_line b → one_line c → one_line d → one_line (a +:+ b +:+ c +:+ d)) as Hone4
    by (intros a b c d; unfold one_line; rewrite !contains_char_app; by intros -> -> -> ->).
  transitivity (scrape (("# HELP " +:+ name +:+ " " +:+ help) +:+ nl +:+
    ("# TYPE " +:+ name +:+ " " +:+ kind) +:+ nl +:+ (name +:+ " " +:+ value) +:+ nl +:+ s)).
  { by rewrite !str_app_assoc. }
  rewrite !scrape_line by (by (apply Hone4 || apply Hone)). change (sample ("# HELP " +:+ _)) with (@None (string * string)).
  change (sample ("# TYPE " +:+ _)) with (@None (string * string)). cbn iota.
  unfold sample. rewrite has_prefix_hash, Hh by done. change (" " +:+ value) with (String " " value).
  by rewrite cut_char_first.
Qed.

Lemma itoa_one_line n : 0 ≤ n → one_line (itoa n).
Proof. intros Hn. by apply itoa_no_syntax. Qed.

(** ** Theorems *)

(** A scraper reads from the page exactly the values of the pool and of the
    counters, in order. *)
Theorem page_reads_back uptime p m :
  one_line uptime → 0 ≤ poolSize p →
  Forall (λ z, 0 ≤ z) [MetricsAllocations m; MetricsCollisions m; MetricsSyncs m; MetricsDNSQueries m;
                       MetricsDNSErrors m; MetricsExhaustions m] →
  scrape (metrics_page uptime (Some p) m) =
  [("nextpath_uptime_seconds", uptime);
   ("nextpath_pool_capacity", itoa (poolSize p));
   ("nextpath_pool_active", itoa (Z.of_nat (size (globalFakeToReal p))));
   ("nextpath_allocations_total", itoa (MetricsAllocations m));
   ("nextpath_p2p_collisions_total", itoa (MetricsCollisions m));
   ("nextpath_p2p_syncs_total", itoa (MetricsSyncs m));
   ("nextpath_dns_queries_total", itoa (MetricsDNSQueries m));
   ("nextpath_dns_errors_total", itoa (MetricsDNSErrors m));
   ("nextpath_pool_exhaustions_total", itoa (MetricsExhaustions m))].
Proof.
  intros Hu Hp Hm. repeat (apply Forall_cons in Hm as [? Hm]). unfold metrics_page, GetPoolSize, GetActiveCount.
  rewrite <- (str_app_nil_r (metric "nextpath_pool_exhaustions_total" _ _ _)).
  assert (∀ n, 0 ≤ n → one_line (itoa n)) as Hi by apply itoa_one_line.
  repeat (rewrite scrape_metric; [f_equal|done|done|done|auto with lia]).
Qed.

(** The capacity is that of the IPv4 pool, the active mappings are those of both
    families. *)
Definition small_pool : IPPool := NewIPPoolWithConfig "198.18" "fd00:18::" (mkIPPoolConfig 1 16).

Theorem active_exceeds_capacity :
  let p := (GetFakeIPsForReals small_pool metrics_zero 3 (λ i, Z.of_nat i)
              [ParseIP "2001:db8::1"; ParseIP "2001:db8::2"] true).1.2 in
  GetPoolSize p = 1 ∧ GetActiveCount p = 2.
Proof. vm_compute. done. Qed.

(** The start-up accepts an IPv6 address for the exporter, but the text it binds
    has no host and port. *)
Theorem ipv6_exporter_not_bound :
  metrics_server id (λ key, if bool_decide (key = "METRICS_ENABLE") then Some "true"
                            else if bool_decide (key = "METRICS_ADDR") then Some "::1" else None) = Some ("::1", "9090") ∧
  SplitHostPort (bindAddr "::1" "9090") = None ∧
  SplitHostPort (bindAddr "127.0.0.1" "9090") = Some ("127.0.0.1", "9090").
Proof. vm_compute. done. Qed.
