(* ===== verification/Logger.v ===== *)
(** * The log ([internal/logger])

    The lines the logger prints and when it prints them; the message is the
    formatted text, [t] the time of day.  Phases are ASCII, so that padding counts
    bytes. *)

From Stdlib Require Import Ascii.
From Stdlib Require String.
From stdpp Require Import prelude strings.
From S2P Require Import Prelude GoStrings GoText.

#[local] Arguments String.append : simpl nomatch.

Definition escape (code : string) : string := String (char 27) ("[" +:+ code +:+ "m").
Definition colorReset : string := escape "0".
Definition colorRed : string := escape "1;31".
Definition colorGreen : string := escape "1;32".
Definition colorYellow : string := escape "1;33".
Definition colorBlue : string := escape "1;34".
Definition colorCyan : string := escape "1;36".

Fixpoint spaces (n : nat) : string := match n with O => EmptyString | S n' => String " " (spaces n') end.

(** The format [%-ns]. *)
Definition pad (n : nat) (s : string) : string := s +:+ spaces (n - String.length s).

Definition levelColor (level : string) : string :=
  if bool_decide (level = "INFO") then colorGreen
  else if bool_decide (level = "DEBUG") then colorBlue
  else if bool_decide (level = "WARN") then colorYellow
  else if bool_decide (level = "ERROR") then colorRed
  else colorReset.

(** The part of a line before the message, and the line. *)
Definition line_head (t level phase : string) : string :=
  colorReset +:+ "[" +:+ t +:+ "] " +:+ levelColor level +:+ pad 7 ("[" +:+ level +:+ "]") +:+ colorReset +:+ " "
  +:+ colorCyan +:+ pad 12 phase +:+ colorReset +:+ " | ".
Definition logMessage (t level phase msg : string) : string :=
  line_head t level phase +:+ msg +:+ String (char 10) EmptyString.

(** The state: [debugMode] and what has been printed. *)
Record Logger := mkLogger { debugMode : bool; printed : list string }.

Definition Init (debug : bool) (l : Logger) : Logger := mkLogger debug (printed l).
Definition print (line : string) (l : Logger) : Logger := mkLogger (debugMode l) (printed l ++ [line]).
Definition Info (t phase msg : string) (l : Logger) : Logger := print (logMessage t "INFO" phase msg) l.
Definition Debug (t phase msg : string) (l : Logger) : Logger :=
  if debugMode l then print (logMessage t "DEBUG" phase msg) l else l.
Definition Error (t phase msg : string) (l : Logger) : Logger := print (logMessage t "ERROR" phase msg) l.
Definition Warn (t phase msg : string) (l : Logger) : Logger := print (logMessage t "WARN" phase msg) l.

(** ** Columns *)

Lemma length_str_app s t : String.length (s +:+ t) = (String.length s + String.length t)%nat.
Proof. induction s as [|c s IH]; [done|]. cbn. by rewrite IH. Qed.

Lemma length_spaces n : String.length (spaces n) = n.
Proof. induction n as [|n IH]; [done|]. cbn. by rewrite IH. Qed.

Lemma length_pad n s : (String.length s ≤ n)%nat → String.length (pad n s) = n.
Proof. intros Hs. unfold pad. rewrite length_str_app, length_spaces. lia. Qed.

(** With a time of eight characters and a phase of at most twelve, the messages of
    all four levels start at the same column of the terminal; the number counts
    the 26 bytes of the five colour codes too. *)
Theorem messages_aligned t level phase :
  level ∈ ["INFO"; "DEBUG"; "WARN"; "ERROR"] → String.length t = 8%nat → (String.length phase ≤ 12)%nat →
  String.length (line_head t level phase) = 60%nat.
Proof.
  intros Hl Ht Hp. unfold line_head. rewrite !length_str_app, Ht, (length_pad 12 phase Hp).
  repeat (apply elem_of_cons in Hl as [->|Hl]; [vm_compute; reflexivity|]). by apply elem_of_nil in Hl.
Qed.
