(* ===== verification/Lifecycle.v ===== *)
(** * The life of the engine process ([main] of [cmd/nextpath-engine/main.go],
    [Start] and [Close] of [internal/dnsengine/proxy.go])

    The proxy runs two servers of the DNS library, one goroutine each, and gives up
    when the first of them returns; [main] waits for a signal or for the proxy's
    error and then shuts the parts down one after the other, at most ten seconds
    long.  The library's servers are modelled by what is documented of them:
    [ListenAndServe] returns an error when the port cannot be bound or serving
    fails, and nil after a [Shutdown], which itself fails on a server that has not
    started. *)

From stdpp Require Import prelude strings relations.
From S2P Require Import Prelude.

(** A server of the library. *)
Inductive Serving := NotYet | Up | Down.

(** [Start]: waiting for the first result, holding it, back with it. *)
Inductive StartPC := AwaitResult | HasResult (err : option string) | StartReturned (err : option string).

(** [main]: in its select, then the calls of the shutdown. *)
Inductive MainPC := Selecting | Cancel | CloseSync | CloseProxy | Exited (status : Z).

(** The channel [results] is the one of [Start] ([None] is a nil error), [fatal]
    the one of [main]. *)
Record Life := mkLife {
  l_udp : Serving;
  l_tcp : Serving;
  l_results : list (option string);
  l_start : StartPC;
  l_fatal : list string;
  l_main : MainPC;
  l_watching : bool;
  l_synced : bool;
}.

Definition life_start : Life := mkLife NotYet NotYet [] AwaitResult [] Selecting true true.

Definition set_servers (u t : Serving) (res : list (option string)) (x : Life) : Life :=
  mkLife u t res (l_start x) (l_fatal x) (l_main x) (l_watching x) (l_synced x).
Definition set_start (pc : StartPC) (res : list (option string)) (fatal : list string) (x : Life) : Life :=
  mkLife (l_udp x) (l_tcp x) res pc fatal (l_main x) (l_watching x) (l_synced x).
Definition set_main (pc : MainPC) (fatal : list string) (watching synced : bool) (x : Life) : Life :=
  mkLife (l_udp x) (l_tcp x) (l_results x) (l_start x) fatal pc watching synced.

(** [Shutdown] of one server: its state and what its [ListenAndServe] sends. *)
Definition shutdown (s : Serving) : Serving * list (option string) :=
  match s with Up => (Down, [None]) | _ => (s, []) end.

(** [DNSProxy.Close]: first TCP, then UDP. *)
Definition proxy_close (x : Life) : Life :=
  let '(t, sent1) := shutdown (l_tcp x) in
  let '(u, sent2) := shutdown (l_udp x) in
  set_servers u t (l_results x ++ sent1 ++ sent2) x.

(** The end of [Start]: it closes the proxy and returns; the goroutine of [main]
    passes an error on. *)
Definition start_return (err : option string) (x : Life) : Life :=
  let x := proxy_close x in
  set_start (StartReturned err) (l_results x) (l_fatal x ++ option_list err) x.

(** What the environment does: servers come up or fail, a signal arrives, the ten
    seconds of the shutdown are over. *)
Inductive outer_step (x : Life) : Life → Prop :=
  | udp_up : l_udp x = NotYet → outer_step x (set_servers Up (l_tcp x) (l_results x) x)
  | tcp_up : l_tcp x = NotYet → outer_step x (set_servers (l_udp x) Up (l_results x) x)
  | udp_fails e : l_udp x ≠ Down → outer_step x (set_servers Down (l_tcp x) (l_results x ++ [Some e]) x)
  | tcp_fails e : l_tcp x ≠ Down → outer_step x (set_servers (l_udp x) Down (l_results x ++ [Some e]) x)
  | signalled : l_main x = Selecting → outer_step x (set_main Cancel (l_fatal x) (l_watching x) (l_synced x) x)
  | timed_out : l_main x ∈ [Cancel; CloseSync; CloseProxy] →
      outer_step x (set_main (Exited 1) (l_fatal x) (l_watching x) (l_synced x) x).

(** What the process does by itself. *)
Inductive inner_step (x : Life) : Life → Prop :=
  | start_receives r rest :
      l_start x = AwaitResult → l_results x = r :: rest → inner_step x (set_start (HasResult r) rest (l_fatal x) x)
  | start_returns r : l_start x = HasResult r → inner_step x (start_return r x)
  | main_fatal e rest :
      l_main x = Selecting → l_fatal x = e :: rest →
      inner_step x (set_main Cancel rest (l_watching x) (l_synced x) x)
  | main_cancels : l_main x = Cancel → inner_step x (set_main CloseSync (l_fatal x) false (l_synced x) x)
  | main_closes_sync : l_main x = CloseSync → inner_step x (set_main CloseProxy (l_fatal x) (l_watching x) false x)
  | main_closes_proxy :
      l_main x = CloseProxy →
      inner_step x (let y := proxy_close x in set_main (Exited 0) (l_fatal y) (l_watching y) (l_synced y) y).

Definition exited (x : Life) : bool := match l_main x with Exited _ => true | _ => false end.

(** A step of a process that has not ended. *)
Definition life_step (x y : Life) : Prop := exited x = false ∧ (outer_step x y ∨ inner_step x y).

(** The process is going to end: a server has returned, or [main] has left its
    select. *)
Definition ending (x : Life) : bool :=
  match l_main x, l_udp x, l_tcp x with Selecting, Down, _ | Selecting, _, Down => true | Selecting, _, _ => false | _, _, _ => true end.

(** The steps the process still has to take by itself. *)
Definition steps_left (x : Life) : nat :=
  (match l_start x with AwaitResult => 2 | HasResult _ => 1 | StartReturned _ => 0 end +
   match l_main x with Selecting => 4 | Cancel => 3 | CloseSync => 2 | CloseProxy => 1 | Exited _ => 0 end)%nat.

(** ** Lemmas *)

(** The state of a process: the error of a failed server is on its way to [main]
    as long as [main] is in its select, and nobody has closed anything. *)
Definition on_its_way (x : Life) : Prop :=
  match l_start x with
  | AwaitResult => Forall is_Some (l_results x) ∧ l_fatal x = [] ∧ ((l_udp x = Down ∨ l_tcp x = Down) → l_results x ≠ [])
  | HasResult r => is_Some r ∧ l_fatal x = []
  | StartReturned _ => l_fatal x ≠ []
  end.

Definition life_ok (x : Life) : Prop :=
  match l_main x with
  | Selecting => on_its_way x
  | CloseSync => l_watching x = false
  | CloseProxy => l_watching x = false ∧ l_synced x = false
  | Exited 0 => l_watching x = false ∧ l_synced x = false ∧ l_udp x ≠ Up ∧ l_tcp x ≠ Up
  | _ => True
  end.

Lemma proxy_close_fields x :
  let y := proxy_close x in
  l_start y = l_start x ∧ l_fatal y = l_fatal x ∧ l_main y = l_main x ∧ l_watching y = l_watching x ∧
  l_synced y = l_synced x ∧ l_udp y ≠ Up ∧ l_tcp y ≠ Up.
Proof. cbv zeta. unfold proxy_close. by destruct (l_tcp x) eqn:E1, (l_udp x) eqn:E2. Qed.

(** Servers that come up or fail while [main] is in its select. *)
Lemma servers_on_their_way x u t res :
  on_its_way x → (u = Down ∨ t = Down → l_udp x = Down ∨ l_tcp x = Down ∨ res ≠ []) → Forall is_Some res →
  on_its_way (set_servers u t (l_results x ++ res) x).
Proof.
  unfold on_its_way. cbn [l_start l_results l_fatal l_udp l_tcp set_servers]. destruct (l_start x); [|done..].
  intros (H1 & H2 & H3) Hd Hr. split; [by apply Forall_app|]. split; [done|].
  intros [Hu|[Ht|Hne]]%Hd E; apply app_nil in E as [E ->]; [apply H3; auto..|done].
Qed.

Lemma outer_ok x y : exited x = false → life_ok x → outer_step x y → life_ok y.
Proof.
  unfold exited, life_ok. intros Hne Hx Hs.
  assert (∀ u t res, (u = Down ∨ t = Down → l_udp x = Down ∨ l_tcp x = Down ∨ res ≠ []) → Forall is_Some res →
    life_ok (set_servers u t (l_results x ++ res) x)) as Hservers.
  { intros u t res Hd Hr. unfold life_ok. cbn [l_main set_servers]. destruct (l_main x); try done. by apply servers_on_their_way. }
  unfold life_ok in Hservers. destruct Hs as [H|H|e H|e H|H|H]; [..|done|done].
  - rewrite <- (app_nil_r (l_results x)). apply Hservers; [naive_solver|constructor].
  - rewrite <- (app_nil_r (l_results x)). apply Hservers; [naive_solver|constructor].
  - apply Hservers; [naive_solver|by repeat constructor].
  - apply Hservers; [naive_solver|by repeat constructor].
Qed.

Lemma inner_ok x y : life_ok x → inner_step x y → life_ok y.
Proof.
  unfold life_ok. intros Hx [r rest H1 H2|r H1|e rest H1 H2|H|H|H]; cbn [l_main set_start set_main].
  - destruct (l_main x) as [| | | |[]]; try done. unfold on_its_way in *. rewrite H1, H2 in Hx. cbn [l_start set_start l_fatal].
    destruct Hx as ([Hr _]%Forall_cons & Hf & _). done.
  - unfold start_return. cbn [l_main set_start]. destruct (proxy_close_fields x) as (E1 & E2 & E3 & E4 & E5 & E6 & E7).
    rewrite E3. destruct (l_main x) as [| | | |[]]; cbn [l_watching l_synced set_start l_udp l_tcp]; rewrite ?E4, ?E5; try naive_solver.
    unfold on_its_way in *. rewrite H1 in Hx. cbn [l_start set_start l_fatal]. destruct Hx as [[e ->] Hf]. by rewrite E2, Hf.
  - done.
  - done.
  - rewrite H in Hx. done.
  - rewrite H in Hx. destruct (proxy_close_fields x) as (E1 & E2 & E3 & E4 & E5 & E6 & E7). cbv zeta.
    cbn [l_main set_main l_watching l_synced l_udp l_tcp]. rewrite E4, E5. naive_solver.
Qed.

Lemma reachable_ok x : rtc life_step life_start x → life_ok x.
Proof.
  assert (life_ok life_start) as H0 by (by cbn; repeat split; [constructor|naive_solver]).
  intros Hr. revert H0. induction Hr as [|x y z [Hne [Hs|Hs]] _ IH]; [done|..]; intros H0; apply IH;
    [by eapply outer_ok|by eapply inner_ok].
Qed.

Lemma ending_progress x : life_ok x → ending x = true → exited x = false → ∃ y, inner_step x y.
Proof.
  unfold life_ok, ending, exited. intros Hx He Hne. destruct (l_main x) eqn:Em; [|eexists; by constructor..|done].
  unfold on_its_way in Hx. destruct (l_start x) as [|r|r] eqn:Es.
  - destruct Hx as (_ & _ & Hres). destruct (l_results x) as [|r rest] eqn:Er; [|eexists; by eapply start_receives].
    exfalso. apply Hres; [|done]. revert He. destruct (l_udp x), (l_tcp x); naive_solver.
  - eexists. by eapply start_returns.
  - destruct (l_fatal x) as [|e rest] eqn:Ef; [done|]. eexists. by eapply main_fatal.
Qed.

Lemma inner_decreases x y : inner_step x y → (steps_left y < steps_left x)%nat.
Proof.
  unfold steps_left. destruct (proxy_close_fields x) as (E1 & E2 & E3 & _).
  intros [r rest H1 H2|r H1|e rest H1 H2|H|H|H]; cbn [l_start l_main set_start set_main start_return];
    rewrite ?E1, ?E3, ?H1, ?H; (lia || destruct (l_main x); lia).
Qed.

Lemma ending_stays x y : life_step x y → ending x = true → ending y = true.
Proof.
  intros [_ [Hs|Hs]]; unfold ending.
  - destruct Hs as [H|H|e H|e H|H|H]; cbn [l_main l_udp l_tcp set_servers set_main]; rewrite ?H; try done;
      by destruct (l_main x), (l_udp x), (l_tcp x).
  - destruct Hs as [r rest H1 H2|r H1|e rest H1 H2|H|H|H]; cbn [l_main l_udp l_tcp set_start set_main start_return]; try done.
    unfold proxy_close. by destruct (l_tcp x) eqn:E1, (l_udp x) eqn:E2; cbn; destruct (l_main x).
Qed.

(** ** Theorems *)

(** A process whose proxy has lost a server, or that was told to stop, ends: in
    every state on the way it can go on by itself, whatever the environment does,
    and it needs at most six steps of its own, which no step of the environment
    makes more.  When it ends regularly the watcher is cancelled, the
    synchronisation closed, and no server is up. *)
Theorem process_ends x :
  rtc life_step life_start x → ending x = true →
  (steps_left x ≤ 6)%nat ∧
  (exited x = false → ∃ y, inner_step x y) ∧
  (∀ y, life_step x y → ending y = true ∧ (steps_left y ≤ steps_left x)%nat) ∧
  (∀ y, inner_step x y → (steps_left y < steps_left x)%nat) ∧
  (l_main x = Exited 0 → l_watching x = false ∧ l_synced x = false ∧ l_udp x ≠ Up ∧ l_tcp x ≠ Up).
Proof.
  intros Hr%reachable_ok He. split; [|split; [|split; [|split]]].
  - unfold steps_left. destruct (l_start x), (l_main x); lia.
  - by apply ending_progress.
  - intros y Hs. split; [by eapply ending_stays|]. destruct Hs as [_ [Hs|Hs]]; [|by apply inner_decreases in Hs; lia].
    unfold steps_left. destruct Hs as [H|H|e H|e H|H|H]; cbn [l_start l_main set_servers set_main]; rewrite ?H; lia.
  - apply inner_decreases.
  - intros E. unfold life_ok in Hr. by rewrite E in Hr.
Qed.

(** The port is taken: the proxy fails, and the process ends by itself. *)
Lemma process_ends_witness :
  let x := set_servers Down NotYet [Some "bind: address already in use"] life_start in
  (steps_left x ≤ 6)%nat ∧ (∃ y, inner_step x y).
Proof.
  cbv zeta. set (x := set_servers _ _ _ _).
  destruct (process_ends x) as (H1 & H2 & _).
  - apply rtc_once. split; [reflexivity|]. left. apply (udp_fails life_start). discriminate.
  - reflexivity.
  - split; [exact H1|]. apply H2. reflexivity.
Defined.

(** [Start] closes the other server also when its goroutine has not begun: the
    library refuses, the error is ignored, and the server comes up afterwards. *)
Theorem late_server_survives_close :
  ∃ x y, rtc life_step life_start x ∧ l_start x = StartReturned (Some "udp") ∧ life_step x y ∧ l_tcp y = Up.
Proof.
  set (x0 := life_start). set (x1 := set_servers Down NotYet [Some "udp"] x0).
  set (x2 := set_start (HasResult (Some "udp")) [] [] x1). set (x3 := start_return (Some "udp") x2).
  exists x3, (set_servers Down Up [] x3). split; [|split; [reflexivity|]].
  - eapply rtc_l; [split; [reflexivity|]; left; by apply (udp_fails x0)|].
    eapply rtc_l; [split; [reflexivity|]; right; by eapply (start_receives x1)|].
    apply rtc_once. split; [reflexivity|]. right. by apply (start_returns x2).
  - split; [|reflexivity]. split; [reflexivity|]. left. by apply (tcp_up x3).
Qed.
