(* ===== verification/CompileTotal.v ===== *)
(** * Every run of the compiler returns

    Whatever the lists on the disk and the downloads contain, what the parser
    accepts is a prefix of a valid address, so the aggregation ends within its
    rounds and [CompileLists] comes to its end.  The command-line compiler
    ([cmd/nextpath-compiler/main.go]) runs it once. *)

From Stdlib Require Import Ascii.
From Stdlib Require String.
From stdpp Require Import prelude gmap strings sorting.
From S2P Require Import Prelude GoStrings GoText GoPath GoNet Nft Config Host Logger.
From S2P Require Import Filter Domains IPNets IPTrie IPNetFacts DenyFacts Updater Compile CompileFacts Replace CompileSteps.

#[local] Arguments String.append : simpl nomatch.

(** ** Lemmas: addresses that are read *)

Lemma parse4_go_length s : ∀ fields val digLen out,
  (length fields ≤ 3)%nat → parse4_go s fields val digLen = Some out → length out = 4%nat.
Proof.
  induction s as [|c s IH]; intros fields val digLen out Hf; cbn [parse4_go].
  - destruct (Nat.ltb_spec (length fields) 3); [done|]. intros [= <-]. rewrite length_app. cbn. lia.
  - destruct (is_digit c).
    + destruct (_ && _); [done|]. destruct (255 <? _); [done|]. by apply IH.
    + destruct (Ascii.eqb c "."); [|done]. destruct (_ || _); [done|].
      destruct (Nat.eqb_spec (length fields) 3); [done|]. apply IH. rewrite length_app. cbn. lia.
Qed.

Lemma parse4_length s b : parse4 s = Some b → length b = 4%nat.
Proof.
  unfold parse4. destruct (parse4_go s [] 0 0) as [fs|] eqn:E; [|done]. intros [= <-]. rewrite length_fmap.
  apply parse4_go_length in E; [done|cbn; lia].
Qed.

(** The loop never has more than eight groups. *)
Lemma parse6_loop_length n : ∀ s gs ell rest out ell',
  (n + length gs ≤ 8)%nat → parse6_loop n s gs ell = Some (rest, out, ell') → (length out ≤ 8)%nat.
Proof.
  induction n as [|n IH]; intros s gs ell rest out ell' Hn; cbn [parse6_loop].
  { intros [= _ <- _]. lia. }
  assert (∀ acc : Z, (n + length (gs ++ [acc]) ≤ 8)%nat) as Hn' by (intros acc; rewrite length_app; cbn; lia).
  destruct (hex_run s 0 0) as [[[off acc] r]|]; [|done]. cbn [mbind option_bind].
  destruct (off =? 0)%nat; [done|]. destruct r as [|c r].
  { intros [= _ <- _]. specialize (Hn' acc). lia. }
  destruct (Ascii.eqb c ".").
  - destruct (_ && _); [done|]. destruct (Nat.ltb_spec 8 (length gs + 2)); [done|].
    destruct (parse4 s) as [b4|] eqn:E4; [|done]. intros [= _ <- _]. apply parse4_length in E4.
    do 4 (destruct b4; [done|]). destruct b4; [|done]. rewrite length_app. cbn. lia.
  - destruct (Ascii.eqb c ":"); [|done]. destruct r as [|c2 r2]; [done|]. destruct (Ascii.eqb c2 ":").
    + destruct ell; [done|]. destruct r2; [intros [= _ <- _]; specialize (Hn' acc); lia|]. by apply IH.
    + by apply IH.
Qed.

Lemma expand_groups_length r gs : (length r.1.2 ≤ 8)%nat → expand_groups r = Some gs → length gs = 8%nat.
Proof.
  destruct r as [[s l] ell]. cbn [fst snd expand_groups]. intros Hl. destruct s; [|done].
  destruct (Nat.ltb_spec (length l) 8).
  - destruct ell as [e|]; [|done]. intros [= <-]. rewrite !length_app, length_take, length_drop, length_replicate. lia.
  - destruct ell; [done|]. intros [= <-]. lia.
Qed.

Lemma parse6_length s gs : parse6_groups s = Some gs → length gs = 8%nat.
Proof.
  assert (∀ n t ell, (n ≤ 8)%nat → parse6_loop n t [] ell ≫= expand_groups = Some gs → length gs = 8%nat) as Hloop.
  { intros n t ell Hn. destruct (parse6_loop n t [] ell) as [[[rest out] ell']|] eqn:E; [|done].
    apply expand_groups_length. cbn [fst snd]. eapply parse6_loop_length; [|exact E]. cbn. lia. }
  unfold parse6_groups. destruct s as [|c1 [|c2 rest]]; try (apply Hloop; lia). destruct (_ && _); [|apply Hloop; lia].
  destruct rest; [|apply Hloop; lia]. by intros [= <-].
Qed.

Lemma length_bytes_bits l : length (bytes_bits l) = (8 * length l)%nat.
Proof.
  induction l as [|b l IH]; [done|]. change (bytes_bits (b :: l)) with (byte_bits b ++ bytes_bits l).
  rewrite length_app, IH, length_byte_bits. cbn. lia.
Qed.

Lemma length_group_bytes gs : length (group_bytes gs) = (2 * length gs)%nat.
Proof. unfold group_bytes. induction gs as [|g gs IH]; [done|]. cbn in *. lia. Qed.

(** ** Lemmas: the prefixes of a list *)

Lemma ParsePrefix_ok s p : ParsePrefix s = Some p → prefix_ok p.
Proof.
  unfold ParsePrefix. destruct (last_slash s) as [[a b]|]; [|done]. cbn [mbind option_bind].
  destruct (ParseAddr a) as [ip|] eqn:Ea; [|done]. cbn [mbind option_bind].
  assert (match ip with Addr4 l => length l = 4%nat | Addr6 l _ => length l = 16%nat end) as Hl.
  { unfold ParseAddr in Ea. destruct (addr_family a) as [c|]; [|done]. destruct (Ascii.eqb c ".").
    - destruct (parse4 a) as [l|] eqn:E4; [|done]. injection Ea as <-. by apply parse4_length in E4.
    - destruct (Ascii.eqb c ":"); [|done]. destruct (cut_zone a) as [[x z]|]; [|done]. cbn [mbind option_bind] in Ea.
      destruct (parse6_groups x) as [gs|] eqn:E6; [|done]. injection Ea as <-. apply parse6_length in E6.
      rewrite length_group_bytes. lia. }
  destruct (match b with EmptyString => _ | String _ _ => _ end) as [n|]; [|done]. cbn [mbind option_bind].
  destruct ip as [l|l [|? ?]]; [| |done]; case_match eqn:En; try done; intros [= <-];
    apply andb_true_iff in En as [?%Z.leb_le ?%Z.leb_le]; split; cbn [addr Is6 Bits width]; rewrite ?length_bytes_bits; lia.
Qed.

Lemma parseIPFile_ok lines : Forall prefix_ok (parseIPFile lines).
Proof.
  apply Forall_forall. intros p (line & _ & E)%list_elem_of_omap. unfold parse_ip_line in E.
  destruct (line_content line); [|done]. by apply ParsePrefix_ok in E.
Qed.

Lemma loadIPs_ok manual downloaded : Forall prefix_ok (loadIPs manual downloaded).
Proof.
  unfold loadIPs. apply Forall_app. split; [apply parseIPFile_ok|]. apply Forall_concat, Forall_fmap, Forall_true.
  intros l. apply parseIPFile_ok.
Qed.

(** ** The command-line compiler *)

(** The directories a run makes first; [mkdir] gives the error, if any. *)
Definition make_dirs (mkdir : string → option string) (cfg : CompileConfig) : option string :=
  match mkdir (ResultDir cfg) with Some err => Some err | None => mkdir (downloadDir cfg) end.

(** How [main] ends: the exit code, the disk and the lines it has printed
    itself. *)
Record Exit := mkExit { ex_code : Z; ex_disk : Store; ex_log : Logger }.

Section Cli.
Context (sha256_hex md5_hex : string → string) (gunzip : string → option string).
Context (uni_lower : string → string) (idna_ToASCII : string → option string).
Context `{IPSetLib}.

(** [main]; [t] is the time of day of its lines, [took] the text of the run's
    duration.  [None] would be a run that does not return. *)
Definition cli_main (uni : string → string) (env : Env) (mkdir : string → option string) (w : World) (t took : string)
    (fs : Store) : option Exit :=
  let log := Init (cli_getEnvBool uni env "DEBUG" false) (mkLogger false []) in
  let log := Info t "COMPILER-CLI" "Starting list compilation..." log in
  let cfg := cli_config uni env in
  match make_dirs mkdir cfg with
  | Some err => Some (mkExit 1 fs (Error t "COMPILER-CLI" ("Critical Error: " +:+ err) log))
  | None =>
      fs' ← CompileLists sha256_hex md5_hex gunzip uni_lower idna_ToASCII w (getenv env) cfg fs;
      Some (mkExit 0 fs' (Info t "COMPILER-CLI" ("Successfully compiled lists in " +:+ took +:+ "!") log))
  end.

(** ** Lemmas: runs *)

Context `{!IPSetLaws}.

Lemma compile_family_ends limit inc exc deny isV6 :
  Forall prefix_ok inc → is_Some (compile_family limit inc exc deny isV6).
Proof.
  intros Hi. unfold compile_family.
  destruct (aggregate_spec isV6 limit (filterIPNets inc isV6 true)) as (out & -> & _); [|by eexists].
  apply Forall_forall. intros p (Hp & Hv & _)%filterIPNets_in. split; [by eapply Forall_forall in Hp|done].
Qed.

Lemma compileIPs_ends limit inc exc deny : Forall prefix_ok inc → is_Some (compileIPs limit inc exc deny).
Proof.
  intros Hi. unfold compileIPs. destruct (compile_family_ends limit inc exc deny false Hi) as [r4 ->].
  destruct (compile_family_ends limit inc exc deny true Hi) as [r6 ->]. by eexists.
Qed.

Lemma ip_outputs_ends cfg fs : is_Some (ip_outputs md5_hex cfg fs).
Proof.
  unfold ip_outputs. destruct (compileIPs_ends (Limit cfg) (load_ips md5_hex cfg fs "include-ips")
    (load_ips md5_hex cfg fs "exclude-ips") (load_ips md5_hex cfg fs "deny-ips")) as [r ->]; [apply loadIPs_ok|].
  cbn. repeat case_match. by eexists.
Qed.

Lemma CompileLists_returns w env cfg fs :
  is_Some (CompileLists sha256_hex md5_hex gunzip uni_lower idna_ToASCII w env cfg fs).
Proof.
  unfold CompileLists, compile_ips. cbv zeta. destruct (needed _ _ _ IPs); [|cbn [mbind option_bind]; by eexists].
  destruct (ip_outputs_ends (with_limit cfg)
    (foldl (ensure_list md5_hex w (with_limit cfg)) (downloadSources md5_hex w (with_limit cfg) fs) ip_lists)) as [outs ->].
  cbn [mbind option_bind]. by eexists.
Qed.

Lemma compile_states_returns w r env cfg fs :
  is_Some (compile_states sha256_hex md5_hex gunzip uni_lower idna_ToASCII w r env cfg fs).
Proof.
  unfold compile_states, ips_states. cbv zeta. destruct (needed _ _ _ IPs); [|cbn [mbind option_bind]; by eexists].
  destruct (ip_outputs_ends (with_limit cfg)
    (foldl (ensure_list md5_hex w (with_limit cfg)) (downloadSources md5_hex w (with_limit cfg) fs) ip_lists)) as [outs ->].
  cbn [mbind option_bind]. by eexists.
Qed.

(** ** Lemmas: what is on the disk afterwards *)

(** The hash function returns hexadecimal digits. *)
Context (md5_ok : ∀ s, contains_char (md5_hex s) "/" = false).

Definition present (fs : Store) (p : string) : Prop := is_Some (fs !! p).

Lemma write_present w cfg fs out p : present fs p → present (write_result w cfg fs out) p.
Proof.
  intros Hp. unfold write_result. destruct (fault w _); [done|]. unfold present. rewrite lookup_insert_is_Some'. by right.
Qed.

Lemma writes_present w cfg outs p : ∀ fs, present fs p → present (foldl (write_result w cfg) fs outs) p.
Proof. induction outs as [|o outs IH]; intros fs Hp; cbn [foldl]; [done|]. by apply IH, write_present. Qed.

Lemma written_present w cfg outs name fs :
  name ∈ outs.*1 → fault w (result_path cfg name) = false → present (foldl (write_result w cfg) fs outs) (result_path cfg name).
Proof.
  revert fs. induction outs as [|[n x] outs IH]; intros fs Hn Hf; [by apply elem_of_nil in Hn|]. cbn [foldl].
  apply elem_of_cons in Hn as [->|Hn]; [|by apply IH]. apply writes_present. unfold write_result. cbn [fst snd] in *.
  rewrite Hf. unfold present. by rewrite lookup_insert_eq.
Qed.

Lemma ensured_present w cfg names fs p :
  has_suffix p ".meta" = false → present fs p → present (foldl (ensure_list md5_hex w cfg) fs names) p.
Proof. intros Hp [f Hf]. exists f. by apply (ensure_retried md5_hex md5_ok w cfg names fs). Qed.

Lemma list_not_meta cfg t name :
  name ∈ required t ∨ name ∈ ip_files → has_suffix (result_path cfg name) ".meta" = false.
Proof.
  intros Hn. assert (proper_name name = true ∧ hd_error (rev (chars name)) ≠ Some "a"%char) as [Hp Ha].
  { destruct t; unfold required, ip_files in Hn; set_unfold in Hn; destruct_or!; subst; try done. }
  unfold result_path. destruct (Join_name (ResultDir cfg)) as [u Hu]. apply proper_name_ok in Hp.
  rewrite Hu by done. apply has_suffix_last; try done; try apply Hp; cbn; congruence.
Qed.

(** What readers need is there when a run has ended, as far as it could be
    written. *)
Lemma CompileLists_present w env cfg fs fs' t name :
  CompileLists sha256_hex md5_hex gunzip uni_lower idna_ToASCII w env cfg fs = Some fs' →
  name ∈ required t → fault w (result_path cfg name) = false → present fs' (result_path cfg name).
Proof.
  intros Hc Hn Hf. change (result_path cfg name) with (result_path (with_limit cfg) name) in *. unfold CompileLists in Hc.
  set (cfg' := with_limit cfg) in *. set (fs0 := downloadSources md5_hex w cfg' fs) in *.
  assert (∀ h, needed cfg' fs0 h t = false → present fs0 (result_path cfg' name)) as Hold.
  { intros h. unfold needed. rewrite !orb_false_iff. intros [_ He]. apply not_true_iff_false in He.
    unfold present. destruct (fs0 !! result_path cfg' name) eqn:E; [by eexists|]. exfalso. apply He, existsb_exists.
    exists name. split; [by apply list_elem_of_In|]. unfold fileExists. by rewrite E. }
  assert (has_suffix (result_path cfg' name) ".meta" = false) as Hm
    by (apply (list_not_meta cfg' t); by left).
  assert (∀ s, present s (result_path cfg' name) →
    present (compile_domains md5_hex gunzip uni_lower idna_ToASCII w cfg' s) (result_path cfg' name)) as Hdom.
  { intros s Hs. by apply writes_present, ensured_present. }
  set (hi := getStateHash _ _ _ _ IPs) in *. set (hd := getStateHash _ _ _ _ Domains_) in *.
  destruct (if needed cfg' fs0 hi IPs then _ else _) as [fs1|] eqn:E1; [|done].
  apply (inj Some) in Hc. subst fs'.
  assert (present (if needed cfg' fs0 hd Domains_
    then compile_domains md5_hex gunzip uni_lower idna_ToASCII w cfg' fs1 else fs1) (result_path cfg' name)) as Hp;
    [|repeat case_match; auto using write_present].
  assert (present fs0 (result_path cfg' name) → present fs1 (result_path cfg' name)) as Hkeep.
  { destruct (needed cfg' fs0 hi IPs); [|by injection E1 as ->]. unfold compile_ips in E1. intros Hs.
    destruct (ip_outputs _ _ _) as [outs|]; [|done]. apply (inj Some) in E1 as <-. by apply writes_present, ensured_present. }
  destruct t.
  - assert (present fs1 (result_path cfg' name)) as H1; [|by destruct (needed cfg' fs0 hd Domains_); auto].
    destruct (needed cfg' fs0 hi IPs) eqn:En; [|by eauto]. unfold compile_ips in E1.
    destruct (ip_outputs _ _ _) as [outs|] eqn:Eo; [|done]. apply (inj Some) in E1 as <-. apply ip_outputs_names in Eo.
    apply written_present; [|done]. rewrite Eo. unfold required in Hn. unfold ip_files. set_solver.
  - destruct (needed cfg' fs0 hd Domains_) eqn:En; [|by eauto]. apply written_present; [|done].
    by rewrite domain_outputs_names.
Qed.

(** A run that compiles the IP lists writes the deny lists too. *)
Lemma CompileLists_ips_present w env cfg fs fs' name :
  let fs0 := downloadSources md5_hex w (with_limit cfg) fs in
  CompileLists sha256_hex md5_hex gunzip uni_lower idna_ToASCII w env cfg fs = Some fs' →
  needed (with_limit cfg) fs0 (getStateHash sha256_hex env (with_limit cfg) fs0 IPs) IPs = true →
  name ∈ ip_files → fault w (result_path cfg name) = false → present fs' (result_path cfg name).
Proof.
  intros fs0 Hc Hneed Hn Hf. change (result_path cfg name) with (result_path (with_limit cfg) name) in *.
  unfold CompileLists in Hc. fold fs0 in Hc. set (cfg' := with_limit cfg) in *. rewrite Hneed in Hc. clearbody fs0.
  destruct (compile_ips md5_hex w cfg' fs0) as [fs1|] eqn:E1; [|done]. cbn [mbind option_bind] in Hc.
  apply (inj Some) in Hc. subst fs'.
  assert (present fs1 (result_path cfg' name)) as H1.
  { unfold compile_ips in E1. destruct (ip_outputs _ _ _) as [outs|] eqn:Eo; [|done]. apply (inj Some) in E1 as <-.
    apply ip_outputs_names in Eo. apply written_present; [|done]. by rewrite Eo. }
  assert (has_suffix (result_path cfg' name) ".meta" = false) as Hm by (apply (list_not_meta cfg' IPs); by right).
  assert (∀ s, present s (result_path cfg' name) →
    present (compile_domains md5_hex gunzip uni_lower idna_ToASCII w cfg' s) (result_path cfg' name)) as Hdom.
  { intros s Hs. by apply writes_present, ensured_present. }
  repeat case_match; auto using write_present.
Qed.

(** ** Properties *)

(** C36: the compiler always comes to an end.  Whatever the environment, the lists
    on the disk and what the servers send, the command-line compiler returns; it
    exits with 0 exactly when its two directories could be made, and otherwise
    leaves the disk alone.  After an exit with 0 the four zones and the two lists
    of routes are on the disk and, if the run compiled the IP lists, so are the
    two deny lists, those apart that could not be written.  (A deny list that is
    missing does not make the compiler write it: [missing_deny_list_stays].)  Nor
    can a run of the compiler inside the engine fail to return. *)
Theorem compiler_returns uni env mkdir w t took fs :
  let cfg := cli_config uni env in
  let fs0 := downloadSources md5_hex w (with_limit cfg) fs in
  ∃ x, cli_main uni env mkdir w t took fs = Some x ∧
    (ex_code x = 0 ↔ make_dirs mkdir cfg = None) ∧
    (ex_code x ≠ 0 → ex_disk x = fs) ∧
    (ex_code x = 0 → ∀ name, fault w (result_path cfg name) = false →
       name ∈ ["proxy.rpz"; "adblock.rpz"; "deny.rpz"; "deny2.rpz"; "route-ips-v4.txt"; "route-ips-v6.txt"] ∨
       (name ∈ ["deny-ips-v4.txt"; "deny-ips-v6.txt"] ∧
        needed (with_limit cfg) fs0 (getStateHash sha256_hex (getenv env) (with_limit cfg) fs0 IPs) IPs = true) →
       present (ex_disk x) (result_path cfg name)) ∧
    ∀ r cfg', is_Some (compile_states sha256_hex md5_hex gunzip uni_lower idna_ToASCII w r (getenv env) cfg' fs).
Proof.
  intros cfg fs0.
  assert (∀ r cfg', is_Some (compile_states sha256_hex md5_hex gunzip uni_lower idna_ToASCII w r (getenv env) cfg' fs)) as Hs
    by (intros; apply compile_states_returns).
  unfold cli_main. cbv zeta. fold cfg. destruct (make_dirs mkdir cfg) as [err|].
  - eexists. split; [done|]. cbn [ex_code ex_disk]. split_and!; done.
  - destruct (CompileLists_returns w (getenv env) cfg fs) as [fs' E]. rewrite E.
    eexists. split; [done|]. cbn [ex_code ex_disk]. split_and!; [done..| |done].
    intros _ name Hf [Hn|[Hn Hneed]].
    + assert (∃ ft, name ∈ required ft) as [ft Hft].
      { set_unfold in Hn. destruct_or!; subst; [exists Domains_..|exists IPs|exists IPs]; unfold required; set_solver. }
      by eapply CompileLists_present.
    + eapply CompileLists_ips_present; [exact E|exact Hneed| |done]. unfold ip_files. set_solver.
Qed.
End Cli.

(** ** Witness: a list with both families, on a disk that takes every write *)

Definition cli_env : Env := λ key,
  if bool_decide (key = "SOURCES_DIR") then Some "/s" else if bool_decide (key = "MANUAL_DIR") then Some "/m"
  else if bool_decide (key = "RESULT_DIR") then Some "/r" else if bool_decide (key = "DOWNLOAD_DIR") then Some "/d" else None.

Definition cli_world : World := demo_world (lines_of ["9.9.9.9"]) None 2.

Definition cli_run : option Exit :=
  cli_main demo_sha demo_md5 (λ _, None) id Some id cli_env (λ _, None) cli_world "12:00:00" "1s" (demo_store both_families).

Lemma compiler_returns_witness :
  ∃ x, cli_run = Some x ∧ ex_code x = 0 ∧ present (ex_disk x) "/r/proxy.rpz" ∧ present (ex_disk x) "/r/deny-ips-v4.txt".
Proof.
  destruct (compiler_returns demo_sha demo_md5 (λ _, None) id Some demo_md5_ok id cli_env (λ _, None) cli_world "12:00:00" "1s"
    (demo_store both_families)) as (x & Ex & [_ H0] & _ & Hp & _).
  exists x. split; [exact Ex|]. specialize (H0 eq_refl). specialize (Hp H0). split; [exact H0|]. split.
  - apply (Hp "proxy.rpz"); [reflexivity|]. left. left.
  - apply (Hp "deny-ips-v4.txt"); [reflexivity|]. right. split; [left|vm_compute; reflexivity].
Defined.

(** The compiler looks whether the lists of routes exist, not whether the deny
    lists do: one that is missing is not written again while the fingerprint
    stays the same, and the engine then denies nothing. *)
Theorem missing_deny_list_stays :
  let fs := delete "/r/deny-ips-v4.txt" first_run in
  ∃ fs', demo_run (demo_world (lines_of ["1.2.3.0/24"]) None 2000000000) fs = Some fs' ∧
    fs' !! "/r/deny-ips-v4.txt" = None ∧ getDenyElements (content <$> fs' !! "/r/deny-ips-v4.txt") = EmptyString.
Proof. eexists. split; [vm_compute; reflexivity|]. vm_compute. done. Qed.
