(* ===== verification/Report.v ===== *)
(** * The report of a compilation ([CompileLists] of [internal/parser/compiler.go])

    What a run tells the operator when it is done: how many entries came in, were
    left out, and are in the compiled lists.  The numbers are counted from the
    same lists the run compiles. *)

From Stdlib Require Import Ascii.
From Stdlib Require String.
From stdpp Require Import prelude gmap strings sorting.
From S2P Require Import Prelude GoStrings GoText GoPath Filter GoNet GoNetFacts Domains IPNets IPTrie IPNetFacts Updater Compile DenyFacts.

#[local] Arguments String.append : simpl nomatch.

Definition count {A} (l : list A) : Z := Z.of_nat (length l).

(** The counters [CompileLists] fills for the zones. *)
Record ProxyStats := mkProxyStats { proxyIncluded : Z; proxyFiltered : Z; proxyExcluded : Z; proxyResult : Z }.

Record AdblockStats := mkAdblockStats {
  adRaw : Z; adFiltered : Z; adExcluded : Z; adIntExCount : Z; adResult : Z;
}.

Record DomainStats := mkDomainStats { of_proxy : ProxyStats; of_adblock : AdblockStats; globalRemove : Z }.

Section Stats.
Context (uni_lower : string → string).

(** [casP] are the domains the casino filter took out. *)
Definition proxy_stats (hpr exPOnly exG : list DomainRule) (casP : list string) : ProxyStats :=
  let pInc := set_of (Domain <$> filter (λ r, Is_true (negb (IsEx r))) hpr) in
  let pExcRaw := set_of ((Domain <$> exG) ++ (Domain <$> exPOnly) ++ (Domain <$> filter (λ r, Is_true (IsEx r)) hpr)) in
  mkProxyStats (Z.of_nat (size pInc)) (Z.of_nat (size (set_of casP))) (Z.of_nat (size pExcRaw))
    (count (compile_proxy uni_lower hpr exPOnly exG).1).

Definition adblock_stats (har hae exG : list DomainRule) : AdblockStats :=
  let extLookup := set_of (Domain <$> hae) in
  let adExcExt := set_of (Domain <$> filter (λ r, IsEx r = true ∧ Domain r ∈ extLookup) (har ++ hae)) in
  let adIntEx := set_of (Domain <$> filter (λ r, IsEx r = true ∧ Domain r ∉ extLookup) (har ++ hae)) in
  let adFinal := (compile_adblock har hae exG).1 in
  let raw := count har in
  let excluded := Z.of_nat (size adExcExt) in
  let internal := Z.of_nat (size adIntEx) in
  let filtered := raw - count adFinal - excluded - internal in
  mkAdblockStats raw (if filtered <? 0 then 0 else filtered) excluded internal (count adFinal).

Definition domain_stats (hpr har hae exPOnly exG : list DomainRule) (casP : list string) : DomainStats :=
  mkDomainStats (proxy_stats hpr exPOnly exG casP) (adblock_stats har hae exG) (count exG).
End Stats.

(** ** The lines *)

Definition double_rule : string := "=============================================".
Definition single_rule : string := "---------------------------------------------".

Definition ip_report (s4 s6 : IPCompileResult) : list string :=
  let routes (s : IPCompileResult) :=
    ["   Included:     " +:+ itoa (RawRoutes s); "   Excluded:     " +:+ itoa (ExcRoutes s);
     "   Result:       " +:+ itoa (AggrRoutes s)] in
  let denied (s : IPCompileResult) :=
    ["   Included:     " +:+ itoa (RawDeny s); "   Result:       " +:+ itoa (AggrDeny s)] in
  [double_rule; " IPv4 Routes:"] ++ routes s4 ++ [single_rule; " IPv6 Routes:"] ++ routes s6
  ++ [single_rule; " IPv4 Deny:"] ++ denied s4 ++ [single_rule; " IPv6 Deny:"] ++ denied s6 ++ [double_rule].

Definition domain_report (s : DomainStats) : list string :=
  let p := of_proxy s in
  let a := of_adblock s in
  [double_rule; " Proxy:"; "   Included:     " +:+ itoa (proxyIncluded p); "   Filtered:     " +:+ itoa (proxyFiltered p);
   "   Excluded:     " +:+ itoa (proxyExcluded p); "   Result:       " +:+ itoa (proxyResult p);
   single_rule; " AdBlock:"; "   Included:     " +:+ itoa (adRaw a); "   Filtered:     " +:+ itoa (adFiltered a);
   "   Excluded:     " +:+ itoa (adExcluded a); "   Internal Ex:  " +:+ itoa (adIntExCount a);
   "   Result:       " +:+ itoa (adResult a); single_rule; " Global Remove:  " +:+ itoa (globalRemove s); double_rule].

Section Report.
Context (md5_hex : string → string) (gunzip : string → option string).
Context (uni_lower : string → string) (idna_ToASCII : string → option string).
Context `{IPSetLib}.

(** The counters of the lists in a store. *)
Definition ips_of (cfg : CompileConfig) (fs : Store) : option (IPCompileResult * IPCompileResult) :=
  '((_, _, s4), (_, _, s6)) ←
    compileIPs (Limit cfg) (load_ips md5_hex cfg fs "include-ips") (load_ips md5_hex cfg fs "exclude-ips")
      (load_ips md5_hex cfg fs "deny-ips");
  Some (s4, s6).

Definition domains_of (cfg : CompileConfig) (fs : Store) : DomainStats :=
  let load := load_domains md5_hex gunzip uni_lower idna_ToASCII cfg fs in
  let ads (name : string) := if BlockAds cfg then load name false else fr_empty in
  let hpr := load "include-hosts" (FilterCasino cfg) in
  domain_stats uni_lower (fr_rules hpr) (fr_rules (ads "include-adblock-hosts")) (fr_rules (ads "exclude-adblock-hosts"))
    (fr_rules (load "exclude-hosts" false)) (fr_rules (load "remove-hosts" false)) (fr_cas hpr).

(** The messages at the end of a run, with their phases; [took] is the text of
    its duration; [None] marks a half of the lists that was not compiled. *)
Definition compile_report (took : string) (ips : option (IPCompileResult * IPCompileResult)) (domains : option DomainStats)
    : list (string * string) :=
  match ips, domains with
  | None, None => [("COMPILER", "Compilation tasks finished (no changes detected)")]
  | _, _ => [("COMPILER", "Compilation tasks finished in " +:+ took +:+ "!")]
  end
  ++ match ips with Some (s4, s6) => pair "ENGINE" <$> ip_report s4 s6 | None => [] end
  ++ match domains with Some s => pair "ENGINE" <$> domain_report s | None => [] end.

(** The lines of a text that ends in a newline. *)
Definition lines_in (text : string) : Z := count (split_char (char 10) text) - 1.

(** ** Theorems *)

Lemma lines_written nets : Forall (λ p, prefix_ok p ∧ native p) nets → lines_in (writeIPFile nets) = count nets.
Proof. intros Hn. unfold lines_in, count. rewrite split_written by done. rewrite length_app, length_fmap. cbn. lia. Qed.

(** Of the networks in the lists, the report names as results exactly those that
    stand in the written files: the four counts are the numbers of lines of the
    four files. *)
Theorem report_counts_lines cfg fs outs s4 s6 :
  ip_outputs md5_hex cfg fs = Some outs → ips_of cfg fs = Some (s4, s6) →
  (∀ d4 r4 t4 d6 r6 t6,
     compileIPs (Limit cfg) (load_ips md5_hex cfg fs "include-ips") (load_ips md5_hex cfg fs "exclude-ips")
       (load_ips md5_hex cfg fs "deny-ips") = Some ((d4, r4, t4), (d6, r6, t6)) →
     Forall (λ p, prefix_ok p ∧ native p) (d4 ++ r4 ++ d6 ++ r6)) →
  lines_in <$> outs.*2 = [AggrDeny s4; AggrRoutes s4; AggrDeny s6; AggrRoutes s6].
Proof.
  unfold ip_outputs, ips_of. destruct (compileIPs _ _ _ _) as [[[[d4 r4] t4] [[d6 r6] t6]]|] eqn:E; [|done].
  intros [= <-] [= <- <-] Hok. specialize (Hok _ _ _ _ _ _ eq_refl). rewrite !Forall_app in Hok.
  destruct Hok as (H1 & H2 & H3 & H4). cbn [fmap list_fmap snd]. rewrite !lines_written by done.
  revert E. unfold compileIPs, compile_family. destruct (aggregatePrefixes _ _ false); [|done].
  destruct (aggregatePrefixes _ _ true); [|done]. cbn. by intros [= <- <- <- <- <- <-].
Qed.

End Report.

(** The figures for adblock never exceed what came in, and add up whenever the
    results and exceptions are no more than the rules of the include list. *)
Theorem adblock_figures_add_up har hae exG :
  let s := adblock_stats har hae exG in
  0 ≤ adFiltered s ≤ adRaw s ∧
  (adResult s + adExcluded s + adIntExCount s ≤ adRaw s →
   adRaw s = adResult s + adFiltered s + adExcluded s + adIntExCount s).
Proof.
  cbn zeta. unfold adblock_stats. cbn [adFiltered adRaw adResult adExcluded adIntExCount]. unfold count.
  case_match; lia.
Qed.

(** An exception that only the exclude list has is counted as excluded though it
    never came in: the figures do not add up. *)
Theorem foreign_exception_counted :
  let s := adblock_stats [] [mkRule "ads.example" true] [] in
  (adRaw s, adFiltered s, adExcluded s, adResult s) = (0, 0, 1, 0).
Proof. vm_compute. reflexivity. Qed.
